(* ===== verification/_CoqProject ===== *)
-Q . S2P
Prelude.v
Text.v
GraphToggle.v
GraphPage.v
GraphToggleCorrect.v
GraphToggleSpec.v
ManaCost.v
FlexSolver.v
Demand.v
ManaPayment.v
PlanCorrect.v
DemandLabel.v
Commander.v
Candidates.v
Proposals.v
CommitCorrect.v
Blocking.v
BlockingCorrect.v
Attacking.v
CombatDamage.v
CombatDamageCorrect.v
Automation.v
Opening.v
OpeningCards.v
OpeningCorrect.v
OpeningSpec.v
Rng.v
CardZone.v
CardZoneCorrect.v
DeckTree.v
DeckTreeCorrect.v
DeckOrder.v
DeckFile.v
DeckList.v
DeckListCorrect.v
Regex.v
PlainText.v
PlainTextCorrect.v
PlainTextSafe.v
DeckCache.v
RawJson.v
RawJsonCorrect.v
Levenshtein.v
RateLimiter.v
TranslationLoader.v
AttemptLimiter.v
LoginThrottle.v
