(* ===== verification/Prelude.v ===== *)
(** * A verification development of Cockatrice

    Cockatrice is a client and a server for card games (C++ and Qt, under
    [src/cockatrice], [src/servatrice] and the [src/libcockatrice_*]
    libraries) with a rules engine, tricerules (Rust, under [src/tricerules]),
    an importer of card data ([src/oracle]) and documentation pages
    ([src/doc]), whose one script is JavaScript. The [.ts] files of the
    repository are Qt translation catalogues, data and not code.

    ** The parts and their files

    Documentation. The script of the generated pages finds the call graph and
    the caller graph of every member and adds buttons that show and hide them.
    - [GraphToggle]: [doc/doxygen/js/graph_toggle.js], all of it, over a page
      that is a store of elements with the DOM operations the script calls. The
      set-up of a member is [setup_memdoc], the listeners are [click], the
      variables they share a [Closure].
    - [GraphPage]: well-formed pages and what the DOM operations do to them.
    - [GraphToggleCorrect]: the lemmas on headers, set-up and clicks;
      [GraphToggleSpec]: the theorems.

    Rules engine, mana payment. A cost is read, the announced branches of its
    flexible symbols are checked, a plan is searched for in the player's pool,
    shown, rechecked when it is used, rebased when an earlier action is undone,
    and committed.
    - [ManaCost]: [tricerules-card-model/src/mana.rs], the brace syntax of
      costs: parser, printer, mana value, colours.
    - [FlexSolver]: the two backtracking solvers of
      [tricerules-core/src/engine/payment/mana.rs].
    - [Demand]: [engine/payment/demand.rs], the demands a cost stands for and
      their payment with creatures and exact mana.
    - [ManaPayment]: the plans of [engine/payment/mana.rs] and the life changes
      of [engine/history.rs], as functions on the part of the game state they
      use ([GameState]: players with their pools, restricted mana and life, and
      the life record of the turn).
    - [PlanCorrect] and [CommitCorrect]: the theorems on planning and on
      recheck, rebase and commit.
    - [DemandLabel]: the text a demand is shown as ([Demand::label]).
    - [Candidates]: [engine/payment/candidates.rs], the bounded lists of proposals
      from which the engine learns whether an action can be paid at all;
      [Proposals]: what they miss of the plans, which is nothing below the bound.
    - [Commander]: [engine/commander.rs] with the places of [casting.rs] and
      [state_based.rs] that count casts and look at the damage, over the part of a
      player they use ([CommanderPlayer]).

    Rules engine, combat. Attackers and blocks are declared as a whole, against
    restrictions and requirements; the attacking player then splits the damage.
    - [Blocking]: [engine/combat/blocking.rs], the search for the most
      requirements a set of blocks can obey ([solve], [visit] with its memo table
      passed along), the blocks offered ([analyze]), and the check of
      [set_blockers] in [engine/combat.rs] ([check_blocks]). [BlockingCorrect]:
      legal declarations and the theorems.
    - [Attacking]: [engine/combat/attacking.rs], the limits on attackers, and the
      check of [set_attackers], with its theorem.
    - [CombatDamage]: the assignment of damage in [engine/combat.rs] and
      [engine/priority.rs] on the combat state ([Combat]); the characteristics of
      the creatures are a map. [CombatDamageCorrect]: the runs from the block
      declaration to the damage step ([run]), with repeated splits and amounts that
      overflow kept apart, their invariant, and where a split
      goes wrong.

    Rules engine, the opening of a game. A command changes the game and may then
    still be refused, so it is a function to an answer and the state it leaves.
    - [Automation]: [engine/automation.rs], the preferences of a player and what
      updates and accepted commands make of them before the first turn.
    - [Opening]: [engine/opening.rs], with the new game of [engine/mod.rs], the
      concession of [engine/priority.rs] and the movement of cards of
      [engine/resolution] it uses, on the part of the game state it uses ([Game]).
      [apply_command] is the entry of a command, [apply_gameplay_command] tells those of
      automation from the others, [apply_opening_command] has the cases.
    - [OpeningCards]: rules for commands ([wp]) and what each movement of cards
      changes; [OpeningCorrect]: the invariant ([opening_ok]), what is left to do
      ([to_do]), and that every command keeps the one and lessens the other, but for updates of
      preferences, which leave both;
      [OpeningSpec]: new games, runs of accepted commands ([run]) and the theorems.

    Server.
    - [Rng]: [libcockatrice_rng/.../rng_sfmt.cpp], rejection sampling, and the
      interface [RandomSource] of its clients.
    - [CardZone], [CardZoneCorrect]: [server_cardzone.cpp], the card list and
      the grid of a zone; shuffling is proved against [RandomSource].
    - [AttemptLimiter]: [servatrice/src/ratelimiter.cpp], the sliding-window
      limiter, and the interface [Limiter] with two instances, the code and the
      log of all accepted attempts it stands for.
    - [LoginThrottle]: its client, the keys and settings of [servatrice.cpp],
      [cmdLogin] of [server_protocolhandler.cpp] and the limits in
      [serversocketinterface.cpp]. A handler is a [program] of queries to the
      limiter, the clock and the authentication; the server runs one query of one
      connection at a time, in any interleaving ([serve]).

    Decks, under [libcockatrice_deck_list/.../deck_list].
    - [DeckTree]: [deck_list_node_tree.cpp] and [tree/], the tree of boards,
      custom zones and cards with all its operations, the deck hash, and the
      tree's part of the deck file. [DeckTreeCorrect]: its invariants over every
      way to build a tree ([built]): operations, files, copies, assignments. [DeckOrder]: the order of the comparators, sorting,
      the hash. [DeckFile]: zones and commanders written and read back.
    - [DeckList]: [deck_list.cpp], [sideboard_plan.cpp] and
      [deck_list_history_manager.cpp], the deck with metadata and sideboard plans,
      its native form, the undo history; built on [DeckTree].
      [DeckListCorrect]: the native form read back, the history as a timeline;
      [DeckCache]: the cached hash.
    - [PlainText]: [deck_list_plain_text_parser.cpp], the writer of the plain form
      in [deck_list.cpp] and [deck_file_format.cpp]; the expressions of the parser
      are run by the matcher of [Regex], texts are cut and read with [Text].
      [PlainTextCorrect]: what the writer writes is read back; [PlainTextSafe]: what
      any text is read as.

    Importer.
    - [RawJson]: [oracle/src/raw_json_scanner.cpp], the scanner that splits a
      card database into sets; [RawJsonCorrect]: the JSON grammar and the
      document a scan stands for, and the theorems.

    Utilities.
    - [Levenshtein]: [levenshtein.cpp], the edit distance of the card search.
    - [RateLimiter]: [server_rate_limiter.cpp], the back-off of HTTP clients.
    - [TranslationLoader]: [translation_loader.cpp], over the interface
      [Platform] of what it asks Qt and the file system.

    This file holds what the others share: results and their notation, machine
    integers, texts, sums of lists and the lexicographic order.

    ** Conventions

    A definition has the name of the function or type it translates; a loop is
    a function of its own, named after what it does. A [u32], [u64], [i32] or
    [int] is a [Z]: arithmetic the source leaves plain wraps at the width (a
    release build), checked and saturating operations are the named functions
    below, and a theorem states the ranges it needs. A Rust array of mana
    counts is a list in the order W, U, B, R, G, C. [Result] is [result] with
    the notation [let?] for the question mark operator; the error values carry
    the messages of the source. A mutable object is passed and returned; objects
    that are shared by pointer or by two variables (cards of zones, nodes of the
    deck tree, elements of a page) have an identity, and a pointer is one. A
    text is the list of its UTF-16 code units (of its characters where regular
    expressions read it), a buffer the list of its bytes, a deck file the list of
    its XML tokens.

    ** What is shown

    - The buttons of a documentation page are independent switches after any
      clicks; what is taken for a graph, what the set-up changes and what it
      leaves alone; a second set-up does nothing; where the script stops.
    - A plan is found exactly when some announced way to pay is covered by pool
      and life, agrees with the demand preview, and spends selected restricted
      mana to the last unit; the solvers are sound and complete.
    - Committing a plan that passed the recheck takes exactly what the plan
      says and keeps the payer's state well formed; a rebased receipt is the
      same receipt; the checked life change is the plain one under its guard.
    - The proposals for an action are exactly what its costs allow and cover
      every plan, below their bound; the label of a demand tells it and is short;
      the published cost of a commander stands for the printed one with the tax,
      and commander damage is summed exactly.
    - The search for blocks is exact for all its pruning; what is offered is what
      is accepted, and something always is; the attackers demanded are the most
      that can attack without a tax. What is recorded for an attacker splits its
      power, the damage step starts when everything is split and can be reached
      where everything can be split, and who strikes when.
    - The opening of a game ends after a bounded number of commands other than updates of
      preferences, whoever gives them and whoever concedes, and until then the player with priority has a move
      and nobody else; nobody loses a card or gets another's, hands are as large as
      the mulligans say, and a refused command leaves the game as it was.
    - Costs: printing and parsing are inverse, the parser's language, the mana
      value and the colours.
    - Random numbers are uniform and in range, the shuffle reaches every
      arrangement in exactly one way, the free column of the grid is the
      leftmost empty pile, and insertion and removal are inverse.
    - The limiter answers as if it kept every attempt for ever; guessing a
      password is bounded in any window, whatever else is going on, and a lockout
      ends when its answer says.
    - In every reachable deck tree nodes have one place, zone names are unique
      and the cards are within the limit; a saved deck is loaded as it was, from the plain
      form card by card; no text breaks the plain text parser; the
      undo history is a timeline; the hash is forty bits of the digest, and its cache is never stale.
    - The JSON scanner accepts exactly the documents of its grammar and returns
      the sets they hold; its progress reports are bounded.
    - The edit distance is the least cost of an edit script; the rate limiter
      keeps its bounds in every reachable state; the translation search returns
      what its results promise and every offered language loads.

    ** Bounds and fuel

    The printer of numbers takes ten steps, the digits of a [u32]
    ([parse_u32_dec]); the parser of costs takes one step more than the text has
    characters ([parse_total]); the two searches along a row of the grid take
    one step more than the row has cards ([next_free_total],
    [skip_columns_total]). The rejection loop of the generator runs on the
    stream of the outputs to come, and [sfmt_rand_spec] says when it returns.
    The search behind a header looks at eight siblings, the bound of the source,
    and the lists of proposals have 256 entries, [PROPOSAL_LIMIT] of the source.
    The JSON walk has three steps for every byte and three more ([walk_fuel]),
    which the completeness half of [skipValue_correct] shows to be enough, and
    the loops on strings and on deck files one step more than there are bytes or
    tokens, each step reading at least one ([reads_back_node], [reads_step],
    [read_commanders_back]). A hash has thirteen steps for its eight digits. A repetition of the
    matcher takes as many steps as the text left has characters, since each
    iteration reads one ([run_complete]).
    The opening of [n] players takes at most [25 n + 3] commands that are no updates of
    preferences ([opening_ends]),
    by the measure [to_do]; the run of a command is structural, its loops go around the
    table or deal seven cards.
    The search for blocks is structural in the order of the blockers. Every other
    definition is structural.

    ** What is not modelled

    The rest of the rules engine (turns, casting with its payment transactions and
    convoke, triggers, layers): code over the whole game state and the card model,
    from which no part comes away with the state it works on. Of combat the
    tests behind the block graph, taxes and the damage that is dealt; of the opening
    commanders of a new game, an entry to the battlefield that a replacement effect
    parks or skips, and what is settled and passed automatically once the first
    turn has begun; a command is out of the wrapping that carries the stops for this. Further the card registry, the network protocol, the database, the
    graphical client and the rest of the importer. Of the modelled files:
    [moveCardInRow], [fixFreeSpaces] and [getInfo] of a zone, which act through the player or fill
    a message; signals and log lines; an index out of range that
    panics, which theorems exclude by a hypothesis on the lookup. The 64-bit
    generator (vendored), Qt (numbers, lower case, SHA-1, the XML reader below
    its tokens, UTF-8, Unicode beyond ASCII), [std::sort] with its contract, floating-point numbers,
    what [rand] makes of a list and what the card registry says of a card, and
    the file system are arguments. *)
From Stdlib Require Export ZArith Lia Ascii String.
From stdpp Require Export prelude gmap strings sorting.

Create HintDb machine.
Create Rewrite HintDb zsum.

(** ** Notations *)

Declare Scope cockatrice_scope.
Delimit Scope cockatrice_scope with cockatrice.

(** ** Fallible computations

    Rust's [Result<T, E>], with the two functions the sources chain results
    with: the [?] operator ([rbind]) and [ok_or]. *)

Inductive result (A E : Type) : Type :=
| Ok (a : A)
| Err (e : E).
Arguments Ok {A E} _.
Arguments Err {A E} _.

#[export] Instance result_eq_dec {A E} `{!EqDecision A, !EqDecision E} :
  EqDecision (result A E).
Proof. solve_decision. Defined.

Definition rbind {A B E} (m : result A E) (k : A -> result B E) : result B E :=
  match m with
  | Ok a => k a
  | Err e => Err e
  end.

Definition ok_or {A E} (o : option A) (e : E) : result A E :=
  match o with
  | Some a => Ok a
  | None => Err e
  end.

Definition is_ok {A E} (m : result A E) : bool :=
  match m with Ok _ => true | Err _ => false end.

Notation "'let?' x := m 'in' k" := (rbind m (fun x => k))
  (at level 10, x name, m at level 100, k at level 200)
  : cockatrice_scope.

Lemma rbind_Ok {A B E} (m : result A E) (k : A -> result B E) b :
  rbind m k = Ok b <-> exists a, m = Ok a /\ k a = Ok b.
Proof. destruct m; simpl; split; [eauto | by intros (?&[= ->]&?) | done | by intros (?&?&?)]. Qed.

Lemma ok_or_Ok {A E} (o : option A) (e : E) a : ok_or o e = Ok a <-> o = Some a.
Proof. destruct o; simpl; split; congruence. Qed.

(** ** Machine integers

    A [w]-bit integer is the [Z] it denotes. Rust's plain [+], [-] and [*]
    are modelled as the release build compiles them, wrapping at the width;
    the checked and saturating forms are the library functions of these
    names. *)

Definition u32_max : Z := 4294967295.
Definition u64_max : Z := 18446744073709551615.
Definition i32_min : Z := -2147483648.
Definition i32_max : Z := 2147483647.

Definition u32_range (z : Z) : Prop := (0 <= z <= u32_max)%Z.
Definition i32_range (z : Z) : Prop := (i32_min <= z <= i32_max)%Z.

Definition wrap_u32 (z : Z) : Z := (z mod 2 ^ 32)%Z.
Definition wrap_u64 (z : Z) : Z := (z mod 2 ^ 64)%Z.
(** Two's complement reading of the low 32 bits: the cast [x as i32] and the
    wrapping [i32] arithmetic. *)
Definition wrap_i32 (z : Z) : Z := ((z + 2 ^ 31) mod 2 ^ 32 - 2 ^ 31)%Z.

Definition u32_add (a b : Z) : Z := wrap_u32 (a + b).
Definition u32_sub (a b : Z) : Z := wrap_u32 (a - b).
Definition u32_saturating_add (a b : Z) : Z := Z.min (a + b) u32_max.
Definition u32_saturating_sub (a b : Z) : Z := Z.max (a - b) 0.
Definition u32_saturating_mul (a b : Z) : Z := Z.min (a * b) u32_max.
Definition u32_checked_add (a b : Z) : option Z :=
  if (a + b <=? u32_max)%Z then Some (a + b)%Z else None.
Definition u32_checked_sub (a b : Z) : option Z :=
  if (b <=? a)%Z then Some (a - b)%Z else None.
Definition u32_try_from (z : Z) : option Z :=
  if ((0 <=? z) && (z <=? u32_max))%Z then Some z else None.

#[export] Hint Unfold u32_range i32_range u32_max i32_min i32_max : machine.

(** Unfolds the range predicates and the constants, then [lia]. *)
Ltac mlia :=
  unfold u32_range, i32_range, u32_max, u64_max, i32_min, i32_max in *; lia.

(** Divisions and remainders by constants. *)
Ltac dlia := Z.to_euclidean_division_equations; lia.

Lemma wrap_u32_range z : u32_range (wrap_u32 z).
Proof. unfold wrap_u32. pose proof (Z.mod_pos_bound z (2 ^ 32)). mlia. Qed.

Lemma wrap_u32_small z : u32_range z -> wrap_u32 z = z.
Proof. intros H. unfold wrap_u32. apply Z.mod_small. mlia. Qed.

Lemma wrap_i32_range z : i32_range (wrap_i32 z).
Proof.
  unfold wrap_i32. pose proof (Z.mod_pos_bound (z + 2 ^ 31) (2 ^ 32)). mlia.
Qed.

Lemma wrap_i32_small z : i32_range z -> wrap_i32 z = z.
Proof. intros H. unfold wrap_i32. rewrite Z.mod_small; mlia. Qed.

Lemma u32_add_small a b :
  (0 <= a)%Z -> (0 <= b)%Z -> (a + b <= u32_max)%Z -> u32_add a b = (a + b)%Z.
Proof. intros. apply wrap_u32_small. mlia. Qed.

Lemma u32_sub_small a b :
  u32_range a -> (0 <= b <= a)%Z -> u32_sub a b = (a - b)%Z.
Proof. intros. apply wrap_u32_small. mlia. Qed.

Lemma u32_checked_add_Some a b c :
  u32_checked_add a b = Some c <-> (a + b <= u32_max)%Z /\ c = (a + b)%Z.
Proof.
  unfold u32_checked_add. destruct (Z.leb_spec (a + b) u32_max); split; intuition (congruence || lia).
Qed.

Lemma u32_checked_sub_Some a b c :
  u32_checked_sub a b = Some c <-> (b <= a)%Z /\ c = (a - b)%Z.
Proof.
  unfold u32_checked_sub. destruct (Z.leb_spec b a); split; intuition (congruence || lia).
Qed.

#[export] Hint Resolve wrap_u32_range wrap_i32_range : machine.

(** ** Text

    A Rust [&str] or a [QString] is the list of its code points (Rust: Unicode
    scalar values; Qt: UTF-16 units). [str] turns an ASCII literal into one. *)

Definition text := list Z.

Fixpoint str (s : string) : text :=
  match s with
  | EmptyString => []
  | String c s' => Z.of_nat (nat_of_ascii c) :: str s'
  end.

Definition chr (c : ascii) : Z := Z.of_nat (nat_of_ascii c).

Lemma sorted_snoc {A} (R : relation A) (l : list A) x :
  StronglySorted R l -> Forall (fun a => R a x) l -> StronglySorted R (l ++ [x]).
Proof.
  induction 1 as [|y l Hl IH Hy]; intros Hx; cbn [app]; [by repeat constructor|].
  inversion Hx; subst. constructor; [by apply IH|]. apply Forall_app. by split; [|constructor].
Qed.

(** Two texts up to a separator that occurs in neither. *)
Lemma app_sep_inj {A} (x : A) (a b u v : list A) :
  x ∉ a -> x ∉ b -> (a ++ x :: u = b ++ x :: v)%list -> a = b /\ u = v.
Proof.
  revert b. induction a as [|y a IH]; intros [|z b] Ha Hb E; cbn in E.
  - split; [done|]. by injection E.
  - injection E as Ex _. exfalso. apply Hb. rewrite <- Ex. left.
  - injection E as Ex _. exfalso. apply Ha. rewrite Ex. left.
  - injection E as <- E. apply not_elem_of_cons in Ha as [_ Ha], Hb as [_ Hb].
    destruct (IH b Ha Hb E) as [<- <-]. done.
Qed.

(** ** Sums of integer lists *)

Fixpoint zsum (l : list Z) : Z :=
  match l with
  | [] => 0
  | x :: l' => (x + zsum l')%Z
  end.

Lemma zsum_app l k : zsum (l ++ k) = (zsum l + zsum k)%Z.
Proof. induction l; simpl; lia. Qed.

Lemma zsum_nonneg l : Forall (Z.le 0) l -> (0 <= zsum l)%Z.
Proof. induction 1; simpl; lia. Qed.

Lemma zsum_insert l i x y :
  l !! i = Some x -> zsum (<[i:=y]> l) = (zsum l - x + y)%Z.
Proof.
  revert i; induction l as [|z l IH]; intros [|i] Hi; simplify_eq/=; [lia|].
  rewrite (IH i) by done. lia.
Qed.

Lemma zsum_perm l k : l ≡ₚ k -> zsum l = zsum k.
Proof. induction 1; simpl; lia. Qed.

#[export] Hint Rewrite zsum_app : zsum.

(** An [Iterator::sum] over [u32] that does not overflow. *)
Lemma fold_u32_add l acc :
  Forall (Z.le 0) l -> (0 <= acc)%Z -> (acc + zsum l <= u32_max)%Z ->
  fold_left u32_add l acc = (acc + zsum l)%Z.
Proof.
  intros Hl. revert acc. induction Hl as [|x l Hx Hl IH]; intros acc Ha Hb;
    cbn [fold_left zsum] in *; [lia|].
  pose proof (zsum_nonneg _ Hl). rewrite u32_add_small by lia. rewrite IH; lia.
Qed.

(** Lists as fixed-size arrays, read with the total lookup. *)

Lemma lookup_total_insert {A} `{!Inhabited A} (l : list A) i j x :
  (i < length l)%nat ->
  <[i:=x]> l !!! j = if Nat.eqb i j then x else l !!! j.
Proof.
  intros Hi. destruct (Nat.eqb_spec i j) as [->|Hne].
  - by apply list_lookup_total_insert_eq.
  - by apply list_lookup_total_insert_ne.
Qed.

Lemma zsum_insert_total l i y :
  (i < length l)%nat -> zsum (<[i:=y]> l) = (zsum l - l !!! i + y)%Z.
Proof.
  intros Hi. apply zsum_insert. by apply list_lookup_lookup_total_lt.
Qed.

Lemma zsum_lookups l : zsum (map (fun i => l !!! i) (seq 0 (length l))) = zsum l.
Proof.
  induction l as [|x l IH]; [done|]. simpl. f_equal. rewrite <- IH.
  rewrite <- fmap_S_seq. f_equal.
  change (map (fun i => (x :: l) !!! i) (S <$> seq 0 (length l)) =
          map (fun i => l !!! i) (seq 0 (length l))).
  change fmap with (@map nat nat). rewrite map_map. done.
Qed.

Lemma zsum_map_ext {A} (f g : A -> Z) l :
  (forall x, x ∈ l -> f x = g x) -> zsum (map f l) = zsum (map g l).
Proof.
  induction l as [|x l IH]; simpl; intros He; [done|].
  rewrite He, IH; set_solver.
Qed.

Lemma zsum_map_add {A} (f g : A -> Z) l :
  zsum (map (fun x => (f x + g x)%Z) l) = (zsum (map f l) + zsum (map g l))%Z.
Proof. induction l; simpl; lia. Qed.

Lemma zsum_map_le {A} (f g : A -> Z) l :
  (forall x, x ∈ l -> (f x <= g x)%Z) -> (zsum (map f l) <= zsum (map g l))%Z.
Proof.
  induction l as [|x l IH]; simpl; intros He; [lia|].
  pose proof (He x). specialize (IH ltac:(set_solver)).
  assert (f x <= g x)%Z by (apply He; set_solver). lia.
Qed.

Lemma nonneg_lookup_total (l : list Z) i : Forall (Z.le 0) l -> (0 <= l !!! i)%Z.
Proof.
  intros HF. destruct (decide (i < length l)%nat).
  - eapply (Forall_lookup_1 _ l i); [done|]. by apply list_lookup_lookup_total_lt.
  - rewrite list_lookup_total_alt, lookup_ge_None_2 by lia. done.
Qed.

Lemma nonneg_of_lookups (l : list Z) :
  (forall i, (i < length l)%nat -> (0 <= l !!! i)%Z) -> Forall (Z.le 0) l.
Proof.
  intros Hl. apply Forall_lookup_2. intros i x Hi.
  pose proof (lookup_lt_Some _ _ _ Hi). specialize (Hl i ltac:(lia)).
  by rewrite (list_lookup_total_correct _ _ _ Hi) in Hl.
Qed.

Lemma lookups_le_zsum (l k : list Z) :
  length l = length k -> (forall i, (l !!! i <= k !!! i)%Z) -> (zsum l <= zsum k)%Z.
Proof.
  intros Hl Hle. rewrite <- (zsum_lookups l), <- (zsum_lookups k), Hl.
  by apply zsum_map_le.
Qed.

(** ** The lexicographic order on lists of integers

    The derived [Ord] of a Rust struct, and [operator<] of [QString]. *)

Section LexOrder.
#[local] Open Scope Z_scope.

Fixpoint lex_lt (k l : list Z) : bool :=
match k, l with
| x :: k', y :: l' => (x <? y) || ((x =? y) && lex_lt k' l')
| [], _ :: _ => true
| _, [] => false
end.

Lemma lex_lt_irrefl k : lex_lt k k = false.
Proof.
induction k as [|x k IH]; simpl; [done|]. by rewrite IH, Z.ltb_irrefl, andb_false_r.
Qed.

Lemma lex_lt_cons x y k l :
lex_lt (x :: k) (y :: l) = true <-> x < y \/ (x = y /\ lex_lt k l = true).
Proof. simpl. by rewrite orb_true_iff, andb_true_iff, Z.ltb_lt, Z.eqb_eq. Qed.

Lemma lex_lt_antisym k l : lex_lt k l = false -> lex_lt l k = false -> k = l.
Proof.
rewrite <- !not_true_iff_false.
revert l. induction k as [|x k IH]; intros [|y l]; try done.
rewrite !lex_lt_cons. intros H1 H2. assert (x = y) by lia. subst.
f_equal. apply IH; tauto.
Qed.

Lemma lex_lt_trans k l m : lex_lt k l = true -> lex_lt l m = true -> lex_lt k m = true.
Proof.
revert l m. induction k as [|x k IH]; intros [|y l] [|z m]; try done.
rewrite !lex_lt_cons. intros [H1|[-> H1]] [H2|[-> H2]]; eauto; lia.
Qed.

End LexOrder.
