(* ===== verification/Text.v ===== *)
(** * Texts: the library functions the components share

    Trimming, searching, splitting and decimal numbers, as Rust's [str] and
    [u32] have them; the functions of Qt that do the same use them too. *)
From S2P Require Import Prelude.
Open Scope cockatrice_scope.
Local Open Scope Z_scope.

(** ** Functions *)

(** Unicode [White_Space], the predicate behind [str::trim]. *)
Definition is_whitespace (c : Z) : bool :=
  ((9 <=? c) && (c <=? 13)) || (c =? 32) || (c =? 133) || (c =? 160) ||
  (c =? 5760) || ((8192 <=? c) && (c <=? 8202)) || (c =? 8232) ||
  (c =? 8233) || (c =? 8239) || (c =? 8287) || (c =? 12288).

Fixpoint drop_while (p : Z -> bool) (s : text) : text :=
  match s with
  | [] => []
  | c :: s' => if p c then drop_while p s' else s
  end.

(** [str::trim]. *)
Definition trim (s : text) : text :=
  rev (drop_while is_whitespace (rev (drop_while is_whitespace s))).

(** [str::find(char)]: the index of the first occurrence. *)
Fixpoint find_char (c : Z) (s : text) : option nat :=
  match s with
  | [] => None
  | x :: s' => if x =? c then Some 0%nat else option_map S (find_char c s')
  end.

(** [str::split(char)]: always at least one piece. *)
Fixpoint split_char (c : Z) (s : text) : list text :=
  match s with
  | [] => [[]]
  | x :: s' =>
      if x =? c then [] :: split_char c s'
      else match split_char c s' with
           | p :: ps => (x :: p) :: ps
           | [] => [[x]]
           end
  end.

(** [str::split_once(char)]. *)
Definition split_once (c : Z) (s : text) : option (text * text) :=
  match find_char c s with
  | Some i => Some (take i s, drop (S i) s)
  | None => None
  end.

(** [str::strip_prefix(char)]. *)
Definition strip_prefix (c : Z) (s : text) : option text :=
  match s with
  | x :: s' => if x =? c then Some s' else None
  | [] => None
  end.

(** The digit loop of [u32::from_str]: [checked_mul] by ten, [checked_add]. *)
Fixpoint digits_u32 (acc : Z) (s : text) : option Z :=
  match s with
  | [] => Some acc
  | c :: s' =>
      if (48 <=? c) && (c <=? 57) then
        let acc' := acc * 10 + (c - 48) in
        if acc' <=? u32_max then digits_u32 acc' s' else None
      else None
  end.

(** [str::parse::<u32>()]: an optional leading plus, at least one digit. *)
Definition parse_u32 (s : text) : option Z :=
  match s with
  | [] => None
  | [43] => None
  | 43 :: s' => digits_u32 0 s'
  | _ => digits_u32 0 s
  end.

Fixpoint dec_aux (fuel : nat) (n : Z) (acc : text) : text :=
  match fuel with
  | O => acc
  | S f =>
      let acc' := (48 + n mod 10) :: acc in
      if n <? 10 then acc' else dec_aux f (n / 10) acc'
  end.

(** [Display for u32]: ten digits are enough. *)
Definition dec_u32 (n : Z) : text := dec_aux 10 n [].

(** ** Lemmas *)

Lemma find_char_notin c s k :
  c ∉ s -> find_char c (s ++ c :: k) = Some (length s).
Proof.
  induction s as [|x s IH]; simpl; intros Hn; [by rewrite Z.eqb_refl|].
  apply not_elem_of_cons in Hn as [Hx Hs].
  destruct (Z.eqb_spec x c); [congruence|]. by rewrite IH.
Qed.

Lemma find_char_None c s : find_char c s = None <-> c ∉ s.
Proof.
  induction s as [|x s IH]; simpl; [split; [set_solver|done]|].
  rewrite not_elem_of_cons. destruct (Z.eqb_spec x c).
  - split; [done|]. intros [Hne _]. congruence.
  - destruct (find_char c s); simpl in *; naive_solver.
Qed.

Lemma find_char_Some c s i :
  find_char c s = Some i -> s = take i s ++ c :: drop (S i) s /\ c ∉ take i s.
Proof.
  revert i. induction s as [|x s IH]; simpl; intros i Hi; [done|].
  destruct (Z.eqb_spec x c) as [->|Hne]; simplify_eq/=; [split; [done|set_solver]|].
  destruct (find_char c s) as [j|] eqn:Hj; simplify_eq/=.
  destruct (IH j eq_refl) as [He Hn]. split; [by rewrite <- He|set_solver].
Qed.

Lemma take_drop_found {A} (s : list A) x k :
  take (length s) (s ++ x :: k) = s /\ drop (S (length s)) (s ++ x :: k) = k.
Proof.
  split; [by rewrite take_app_length|].
  replace (S (length s)) with (length s + 1)%nat by lia.
  rewrite <- drop_drop, drop_app_length. done.
Qed.

Lemma split_once_notin c s k : c ∉ s -> split_once c (s ++ c :: k) = Some (s, k).
Proof.
  intros Hn. unfold split_once. rewrite find_char_notin by done.
  destruct (take_drop_found s c k) as [-> ->]. done.
Qed.

Lemma split_char_notin c s : c ∉ s -> split_char c s = [s].
Proof.
  induction s as [|x s IH]; simpl; intros Hn; [done|].
  apply not_elem_of_cons in Hn as [Hx Hs].
  destruct (Z.eqb_spec x c); [congruence|]. by rewrite IH.
Qed.

Lemma split_char_app c s k :
  c ∉ s -> split_char c (s ++ c :: k) = s :: split_char c k.
Proof.
  induction s as [|x s IH]; simpl; intros Hn; [by rewrite Z.eqb_refl|].
  apply not_elem_of_cons in Hn as [Hx Hs].
  destruct (Z.eqb_spec x c); [congruence|]. by rewrite IH.
Qed.

Definition is_digit (c : Z) : Prop := 48 <= c <= 57.

Lemma dec_aux_digits fuel n acc :
  0 <= n -> Forall is_digit acc -> Forall is_digit (dec_aux fuel n acc).
Proof.
  revert n acc. induction fuel as [|f IH]; simpl; intros n acc Hn Ha; [done|].
  assert (is_digit (48 + n mod 10)).
  { unfold is_digit. pose proof (Z.mod_pos_bound n 10). lia. }
  destruct (n <? 10); [by constructor|].
  apply IH; [apply Z.div_pos; lia | by constructor].
Qed.

Lemma dec_aux_nonempty fuel n acc : acc <> [] -> dec_aux fuel n acc <> [].
Proof.
  revert n acc. induction fuel as [|f IH]; simpl; intros n acc Ha; [done|].
  destruct (n <? 10); [done|]. by apply IH.
Qed.

Lemma dec_aux_S_nonempty fuel n acc : dec_aux (S fuel) n acc <> [].
Proof.
  cbn [dec_aux]. destruct (n <? 10); [done|]. by apply dec_aux_nonempty.
Qed.

Lemma dec_u32_head n : 0 <= n -> exists c s, dec_u32 n = c :: s /\ is_digit c.
Proof.
  intros Hn. assert (Hd : Forall is_digit (dec_u32 n)) by (by apply dec_aux_digits).
  assert (dec_u32 n <> []) by apply dec_aux_S_nonempty.
  destruct (dec_u32 n) as [|c s]; [done|]. inversion Hd; subst. eauto.
Qed.

Lemma dec_u32_notin n c : 0 <= n -> ~ is_digit c -> c ∉ dec_u32 n.
Proof.
  intros Hn Hc Hin. assert (Hd : Forall is_digit (dec_u32 n)) by (by apply dec_aux_digits).
  rewrite Forall_forall in Hd. exact (Hc (Hd _ Hin)).
Qed.

Lemma digits_step a d acc :
  0 <= d <= 9 -> a * 10 + d <= u32_max ->
  digits_u32 a ((48 + d) :: acc) = digits_u32 (a * 10 + d) acc.
Proof.
  intros Hd Ha. cbn [digits_u32]. replace (48 + d - 48) with d by lia.
  assert ((48 <=? 48 + d) && (48 + d <=? 57) = true) as -> by lia.
  assert ((a * 10 + d <=? u32_max) = true) as -> by lia. done.
Qed.

Lemma dec_aux_S fuel n acc :
  dec_aux (S fuel) n acc =
  if n <? 10 then (48 + n mod 10) :: acc
  else dec_aux fuel (n / 10) ((48 + n mod 10) :: acc).
Proof. done. Qed.

Lemma digits_dec_aux fuel n acc :
  0 <= n <= u32_max -> n < 10 ^ Z.of_nat (S fuel) ->
  digits_u32 0 (dec_aux (S fuel) n acc) = digits_u32 n acc.
Proof.
  revert n acc. induction fuel as [|f IH]; intros n acc Hn Hb; rewrite dec_aux_S.
  - change (10 ^ Z.of_nat 1) with 10 in Hb.
    assert ((n <? 10) = true) as -> by lia.
    rewrite digits_step by (pose proof (Z.mod_small n 10); lia).
    f_equal. rewrite Z.mod_small; lia.
  - destruct (Z.ltb_spec n 10).
    + rewrite digits_step by (pose proof (Z.mod_small n 10); lia).
      f_equal. rewrite Z.mod_small; lia.
    + pose proof (Z.mod_pos_bound n 10). pose proof (Z.div_mod n 10).
      rewrite IH.
      * rewrite digits_step by lia. f_equal. lia.
      * lia.
      * rewrite Nat2Z.inj_succ, Z.pow_succ_r in Hb by lia. nia.
Qed.

Lemma parse_u32_digit c s :
  is_digit c -> parse_u32 (c :: s) = digits_u32 0 (c :: s).
Proof.
  unfold is_digit. intros Hc.
  assert (c = 48 \/ c = 49 \/ c = 50 \/ c = 51 \/ c = 52 \/ c = 53 \/ c = 54 \/
          c = 55 \/ c = 56 \/ c = 57) as Hd by lia.
  by destruct_or! Hd; subst c.
Qed.

Lemma parse_u32_dec n : u32_range n -> parse_u32 (dec_u32 n) = Some n.
Proof.
  intros Hn. destruct (dec_u32_head n) as (c & s & He & Hc); [mlia|].
  rewrite He, parse_u32_digit by done. rewrite <- He. unfold dec_u32.
  rewrite digits_dec_aux; [done|mlia|mlia].
Qed.

Lemma digits_u32_range s acc n :
  u32_range acc -> digits_u32 acc s = Some n -> u32_range n.
Proof.
  revert acc. induction s as [|c s IH]; cbn [digits_u32]; intros acc Ha Hs; simplify_eq; [done|].
  destruct ((48 <=? c) && (c <=? 57)) eqn:Hc; [|done].
  destruct (Z.leb_spec (acc * 10 + (c - 48)) u32_max); [|done].
  eapply IH; [|done]. mlia.
Qed.

Lemma parse_u32_range s n : parse_u32 s = Some n -> u32_range n.
Proof.
  assert (u32_range 0) by mlia. unfold parse_u32. intros Hs.
  repeat case_match; simplify_eq; eapply digits_u32_range; try apply Hs; done.
Qed.
