(* ===== verification/GraphToggle.v ===== *)
(** * The call-graph toggle of the documentation pages: [doc/doxygen/js/graph_toggle.js]

    The script runs once per page, when the page is loaded. For every member
    documentation it looks for the call graph and the caller graph, hides them
    and adds two buttons that show and hide them.

    The page is a store: the shape of the tree, and for every element its
    properties by identity, so that two variables of the script that hold the
    same element see each other's changes. A variable that may be [null] is an
    option. What the script keeps after it has run, the variables of the closure
    its two listeners share, is a [Closure]. *)
From S2P Require Import Prelude.
Open Scope cockatrice_scope.
Local Open Scope Z_scope.

(** ** The page *)

Inductive node : Type :=
| Text (id : nat) (s : text)
| Elem (id : nat) (children : list node).

Record Props : Type := {
  tagName : text;
  classes : list text;
  display : text;
  disabled : bool;
  button_type : text
}.

Record Document : Type := {
  tree : list node;
  props : gmap nat Props;
  next : nat
}.

Definition with_classes (cs : list text) (p : Props) : Props :=
  {| tagName := tagName p; classes := cs; display := display p; disabled := disabled p;
     button_type := button_type p |}.

Definition with_display (d : text) (p : Props) : Props :=
  {| tagName := tagName p; classes := classes p; display := d; disabled := disabled p;
     button_type := button_type p |}.

Definition with_disabled (b : bool) (p : Props) : Props :=
  {| tagName := tagName p; classes := classes p; display := display p; disabled := b;
     button_type := button_type p |}.

Definition with_type (s : text) (p : Props) : Props :=
  {| tagName := tagName p; classes := classes p; display := display p; disabled := disabled p;
     button_type := s |}.

Definition new_props (tag : text) : Props :=
  {| tagName := tag; classes := []; display := []; disabled := false; button_type := [] |}.

Definition node_id (n : node) : nat := match n with Text i _ => i | Elem i _ => i end.

Definition is_elem (n : node) : bool := match n with Text _ _ => false | Elem _ _ => true end.

(** *** Queries *)

(** The elements at and below a node, in document order. *)
Fixpoint elements (n : node) : list nat :=
  match n with
  | Text _ _ => []
  | Elem i ks => i :: concat (map elements ks)
  end.

Definition all_elements (ks : list node) : list nat := concat (map elements ks).

(** [textContent]. *)
Fixpoint text_of (n : node) : text :=
  match n with
  | Text _ s => s
  | Elem _ ks => concat (map text_of ks)
  end.

(** The node an identity stands for. *)
Fixpoint lookup_node (i : nat) (n : node) : option node :=
  if Nat.eqb (node_id n) i then Some n
  else
    match n with
    | Text _ _ => None
    | Elem _ ks =>
        (fix lookup_in (l : list node) : option node :=
           match l with
           | [] => None
           | k :: l => match lookup_node i k with Some x => Some x | None => lookup_in l end
           end) ks
    end.

Fixpoint lookup_forest (i : nat) (l : list node) : option node :=
  match l with
  | [] => None
  | k :: l => match lookup_node i k with Some x => Some x | None => lookup_forest i l end
  end.

Definition childNodes (d : Document) (i : nat) : list node :=
  match lookup_forest i (tree d) with Some (Elem _ ks) => ks | _ => [] end.

Definition textContent (d : Document) (i : nat) : text :=
  match lookup_forest i (tree d) with Some n => text_of n | None => [] end.

(** The siblings behind a child of a list of children. *)
Fixpoint behind (i : nat) (ks : list node) : option (list node) :=
  match ks with
  | [] => None
  | k :: ks => if Nat.eqb (node_id k) i then Some ks else behind i ks
  end.

(** The siblings behind a node, anywhere at or below a node. *)
Fixpoint siblings_below (i : nat) (n : node) : option (list node) :=
  match n with
  | Text _ _ => None
  | Elem _ ks =>
      match behind i ks with
      | Some l => Some l
      | None =>
          (fix siblings_in (l : list node) : option (list node) :=
             match l with
             | [] => None
             | k :: l => match siblings_below i k with Some x => Some x | None => siblings_in l end
             end) ks
      end
  end.

(** [nextElementSibling]; the document is the parent of the topmost nodes. *)
Definition nextElementSibling (d : Document) (i : nat) : option nat :=
  l ← siblings_below i (Elem 0 (tree d));
  node_id <$> List.find is_elem l.

Definition has_class (d : Document) (c : text) (i : nat) : bool :=
  match props d !! i with Some p => bool_decide (c ∈ classes p) | None => false end.

(** The selectors [.c] and [t.c]. *)
Definition class_selector (c : text) (d : Document) (i : nat) : bool := has_class d c i.

Definition tag_class_selector (t c : text) (d : Document) (i : nat) : bool :=
  match props d !! i with
  | Some p => bool_decide (tagName p = t) && bool_decide (c ∈ classes p)
  | None => false
  end.

(** [querySelectorAll] and [querySelector] of the document and of an element. *)
Definition document_querySelectorAll (sel : Document -> nat -> bool) (d : Document) : list nat :=
  List.filter (sel d) (all_elements (tree d)).

Definition querySelectorAll (sel : Document -> nat -> bool) (d : Document) (i : nat) : list nat :=
  List.filter (sel d) (all_elements (childNodes d i)).

Definition querySelector (sel : Document -> nat -> bool) (d : Document) (i : nat) : option nat :=
  head (querySelectorAll sel d i).

(** *** Changes *)

Definition set_props (f : Props -> Props) (i : nat) (d : Document) : Document :=
  {| tree := tree d; props := alter f i (props d); next := next d |}.

Definition set_display (v : text) : nat -> Document -> Document := set_props (with_display v).

(** [classList.add], [classList.toggle] with its second argument. *)
Definition add_class (c : text) (p : Props) : Props :=
  with_classes (if bool_decide (c ∈ classes p) then classes p else classes p ++ [c]) p.

Definition toggle_class (c : text) (force : bool) (p : Props) : Props :=
  if force then add_class c p
  else with_classes (List.filter (fun x => negb (bool_decide (x = c))) (classes p)) p.

(** [createElement]: a detached element. *)
Definition createElement (tag : text) (d : Document) : nat * Document :=
  (next d, {| tree := tree d; props := <[next d := new_props tag]> (props d); next := S (next d) |}).

(** The node of an assignment to [textContent]. *)
Definition createText (d : Document) : nat * Document :=
  (next d, {| tree := tree d; props := props d; next := S (next d) |}).

Inductive DOMException : Type := NotFoundError.

(** The insertion in a list of children. *)
Fixpoint insert_before (n : node) (reference : nat) (ks : list node) : list node :=
  match ks with
  | [] => []
  | k :: ks => if Nat.eqb (node_id k) reference then n :: k :: ks else k :: insert_before n reference ks
  end.

(** Applying [f] to the children of the element with an identity. *)
Fixpoint on_children (i : nat) (f : list node -> list node) (n : node) : node :=
  match n with
  | Text _ _ => n
  | Elem j ks =>
      let ks' := map (on_children i f) ks in
      Elem j (if Nat.eqb j i then f ks' else ks')
  end.

(** [parent.insertBefore(n, reference)]: behind the last child for [null], an
    exception for a node that is not a child of the parent. *)
Definition insertBefore (parent : nat) (n : node) (reference : option nat) (d : Document)
    : result Document DOMException :=
  match reference with
  | None =>
      Ok {| tree := map (on_children parent (fun ks => ks ++ [n])) (tree d);
            props := props d; next := next d |}
  | Some r =>
      if bool_decide (r ∈ map node_id (childNodes d parent)) then
        Ok {| tree := map (on_children parent (insert_before n r)) (tree d);
              props := props d; next := next d |}
      else Err NotFoundError
  end.

(** ** Strings *)

(** The white space and line terminators of the language. *)
Definition is_white_space (c : Z) : bool :=
  bool_decide (c ∈ [9; 10; 11; 12; 13; 32; 160; 5760; 8232; 8233; 8239; 8287; 12288; 65279]) ||
  ((8192 <=? c) && (c <=? 8202)).

Fixpoint trim_start (s : text) : text :=
  match s with
  | c :: r => if is_white_space c then trim_start r else s
  | [] => []
  end.

Definition trim (s : text) : text := rev (trim_start (rev (trim_start s))).

Fixpoint starts_with (p s : text) : bool :=
  match p, s with
  | [], _ => true
  | _, [] => false
  | a :: p, b :: s => (a =? b) && starts_with p s
  end.

(** [s.includes(p)]. *)
Fixpoint includes (p s : text) : bool :=
  starts_with p s || match s with [] => false | _ :: s => includes p s end.

Section Script.
(** The lower case of a code unit above 127. *)
Context (lower_other : Z -> text).

Definition toLowerCase (s : text) : text :=
  concat (map (fun c => if (65 <=? c) && (c <=? 90) then [c + 32]
                        else if c <=? 127 then [c] else lower_other c) s).

(** ** Finding the graphs of a member *)

(** The loop over the siblings behind a header; [tries_left] is
    [8 - tries]. *)
Fixpoint next_content (d : Document) (tries_left : nat) (content : option nat) : option nat :=
  match content with
  | None => None
  | Some c =>
      if has_class d (str "dyncontent") c then Some c
      else
        match tries_left with
        | O => Some c
        | S tries_left => next_content d tries_left (nextElementSibling d c)
        end
  end.

Definition find_content (d : Document) (header : nat) : option nat :=
  next_content d 8 (nextElementSibling d header).

(** The content and the header of one graph: the script assigns the two
    variables of a graph together. *)
Record Graph : Type := { content : nat; header : nat }.

(** The variables a member's headers are read into. *)
Record Graphs : Type := { callGraph : option Graph; callerGraph : option Graph }.

#[export] Instance Graph_eq_dec : EqDecision Graph.
Proof. solve_decision. Defined.
#[export] Instance Graphs_eq_dec : EqDecision Graphs.
Proof. solve_decision. Defined.

(** The kind a header's text gives: the three tests in their order. *)
Inductive kind : Type := IsCaller | IsCallGraph | IsCall | IsOther.

Definition classify (s : text) : kind :=
  if includes (str "caller") s then IsCaller
  else if includes (str "call graph") s || includes (str "callgraph") s ||
          includes (str "call graph for") s then IsCallGraph
  else if includes (str "call") s then IsCall
  else IsOther.

Definition header_kind (d : Document) (h : nat) : kind := classify (toLowerCase (trim (textContent d h))).

(** The callback on one header. *)
Definition read_header (d : Document) (gs : Graphs) (h : nat) : Graphs :=
  match find_content d h with
  | None => gs
  | Some c =>
      let g := Some {| content := c; header := h |} in
      match header_kind d h with
      | IsCaller => {| callGraph := callGraph gs; callerGraph := g |}
      | IsCallGraph => {| callGraph := g; callerGraph := callerGraph gs |}
      | IsCall =>
          if bool_decide (callGraph gs = None) then {| callGraph := g; callerGraph := callerGraph gs |}
          else gs
      | IsOther => gs
      end
  end.

Definition is_header : Document -> nat -> bool := tag_class_selector (str "div") (str "dynheader").

Definition read_headers (d : Document) (memdoc : nat) : Graphs :=
  fold_left (read_header d) (querySelectorAll is_header d memdoc)
    {| callGraph := None; callerGraph := None |}.

(** ** The buttons *)

(** [current]: [None] is [null]. *)
Inductive mode : Type := Caller | Call | Both.

(** The variables of the closure of the two listeners. *)
Record Closure : Type := {
  graphs : Graphs;
  callerBtn : nat;
  callBtn : nat;
  current : option mode
}.

Definition with_current (m : option mode) (cl : Closure) : Closure :=
  {| graphs := graphs cl; callerBtn := callerBtn cl; callBtn := callBtn cl; current := m |}.

(** The guarded assignments to the two [style.display] of a graph. *)
Definition set_graph (v : text) (g : option Graph) (d : Document) : Document :=
  match g with
  | Some g => set_display v (header g) (set_display v (content g) d)
  | None => d
  end.

Definition show : option Graph -> Document -> Document := set_graph (str "block").
Definition hide : option Graph -> Document -> Document := set_graph (str "none").

(** The branch of [setActive] for the caller graph. *)
Definition activate_caller (cl : Closure) (d : Document) : Document * option mode :=
  match current cl with
  | Some Caller => (hide (callerGraph (graphs cl)) d, None)
  | Some Call => (show (callerGraph (graphs cl)) d, Some Both)
  | Some Both => (hide (callerGraph (graphs cl)) d, Some Call)
  | None => (hide (callGraph (graphs cl)) (show (callerGraph (graphs cl)) d), Some Caller)
  end.

(** The branch for the call graph. *)
Definition activate_call (cl : Closure) (d : Document) : Document * option mode :=
  match current cl with
  | Some Call => (hide (callGraph (graphs cl)) d, None)
  | Some Caller => (show (callGraph (graphs cl)) d, Some Both)
  | Some Both => (hide (callGraph (graphs cl)) d, Some Caller)
  | None => (hide (callerGraph (graphs cl)) (show (callGraph (graphs cl)) d), Some Call)
  end.

Definition shows_caller (m : option mode) : bool :=
  match m with Some Caller | Some Both => true | _ => false end.

Definition shows_call (m : option mode) : bool :=
  match m with Some Call | Some Both => true | _ => false end.

(** The style of the buttons. *)
Definition update_buttons (cl : Closure) (d : Document) : Document :=
  set_props (toggle_class (str "active") (shows_call (current cl))) (callBtn cl)
    (set_props (toggle_class (str "active") (shows_caller (current cl))) (callerBtn cl) d).

Definition setActive (type : text) (st : Document * Closure) : Document * Closure :=
  let '(d, cl) := st in
  let '(d, m) :=
    if bool_decide (type = str "caller") then activate_caller cl d
    else if bool_decide (type = str "call") then activate_call cl d
    else (d, current cl) in
  let cl := with_current m cl in
  (update_buttons cl d, cl).

Definition is_disabled (d : Document) (i : nat) : bool :=
  match props d !! i with Some p => disabled p | None => false end.

(** The two listeners. *)
Inductive button : Type := CallerButton | CallButton.

Definition click (b : button) (st : Document * Closure) : Document * Closure :=
  match b with
  | CallerButton => if is_disabled st.1 (callerBtn st.2) then st else setActive (str "caller") st
  | CallButton => if is_disabled st.1 (callBtn st.2) then st else setActive (str "call") st
  end.

(** ** The set-up of one member *)

(** The elements of the toggle, detached: the toggle, its buttons and the node. *)
Definition create_toggle (d : Document) : (nat * nat * nat * node) * Document :=
  let '(toggle, d) := createElement (str "div") d in
  let d := set_props (with_classes [str "graph-toggle"]) toggle d in
  let '(callerBtn, d) := createElement (str "button") d in
  let d := set_props (with_type (str "button")) callerBtn d in
  let '(callerText, d) := createText d in
  let '(callBtn, d) := createElement (str "button") d in
  let d := set_props (with_type (str "button")) callBtn d in
  let '(callText, d) := createText d in
  ((toggle, callerBtn, callBtn,
    Elem toggle [Elem callerBtn [Text callerText (str "Caller Graph")];
                 Elem callBtn [Text callText (str "Call Graph")]]), d).

(** A button without its graph. *)
Definition disable_button (i : nat) (d : Document) : Document :=
  set_props (add_class (str "disabled")) i (set_props (with_disabled true) i d).

Definition disable_missing (g : option Graph) (i : nat) (d : Document) : Document :=
  match g with Some _ => d | None => disable_button i d end.

(** The callback on one member: the page it leaves, and the closure of the
    listeners it registers, if any. *)
Definition setup_memdoc (memdoc : nat) (d : Document) : Document * result (option Closure) DOMException :=
  let gs := read_headers d memdoc in
  if bool_decide (callGraph gs = None) && bool_decide (callerGraph gs = None) then (d, Ok None)
  else if bool_decide (is_Some (querySelector (class_selector (str "graph-toggle")) d memdoc))
  then (d, Ok None)
  else
    let '((toggle, callerBtn, callBtn, toggle_node), d) := create_toggle d in
    let firstHeader := querySelector is_header d memdoc in
    let firstChild := node_id <$> head (childNodes d memdoc) in
    let reference := match firstHeader with Some h => Some h | None => firstChild end in
    match insertBefore memdoc toggle_node reference d with
    | Err e => (d, Err e)
    | Ok d =>
        let d := hide (callerGraph gs) d in
        let d := hide (callGraph gs) d in
        let d := disable_missing (callerGraph gs) callerBtn d in
        let d := disable_missing (callGraph gs) callBtn d in
        (d, Ok (Some {| graphs := gs; callerBtn := callerBtn; callBtn := callBtn; current := None |}))
    end.

(** The loop over the members; an exception ends it. *)
Fixpoint setup_all (memdocs : list nat) (d : Document) : Document * list Closure * option DOMException :=
  match memdocs with
  | [] => (d, [], None)
  | m :: ms =>
      match setup_memdoc m d with
      | (d, Err e) => (d, [], Some e)
      | (d, Ok cl) =>
          let '(d, cls, e) := setup_all ms d in
          (d, option_list cl ++ cls, e)
      end
  end.

(** The listener of [DOMContentLoaded]. *)
Definition ready (d : Document) : Document * list Closure * option DOMException :=
  setup_all (document_querySelectorAll (class_selector (str "memdoc")) d) d.
End Script.

(** A click on a button of the [i]-th member with buttons. *)
Definition page_click (st : Document * list Closure) (c : nat * button) : Document * list Closure :=
  match st.2 !! c.1 with
  | Some cl => let '(d, cl) := click c.2 (st.1, cl) in (d, <[c.1 := cl]> st.2)
  | None => st
  end.
