(* ===== verification/GraphPage.v ===== *)
(** * The page of the call-graph toggle: its tree

    The well-formedness of a page, and what the queries and the insertion of
    [graph_toggle.js] do to its tree. *)
From S2P Require Import Prelude GraphToggle.
Open Scope cockatrice_scope.
Local Open Scope Z_scope.

Section NodeInd.
Context (P : node -> Prop).
Hypothesis Ptext : forall i s, P (Text i s).
Hypothesis Pelem : forall i ks, Forall P ks -> P (Elem i ks).

Fixpoint page_node_ind (n : node) : P n :=
  match n with
  | Text i s => Ptext i s
  | Elem i ks =>
      Pelem i ks
        ((fix all (l : list node) : Forall P l :=
            match l with
            | [] => Forall_nil_2 P
            | k :: l => Forall_cons_2 P k l (page_node_ind k) (all l)
            end) ks)
  end.
End NodeInd.

Fixpoint ids (n : node) : list nat :=
  match n with
  | Text i _ => [i]
  | Elem i ks => i :: concat (map ids ks)
  end.

Definition all_ids (ks : list node) : list nat := concat (map ids ks).

(** Every node of the page has an identity of its own, below the next one and
    not the document's; every element of the page has properties, and nothing
    has properties that was not created. *)
Record page_ok (d : Document) : Prop := {
  pg_ids : NoDup (all_ids (tree d));
  pg_range : Forall (fun i => 0 < i < next d)%nat (all_ids (tree d));
  pg_props : forall i, i ∈ all_elements (tree d) -> is_Some (props d !! i);
  pg_dom : forall i, is_Some (props d !! i) -> (i < next d)%nat;
  pg_next : (0 < next d)%nat
}.

Lemma all_ids_app k l : all_ids (k ++ l) = all_ids k ++ all_ids l.
Proof. unfold all_ids. by rewrite map_app, concat_app. Qed.

Lemma all_ids_cons n l : all_ids (n :: l) = ids n ++ all_ids l.
Proof. done. Qed.

Lemma all_elements_app k l : all_elements (k ++ l) = all_elements k ++ all_elements l.
Proof. unfold all_elements. by rewrite map_app, concat_app. Qed.

Lemma all_elements_cons n l : all_elements (n :: l) = elements n ++ all_elements l.
Proof. done. Qed.

Lemma elements_ids n : elements n `sublist_of` ids n.
Proof.
  induction n as [i s|i ks IH] using page_node_ind; cbn; [apply sublist_nil_l|]. apply sublist_skip.
  induction IH as [|k ks Hk _ IH]; [done|]. cbn. by apply sublist_app.
Qed.

Lemma all_elements_ids ks : all_elements ks `sublist_of` all_ids ks.
Proof.
  induction ks as [|k ks IH]; [done|]. rewrite all_elements_cons, all_ids_cons.
  apply sublist_app; [apply elements_ids|done].
Qed.

Lemma elements_in ks i : i ∈ all_elements ks -> i ∈ all_ids ks.
Proof. intros H. eapply elem_of_sublist; [exact H|apply all_elements_ids]. Qed.

Lemma node_id_in n : node_id n ∈ ids n.
Proof. destruct n; cbn; apply elem_of_cons; auto. Qed.

Lemma in_all_ids z ks : z ∈ all_ids ks <-> exists n, n ∈ ks /\ z ∈ ids n.
Proof.
  induction ks as [|k ks IH]; [cbn; split; [by intros ?%not_elem_of_nil|by intros (? & ?%not_elem_of_nil & _)]|].
  rewrite all_ids_cons, elem_of_app, IH. setoid_rewrite elem_of_cons. naive_solver.
Qed.

(** ** Looking up a node *)

Lemma lookup_node_elem i ks x : lookup_node x (Elem i ks) =
  if Nat.eqb i x then Some (Elem i ks) else lookup_forest x ks.
Proof.
  cbn. destruct (Nat.eqb i x); [done|]. induction ks as [|k ks IH]; [done|]. cbn.
  by destruct (lookup_node x k).
Qed.

Lemma lookup_absent x n : x ∉ ids n -> lookup_node x n = None.
Proof.
  induction n as [i s|i ks IH] using page_node_ind; intros Hx.
  - cbn in *. destruct (Nat.eqb_spec i x); [set_solver|done].
  - rewrite lookup_node_elem. cbn in Hx. apply not_elem_of_cons in Hx as [H1 H2].
    destruct (Nat.eqb_spec i x); [congruence|]. fold (all_ids ks) in H2. clear H1.
    induction IH as [|k ks Hk _ IH]; [done|]. rewrite all_ids_cons, not_elem_of_app in H2.
    destruct H2 as [H2 H3]. cbn. rewrite Hk by done. auto.
Qed.

Lemma lookup_forest_absent x ks : x ∉ all_ids ks -> lookup_forest x ks = None.
Proof.
  induction ks as [|k ks IH]; [done|]. rewrite all_ids_cons, not_elem_of_app. intros [H1 H2].
  cbn. rewrite lookup_absent by done. auto.
Qed.

Lemma lookup_forest_cons x k ks : lookup_forest x (k :: ks) =
  match lookup_node x k with Some n => Some n | None => lookup_forest x ks end.
Proof. done. Qed.

(** An element of the page is found, with its children, and it is part of the
    page. *)
Lemma lookup_element ks : NoDup (all_ids ks) -> forall x, x ∈ all_elements ks ->
  exists cs, lookup_forest x ks = Some (Elem x cs).
Proof.
  intros Hnd x Hx.
  assert (Hn : forall n, NoDup (ids n) -> x ∈ elements n -> exists cs, lookup_node x n = Some (Elem x cs)).
  { clear. intros n. induction n as [i s|i ks IH] using page_node_ind; intros Hnd Hx; [by apply not_elem_of_nil in Hx|].
    rewrite lookup_node_elem. cbn in Hnd, Hx. apply NoDup_cons in Hnd as [_ Hnd].
    destruct (Nat.eqb_spec i x) as [->|Hi]; [by exists ks|].
    apply elem_of_cons in Hx as [|Hx]; [congruence|]. fold (all_ids ks) in Hnd. fold (all_elements ks) in Hx.
    induction IH as [|k ks Hk _ IH]; [by apply not_elem_of_nil in Hx|].
    rewrite all_ids_cons in Hnd. apply NoDup_app in Hnd as (H1 & H2 & H3).
    rewrite all_elements_cons in Hx. rewrite lookup_forest_cons. apply elem_of_app in Hx as [Hx|Hx].
    - by destruct (Hk H1 Hx) as [cs ->]; eauto.
    - rewrite lookup_absent; [by apply IH|]. intros Hk'. apply (H2 x Hk'). by apply elements_in. }
  induction ks as [|k ks IH]; [by apply not_elem_of_nil in Hx|].
  rewrite all_ids_cons in Hnd. apply NoDup_app in Hnd as (H1 & H2 & H3).
  rewrite all_elements_cons in Hx. rewrite lookup_forest_cons. apply elem_of_app in Hx as [Hx|Hx].
  - by destruct (Hn k H1 Hx) as [cs ->]; eauto.
  - rewrite lookup_absent; [by apply IH|]. intros Hk'. apply (H2 x Hk'). by apply elements_in.
Qed.

(** What is found is part of the page, with everything below it. *)
Lemma lookup_sub x n cs : lookup_node x n = Some (Elem x cs) ->
  all_ids cs `sublist_of` ids n /\ all_elements cs `sublist_of` elements n.
Proof.
  induction n as [i s|i ks IH] using page_node_ind.
  - cbn. by destruct (Nat.eqb i x).
  - rewrite lookup_node_elem. destruct (Nat.eqb i x).
    + intros [= -> ->]. cbn. split; by apply sublist_cons.
    + intros Hl. cbn. fold (all_ids ks) (all_elements ks).
      enough (all_ids cs `sublist_of` all_ids ks /\ all_elements cs `sublist_of` all_elements ks) as [H1 H2]
        by (split; by apply sublist_cons).
      induction IH as [|k ks Hk _ IH]; [done|]. rewrite lookup_forest_cons in Hl.
      rewrite all_ids_cons, all_elements_cons. destruct (lookup_node x k).
      * injection Hl as ->. destruct Hk as [H1 H2]; [done|]. split; by apply sublist_inserts_r.
      * destruct IH as [H1 H2]; [done|]. split; by apply sublist_inserts_l.
Qed.

Lemma lookup_forest_sub x ks cs : lookup_forest x ks = Some (Elem x cs) ->
  all_ids cs `sublist_of` all_ids ks /\ all_elements cs `sublist_of` all_elements ks.
Proof.
  induction ks as [|k ks IH]; [done|]. rewrite lookup_forest_cons, all_ids_cons, all_elements_cons.
  destruct (lookup_node x k) eqn:Hk.
  - intros [= ->]. destruct (lookup_sub _ _ _ Hk) as [H1 H2]. split; by apply sublist_inserts_r.
  - intros Hl. destruct (IH Hl) as [H1 H2]. split; by apply sublist_inserts_l.
Qed.

Lemma childNodes_sub d i : all_elements (childNodes d i) `sublist_of` all_elements (tree d).
Proof.
  unfold childNodes. destruct (lookup_forest i (tree d)) as [[j s|j cs]|] eqn:Hl; [apply sublist_nil_l| |apply sublist_nil_l].
  assert (j = i) as ->; [|by apply (lookup_forest_sub i)].
  clear -Hl. enough (H : forall n m, lookup_node i n = Some m -> node_id m = i).
  { induction (tree d) as [|k ks IH]; [done|]. rewrite lookup_forest_cons in Hl.
    destruct (lookup_node i k) eqn:Hk; [|auto]. injection Hl as ->. apply H in Hk. done. }
  clear. intros n. induction n as [j s|j ks IH] using page_node_ind; intros m.
  - cbn. destruct (Nat.eqb_spec j i); [|done]. by intros [= <-].
  - rewrite lookup_node_elem. destruct (Nat.eqb_spec j i); [by intros [= <-]|].
    induction IH as [|k ks Hk _ IH]; [done|]. rewrite lookup_forest_cons.
    destruct (lookup_node i k) eqn:E; [|done]. intros [= <-]. by apply Hk.
Qed.

(** ** Inserting below an element *)

(** The nodes at and below a node, told apart. *)
Fixpoint flat (n : node) : list (bool * nat) :=
  match n with
  | Text i _ => [(false, i)]
  | Elem i ks => (true, i) :: concat (map flat ks)
  end.

Definition all_flat (ks : list node) : list (bool * nat) := concat (map flat ks).

Lemma all_flat_app k l : all_flat (k ++ l) = all_flat k ++ all_flat l.
Proof. unfold all_flat. by rewrite map_app, concat_app. Qed.

Lemma all_flat_cons n l : all_flat (n :: l) = flat n ++ all_flat l.
Proof. done. Qed.

Lemma flat_ids n : ids n = map snd (flat n).
Proof.
  induction n as [i s|i ks IH] using page_node_ind; [done|]. cbn. f_equal.
  induction IH as [|k ks Hk _ IH]; [done|]. cbn. by rewrite map_app, Hk, IH.
Qed.

Lemma flat_elements n : elements n = map snd (List.filter fst (flat n)).
Proof.
  induction n as [i s|i ks IH] using page_node_ind; [done|]. cbn. f_equal.
  induction IH as [|k ks Hk _ IH]; [done|]. cbn. by rewrite List.filter_app, map_app, Hk, IH.
Qed.

Lemma all_flat_ids ks : all_ids ks = map snd (all_flat ks).
Proof. induction ks as [|k ks IH]; [done|]. by rewrite all_ids_cons, all_flat_cons, map_app, IH, flat_ids. Qed.

Lemma all_flat_elements ks : all_elements ks = map snd (List.filter fst (all_flat ks)).
Proof.
  induction ks as [|k ks IH]; [done|].
  by rewrite all_elements_cons, all_flat_cons, List.filter_app, map_app, IH, flat_elements.
Qed.

Lemma filter_perm {A} (f : A -> bool) l k : l ≡ₚ k -> List.filter f l ≡ₚ List.filter f k.
Proof.
  induction 1 as [|x l k _ IH|x y l|l k m _ IH1 _ IH2]; cbn; [done| | |by etransitivity].
  - destruct (f x); by rewrite IH.
  - destruct (f x), (f y); done || apply perm_swap.
Qed.

Lemma on_children_absent x f n : x ∉ ids n -> on_children x f n = n.
Proof.
  induction n as [i s|i ks IH] using page_node_ind; intros Hx; [done|].
  cbn in Hx |- *. apply not_elem_of_cons in Hx as [H1 H2]. fold (all_ids ks) in H2.
  destruct (Nat.eqb_spec i x); [congruence|]. f_equal. clear H1.
  induction IH as [|k ks Hk _ IH]; [done|]. rewrite all_ids_cons, not_elem_of_app in H2.
  destruct H2 as [H2 H3]. cbn. rewrite Hk by done. f_equal. auto.
Qed.

Lemma map_on_absent x f ks : x ∉ all_ids ks -> map (on_children x f) ks = ks.
Proof.
  induction ks as [|k ks IH]; [done|]. rewrite all_ids_cons, not_elem_of_app. intros [H1 H2].
  cbn. rewrite on_children_absent by done. f_equal. auto.
Qed.

Section Insert.
Context (x : nat) (f : list node -> list node) (cs : list node) (N : list (bool * nat)).
Hypothesis Hf : all_flat (f cs) ≡ₚ N ++ all_flat cs.

(** The page after a change of the children of one element: that element has
    the new children, and the page has the new nodes besides the old. *)
Lemma on_children_node n : NoDup (ids n) -> lookup_node x n = Some (Elem x cs) ->
  flat (on_children x f n) ≡ₚ N ++ flat n /\
  lookup_node x (on_children x f n) = Some (Elem x (f cs)).
Proof using Hf.
  induction n as [i s|i ks IH] using page_node_ind; intros Hnd.
  { cbn. by destruct (Nat.eqb i x). }
  rewrite lookup_node_elem. cbn in Hnd. apply NoDup_cons in Hnd as [Hi Hnd]. fold (all_ids ks) in Hi, Hnd.
  cbn [on_children flat]. destruct (Nat.eqb_spec i x) as [->|Hne].
  - intros [= ->]. rewrite map_on_absent by done. split; [|by rewrite lookup_node_elem, Nat.eqb_refl].
    fold (all_flat (f cs)) (all_flat cs). rewrite Hf. solve_Permutation.
  - intros Hl. rewrite lookup_node_elem. rewrite (proj2 (Nat.eqb_neq i x)) by done.
    fold (all_flat (map (on_children x f) ks)) (all_flat ks).
    enough (all_flat (map (on_children x f) ks) ≡ₚ N ++ all_flat ks /\
            lookup_forest x (map (on_children x f) ks) = Some (Elem x (f cs))) as [H1 H2]
      by (split; [rewrite H1; solve_Permutation|done]).
    clear Hi Hne. induction IH as [|k ks Hk _ IH]; [done|].
    rewrite all_ids_cons in Hnd. apply NoDup_app in Hnd as (H1 & H2 & H3).
    rewrite lookup_forest_cons in Hl. cbn [map]. rewrite lookup_forest_cons, !all_flat_cons.
    destruct (lookup_node x k) as [n|] eqn:En.
    + injection Hl as ->. destruct (Hk H1 eq_refl) as [G1 G2]. rewrite G2. split; [|done].
      assert (Hx : x ∈ ids k).
      { destruct (decide (x ∈ ids k)) as [|Hn]; [done|]. by rewrite lookup_absent in En. }
      rewrite map_on_absent by (by apply H2). rewrite G1. solve_Permutation.
    + destruct (IH H3 Hl) as [G1 G2].
      assert (Hx : x ∈ all_ids ks).
      { destruct (decide (x ∈ all_ids ks)) as [|Hn]; [done|]. by rewrite lookup_forest_absent in Hl. }
      assert (Hxk : x ∉ ids k) by (intros Hxk; by apply (H2 x Hxk)).
      rewrite on_children_absent, En by done. split; [|done]. rewrite G1. solve_Permutation.
Qed.

Lemma on_children_forest ks : NoDup (all_ids ks) -> lookup_forest x ks = Some (Elem x cs) ->
  all_flat (map (on_children x f) ks) ≡ₚ N ++ all_flat ks /\
  lookup_forest x (map (on_children x f) ks) = Some (Elem x (f cs)).
Proof using Hf.
  induction ks as [|k ks IH]; intros Hnd Hl; [done|].
  rewrite all_ids_cons in Hnd. apply NoDup_app in Hnd as (H1 & H2 & H3).
  rewrite lookup_forest_cons in Hl. cbn [map]. rewrite lookup_forest_cons, !all_flat_cons.
  destruct (lookup_node x k) as [n|] eqn:En.
  - injection Hl as ->. destruct (on_children_node k H1 En) as [G1 G2]. rewrite G2. split; [|done].
    assert (Hx : x ∈ ids k).
    { destruct (decide (x ∈ ids k)) as [|Hn]; [done|]. by rewrite lookup_absent in En. }
    rewrite map_on_absent by (by apply H2). rewrite G1. solve_Permutation.
  - destruct (IH H3 Hl) as [G1 G2].
    assert (Hx : x ∈ all_ids ks).
    { destruct (decide (x ∈ all_ids ks)) as [|Hn]; [done|]. by rewrite lookup_forest_absent in Hl. }
    assert (Hxk : x ∉ ids k) by (intros Hxk; by apply (H2 x Hxk)).
    rewrite on_children_absent, En by done. split; [|done]. rewrite G1. solve_Permutation.
Qed.
End Insert.

Lemma insert_before_split n r ks : r ∈ map node_id ks ->
  exists k1 k k2, ks = k1 ++ k :: k2 /\ node_id k = r /\ insert_before n r ks = k1 ++ n :: k :: k2 /\
    r ∉ map node_id k1.
Proof.
  induction ks as [|k ks IH]; [by intros ?%not_elem_of_nil|]. cbn. intros Hr.
  destruct (Nat.eqb_spec (node_id k) r) as [E|Hne].
  - exists [], k, ks. split_and!; [done|done|done|]. apply not_elem_of_nil.
  - apply elem_of_cons in Hr as [|Hr]; [congruence|]. destruct (IH Hr) as (k1 & k' & k2 & -> & E & -> & Hk).
    exists (k :: k1), k', k2. split_and!; [done..|]. cbn. apply not_elem_of_cons. split; [congruence|done].
Qed.

Lemma insert_before_flat n r ks : r ∈ map node_id ks ->
  all_flat (insert_before n r ks) ≡ₚ flat n ++ all_flat ks.
Proof.
  intros (k1 & k & k2 & -> & _ & -> & _)%(insert_before_split n).
  rewrite !all_flat_app, !all_flat_cons. solve_Permutation.
Qed.

(** ** Siblings *)

Lemma behind_Some i ks l : behind i ks = Some l ->
  exists k1 k, ks = k1 ++ k :: l /\ node_id k = i.
Proof.
  induction ks as [|k ks IH]; [done|]. cbn. destruct (Nat.eqb_spec (node_id k) i).
  - intros [= ->]. by exists [], k.
  - intros (k1 & k' & -> & E)%IH. by exists (k :: k1), k'.
Qed.

Lemma behind_absent i ks : i ∉ all_ids ks -> behind i ks = None.
Proof.
  induction ks as [|k ks IH]; [done|]. rewrite all_ids_cons, not_elem_of_app. intros [H1 H2]. cbn.
  destruct (Nat.eqb_spec (node_id k) i) as [<-|]; [by destruct H1; apply node_id_in|auto].
Qed.

(** A node behind another has behind it what follows. *)
Lemma behind_next i ks p k l : NoDup (all_ids ks) ->
  behind i ks = Some (p ++ k :: l) -> behind (node_id k) ks = Some l.
Proof.
  intros Hnd (k1 & k0 & -> & _)%behind_Some.
  replace (k1 ++ k0 :: p ++ k :: l) with ((k1 ++ k0 :: p) ++ k :: l) in * by (by rewrite <- app_assoc).
  revert Hnd. generalize (k1 ++ k0 :: p). intros q. induction q as [|a q IH]; cbn [app behind].
  - by rewrite Nat.eqb_refl.
  - rewrite all_ids_cons. intros (H1 & H2 & H3)%NoDup_app.
    destruct (Nat.eqb_spec (node_id a) (node_id k)) as [E|]; [|by apply IH].
    exfalso. apply (H2 (node_id a)); [apply node_id_in|]. rewrite E. apply in_all_ids.
    exists k. split; [|apply node_id_in]. apply elem_of_app. right. apply elem_of_cons. auto.
Qed.

(** The search for the siblings of a node among some nodes and below them. *)
Fixpoint siblings_forest (i : nat) (l : list node) : option (list node) :=
  match l with
  | [] => None
  | k :: l => match siblings_below i k with Some x => Some x | None => siblings_forest i l end
  end.

Lemma siblings_elem i j ks : siblings_below i (Elem j ks) =
  match behind i ks with Some l => Some l | None => siblings_forest i ks end.
Proof.
  cbn. destruct (behind i ks); [done|]. induction ks as [|k ks IH]; [done|]. cbn.
  by destruct (siblings_below i k).
Qed.

Lemma siblings_absent i n : i ∉ ids n -> siblings_below i n = None.
Proof.
  induction n as [j s|j ks IH] using page_node_ind; intros Hi; [done|]. rewrite siblings_elem.
  cbn in Hi. apply not_elem_of_cons in Hi as [_ Hi]. fold (all_ids ks) in Hi. rewrite behind_absent by done.
  induction IH as [|k ks Hk _ IH]; [done|]. rewrite all_ids_cons, not_elem_of_app in Hi. destruct Hi as [H1 H2].
  cbn. rewrite Hk by done. auto.
Qed.

Lemma siblings_in i n l k : siblings_below i n = Some l -> k ∈ l ->
  exists j ks, n = Elem j ks /\ node_id k ∈ all_ids ks.
Proof.
  revert l. induction n as [j s|j ks IH] using page_node_ind; intros l; [done|]. rewrite siblings_elem.
  intros Hl Hk. exists j, ks. split; [done|]. destruct (behind i ks) as [l'|] eqn:Hb.
  - injection Hl as ->. apply behind_Some in Hb as (k1 & k0 & -> & _). apply in_all_ids.
    exists k. split; [|apply node_id_in]. apply elem_of_app. right. apply elem_of_cons. auto.
  - clear Hb. induction IH as [|c cs Hc _ IH]; [done|]. cbn in Hl. rewrite all_ids_cons, elem_of_app.
    destruct (siblings_below i c) as [l'|] eqn:Hs.
    + left. injection Hl as ->. destruct (Hc l eq_refl Hk) as (j' & ks' & -> & Hin). cbn.
      apply elem_of_cons. by right.
    + right. by apply IH.
Qed.

Lemma siblings_next i n p k l : NoDup (ids n) ->
  siblings_below i n = Some (p ++ k :: l) -> siblings_below (node_id k) n = Some l.
Proof.
  induction n as [j s|j ks IH] using page_node_ind; [done|]. rewrite !siblings_elem. cbn [ids].
  fold (all_ids ks). intros [_ Hnd]%NoDup_cons Hl. destruct (behind i ks) as [l'|] eqn:Hb.
  { injection Hl as ->. by rewrite (behind_next _ _ _ _ _ Hnd Hb). }
  assert (Hdeep : forall cs, Forall (fun c => NoDup (ids c) -> siblings_below i c = Some (p ++ k :: l) ->
      siblings_below (node_id k) c = Some l) cs -> NoDup (all_ids cs) ->
      siblings_forest i cs = Some (p ++ k :: l) ->
      behind (node_id k) cs = None /\ siblings_forest (node_id k) cs = Some l /\ node_id k ∈ all_ids cs).
  { clear. intros cs IH. induction IH as [|c cs Hc _ IH]; intros Hnd Hl; [done|].
    rewrite all_ids_cons in Hnd. apply NoDup_app in Hnd as (H1 & H2 & H3). cbn [siblings_forest behind] in *.
    destruct (siblings_below i c) as [l'|] eqn:Hs.
    - injection Hl as ->. destruct (siblings_in _ _ _ k Hs) as (j & ks & -> & Hin).
      { apply elem_of_app. right. apply elem_of_cons. auto. }
      rewrite (Hc H1 eq_refl). cbn [node_id ids] in *. fold (all_ids ks) in *. split_and!; [|done|].
      + apply NoDup_cons in H1 as [H1 _]. destruct (Nat.eqb_spec j (node_id k)) as [->|]; [done|].
        apply behind_absent. apply H2, elem_of_cons. by right.
      + rewrite all_ids_cons, elem_of_app. left. cbn. apply elem_of_cons. by right.
    - destruct (IH H3 Hl) as (G1 & G2 & G3).
      assert (Hk : node_id k ∉ ids c) by (intros Hk; by apply (H2 _ Hk)).
      rewrite siblings_absent by done. split_and!; [|done|].
      + destruct (Nat.eqb_spec (node_id c) (node_id k)) as [E|]; [|done].
        destruct Hk. rewrite <- E. apply node_id_in.
      + rewrite all_ids_cons, elem_of_app. by right. }
  destruct (Hdeep ks IH Hnd Hl) as (-> & -> & _). done.
Qed.

(** The element siblings behind a node, in order. *)
Definition element_siblings (d : Document) (h : nat) : list nat :=
  match siblings_below h (Elem 0 (tree d)) with
  | Some l => map node_id (List.filter is_elem l)
  | None => []
  end.

Lemma filter_find {A} (f : A -> bool) l :
  match List.find f l with
  | Some k => exists p l', l = p ++ k :: l' /\ List.filter f l = k :: List.filter f l'
  | None => List.filter f l = []
  end.
Proof.
  induction l as [|a l IH]; [done|]. cbn. destruct (f a); [by exists [], l|].
  destruct (List.find f l) as [k|]; [|done]. destruct IH as (p & l' & -> & E). by exists (a :: p), l'.
Qed.

Lemma page_root_ids d : page_ok d -> NoDup (ids (Elem 0 (tree d))).
Proof.
  intros [H1 H2 _ _ _]. cbn. fold (all_ids (tree d)). apply NoDup_cons. split; [|done].
  intros Hin. rewrite Forall_forall in H2. specialize (H2 _ Hin). lia.
Qed.

Lemma next_sibling_head d h : nextElementSibling d h = head (element_siblings d h).
Proof.
  unfold nextElementSibling, element_siblings. destruct (siblings_below h _) as [l|]; [|done]. cbn.
  pose proof (filter_find is_elem l) as Hf. destruct (List.find is_elem l) as [k|].
  - by destruct Hf as (p & l' & _ & ->).
  - by rewrite Hf.
Qed.

Lemma element_siblings_next d h x rest : page_ok d ->
  element_siblings d h = x :: rest -> element_siblings d x = rest.
Proof.
  intros Hd. unfold element_siblings at 1. destruct (siblings_below h _) as [l|] eqn:Hl; [|done].
  pose proof (filter_find is_elem l) as Hf. destruct (List.find is_elem l) as [k|]; [|by rewrite Hf].
  destruct Hf as (p & l' & -> & ->). intros [= <- <-]. unfold element_siblings.
  by rewrite (siblings_next _ _ _ _ _ (page_root_ids _ Hd) Hl).
Qed.

Lemma is_elem_in k ks : is_elem k = true -> k ∈ ks -> node_id k ∈ all_elements ks.
Proof.
  intros He Hk. induction ks as [|c ks IH]; [by apply not_elem_of_nil in Hk|].
  rewrite all_elements_cons, elem_of_app. apply elem_of_cons in Hk as [->|Hk]; [|auto].
  left. destruct c; [done|]. cbn. apply elem_of_cons. auto.
Qed.

(** Siblings are elements of the page. *)
Lemma element_siblings_in d h x : x ∈ element_siblings d h -> x ∈ all_elements (tree d).
Proof.
  unfold element_siblings. destruct (siblings_below h _) as [l|] eqn:Hl; [|by intros ?%not_elem_of_nil].
  intros (k & -> & [Hk He]%list_elem_of_In%List.filter_In)%list_elem_of_fmap.
  apply list_elem_of_In in Hk. revert Hl. rewrite siblings_elem.
  assert (Hdeep : forall cs, siblings_forest h cs = Some l -> node_id k ∈ all_elements cs).
  { assert (Hn : forall n l, siblings_below h n = Some l -> k ∈ l -> node_id k ∈ elements n).
    { clear -He. intros n. induction n as [j s|j ks IH] using page_node_ind; intros l; [done|].
      rewrite siblings_elem. intros Hl Hk. cbn. apply elem_of_cons. right. fold (all_elements ks).
      destruct (behind h ks) as [l'|] eqn:Hb.
      - injection Hl as ->. apply behind_Some in Hb as (k1 & k0 & -> & _). apply is_elem_in; [done|].
        apply elem_of_app. right. apply elem_of_cons. auto.
      - clear Hb. induction IH as [|c cs Hc _ IH]; [done|]. cbn in Hl. rewrite all_elements_cons, elem_of_app.
        destruct (siblings_below h c); [left; injection Hl as ->; by apply (Hc l)|right; by apply IH]. }
    intros cs. induction cs as [|c cs IH]; [done|]. cbn [siblings_forest]. rewrite all_elements_cons, elem_of_app.
    destruct (siblings_below h c) eqn:Hc; [intros [= ->]; left; by apply (Hn c l)|right; auto]. }
  destruct (behind h (tree d)) as [l'|] eqn:Hb; [|by apply Hdeep].
  intros [= ->]. apply behind_Some in Hb as (k1 & k0 & -> & _). apply is_elem_in; [done|].
  apply elem_of_app. right. apply elem_of_cons. auto.
Qed.
