(* ===== verification/GraphToggleCorrect.v ===== *)
(** * Correctness of the call-graph toggle

    The two buttons of a member as two independent switches, the search for the
    graphs against its specification, the set-up of a member with its error, and
    the well-formedness of the page throughout. *)
From S2P Require Import Prelude GraphToggle GraphPage.
Open Scope cockatrice_scope.
Local Open Scope Z_scope.

(** ** Properties of elements *)

Lemma set_props_eq f i d p : props d !! i = Some p -> props (set_props f i d) !! i = Some (f p).
Proof. intros Hp. cbn. by rewrite lookup_alter_eq, Hp. Qed.

Lemma set_props_ne f i j d : i <> j -> props (set_props f i d) !! j = props d !! j.
Proof. intros Hij. cbn. by apply lookup_alter_ne. Qed.

Lemma set_props_is_Some f i j d : is_Some (props (set_props f i d) !! j) <-> is_Some (props d !! j).
Proof.
  destruct (decide (i = j)) as [->|]; [|by rewrite set_props_ne].
  cbn. rewrite lookup_alter_eq. by destruct (props d !! j).
Qed.

Definition shown (v : bool) : text := if v then str "block" else str "none".

Definition graph_nodes (g : option Graph) : list nat :=
  match g with Some g => [content g; header g] | None => [] end.

(** The content and the header of a graph have one display. *)
Definition graph_ok (d : Document) (g : option Graph) (v : bool) : Prop :=
  forall i, i ∈ graph_nodes g -> display <$> props d !! i = Some (shown v).

(** A button is there, active as its graph is shown, and disabled when there is
    no graph to show. *)
Record button_ok (d : Document) (g : option Graph) (btn : nat) (v : bool) : Prop := {
  bt_there : is_Some (props d !! btn);
  bt_active : has_class d (str "active") btn = v;
  bt_disabled : is_disabled d btn = bool_decide (g = None);
  bt_missing : g = None -> v = false
}.

(** Two pages with the same properties on some elements. *)
Definition agree (S : list nat) (d d' : Document) : Prop :=
  forall i, i ∈ S -> props d' !! i = props d !! i.

Lemma graph_ok_agree d d' g v : agree (graph_nodes g) d d' -> graph_ok d g v -> graph_ok d' g v.
Proof. intros Ha Hg i Hi. rewrite Ha by done. by apply Hg. Qed.

Lemma button_ok_agree d d' g btn v : agree [btn] d d' -> button_ok d g btn v -> button_ok d' g btn v.
Proof.
  intros Ha [H1 H2 H3 H4]. assert (E : props d' !! btn = props d !! btn) by (apply Ha; set_solver).
  unfold has_class, is_disabled in *. constructor; unfold has_class, is_disabled; by rewrite ?E.
Qed.

Lemma set_graph_ok d g v w : (forall i, i ∈ graph_nodes g -> is_Some (props d !! i)) ->
  v = shown w -> graph_ok (set_graph v g d) g w.
Proof.
  intros Hs -> i Hi. destruct g as [g|]; [|by apply not_elem_of_nil in Hi]. cbn in Hi.
  assert (Hc : i = header g \/ i <> header g /\ i = content g).
  { destruct (decide (i = header g)); [by left|]. right. set_solver. }
  unfold set_graph, set_display. destruct Hc as [->|[Hne ->]].
  - assert (Hh : is_Some (props (set_props (with_display (shown w)) (content g) d) !! header g)).
    { apply set_props_is_Some, Hs. cbn. set_solver. }
    destruct Hh as [p Hp]. rewrite (set_props_eq _ _ _ _ Hp). done.
  - rewrite set_props_ne by done. destruct (Hs (content g)) as [p Hp]; [cbn; set_solver|].
    by rewrite (set_props_eq _ _ _ _ Hp).
Qed.

Lemma set_graph_agree d g v S : (forall i, i ∈ S -> i ∉ graph_nodes g) -> agree S d (set_graph v g d).
Proof.
  intros HS i Hi. destruct g as [g|]; [|done]. specialize (HS i Hi). cbn in HS.
  unfold set_graph, set_display. by rewrite !set_props_ne by set_solver.
Qed.

Lemma graph_ok_there d g v i : graph_ok d g v -> i ∈ graph_nodes g -> is_Some (props d !! i).
Proof. intros Hg Hi. specialize (Hg i Hi). destruct (props d !! i); [eauto|done]. Qed.

(** ** One click *)

(** What [current] says about the two graphs. *)
Definition mode_of (caller call : bool) : option mode :=
  match caller, call with
  | true, true => Some Both
  | true, false => Some Caller
  | false, true => Some Call
  | false, false => None
  end.

Lemma shows_mode a b : shows_caller (mode_of a b) = a /\ shows_call (mode_of a b) = b.
Proof. by destruct a, b. Qed.

Definition closure_nodes (cl : Closure) : list nat :=
  [callerBtn cl; callBtn cl] ++ graph_nodes (callerGraph (graphs cl)) ++ graph_nodes (callGraph (graphs cl)).

(** The page shows the graphs of a member as two switches say. *)
Record shows (d : Document) (cl : Closure) (caller call : bool) : Prop := {
  sh_current : current cl = mode_of caller call;
  sh_caller : graph_ok d (callerGraph (graphs cl)) caller;
  sh_call : graph_ok d (callGraph (graphs cl)) call;
  sh_callerBtn : button_ok d (callerGraph (graphs cl)) (callerBtn cl) caller;
  sh_callBtn : button_ok d (callGraph (graphs cl)) (callBtn cl) call
}.

Lemma shows_agree d d' cl a b : agree (closure_nodes cl) d d' -> shows d cl a b -> shows d' cl a b.
Proof.
  intros Ha [H1 H2 H3 H4 H5]. unfold closure_nodes in Ha.
  assert (Hsub : forall S, (forall i, i ∈ S -> i ∈ closure_nodes cl) -> agree S d d')
    by (intros S HS i Hi; by apply Ha, HS).
  unfold closure_nodes in Hsub. constructor; try done.
  - eapply graph_ok_agree; [apply Hsub; set_solver|done].
  - eapply graph_ok_agree; [apply Hsub; set_solver|done].
  - eapply button_ok_agree; [apply Hsub; set_solver|done].
  - eapply button_ok_agree; [apply Hsub; set_solver|done].
Qed.

Lemma has_class_toggle c force p :
  bool_decide (c ∈ classes (toggle_class c force p)) = force.
Proof.
  unfold toggle_class, add_class. destruct force.
  - apply bool_decide_eq_true_2. cbn. case_bool_decide; set_solver.
  - apply bool_decide_eq_false_2. cbn. intros Hin. apply list_elem_of_In, List.filter_In in Hin as [_ Hin].
    by rewrite bool_decide_eq_true_2 in Hin.
Qed.

(** Setting the style of a button makes it active as the flag says. *)
Lemma toggle_button_ok d g btn v v' : button_ok d g btn v -> (g = None -> v' = false) ->
  button_ok (set_props (toggle_class (str "active") v') btn d) g btn v'.
Proof.
  intros [[p Hp] H2 H3 H4] Hv. pose proof (set_props_eq (toggle_class (str "active") v') _ _ _ Hp) as E.
  constructor; [by apply set_props_is_Some| | |done].
  - unfold has_class. rewrite E. apply has_class_toggle.
  - unfold is_disabled in *. rewrite E, Hp in *. rewrite <- H3.
    unfold toggle_class, add_class. by destruct v'.
Qed.

(** Two closures with the same variables but [current]. *)
Record same_closure (cl cl' : Closure) : Prop := {
  sm_graphs : graphs cl' = graphs cl;
  sm_callerBtn : callerBtn cl' = callerBtn cl;
  sm_callBtn : callBtn cl' = callBtn cl
}.

Lemma same_closure_nodes cl cl' : same_closure cl cl' -> closure_nodes cl' = closure_nodes cl.
Proof. intros [H1 H2 H3]. unfold closure_nodes. by rewrite H1, H2, H3. Qed.

Ltac separate Hnd :=
  unfold closure_nodes in Hnd; cbn [app] in Hnd;
  apply NoDup_cons in Hnd as [Hnd1 Hnd]; apply NoDup_cons in Hnd as [Hnd2 Hnd];
  apply NoDup_app in Hnd as (_ & Hnd3 & _).

(** The end of [setActive]: the graphs as two switches say, then the buttons. *)
Lemma update_buttons_shows d cl a b a0 b0 :
  NoDup (closure_nodes cl) ->
  graph_ok d (callerGraph (graphs cl)) a -> graph_ok d (callGraph (graphs cl)) b ->
  button_ok d (callerGraph (graphs cl)) (callerBtn cl) a0 ->
  button_ok d (callGraph (graphs cl)) (callBtn cl) b0 ->
  (callerGraph (graphs cl) = None -> a = false) -> (callGraph (graphs cl) = None -> b = false) ->
  let cl' := with_current (mode_of a b) cl in
  shows (update_buttons cl' d) cl' a b.
Proof.
  intros Hnd Ha Hb Hba Hbb Hna Hnb cl'. separate Hnd.
  unfold update_buttons. cbn [cl' with_current current callerBtn callBtn graphs].
  destruct (shows_mode a b) as [-> ->].
  constructor; cbn [cl' with_current current callerBtn callBtn graphs]; [done| | | |].
  - eapply graph_ok_agree; [|exact Ha]. intros i Hi. rewrite !set_props_ne; [done|set_solver..].
  - eapply graph_ok_agree; [|exact Hb]. intros i Hi. rewrite !set_props_ne; [done|set_solver..].
  - eapply button_ok_agree; [|by eapply toggle_button_ok].
    intros i ->%list_elem_of_singleton. rewrite set_props_ne; [done|set_solver].
  - eapply toggle_button_ok; [|done]. eapply button_ok_agree; [|exact Hbb].
    intros i ->%list_elem_of_singleton. rewrite set_props_ne; [done|set_solver].
Qed.

Lemma update_buttons_agree d cl S : (forall i, i ∈ S -> i ∉ closure_nodes cl) ->
  agree S d (update_buttons cl d).
Proof.
  intros HS i Hi. specialize (HS i Hi). unfold closure_nodes in HS. unfold update_buttons.
  rewrite !set_props_ne; [done|set_solver..].
Qed.

Definition has_graph (g : option Graph) : bool := bool_decide (is_Some g).

(** What a click does to the two switches. *)
Definition flip (b : button) (cl : Closure) (sw : bool * bool) : bool * bool :=
  match b with
  | CallerButton => (xorb (has_graph (callerGraph (graphs cl))) sw.1, sw.2)
  | CallButton => (sw.1, xorb (has_graph (callGraph (graphs cl))) sw.2)
  end.

Lemma activate_caller_ok d cl a b : NoDup (closure_nodes cl) -> shows d cl a b ->
  let '(d', m) := activate_caller cl d in
  m = mode_of (negb a) b /\ graph_ok d' (callerGraph (graphs cl)) (negb a) /\
  graph_ok d' (callGraph (graphs cl)) b /\
  forall S, (forall i, i ∈ S -> i ∉ graph_nodes (callerGraph (graphs cl)) ++ graph_nodes (callGraph (graphs cl))) ->
    agree S d d'.
Proof.
  intros Hnd [H1 H2 H3 _ _]. separate Hnd. unfold activate_caller, show, hide. rewrite H1.
  set (gr := callerGraph (graphs cl)) in *. set (gc := callGraph (graphs cl)) in *.
  assert (Hset : forall w, let d' := set_graph (shown w) gr d in
    graph_ok d' gr w /\ graph_ok d' gc b /\
    forall S, (forall i, i ∈ S -> i ∉ graph_nodes gr ++ graph_nodes gc) -> agree S d d').
  { intros w d'. split_and!.
    - apply set_graph_ok; [|done]. intros i Hi. by apply (graph_ok_there _ _ _ _ H2).
    - eapply graph_ok_agree; [|exact H3]. apply set_graph_agree. intros i Hi Hi'. by apply (Hnd3 i).
    - intros S HS. apply set_graph_agree. intros i Hi Hi'. apply (HS i Hi). set_solver. }
  destruct a, b; cbn [mode_of negb]; split; try done; [apply (Hset false)|apply (Hset false)|apply (Hset true)|].
  destruct (Hset true) as (G1 & G2 & G3). split_and!.
  - eapply graph_ok_agree; [|exact G1]. apply set_graph_agree. intros i Hi Hi'. by apply (Hnd3 i).
  - apply set_graph_ok; [|done]. intros i Hi. by apply (graph_ok_there _ _ _ _ G2).
  - intros S HS i Hi. rewrite (set_graph_agree _ gc _ S); [by apply (G3 S)| |done].
    intros j Hj Hj'. apply (HS j Hj). set_solver.
Qed.

Lemma activate_call_ok d cl a b : NoDup (closure_nodes cl) -> shows d cl a b ->
  let '(d', m) := activate_call cl d in
  m = mode_of a (negb b) /\ graph_ok d' (callerGraph (graphs cl)) a /\
  graph_ok d' (callGraph (graphs cl)) (negb b) /\
  forall S, (forall i, i ∈ S -> i ∉ graph_nodes (callerGraph (graphs cl)) ++ graph_nodes (callGraph (graphs cl))) ->
    agree S d d'.
Proof.
  intros Hnd [H1 H2 H3 _ _]. separate Hnd. unfold activate_call, show, hide. rewrite H1.
  set (gr := callerGraph (graphs cl)) in *. set (gc := callGraph (graphs cl)) in *.
  assert (Hset : forall w, let d' := set_graph (shown w) gc d in
    graph_ok d' gc w /\ graph_ok d' gr a /\
    forall S, (forall i, i ∈ S -> i ∉ graph_nodes gr ++ graph_nodes gc) -> agree S d d').
  { intros w d'. split_and!.
    - apply set_graph_ok; [|done]. intros i Hi. by apply (graph_ok_there _ _ _ _ H3).
    - eapply graph_ok_agree; [|exact H2]. apply set_graph_agree. intros i Hi Hi'. by apply (Hnd3 i).
    - intros S HS. apply set_graph_agree. intros i Hi Hi'. apply (HS i Hi). set_solver. }
  destruct a, b; cbn [mode_of negb]; split; try done; [| | |].
  - destruct (Hset false) as (G1 & G2 & G3). split_and!; done.
  - destruct (Hset true) as (G1 & G2 & G3). split_and!; done.
  - destruct (Hset false) as (G1 & G2 & G3). split_and!; done.
  - destruct (Hset true) as (G1 & G2 & G3). split_and!.
    + apply set_graph_ok; [|done]. intros i Hi. by apply (graph_ok_there _ _ _ _ G2).
    + eapply graph_ok_agree; [|exact G1]. apply set_graph_agree. intros i Hi Hi'. by apply (Hnd3 i).
    + intros S HS i Hi. rewrite (set_graph_agree _ gr _ S); [by apply (G3 S)| |done].
      intros j Hj Hj'. apply (HS j Hj). set_solver.
Qed.

Lemma button_disabled d g btn v : button_ok d g btn v -> is_disabled d btn = negb (has_graph g).
Proof. intros [_ _ H _]. rewrite H. by destruct g. Qed.

(** The parts of the page a change of properties leaves alone. *)
Definition same_tree (d d' : Document) : Prop := tree d' = tree d /\ next d' = next d.

Lemma set_graph_tree v g d : same_tree d (set_graph v g d).
Proof. by destruct g. Qed.

Lemma activate_tree cl d :
  same_tree d (activate_caller cl d).1 /\ same_tree d (activate_call cl d).1.
Proof.
  unfold activate_caller, activate_call, show, hide, same_tree.
  destruct (current cl) as [[]|]; cbn [fst]; split; split; by repeat rewrite ?(proj1 (set_graph_tree _ _ _)), ?(proj2 (set_graph_tree _ _ _)).
Qed.

(** What a click establishes, for new switches. *)
Definition click_spec (d : Document) (cl : Closure) (sw : bool * bool) (st : Document * Closure) : Prop :=
  same_closure cl st.2 /\ shows st.1 st.2 sw.1 sw.2 /\
  (forall S, (forall i, i ∈ S -> i ∉ closure_nodes cl) -> agree S d st.1) /\
  same_tree d st.1.

(** From the graphs of the new switches to the end of [setActive]. *)
Lemma setActive_end d d1 cl a b a0 b0 : NoDup (closure_nodes cl) -> shows d cl a0 b0 ->
  graph_ok d1 (callerGraph (graphs cl)) a -> graph_ok d1 (callGraph (graphs cl)) b ->
  (forall S, (forall i, i ∈ S -> i ∉ graph_nodes (callerGraph (graphs cl)) ++ graph_nodes (callGraph (graphs cl))) ->
    agree S d d1) ->
  same_tree d d1 ->
  (callerGraph (graphs cl) = None -> a = false) -> (callGraph (graphs cl) = None -> b = false) ->
  let cl' := with_current (mode_of a b) cl in
  click_spec d cl (a, b) (update_buttons cl' d1, cl').
Proof.
  intros Hnd [_ _ _ Hba Hbb] Ha Hb HS Ht Hna Hnb cl'. split_and!; [done| | |exact Ht].
  - apply (update_buttons_shows d1 cl a b a0 b0); try done.
    + eapply button_ok_agree; [|exact Hba]. apply HS. separate Hnd. set_solver.
    + eapply button_ok_agree; [|exact Hbb]. apply HS. separate Hnd. set_solver.
  - intros S Hd i Hi. cbn [fst]. rewrite (update_buttons_agree _ _ S); [|done|done].
    apply (HS S); [|done]. intros j Hj Hj'. apply (Hd j Hj). unfold closure_nodes. set_solver.
Qed.

Lemma click_none d cl a b : shows d cl a b -> click_spec d cl (a, b) (d, cl).
Proof. intros H. by split_and!. Qed.

(** A click flips the switch of its button, and touches nothing but the elements
    of its member. *)
Lemma click_shows btn d cl sw : NoDup (closure_nodes cl) -> shows d cl sw.1 sw.2 ->
  click_spec d cl (flip btn cl sw) (click btn (d, cl)).
Proof.
  intros Hnd Hsh. destruct sw as [a b]. cbn [fst snd] in Hsh. pose proof Hsh as [_ _ _ Hba Hbb].
  destruct btn; cbn [click flip fst snd].
  - rewrite (button_disabled _ _ _ _ Hba). destruct (callerGraph (graphs cl)) as [g|] eqn:Hg; [|by apply click_none].
    unfold setActive. rewrite bool_decide_eq_true_2 by done.
    pose proof (activate_caller_ok d cl a b Hnd Hsh) as Ha. pose proof (proj1 (activate_tree cl d)) as Ht.
    destruct (activate_caller cl d) as [d1 m]. destruct Ha as (-> & G1 & G2 & G3).
    apply (setActive_end d d1 cl (negb a) b a b); try done; [by rewrite Hg|by apply Hbb].
  - rewrite (button_disabled _ _ _ _ Hbb). destruct (callGraph (graphs cl)) as [g|] eqn:Hg; [|by apply click_none].
    unfold setActive. rewrite bool_decide_eq_false_2, bool_decide_eq_true_2 by done.
    pose proof (activate_call_ok d cl a b Hnd Hsh) as Ha. pose proof (proj2 (activate_tree cl d)) as Ht.
    destruct (activate_call cl d) as [d1 m]. destruct Ha as (-> & G1 & G2 & G3).
    apply (setActive_end d d1 cl a (negb b) a b); try done; [by apply Hba|by rewrite Hg].
Qed.

(** ** Any sequence of clicks on a page *)

(** Whether a button of a member was pressed an odd number of times. *)
Definition odd_presses (i : nat) (b : button) (clicks : list (nat * button)) : bool :=
  Nat.odd (length (List.filter (fun c => Nat.eqb c.1 i &&
    match c.2, b with CallerButton, CallerButton | CallButton, CallButton => true | _, _ => false end)
    clicks)).

(** The members of a page share no element: neither two members nor the two
    graphs of one. *)
Definition separate_members (cls : list Closure) : Prop := NoDup (concat (map closure_nodes cls)).

Lemma member_nodup cls i cl : separate_members cls -> cls !! i = Some cl -> NoDup (closure_nodes cl).
Proof.
  unfold separate_members. intros Hnd Hi. rewrite <- (take_drop_middle _ _ _ Hi), map_app, concat_app in Hnd.
  apply NoDup_app in Hnd as (_ & _ & Hnd). cbn [map concat] in Hnd. by apply NoDup_app in Hnd as (Hnd & _).
Qed.

Lemma members_disjoint cls i j cl cl' x : separate_members cls -> cls !! i = Some cl -> cls !! j = Some cl' ->
  i <> j -> x ∈ closure_nodes cl -> x ∉ closure_nodes cl'.
Proof.
  unfold separate_members. revert i j. induction cls as [|c cls IH]; intros i j Hnd Hi Hj Hij Hx Hx'; [done|].
  cbn [map concat] in Hnd. apply NoDup_app in Hnd as (_ & H2 & H3).
  assert (Hin : forall k c', cls !! k = Some c' -> forall y, y ∈ closure_nodes c' -> y ∈ concat (map closure_nodes cls)).
  { intros k c' Hk y Hy. apply list_elem_of_In, in_concat. exists (closure_nodes c').
    split; [|by apply list_elem_of_In]. apply in_map, list_elem_of_In. by apply (list_elem_of_lookup_2 _ k). }
  destruct i as [|i], j as [|j]; cbn in Hi, Hj; [done| | |].
  - injection Hi as ->. apply (H2 x Hx). by eapply Hin.
  - injection Hj as ->. apply (H2 x Hx'). by eapply Hin.
  - apply (IH i j H3 Hi Hj ltac:(congruence) Hx Hx').
Qed.

(** The switches of the members. *)
Definition switches_ok (d : Document) (cls : list Closure) (sw : nat -> bool * bool) : Prop :=
  forall i cl, cls !! i = Some cl -> shows d cl (sw i).1 (sw i).2.

Definition flip_at (cls : list Closure) (c : nat * button) (sw : nat -> bool * bool) (i : nat) : bool * bool :=
  match cls !! i with
  | Some cl => if Nat.eqb c.1 i then flip c.2 cl (sw i) else sw i
  | None => sw i
  end.

(** The variables of the closures but [current]. *)
Definition statics (cls : list Closure) : list Closure := with_current None <$> cls.

Lemma same_closure_static cl cl' : same_closure cl cl' -> with_current None cl' = with_current None cl.
Proof. intros [H1 H2 H3]. unfold with_current. by rewrite H1, H2, H3. Qed.

Lemma statics_insert cls i cl cl' : cls !! i = Some cl -> same_closure cl cl' ->
  statics (<[i := cl']> cls) = statics cls.
Proof.
  intros Hi Hs. unfold statics. rewrite list_fmap_insert, (same_closure_static _ _ Hs).
  apply list_insert_id. by rewrite list_lookup_fmap, Hi.
Qed.

Lemma statics_nodes cls cls' : statics cls' = statics cls -> map closure_nodes cls' = map closure_nodes cls.
Proof.
  intros H. assert (E : forall l, map closure_nodes l = map closure_nodes (statics l))
    by (induction l as [|c l IH]; [done|]; cbn; by f_equal). by rewrite (E cls'), H, <- (E cls).
Qed.

Lemma page_click_ok d cls sw c : separate_members cls -> switches_ok d cls sw ->
  let st := page_click (d, cls) c in
  statics st.2 = statics cls /\ switches_ok st.1 st.2 (flip_at cls c sw) /\ same_tree d st.1 /\
  (forall S, (forall i, i ∈ S -> i ∉ concat (map closure_nodes cls)) -> agree S d st.1).
Proof.
  intros Hsep Hsw. unfold page_click. cbn [fst snd]. destruct (cls !! c.1) as [cl|] eqn:Hc.
  2:{ split_and!; try done. intros i cl Hi. unfold flip_at. cbn [snd] in Hi. rewrite Hi.
      destruct (Nat.eqb_spec c.1 i) as [E|]; [by rewrite E, Hi in Hc|]. by apply Hsw. }
  pose proof (click_shows c.2 d cl (sw c.1) (member_nodup _ _ _ Hsep Hc) (Hsw _ _ Hc)) as (H1 & H2 & H3 & H4).
  destruct (click c.2 (d, cl)) as [d' cl']. cbn [fst snd] in *. split_and!; [by eapply statics_insert| |done|].
  - intros i cl'' Hi. unfold flip_at. destruct (decide (i = c.1)) as [->|Hne].
    + rewrite list_lookup_insert_eq in Hi by (by eapply lookup_lt_Some). injection Hi as <-.
      by rewrite Hc, Nat.eqb_refl.
    + rewrite list_lookup_insert_ne in Hi by done. rewrite Hi.
      destruct (Nat.eqb_spec c.1 i) as [|_]; [congruence|].
      eapply shows_agree; [|by apply Hsw]. apply H3. intros x Hx.
      by apply (members_disjoint cls i c.1 cl'' cl).
  - intros S HS. apply H3. intros i Hi Hx. apply (HS i Hi). apply list_elem_of_In, in_concat.
    exists (closure_nodes cl). split; [|by apply list_elem_of_In]. apply in_map, list_elem_of_In.
    by apply (list_elem_of_lookup_2 _ c.1).
Qed.

(** The switches after some clicks, from those before. *)
Definition after_clicks (cls : list Closure) (clicks : list (nat * button)) (sw : nat -> bool * bool)
    (i : nat) : bool * bool :=
  match cls !! i with
  | Some cl =>
      (xorb (sw i).1 (has_graph (callerGraph (graphs cl)) && odd_presses i CallerButton clicks),
       xorb (sw i).2 (has_graph (callGraph (graphs cl)) && odd_presses i CallButton clicks))
  | None => sw i
  end.

Lemma odd_presses_cons i b c clicks : odd_presses i b (c :: clicks) =
  xorb (Nat.eqb c.1 i && match c.2, b with CallerButton, CallerButton | CallButton, CallButton => true | _, _ => false end)
    (odd_presses i b clicks).
Proof.
  unfold odd_presses. cbn [List.filter]. destruct (_ && _); [|by rewrite xorb_false_l].
  cbn [length]. by rewrite xorb_true_l, Nat.odd_succ, Nat.negb_odd.
Qed.

Lemma after_clicks_cons cls cls' c clicks sw i : statics cls' = statics cls ->
  after_clicks cls' clicks (flip_at cls c sw) i = after_clicks cls (c :: clicks) sw i.
Proof.
  intros Hst. assert (Hi : with_current None <$> cls' !! i = with_current None <$> cls !! i)
    by (rewrite <- !list_lookup_fmap; unfold statics in Hst; by rewrite Hst).
  unfold after_clicks, flip_at. destruct (cls !! i) as [cl|], (cls' !! i) as [cl'|]; try done.
  injection Hi as E1 E2 E3. rewrite E1, !odd_presses_cons. destruct (Nat.eqb c.1 i), c.2; cbn [andb flip fst snd];
    destruct (has_graph (callerGraph _)), (has_graph (callGraph _)), (sw i) as [[] []];
    destruct (odd_presses i CallerButton clicks), (odd_presses i CallButton clicks); done.
Qed.

Lemma page_clicks_ok clicks : forall d cls sw, separate_members cls -> switches_ok d cls sw ->
  let st := fold_left page_click clicks (d, cls) in
  statics st.2 = statics cls /\ switches_ok st.1 st.2 (after_clicks cls clicks sw) /\ same_tree d st.1 /\
  (forall S, (forall i, i ∈ S -> i ∉ concat (map closure_nodes cls)) -> agree S d st.1).
Proof.
  induction clicks as [|c clicks IH]; intros d cls sw Hsep Hsw; cbn [fold_left].
  { split_and!; try done. intros i cl Hi. unfold after_clicks. cbn [snd] in Hi. rewrite Hi. cbn.
    rewrite !andb_false_r, !xorb_false_r. by apply Hsw. }
  pose proof (page_click_ok d cls sw c Hsep Hsw) as (H1 & H2 & H3 & H4).
  destruct (page_click (d, cls) c) as [d1 cls1]. cbn [fst snd] in *.
  assert (Hsep1 : separate_members cls1) by (unfold separate_members; by rewrite (statics_nodes _ _ H1)).
  destruct (IH d1 cls1 _ Hsep1 H2) as (G1 & G2 & G3 & G4). split_and!.
  - by rewrite G1.
  - intros i cl Hi. rewrite <- (after_clicks_cons cls cls1) by done. by apply G2.
  - destruct H3, G3. split; congruence.
  - intros S HS i Hi. rewrite (G4 S), (H4 S); [done|done|done| |done].
    intros j Hj. rewrite (statics_nodes _ _ H1). by apply HS.
Qed.

(** ** Finding the graphs *)

Lemma next_content_spec d n h : page_ok d ->
  let sibs := element_siblings d h in
  next_content d n (head sibs) =
  match List.find (has_class d (str "dyncontent")) (take n sibs) with
  | Some c => Some c
  | None => sibs !! n
  end.
Proof.
  intros Hd. revert h. induction n as [|n IH]; intros h; cbn zeta.
  - destruct (element_siblings d h) as [|x rest]; cbn; [done|]. by destruct (has_class _ _ _).
  - destruct (element_siblings d h) as [|x rest] eqn:Hs; [done|].
    cbn [next_content take List.find head]. destruct (has_class d (str "dyncontent") x); [done|].
    rewrite next_sibling_head, (IH x), (element_siblings_next _ _ _ _ Hd Hs). done.
Qed.

Lemma find_content_eq d h : page_ok d ->
  find_content d h =
  match List.find (has_class d (str "dyncontent")) (take 8 (element_siblings d h)) with
  | Some c => Some c
  | None => element_siblings d h !! 8%nat
  end.
Proof. intros Hd. unfold find_content. rewrite next_sibling_head. by apply next_content_spec. Qed.

Lemma find_content_in d h c : page_ok d -> find_content d h = Some c -> c ∈ all_elements (tree d).
Proof.
  intros Hd. rewrite find_content_eq by done. destruct (List.find _ _) as [c'|] eqn:Hf.
  - intros [= <-]. apply (element_siblings_in d h). apply List.find_some in Hf as [Hf _].
    apply list_elem_of_In in Hf. eapply elem_of_subseteq; [|exact Hf].
    intros y Hy. by apply elem_of_take in Hy as (i & Hy & _); apply list_elem_of_lookup_2 in Hy.
  - intros Hc. apply (element_siblings_in d h). by apply list_elem_of_lookup_2 in Hc.
Qed.

Section Headers.
Context (lower_other : Z -> text) (d : Document).

(** The graph a header introduces, if it has content. *)
Definition graph_of (h : nat) : option Graph :=
  (fun c => {| content := c; header := h |}) <$> find_content d h.

(** The graphs of the headers of a kind, in document order. *)
Definition graphs_of (k : kind) (hs : list nat) : list Graph :=
  omap graph_of (List.filter (fun h =>
    match header_kind lower_other d h, k with
    | IsCaller, IsCaller | IsCallGraph, IsCallGraph | IsCall, IsCall => true
    | _, _ => false
    end) hs).

(** What the script keeps of the headers read so far. *)
Definition chosen (hs : list nat) : Graphs :=
  {| callGraph := match last (graphs_of IsCallGraph hs) with
                  | Some g => Some g
                  | None => head (graphs_of IsCall hs)
                  end;
     callerGraph := last (graphs_of IsCaller hs) |}.

Lemma graphs_of_snoc k hs h : graphs_of k (hs ++ [h]) = graphs_of k hs ++ graphs_of k [h].
Proof. unfold graphs_of. by rewrite List.filter_app, omap_app. Qed.

Lemma last_app_cons {A} (l : list A) x : last (l ++ [x]) = Some x.
Proof. apply last_snoc. Qed.

Lemma chosen_snoc hs h : chosen (hs ++ [h]) = read_header lower_other d (chosen hs) h.
Proof.
  unfold chosen. rewrite !graphs_of_snoc. unfold read_header.
  assert (E : forall k, graphs_of k [h] =
    match find_content d h, header_kind lower_other d h, k with
    | Some c, IsCaller, IsCaller | Some c, IsCallGraph, IsCallGraph | Some c, IsCall, IsCall =>
        [{| content := c; header := h |}]
    | _, _, _ => []
    end).
  { intros k. unfold graphs_of. cbn [List.filter].
    destruct (header_kind lower_other d h), k; cbn [omap list_omap]; unfold graph_of;
      destruct (find_content d h); reflexivity. }
  rewrite !E. destruct (find_content d h) as [c|]; [|by rewrite !app_nil_r].
  destruct (header_kind lower_other d h); rewrite ?app_nil_r, ?last_snoc; [done|done| |done].
  cbn [callGraph callerGraph]. destruct (last (graphs_of IsCallGraph hs)); [done|].
  destruct (graphs_of IsCall hs); [done|]. done.
Qed.

Lemma read_headers_eq m : read_headers lower_other d m = chosen (querySelectorAll is_header d m).
Proof.
  unfold read_headers. change {| callGraph := None; callerGraph := None |} with (chosen []).
  assert (H : forall l hs, fold_left (read_header lower_other d) l (chosen hs) = chosen (hs ++ l)).
  { induction l as [|h l IH]; intros hs; cbn [fold_left]; [by rewrite app_nil_r|].
    rewrite <- chosen_snoc, IH, <- app_assoc. done. }
  by rewrite H.
Qed.

Lemma graphs_of_in k hs g : g ∈ graphs_of k hs -> header g ∈ hs /\ find_content d (header g) = Some (content g).
Proof.
  unfold graphs_of. intros (h & [Hh _]%list_elem_of_In%List.filter_In & Hg)%list_elem_of_omap.
  unfold graph_of in Hg. destruct (find_content d h) eqn:Hc; [|done]. injection Hg as <-. cbn.
  split; [by apply list_elem_of_In|done].
Qed.

Lemma chosen_in hs g : callGraph (chosen hs) = Some g \/ callerGraph (chosen hs) = Some g ->
  header g ∈ hs /\ find_content d (header g) = Some (content g).
Proof.
  unfold chosen. cbn [callGraph callerGraph]. intros [H|H].
  - destruct (last (graphs_of IsCallGraph hs)) eqn:Hl.
    + injection H as ->. by apply last_Some_elem_of, graphs_of_in in Hl.
    + apply head_Some_elem_of in H. by apply graphs_of_in in H.
  - by apply last_Some_elem_of, graphs_of_in in H.
Qed.
End Headers.

(** ** Setting up a member *)

(** The elements of a page keep their properties in another one, but for a
    display that may have become [none]. *)
Definition hides (d d' : Document) : Prop := forall i p, props d !! i = Some p ->
  exists v, props d' !! i = Some (with_display v p) /\ (v = display p \/ v = str "none").

Lemma with_display_id p : with_display (display p) p = p.
Proof. by destruct p. Qed.

Lemma hides_same d d' : (forall i, is_Some (props d !! i) -> props d' !! i = props d !! i) -> hides d d'.
Proof.
  intros H i p Hp. exists (display p). rewrite with_display_id, H by eauto. by split; [|left].
Qed.

Lemma hides_refl d : hides d d.
Proof. by apply hides_same. Qed.

Lemma hides_trans d1 d2 d3 : hides d1 d2 -> hides d2 d3 -> hides d1 d3.
Proof.
  intros H1 H2 i p Hp. destruct (H1 i p Hp) as (v & Hv & Hc). destruct (H2 _ _ Hv) as (w & Hw & Hd).
  exists w. split; [by rewrite Hw|]. cbn in Hd. destruct Hd as [->|]; [done|by right].
Qed.

Lemma hides_display i d : hides d (set_display (str "none") i d).
Proof.
  intros j p Hp. unfold set_display. destruct (decide (i = j)) as [->|].
  - exists (str "none"). rewrite (set_props_eq _ _ _ _ Hp). by split; [|right].
  - exists (display p). rewrite set_props_ne, with_display_id by done. by split; [|left].
Qed.

Lemma hides_hide g d : hides d (hide g d).
Proof. destruct g; [|apply hides_refl]. eapply hides_trans; apply hides_display. Qed.

(** What hiding a graph does to each element. *)
Lemma hide_exact g d i : props (hide g d) !! i =
  (fun p => if bool_decide (i ∈ graph_nodes g) then with_display (str "none") p else p) <$> props d !! i.
Proof.
  destruct g as [g|]; cbn [hide set_graph graph_nodes].
  2:{ rewrite bool_decide_eq_false_2 by (apply not_elem_of_nil). by destruct (props d !! i). }
  unfold set_display, set_props. cbn [props].
  destruct (decide (i = header g)) as [->|H1]; [|destruct (decide (i = content g)) as [->|H2]].
  - rewrite lookup_alter_eq, bool_decide_eq_true_2 by (rewrite !elem_of_cons; auto).
    destruct (decide (header g = content g)) as [E|E].
    + rewrite E, lookup_alter_eq. by destruct (props d !! content g).
    + by rewrite lookup_alter_ne.
  - rewrite lookup_alter_ne, lookup_alter_eq by done.
    by rewrite bool_decide_eq_true_2 by (rewrite !elem_of_cons; auto).
  - rewrite !lookup_alter_ne, bool_decide_eq_false_2 by
      (done || by intros [?|[?|[]%not_elem_of_nil]%elem_of_cons]%elem_of_cons).
    by destruct (props d !! i).
Qed.

(** A member whose graphs are hidden keeps being as its buttons say. *)
Lemma shows_hides d d' cl : shows d cl false false -> hides d d' -> shows d' cl false false.
Proof.
  intros [H1 H2 H3 H4 H5] Hh.
  assert (Hg : forall g, graph_ok d g false -> graph_ok d' g false).
  { intros g Hg i Hi. specialize (Hg i Hi). destruct (props d !! i) as [p|] eqn:Hp; [|done].
    destruct (Hh i p Hp) as (v & -> & Hv). cbn in Hg |- *. injection Hg as Hg.
    destruct Hv as [-> | ->]; [by rewrite Hg|done]. }
  assert (Hb : forall g btn, button_ok d g btn false -> button_ok d' g btn false).
  { intros g btn [[p Hp] B2 B3 B4]. destruct (Hh btn p Hp) as (v & Hv & _).
    unfold has_class, is_disabled in *. rewrite Hp in *. constructor; unfold has_class, is_disabled; by rewrite ?Hv. }
  constructor; auto.
Qed.

(** Changing properties keeps the page well formed. *)
Lemma page_same_tree d d' : page_ok d -> tree d' = tree d -> next d' = next d ->
  (forall i, is_Some (props d' !! i) <-> is_Some (props d !! i)) -> page_ok d'.
Proof.
  intros [H1 H2 H3 H4 H5] Ht Hn Hp. constructor; rewrite ?Ht, ?Hn; try done.
  - intros i Hi. apply Hp. auto.
  - intros i Hi. apply H4. by apply Hp.
Qed.

Lemma page_set_props f i d : page_ok d -> page_ok (set_props f i d).
Proof. intros Hd. eapply page_same_tree; [exact Hd|done|done|]. intros j. apply set_props_is_Some. Qed.

Lemma page_hide g d : page_ok d -> page_ok (hide g d).
Proof. intros Hd. destruct g; [|done]. by do 2 apply page_set_props. Qed.

Lemma page_disable g i d : page_ok d -> page_ok (disable_missing g i d).
Proof. intros Hd. destruct g; [done|]. by do 2 apply page_set_props. Qed.

(** The detached elements of the toggle. *)
Definition toggle_node_of (n : nat) : node :=
  Elem n [Elem (1 + n) [Text (2 + n) (str "Caller Graph")]; Elem (3 + n) [Text (4 + n) (str "Call Graph")]].

Definition toggle_props : Props := with_classes [str "graph-toggle"] (new_props (str "div")).
Definition button_props : Props := with_type (str "button") (new_props (str "button")).

Lemma create_toggle_eq d : create_toggle d =
  ((next d, (1 + next d)%nat, (3 + next d)%nat, toggle_node_of (next d)),
   {| tree := tree d;
      props := <[(3 + next d)%nat := button_props]> (<[(1 + next d)%nat := button_props]>
                 (<[next d := toggle_props]> (props d)));
      next := (5 + next d)%nat |}).
Proof.
  unfold create_toggle, createElement, createText, set_props. cbn [tree props next].
  f_equal. f_equal. rewrite !alter_insert_eq. done.
Qed.

Definition created (d : Document) : Document := (create_toggle d).2.

Lemma created_old d i : page_ok d -> (i < next d)%nat -> props (created d) !! i = props d !! i.
Proof.
  intros Hd Hi. unfold created. rewrite create_toggle_eq. cbn [snd props].
  rewrite !lookup_insert_ne by lia. done.
Qed.

Lemma created_new d i : i ∈ [next d; (1 + next d)%nat; (3 + next d)%nat] ->
  props (created d) !! i = Some (if Nat.eqb i (next d) then toggle_props else button_props).
Proof.
  unfold created. rewrite create_toggle_eq. cbn [snd props]. rewrite !elem_of_cons.
  intros [->|[->|[->|[]%not_elem_of_nil]]].
  - rewrite !lookup_insert_ne, lookup_insert_eq by lia. by rewrite Nat.eqb_refl.
  - rewrite lookup_insert_ne, lookup_insert_eq by lia. rewrite (proj2 (Nat.eqb_neq _ _)) by lia. done.
  - rewrite lookup_insert_eq. rewrite (proj2 (Nat.eqb_neq _ _)) by lia. done.
Qed.

Lemma created_hides d : page_ok d -> hides d (created d).
Proof. intros Hd. apply hides_same. intros i Hi. apply created_old; [done|]. by apply (pg_dom _ Hd). Qed.

Lemma created_page d : page_ok d -> page_ok (created d).
Proof.
  intros Hd. pose proof Hd as [H1 H2 H3 H4 H5].
  assert (Et : tree (created d) = tree d) by (unfold created; by rewrite create_toggle_eq).
  assert (En : next (created d) = (5 + next d)%nat) by (unfold created; by rewrite create_toggle_eq).
  constructor; rewrite ?Et, ?En; [done| | | |lia].
  - eapply Forall_impl; [exact H2|]. cbn. lia.
  - intros i Hi. rewrite created_old; [by apply H3|done|]. by apply H4, H3.
  - intros i. unfold created. rewrite create_toggle_eq. cbn [snd props]. intros Hi.
    destruct (decide (i < next d)%nat) as [|Hn]; [lia|].
    destruct (decide (i = 3 + next d)%nat); [lia|]. rewrite lookup_insert_ne in Hi by lia.
    destruct (decide (i = 1 + next d)%nat); [lia|]. rewrite lookup_insert_ne in Hi by lia.
    destruct (decide (i = next d)%nat); [lia|]. rewrite lookup_insert_ne in Hi by lia.
    specialize (H4 _ Hi). lia.
Qed.

(** The page with the toggle inserted. *)
Definition inserted (d : Document) (m r : nat) : Document :=
  {| tree := map (on_children m (insert_before (toggle_node_of (next d)) r)) (tree d);
     props := props (created d); next := (5 + next d)%nat |}.

Lemma toggle_flat n :
  flat (toggle_node_of n) = [(true, n); (true, 1 + n); (false, 2 + n); (true, 3 + n); (false, 4 + n)]%nat.
Proof. done. Qed.

Lemma inserted_ok d m r : page_ok d -> m ∈ all_elements (tree d) -> r ∈ map node_id (childNodes d m) ->
  page_ok (inserted d m r) /\
  all_elements (tree (inserted d m r)) ≡ₚ [next d; 1 + next d; 3 + next d]%nat ++ all_elements (tree d) /\
  childNodes (inserted d m r) m = insert_before (toggle_node_of (next d)) r (childNodes d m).
Proof.
  intros Hd Hm Hr. pose proof Hd as [H1 H2 H3 H4 H5].
  destruct (lookup_element _ H1 m Hm) as [cs Hcs].
  assert (Ecs : childNodes d m = cs) by (unfold childNodes; by rewrite Hcs). rewrite Ecs in *.
  destruct (on_children_forest m (insert_before (toggle_node_of (next d)) r) cs _
    (insert_before_flat _ r cs Hr) (tree d) H1 Hcs) as [Hf Hl].
  assert (Hids : all_ids (tree (inserted d m r)) ≡ₚ seq (next d) 5 ++ all_ids (tree d)).
  { cbn [inserted tree]. rewrite !all_flat_ids, Hf, map_app, toggle_flat. done. }
  assert (Hel : all_elements (tree (inserted d m r)) ≡ₚ [next d; 1 + next d; 3 + next d]%nat ++ all_elements (tree d)).
  { cbn [inserted tree]. rewrite !all_flat_elements, (filter_perm _ _ _ Hf), List.filter_app, map_app, toggle_flat. done. }
  split_and!; [|done|unfold childNodes; cbn [inserted tree]; by rewrite Hl].
  pose proof (created_page d Hd) as [C1 C2 C3 C4 C5].
  assert (En : next (created d) = (5 + next d)%nat) by (unfold created; by rewrite create_toggle_eq).
  constructor; cbn [inserted props next].
  - rewrite Hids. apply NoDup_app. split_and!; [apply NoDup_seq| |done]. intros i Hi%elem_of_seq Hi'.
    rewrite Forall_forall in H2. specialize (H2 _ Hi'). lia.
  - rewrite Hids. apply Forall_app. split.
    + apply Forall_forall. intros i Hi%elem_of_seq. lia.
    + eapply Forall_impl; [exact H2|]. cbn. lia.
  - intros i. rewrite Hel, elem_of_app. intros [Hi|Hi].
    + rewrite created_new by done. eauto.
    + rewrite created_old; [by apply H3|done|by apply H4, H3].
  - rewrite <- En. exact C4.
  - lia.
Qed.

Section Setup.
Context (lower_other : Z -> text).

(** The graphs of a member are elements of the page, and their headers are among
    the member's. *)
Lemma read_headers_in d m g : page_ok d ->
  callGraph (read_headers lower_other d m) = Some g \/ callerGraph (read_headers lower_other d m) = Some g ->
  (forall i, i ∈ graph_nodes (Some g) -> i ∈ all_elements (tree d)) /\ header g ∈ querySelectorAll is_header d m.
Proof.
  intros Hd. rewrite read_headers_eq. intros [Hh Hc]%chosen_in. split; [|done].
  intros i. cbn. rewrite !elem_of_cons. intros [->|[->|[]%not_elem_of_nil]].
  - by apply (find_content_in d (header g)).
  - unfold querySelectorAll in Hh. apply list_elem_of_In, List.filter_In in Hh as [Hh _].
    apply list_elem_of_In in Hh. eapply elem_of_sublist; [exact Hh|apply childNodes_sub].
Qed.

Lemma headers_created d m : page_ok d ->
  querySelector is_header (created d) m = querySelector is_header d m.
Proof.
  intros Hd. unfold querySelector, querySelectorAll. f_equal.
  assert (Ec : childNodes (created d) m = childNodes d m)
    by (unfold childNodes, created; by rewrite create_toggle_eq).
  rewrite Ec. apply List.filter_ext_in. intros i Hi%list_elem_of_In.
  unfold is_header, tag_class_selector. rewrite created_old; [done|done|].
  apply (pg_dom _ Hd), (pg_props _ Hd). eapply elem_of_sublist; [exact Hi|apply childNodes_sub].
Qed.

Definition finished (gs : Graphs) (n : nat) (d : Document) : Document :=
  disable_missing (callGraph gs) (3 + n) (disable_missing (callerGraph gs) (1 + n)
    (hide (callGraph gs) (hide (callerGraph gs) d))).

Definition closure_of (gs : Graphs) (n : nat) : Closure :=
  {| graphs := gs; callerBtn := (1 + n)%nat; callBtn := (3 + n)%nat; current := None |}.

Definition needs_toggle (d : Document) (m : nat) : Prop :=
  read_headers lower_other d m <> {| callGraph := None; callerGraph := None |} /\
  querySelector (class_selector (str "graph-toggle")) d m = None.

Lemma no_graphs gs : gs = {| callGraph := None; callerGraph := None |} <->
  callGraph gs = None /\ callerGraph gs = None.
Proof. destruct gs. cbn. naive_solver. Qed.

(** A member without graphs, or with its toggle, is left as it is. *)
Lemma setup_skips d m : ~ needs_toggle d m -> setup_memdoc lower_other m d = (d, Ok None).
Proof.
  intros Hn. unfold setup_memdoc. case_bool_decide as H1; cbn [andb].
  - case_bool_decide as H2; [done|]. case_bool_decide as H3; [done|]. destruct Hn. split.
    + rewrite no_graphs. naive_solver.
    + by apply eq_None_not_Some.
  - case_bool_decide as H3; [done|]. destruct Hn. split.
    + rewrite no_graphs. naive_solver.
    + by apply eq_None_not_Some.
Qed.

(** The first header of a member that gets a toggle. *)
Lemma first_header d m : page_ok d -> needs_toggle d m -> exists h, querySelector is_header d m = Some h.
Proof.
  intros Hd [Hg _]. rewrite no_graphs in Hg.
  assert (Hin : exists h, h ∈ querySelectorAll is_header d m).
  { destruct (callGraph (read_headers lower_other d m)) as [g|] eqn:E1.
    - exists (header g). apply (read_headers_in d m g Hd). auto.
    - destruct (callerGraph (read_headers lower_other d m)) as [g|] eqn:E2; [|naive_solver].
      exists (header g). apply (read_headers_in d m g Hd). auto. }
  destruct Hin as [h Hh]. unfold querySelector. destruct (querySelectorAll is_header d m); [|eauto].
  by apply not_elem_of_nil in Hh.
Qed.

Lemma setup_runs d m h : page_ok d -> needs_toggle d m -> querySelector is_header d m = Some h ->
  setup_memdoc lower_other m d =
  if bool_decide (h ∈ map node_id (childNodes d m)) then
    (finished (read_headers lower_other d m) (next d) (inserted d m h),
     Ok (Some (closure_of (read_headers lower_other d m) (next d))))
  else (created d, Err NotFoundError).
Proof.
  intros Hd [Hg Ht] Hh. unfold setup_memdoc. set (gs := read_headers lower_other d m) in *.
  rewrite no_graphs in Hg.
  replace (bool_decide (callGraph gs = None) && bool_decide (callerGraph gs = None)) with false
    by (do 2 case_bool_decide; naive_solver).
  rewrite Ht, bool_decide_eq_false_2 by (by intros [? ?]). pose proof (headers_created d m Hd) as Hc. rewrite Hh in Hc.
  unfold created in *. rewrite create_toggle_eq in *. cbn [snd] in *. rewrite Hc. unfold insertBefore.
  assert (Ec : forall p n, childNodes {| tree := tree d; props := p; next := n |} m = childNodes d m) by done.
  rewrite Ec. case_bool_decide; [|done]. unfold finished, inserted, created. rewrite create_toggle_eq. done.
Qed.

Lemma graph_ok_hide d g g' : graph_ok d g false -> graph_ok (hide g' d) g false.
Proof.
  intros Hg i Hi. specialize (Hg i Hi). destruct (props d !! i) as [p|] eqn:Hp; [|done].
  destruct (hides_hide g' d i p Hp) as (v & -> & Hv). cbn in Hg |- *. injection Hg as Hg.
  destruct Hv as [-> | ->]; [by rewrite Hg|done].
Qed.

Lemma disable_missing_ne g i j d : i <> j -> props (disable_missing g i d) !! j = props d !! j.
Proof. intros Hij. destruct g; [done|]. cbn [disable_missing]. unfold disable_button. by rewrite !set_props_ne. Qed.

(** A new button, with the flag its graph wants. *)
Lemma new_button_ok d g i : props d !! i = Some button_props -> button_ok (disable_missing g i d) g i false.
Proof.
  intros Hp. destruct g as [g|]; cbn [disable_missing].
  - constructor; [eauto| | |done]; unfold has_class, is_disabled; by rewrite Hp.
  - unfold disable_button. pose proof (set_props_eq (with_disabled true) _ _ _ Hp) as E1.
    pose proof (set_props_eq (add_class (str "disabled")) _ _ _ E1) as E2.
    constructor; [eauto| | |done]; unfold has_class, is_disabled; by rewrite E2.
Qed.

Lemma finished_ok d m h gs : page_ok d -> m ∈ all_elements (tree d) ->
  h ∈ map node_id (childNodes d m) ->
  (forall g i, callGraph gs = Some g \/ callerGraph gs = Some g -> i ∈ graph_nodes (Some g) ->
     i ∈ all_elements (tree d)) ->
  let d' := finished gs (next d) (inserted d m h) in
  page_ok d' /\ hides d d' /\ shows d' (closure_of gs (next d)) false false /\
  tree d' = tree (inserted d m h) /\ next d' = (5 + next d)%nat.
Proof.
  intros Hd Hm Hh Hgs d'. destruct (inserted_ok d m h Hd Hm Hh) as (Hi & _ & _).
  set (d3 := hide (callGraph gs) (hide (callerGraph gs) (inserted d m h))).
  assert (Hold : forall g i, callGraph gs = Some g \/ callerGraph gs = Some g ->
    i ∈ graph_nodes (Some g) -> (i < next d)%nat /\ is_Some (props (inserted d m h) !! i)).
  { intros g i Hg Hin. assert (Hlt : (i < next d)%nat) by (by apply (pg_dom _ Hd), (pg_props _ Hd), (Hgs g i)).
    split; [done|]. cbn [inserted props]. rewrite created_old by done. by apply (pg_props _ Hd), (Hgs g i). }
  assert (H3 : page_ok d3 /\ hides d d3).
  { split; [by apply page_hide, page_hide|]. eapply hides_trans; [|eapply hides_trans; apply hides_hide].
    intros i p Hp. exists (display p). rewrite with_display_id. split; [|by left]. cbn [inserted props].
    rewrite created_old; [done|done|]. apply (pg_dom _ Hd). eauto. }
  destruct H3 as [P3 H3].
  assert (Hne : forall j, (j < next d)%nat -> props d' !! j = props d3 !! j).
  { intros j Hj. unfold d', finished. fold d3. rewrite !disable_missing_ne by lia. done. }
  assert (Hbtn : forall i, i = (1 + next d)%nat \/ i = (3 + next d)%nat -> props d3 !! i = Some button_props).
  { intros i Hi'. assert (Hlt : (next d < i)%nat) by lia.
    assert (Hag : forall g d0, (forall j, j ∈ graph_nodes g -> (j < next d)%nat) -> props (hide g d0) !! i = props d0 !! i).
    { intros g d0 Hg. apply (set_graph_agree d0 g _ [i]); [|apply elem_of_cons; auto].
      intros j ->%list_elem_of_singleton Hj. specialize (Hg _ Hj). lia. }
    unfold d3. rewrite !Hag.
    - cbn [inserted props]. rewrite created_new by (rewrite !elem_of_cons; tauto).
      by rewrite (proj2 (Nat.eqb_neq _ _)) by lia.
    - intros j Hj. destruct (callerGraph gs) as [g|] eqn:Hg; [|by apply not_elem_of_nil in Hj]. apply (Hold g j); auto.
    - intros j Hj. destruct (callGraph gs) as [g|] eqn:Hg; [|by apply not_elem_of_nil in Hj]. apply (Hold g j); auto. }
  assert (Hgraph : forall g d0, graph_ok d0 g false -> (forall j, j ∈ graph_nodes g -> (j < next d)%nat) ->
    d0 = d3 -> graph_ok d' g false).
  { intros g d0 Hg Hlt -> j Hj. rewrite Hne by (by apply Hlt). by apply Hg. }
  split_and!; [by apply page_disable, page_disable| | | |].
  - intros i p Hp. rewrite Hne by (apply (pg_dom _ Hd); eauto). by apply H3.
  - constructor; cbn [closure_of graphs callerBtn callBtn current]; [done| | | |].
    + apply (Hgraph _ d3); [|intros j Hj; destruct (callerGraph gs) as [g|] eqn:Hg; [apply (Hold g j); auto|by apply not_elem_of_nil in Hj]|done].
      apply graph_ok_hide. apply set_graph_ok; [|done]. intros j Hj.
      destruct (callerGraph gs) as [g|] eqn:Hg; [apply (Hold g j); auto|by apply not_elem_of_nil in Hj].
    + apply (Hgraph _ d3); [|intros j Hj; destruct (callGraph gs) as [g|] eqn:Hg; [apply (Hold g j); auto|by apply not_elem_of_nil in Hj]|done].
      apply set_graph_ok; [|done]. intros j Hj.
      destruct (callGraph gs) as [g|] eqn:Hg; [|by apply not_elem_of_nil in Hj].
      destruct (Hold g j) as [_ [p Hp]]; [auto|done|].
      destruct (hides_hide (callerGraph gs) _ _ _ Hp) as (v & -> & _). eauto.
    + eapply button_ok_agree; [|apply (new_button_ok d3); by apply Hbtn; left].
      intros j ->%list_elem_of_singleton. unfold d', finished. fold d3. by rewrite disable_missing_ne by lia.
    + unfold d', finished. fold d3. apply new_button_ok. rewrite disable_missing_ne by lia. by apply Hbtn; right.
  - unfold d', finished. by destruct (callGraph gs), (callerGraph gs).
  - unfold d', finished. by destruct (callGraph gs), (callerGraph gs).
Qed.
End Setup.

(** ** The whole page *)

Section Ready.
Context (lower_other : Z -> text).

(** What one member leaves of a page. *)
Lemma setup_memdoc_ok m d : page_ok d -> m ∈ all_elements (tree d) ->
  let res := setup_memdoc lower_other m d in
  page_ok res.1 /\ hides d res.1 /\
  (forall i, i ∈ all_elements (tree d) -> i ∈ all_elements (tree res.1)) /\
  (forall cl, res.2 = Ok (Some cl) -> shows res.1 cl false false).
Proof.
  intros Hd Hm. destruct (decide (read_headers lower_other d m = {| callGraph := None; callerGraph := None |}
      \/ is_Some (querySelector (class_selector (str "graph-toggle")) d m))) as [Hs|Hs].
  { rewrite setup_skips; [split_and!; [done|apply hides_refl|done|done]|]. intros [H1 H2].
    destruct Hs as [|Hs]; [done|]. rewrite H2 in Hs. by destruct Hs. }
  assert (Hn : needs_toggle lower_other d m).
  { split; [tauto|]. apply eq_None_not_Some. tauto. }
  destruct (first_header _ _ _ Hd Hn) as [h Hh]. rewrite (setup_runs _ _ _ h) by done.
  case_bool_decide as Hin; cbn [fst snd].
  - destruct (finished_ok d m h (read_headers lower_other d m) Hd Hm Hin) as (G1 & G2 & G3 & G4 & _).
    { intros g i Hg. by apply (read_headers_in lower_other d m g Hd Hg). }
    split_and!; [done|done| |by intros cl [= <-]]. intros i Hi. rewrite G4.
    destruct (inserted_ok d m h Hd Hm Hin) as (_ & -> & _). apply elem_of_app. by right.
  - split_and!; [by apply created_page|by apply created_hides| |done].
    intros i. unfold created. by rewrite create_toggle_eq.
Qed.

Lemma setup_all_ok ms : forall d, page_ok d -> (forall m, m ∈ ms -> m ∈ all_elements (tree d)) ->
  let res := setup_all lower_other ms d in
  page_ok res.1.1 /\ hides d res.1.1 /\ Forall (fun cl => shows res.1.1 cl false false) res.1.2.
Proof.
  induction ms as [|m ms IH]; intros d Hd Hms; cbn [setup_all].
  { split_and!; [done|apply hides_refl|constructor]. }
  destruct (setup_memdoc_ok m d Hd ltac:(apply Hms, elem_of_cons; auto)) as (H1 & H2 & H3 & H4).
  destruct (setup_memdoc lower_other m d) as [d1 [cl|e]]; cbn [fst snd] in *.
  - assert (Hms1 : forall m', m' ∈ ms -> m' ∈ all_elements (tree d1)).
    { intros m' Hm'. apply H3, Hms, elem_of_cons. by right. }
    destruct (IH d1 H1 Hms1) as (G1 & G2 & G3).
    destruct (setup_all lower_other ms d1) as [[d2 cls] e]. cbn [fst snd] in *. split_and!; [done|by eapply hides_trans|].
    apply Forall_app. split; [|done]. destruct cl as [cl|]; [|constructor]. constructor; [|done].
    eapply shows_hides; [by apply H4|done].
  - split_and!; [done|done|constructor].
Qed.

Lemma memdocs_in d m : m ∈ document_querySelectorAll (class_selector (str "memdoc")) d -> m ∈ all_elements (tree d).
Proof. unfold document_querySelectorAll. intros [Hm _]%list_elem_of_In%List.filter_In. by apply list_elem_of_In. Qed.

Lemma ready_shows d : page_ok d ->
  let res := ready lower_other d in
  page_ok res.1.1 /\ hides d res.1.1 /\ switches_ok res.1.1 res.1.2 (fun _ => (false, false)).
Proof.
  intros Hd. destruct (setup_all_ok _ d Hd (memdocs_in d)) as (H1 & H2 & H3).
  split_and!; [done|done|]. intros i cl Hi. rewrite Forall_lookup in H3. by apply (H3 i).
Qed.

(** Where an exception ends the script. *)
Lemma setup_all_error ms : forall d d' cls e,
  setup_all lower_other ms d = (d', cls, Some e) ->
  exists ms1 m ms2 d1, ms = ms1 ++ m :: ms2 /\ setup_all lower_other ms1 d = (d1, cls, None) /\
    setup_memdoc lower_other m d1 = (d', Err e).
Proof.
  induction ms as [|m ms IH]; intros d d' cls e; cbn [setup_all]; [done|].
  destruct (setup_memdoc lower_other m d) as [d1 [cl|e1]] eqn:Hm.
  - destruct (setup_all lower_other ms d1) as [[d2 cls2] e2] eqn:Hs. intros [= -> <- ->].
    destruct (IH _ _ _ _ Hs) as (ms1 & m' & ms2 & d3 & -> & H1 & H2).
    exists (m :: ms1), m', ms2, d3. split_and!; [done| |done]. cbn [setup_all]. by rewrite Hm, H1.
  - intros [= <- <- <-]. exists [], m, ms, d. by split_and!.
Qed.
End Ready.

(** ** A sample page *)

Definition element_props (tag : String.string) (cs : list String.string) : Props :=
  with_classes (map str cs) (new_props (str tag)).

(** Two members: one with both graphs, one with a caller graph only. *)
Definition sample_page : Document :=
  {| tree := [Elem 1 [Elem 2 [Text 3 (str "A function.");
                              Elem 4 [Text 5 (str "Here is the call graph for this function:")];
                              Elem 6 []; Elem 7 [];
                              Elem 8 [Text 9 (str " Here is the CALLER graph for this function:")];
                              Elem 10 []; Elem 11 []];
                      Elem 12 [Elem 13 [Text 14 (str "Here is the caller graph for this function:")];
                               Elem 15 []; Elem 16 []]]];
     props := list_to_map
       [(1%nat, element_props "body" []); (2%nat, element_props "div" ["memdoc"]);
        (4%nat, element_props "div" ["dynheader"; "closed"]); (6%nat, element_props "div" ["dynsummary"]);
        (7%nat, element_props "div" ["dyncontent"]); (8%nat, element_props "div" ["dynheader"; "closed"]);
        (10%nat, element_props "div" ["dynsummary"]); (11%nat, element_props "div" ["dyncontent"]);
        (12%nat, element_props "div" ["memdoc"]); (13%nat, element_props "div" ["dynheader"]);
        (15%nat, element_props "div" ["dynsummary"]); (16%nat, element_props "div" ["dyncontent"])];
     next := 17 |}%string.

Lemma check_page d :
  (bool_decide (NoDup (all_ids (tree d))) && forallb (fun i => Nat.ltb 0 i && Nat.ltb i (next d)) (all_ids (tree d)) &&
   forallb (fun i => bool_decide (is_Some (props d !! i))) (all_elements (tree d)) &&
   forallb (fun ip => Nat.ltb ip.1 (next d)) (map_to_list (props d)) && Nat.ltb 0 (next d))%bool = true ->
  page_ok d.
Proof.
  rewrite !andb_true_iff, !forallb_forall. intros ((((H1 & H2) & H3) & H4) & H5).
  constructor; [by apply bool_decide_eq_true_1 in H1| | | |by apply Nat.ltb_lt].
  - apply Forall_forall. intros i Hi%list_elem_of_In. specialize (H2 i Hi). apply andb_true_iff in H2.
    rewrite !Nat.ltb_lt in H2. lia.
  - intros i Hi%list_elem_of_In. specialize (H3 i Hi). by apply bool_decide_eq_true_1 in H3.
  - intros i [p Hp]. apply elem_of_map_to_list in Hp. apply Nat.ltb_lt. by apply (H4 (i, p)), list_elem_of_In.
Qed.

Lemma sample_page_ok : page_ok sample_page.
Proof. apply check_page. vm_compute. reflexivity. Defined.
