(* ===== verification/GraphToggleSpec.v ===== *)
(** * What the call-graph toggle promises

    The properties of [graph_toggle.js]: the buttons as independent switches, the
    graphs that are found, the set-up of a member and of the page, and where the
    script stops. *)
From S2P Require Import Prelude GraphToggle GraphPage GraphToggleCorrect.
Open Scope cockatrice_scope.
Local Open Scope Z_scope.

(** ** The buttons *)

(** The script on the sample page, in lower case ASCII. *)
Definition sample_ready : Document * list Closure * option DOMException :=
  ready (fun c => [c]) sample_page.

Definition sample_clicks : list (nat * button) :=
  [(0%nat, CallButton); (1%nat, CallerButton); (0%nat, CallerButton); (1%nat, CallButton); (0%nat, CallButton)].

(** C1. After the script has run on a well-formed page, the two buttons of a
    member are independent switches, whatever the order of the clicks on the page:
    a graph and its header are displayed, and its button is active, exactly when
    the member has the graph and its button was clicked an odd number of times;
    otherwise both are hidden, and the button of a missing graph stays disabled.
    The members must not share elements. *)
Theorem buttons_are_switches (lower_other : Z -> text) (d d' : Document) (cls : list Closure)
    (e : option DOMException) (clicks : list (nat * button))
    (Hd : page_ok d) (Hr : ready lower_other d = (d', cls, e)) (Hs : separate_members cls) :
  let st := fold_left page_click clicks (d', cls) in
  length st.2 = length cls /\
  forall i cl, st.2 !! i = Some cl ->
    shows st.1 cl
      (has_graph (callerGraph (graphs cl)) && odd_presses i CallerButton clicks)
      (has_graph (callGraph (graphs cl)) && odd_presses i CallButton clicks).
Proof.
  destruct (ready_shows lower_other d Hd) as (_ & _ & Hsw). rewrite Hr in Hsw. cbn [fst snd] in Hsw.
  destruct (page_clicks_ok clicks d' cls _ Hs Hsw) as (H1 & H2 & _). cbn zeta.
  split; [apply (f_equal length) in H1; unfold statics in H1; by rewrite !length_fmap in H1|].
  intros i cl Hi. specialize (H2 i cl Hi). unfold after_clicks in H2.
  pose proof (f_equal (fun l => l !! i) H1) as E. unfold statics in E. cbn beta in E.
  rewrite !list_lookup_fmap, Hi in E. destruct (cls !! i) as [cl0|]; [|done]. injection E as E1 _ _. rewrite E1.
  by rewrite !xorb_false_l in H2.
Qed.

Lemma buttons_are_switches_witness :
  page_ok sample_page /\ length sample_ready.1.2 = 2%nat /\
  let st := fold_left page_click sample_clicks (sample_ready.1.1, sample_ready.1.2) in
  length st.2 = 2%nat /\ (forall cl, st.2 !! 0%nat = Some cl -> shows st.1 cl true false).
Proof.
  split; [exact sample_page_ok|]. split; [vm_compute; reflexivity|].
  assert (Hs : separate_members sample_ready.1.2).
  { unfold separate_members. apply (bool_decide_eq_true_1 (NoDup _)). vm_compute. reflexivity. }
  destruct (buttons_are_switches (fun c => [c]) sample_page sample_ready.1.1 sample_ready.1.2
    sample_ready.2 sample_clicks sample_page_ok eq_refl Hs) as [H1 H2].
  split; [exact H1|]. intros cl Hcl. specialize (H2 0%nat cl Hcl).
  assert (E : (fold_left page_click sample_clicks (sample_ready.1.1, sample_ready.1.2)).2 !! 0%nat =
    Some {| graphs := {| callGraph := Some {| content := 7; header := 4 |};
                         callerGraph := Some {| content := 11; header := 8 |} |};
            callerBtn := 18; callBtn := 20; current := Some Caller |}) by (vm_compute; reflexivity).
  rewrite E in Hcl. injection Hcl as <-. exact H2.
Defined.

(** Without that condition the claim fails: a caller graph and a call graph whose
    headers share one content. After call, caller, caller the call graph is hidden
    and its button active. *)
Definition shared_page : Document :=
  {| tree := [Elem 1 [Elem 2 [Text 3 (str "caller graph")]; Elem 4 [Text 5 (str "call graph")]; Elem 6 []]];
     props := list_to_map
       [(1%nat, element_props "div" ["memdoc"%string]); (2%nat, element_props "div" ["dynheader"%string]);
        (4%nat, element_props "div" ["dynheader"%string]); (6%nat, element_props "div" ["dyncontent"%string])];
     next := 7 |}.

Lemma shared_content_diverges :
  let '(d, cls, _) := ready (fun c => [c]) shared_page in
  let st := fold_left page_click [(0, CallButton); (0, CallerButton); (0, CallerButton)]%nat (d, cls) in
  option_map current (st.2 !! 0%nat) = Some (Some Call) /\
  has_class st.1 (str "active") 10 = true /\
  option_map display (props st.1 !! 6%nat) = Some (str "none").
Proof. vm_compute. auto. Qed.

(** Clicking buttons changes nothing but the members clicked on: the tree of
    the page stays as the script left it, every element that belongs to no member's
    buttons or graphs keeps its properties, and the page stays well formed. *)
Theorem clicks_stay_inside (lower_other : Z -> text) (d d' : Document) (cls : list Closure)
    (e : option DOMException) (clicks : list (nat * button))
    (Hd : page_ok d) (Hr : ready lower_other d = (d', cls, e)) (Hs : separate_members cls) :
  let st := fold_left page_click clicks (d', cls) in
  tree st.1 = tree d' /\
  (forall i, i ∉ concat (map closure_nodes cls) -> props st.1 !! i = props d' !! i) /\
  page_ok st.1.
Proof.
  destruct (ready_shows lower_other d Hd) as (Hp & _ & Hsw). rewrite Hr in Hp, Hsw. cbn [fst snd] in Hp, Hsw.
  destruct (page_clicks_ok clicks d' cls _ Hs Hsw) as (H1 & H2 & [H3 H4] & H5).
  assert (Hframe : forall i, i ∉ concat (map closure_nodes cls) ->
    props (fold_left page_click clicks (d', cls)).1 !! i = props d' !! i).
  { intros i Hi. apply (H5 [i]); [by intros j ->%list_elem_of_singleton|by apply list_elem_of_singleton]. }
  split_and!; [done|done|]. apply (page_same_tree d'); try done. intros i.
  destruct (decide (i ∈ concat (map closure_nodes cls))) as [Hi|Hi]; [|by rewrite Hframe].
  apply list_elem_of_In, in_concat in Hi as (l & (cl & <- & Hcl)%in_map_iff & Hi%list_elem_of_In).
  apply list_elem_of_In, list_elem_of_lookup in Hcl as [j Hj].
  assert (Hin : forall dd c a b, shows dd c a b -> i ∈ closure_nodes c -> is_Some (props dd !! i)).
  { intros dd c a b [_ S2 S3 S4 S5] Hn. unfold closure_nodes in Hn. rewrite !elem_of_app, !elem_of_cons in Hn.
    destruct Hn as [[->|[->|[]%not_elem_of_nil]]|[Hn|Hn]]; [apply S4|apply S5|by apply (graph_ok_there _ _ _ _ S2)|by apply (graph_ok_there _ _ _ _ S3)]. }
  split; intros _; [by apply (Hin _ _ _ _ (Hsw _ _ Hj))|].
  assert (Hj' : map closure_nodes (fold_left page_click clicks (d', cls)).2 !! j = Some (closure_nodes cl)).
  { rewrite (statics_nodes _ _ H1). change (map closure_nodes cls) with (closure_nodes <$> cls).
    by rewrite list_lookup_fmap, Hj. }
  change (map closure_nodes ?l) with (closure_nodes <$> l) in Hj'. rewrite list_lookup_fmap in Hj'.
  destruct ((fold_left page_click clicks (d', cls)).2 !! j) as [cl'|] eqn:Ej; [|done].
  assert (En : closure_nodes cl' = closure_nodes cl) by exact (inj Some _ _ Hj').
  apply (Hin _ _ _ _ (H2 _ _ Ej)). by rewrite En.
Qed.

Lemma clicks_stay_inside_witness :
  let st := fold_left page_click sample_clicks (sample_ready.1.1, sample_ready.1.2) in
  tree st.1 = tree sample_ready.1.1 /\ page_ok st.1.
Proof.
  assert (Hs : separate_members sample_ready.1.2).
  { unfold separate_members. apply (bool_decide_eq_true_1 (NoDup _)). vm_compute. reflexivity. }
  destruct (clicks_stay_inside (fun c => [c]) sample_page sample_ready.1.1 sample_ready.1.2
    sample_ready.2 sample_clicks sample_page_ok eq_refl Hs) as (H1 & _ & H2).
  split; [exact H1|exact H2].
Defined.

(** ** Finding the graphs *)

(** C4. The search for the content of a header ends, and takes the first of the
    eight element siblings behind the header that has the class [dyncontent]; when
    none of the eight has it, the ninth, whatever its class, and nothing only when
    there are fewer than nine. *)
Theorem find_content_spec (d : Document) (h : nat) (Hd : page_ok d) :
  find_content d h =
  match List.find (has_class d (str "dyncontent")) (take 8 (element_siblings d h)) with
  | Some c => Some c
  | None => element_siblings d h !! 8%nat
  end.
Proof. by apply find_content_eq. Qed.

(** A header with nine siblings and no content. *)
Definition far_page : Document :=
  {| tree := [Elem 1 [Elem 2 [Text 3 (str "call graph")]; Elem 4 []; Elem 5 []; Elem 6 []; Elem 7 [];
                      Elem 8 []; Elem 9 []; Elem 10 []; Elem 11 []; Elem 12 []; Elem 13 []]];
     props := list_to_map
       ([(1%nat, element_props "div" ["memdoc"%string]); (2%nat, element_props "div" ["dynheader"%string])] ++
        map (fun i => (i, element_props "p" [])) (seq 4 10));
     next := 14 |}.

Lemma find_content_spec_witness :
  page_ok far_page /\ find_content far_page 2 = Some 12%nat /\
  has_class far_page (str "dyncontent") 12 = false /\
  find_content sample_page 4 = Some 7%nat.
Proof.
  assert (H : page_ok far_page) by (apply check_page; vm_compute; reflexivity).
  split; [exact H|]. rewrite (find_content_spec far_page 2 H).
  rewrite (find_content_spec sample_page 4 sample_page_ok). vm_compute. auto.
Defined.

(** What the script keeps of the headers of a member, taken in document order
    with those that have a content: as caller graph the last header of that kind;
    as call graph the last one that names a call graph, and only when there is
    none the first other header that speaks of calls. *)
Theorem read_headers_spec (lower_other : Z -> text) (d : Document) (m : nat) :
  let graphs_of k := graphs_of lower_other d k (querySelectorAll is_header d m) in
  callerGraph (read_headers lower_other d m) = last (graphs_of IsCaller) /\
  callGraph (read_headers lower_other d m) =
    match last (graphs_of IsCallGraph) with
    | Some g => Some g
    | None => head (graphs_of IsCall)
    end.
Proof. cbn zeta. rewrite read_headers_eq. by split. Qed.

(** [p] occurs in [s]. *)
Definition occurs (p s : text) : Prop := exists a b, s = a ++ p ++ b.

Lemma starts_with_spec p s : starts_with p s = true <-> exists b, s = p ++ b.
Proof.
  revert s. induction p as [|a p IH]; intros s; cbn; [split; [by exists s|done]|].
  destruct s as [|c s]; [split; [done|by intros [b Hb]]|].
  rewrite andb_true_iff, IH, Z.eqb_eq. split.
  - intros [-> [b ->]]. by exists b.
  - intros [b [= -> ->]]. split; [done|by exists b].
Qed.

Lemma includes_spec p s : includes p s = true <-> occurs p s.
Proof.
  induction s as [|c s IH].
  - cbn. rewrite orb_false_r, starts_with_spec. split; [intros [b Hb]; by exists [], b|].
    intros (a & b & Hb). destruct a; [by exists b|done].
  - cbn [includes]. rewrite orb_true_iff, starts_with_spec, IH. split.
    + intros [[b ->]|(a & b & ->)]; [by exists [], b|by exists (c :: a), b].
    + intros ([|x a] & b & Hb); [left; by exists b|]. right. injection Hb as -> ->. by exists a, b.
Qed.

(** The kind of a header, by the phrases that occur in the lower case of its
    trimmed text: "caller" comes first, then "call graph" or "callgraph", then
    "call"; the script's third phrase for call graphs, "call graph for", decides
    nothing. *)
Theorem classify_spec (s : text) :
  (classify s = IsCaller <-> occurs (str "caller") s) /\
  (classify s = IsCallGraph <-> ~ occurs (str "caller") s /\
     (occurs (str "call graph") s \/ occurs (str "callgraph") s)) /\
  (classify s = IsCall <-> ~ occurs (str "caller") s /\ ~ occurs (str "call graph") s /\
     ~ occurs (str "callgraph") s /\ occurs (str "call") s) /\
  (classify s = IsOther <-> ~ occurs (str "call") s).
Proof.
  assert (Hsub : forall p q, occurs q s -> occurs p q -> occurs p s).
  { intros p q (a & b & ->) (a' & b' & ->). exists (a ++ a'), (b' ++ b). by rewrite <- !app_assoc. }
  assert (C1 : occurs (str "call") (str "caller")) by by exists [], (str "er").
  assert (C2 : occurs (str "call") (str "call graph")) by by exists [], (str " graph").
  assert (C3 : occurs (str "call") (str "callgraph")) by by exists [], (str "graph").
  assert (C4 : occurs (str "call graph") (str "call graph for")) by by exists [], (str " for").
  rewrite <- !includes_spec in *. unfold classify.
  assert (Hsub' : forall p q, includes q s = true -> includes p q = true -> includes p s = true).
  { intros p q. rewrite !includes_spec. apply Hsub. }
  pose proof (fun H => Hsub' _ _ H C1) as D1. pose proof (fun H => Hsub' _ _ H C2) as D2.
  pose proof (fun H => Hsub' _ _ H C3) as D3. pose proof (fun H => Hsub' _ _ H C4) as D4.
  clear Hsub Hsub' C1 C2 C3 C4.
  destruct (includes (str "caller") s), (includes (str "call graph") s), (includes (str "callgraph") s),
    (includes (str "call graph for") s), (includes (str "call") s); cbn [orb];
    try (by specialize (D1 eq_refl)); try (by specialize (D2 eq_refl)); try (by specialize (D3 eq_refl));
    try (by specialize (D4 eq_refl)); split_and!; split; intuition congruence.
Qed.

(** ** Setting up a member and the page *)

(** C2. The set-up of a member that has a graph, has no toggle yet and has its
    first header among its children: the toggle, with its two buttons, is inserted
    directly before that header and nothing else of the member's children changes;
    the graphs found are hidden with their headers; the button of a missing graph is
    disabled, the other not; no other element of the page changes; and the page
    stays well formed. *)
Theorem setup_member_spec (lower_other : Z -> text) (d : Document) (m h : nat)
    (Hd : page_ok d) (Hm : m ∈ all_elements (tree d)) (Hn : needs_toggle lower_other d m)
    (Hh : querySelector is_header d m = Some h) (Hin : h ∈ map node_id (childNodes d m)) :
  exists d' cl,
    setup_memdoc lower_other m d = (d', Ok (Some cl)) /\
    graphs cl = read_headers lower_other d m /\
    (exists before after, childNodes d m = before ++ after /\ (node_id <$> head after = Some h) /\
       childNodes d' m = before ++ toggle_node_of (next d) :: after) /\
    shows d' cl false false /\
    (forall i p, props d !! i = Some p ->
       props d' !! i = Some (if bool_decide (i ∈ graph_nodes (callerGraph (graphs cl)) ++ graph_nodes (callGraph (graphs cl)))
                             then with_display (str "none") p else p)) /\
    page_ok d'.
Proof.
  set (gs := read_headers lower_other d m).
  assert (Hgs : forall g i, callGraph gs = Some g \/ callerGraph gs = Some g -> i ∈ graph_nodes (Some g) ->
    i ∈ all_elements (tree d)) by (intros g i Hg; by apply (read_headers_in lower_other d m g Hd Hg)).
  destruct (finished_ok d m h gs Hd Hm Hin Hgs) as (G1 & _ & G3 & G4 & _).
  exists (finished gs (next d) (inserted d m h)), (closure_of gs (next d)).
  rewrite (setup_runs lower_other d m h) by done. rewrite bool_decide_eq_true_2 by done.
  split_and!; [done|done| |done| |done].
  - destruct (inserted_ok d m h Hd Hm Hin) as (_ & _ & Hc).
    destruct (insert_before_split (toggle_node_of (next d)) h _ Hin) as (k1 & k & k2 & E & Ek & Ei & _).
    exists k1, (k :: k2). split_and!; [done|cbn; by rewrite Ek|]. rewrite <- Ei, <- Hc.
    unfold childNodes. by rewrite G4.
  - intros i p Hp. assert (Hlt : (i < next d)%nat) by (apply (pg_dom _ Hd); eauto).
    unfold finished. rewrite !disable_missing_ne by lia.
    rewrite hide_exact, hide_exact. cbn [inserted props]. rewrite created_old, Hp by done. cbn.
    cbn [closure_of graphs]. repeat case_bool_decide; cbn; set_solver.
Qed.

Lemma setup_member_spec_witness :
  needs_toggle (fun c => [c]) sample_page 2 /\
  exists d' cl, setup_memdoc (fun c => [c]) 2 sample_page = (d', Ok (Some cl)) /\ shows d' cl false false.
Proof.
  assert (Hn : needs_toggle (fun c => [c]) sample_page 2).
  { split; [|vm_compute; reflexivity]. intros E. apply (f_equal callerGraph) in E. vm_compute in E. discriminate E. }
  split; [exact Hn|].
  destruct (setup_member_spec (fun c => [c]) sample_page 2 4 sample_page_ok) as (d' & cl & H1 & _ & _ & H2 & _).
  - apply (bool_decide_eq_true_1 (2%nat ∈ _)). vm_compute. reflexivity.
  - exact Hn.
  - vm_compute. reflexivity.
  - apply (bool_decide_eq_true_1 (4%nat ∈ _)). vm_compute. reflexivity.
  - exists d', cl. split; [exact H1|exact H2].
Defined.

(** Setting up a member twice is setting it up once: after a set-up without an
    exception, another one changes nothing and registers no listener. *)
Theorem setup_member_again (lower_other : Z -> text) (d d' : Document) (m : nat) (r : option Closure)
    (Hd : page_ok d) (Hm : m ∈ all_elements (tree d)) (Hr : setup_memdoc lower_other m d = (d', Ok r)) :
  setup_memdoc lower_other m d' = (d', Ok None).
Proof.
  destruct (decide (read_headers lower_other d m = {| callGraph := None; callerGraph := None |})) as [Hg|Hg].
  { rewrite setup_skips in Hr by (by intros [? _]). injection Hr as <- <-. apply setup_skips. by intros [? _]. }
  destruct (querySelector (class_selector (str "graph-toggle")) d m) as [x|] eqn:Ht.
  { assert (Hn : ~ needs_toggle lower_other d m) by (intros [_ E]; congruence).
    rewrite setup_skips in Hr by done. injection Hr as <- <-. by apply setup_skips. }
  assert (Hn : needs_toggle lower_other d m) by (by split).
  destruct (first_header _ _ _ Hd Hn) as [h Hh]. rewrite (setup_runs lower_other d m h) in Hr by done.
  case_bool_decide as Hin; [|done]. injection Hr as <- <-. apply setup_skips. intros [_ Hnone].
  set (d' := finished _ _ _) in *. destruct (inserted_ok d m h Hd Hm Hin) as (_ & _ & Hc).
  assert (Hgs : forall g i, callGraph (read_headers lower_other d m) = Some g \/
      callerGraph (read_headers lower_other d m) = Some g -> i ∈ graph_nodes (Some g) ->
    i ∈ all_elements (tree d)) by (intros g i Hg'; by apply (read_headers_in lower_other d m g Hd Hg')).
  destruct (finished_ok d m h _ Hd Hm Hin Hgs) as (_ & _ & _ & G4 & _).
  assert (Hch : childNodes d' m = childNodes (inserted d m h) m) by (unfold childNodes; fold d' in G4; by rewrite G4).
  assert (Hel : next d ∈ all_elements (childNodes d' m)).
  { rewrite Hch, Hc, all_flat_elements, (filter_perm _ _ _ (insert_before_flat _ _ _ Hin)).
    cbn. apply elem_of_cons. auto. }
  assert (Hcl : class_selector (str "graph-toggle") d' (next d) = true).
  { unfold class_selector, has_class, d', finished. rewrite !disable_missing_ne by lia.
    rewrite !hide_exact. cbn [inserted props]. rewrite created_new by (apply elem_of_cons; auto).
    rewrite Nat.eqb_refl. cbn [fmap option_fmap option_map].
    repeat case_bool_decide; try done; set_solver. }
  unfold querySelector, querySelectorAll in Hnone. apply list_elem_of_In in Hel.
  assert (Hf : In (next d) (List.filter (class_selector (str "graph-toggle") d') (all_elements (childNodes d' m))))
    by (by apply List.filter_In). by destruct (List.filter _ _).
Qed.

Lemma setup_member_again_witness :
  exists d' cl, setup_memdoc (fun c => [c]) 2 sample_page = (d', Ok (Some cl)) /\
    setup_memdoc (fun c => [c]) 2 d' = (d', Ok None).
Proof.
  set (cl := {| graphs := {| callGraph := Some {| content := 7; header := 4 |};
                             callerGraph := Some {| content := 11; header := 8 |} |};
                callerBtn := next sample_page + 1; callBtn := next sample_page + 3; current := None |}%nat).
  set (d' := (setup_memdoc (fun c => [c]) 2 sample_page).1).
  assert (H : setup_memdoc (fun c => [c]) 2 sample_page = (d', Ok (Some cl))) by (vm_compute; reflexivity).
  exists d', cl. split; [exact H|].
  apply (setup_member_again (fun c => [c]) sample_page d' 2 (Some cl) sample_page_ok); [|exact H].
  apply (bool_decide_eq_true_1 (2%nat ∈ _)). vm_compute. reflexivity.
Defined.

(** C3. Where the script stops. An exception comes from a member that needs a
    toggle and whose first header is not a child of its own but deeper in it; the
    members before it are set up without an exception, and no element of the page
    they leave is changed any more, so that this member and all behind it keep
    their graphs displayed and get no buttons. *)
Theorem ready_error_spec (lower_other : Z -> text) (d d' : Document) (cls : list Closure)
    (e : DOMException) (Hd : page_ok d) (Hr : ready lower_other d = (d', cls, Some e)) :
  exists before m after d1 h,
    document_querySelectorAll (class_selector (str "memdoc")) d = before ++ m :: after /\
    setup_all lower_other before d = (d1, cls, None) /\
    needs_toggle lower_other d1 m /\
    querySelector is_header d1 m = Some h /\ h ∉ map node_id (childNodes d1 m) /\
    e = NotFoundError /\ tree d' = tree d1 /\
    (forall i, is_Some (props d1 !! i) -> props d' !! i = props d1 !! i).
Proof.
  destruct (setup_all_error _ _ _ _ _ _ Hr) as (ms1 & m & ms2 & d1 & Hms & H1 & H2).
  assert (Hin : forall x, x ∈ ms1 ++ [m] -> x ∈ all_elements (tree d)).
  { intros x Hx. apply memdocs_in. unfold document_querySelectorAll in *. rewrite Hms.
    rewrite elem_of_app, elem_of_cons. apply elem_of_app in Hx as [Hx|Hx%list_elem_of_singleton]; auto. }
  assert (Hd1 : page_ok d1).
  { destruct (setup_all_ok lower_other ms1 d Hd) as (Hp & _); [|by rewrite H1 in Hp].
    intros x Hx. apply Hin, elem_of_app. by left. }
  assert (Hn : needs_toggle lower_other d1 m).
  { destruct (decide (read_headers lower_other d1 m = {| callGraph := None; callerGraph := None |})) as [Hg|Hg].
    - rewrite setup_skips in H2 by (by intros [? _]). done.
    - split; [done|]. destruct (querySelector _ d1 m) eqn:Ht; [|done].
      rewrite setup_skips in H2 by (intros [_ E]; congruence). done. }
  destruct (first_header _ _ _ Hd1 Hn) as [h Hh]. rewrite (setup_runs lower_other d1 m h) in H2 by done.
  case_bool_decide as Hc; [done|]. injection H2 as <- <-.
  exists ms1, m, ms2, d1, h. split_and!; try done.
  intros i Hi. apply created_old; [done|]. by apply (pg_dom _ Hd1).
Qed.

(** A member whose header sits in a box, before one that is as it should be. *)
Definition boxed_page : Document :=
  {| tree := [Elem 1 [Elem 2 [Elem 3 [Text 4 (str "call graph")]; Elem 5 []]];
              Elem 6 [Elem 7 [Text 8 (str "call graph")]; Elem 9 []]];
     props := list_to_map
       [(1%nat, element_props "div" ["memdoc"%string]); (2%nat, element_props "div" []);
        (3%nat, element_props "div" ["dynheader"%string]); (5%nat, element_props "div" ["dyncontent"%string]);
        (6%nat, element_props "div" ["memdoc"%string]); (7%nat, element_props "div" ["dynheader"%string]);
        (9%nat, element_props "div" ["dyncontent"%string])];
     next := 10 |}.

Lemma ready_error_spec_witness :
  (ready (fun c => [c]) boxed_page).2 = Some NotFoundError /\
  exists before m after, document_querySelectorAll (class_selector (str "memdoc")) boxed_page = before ++ m :: after.
Proof.
  assert (H : page_ok boxed_page) by (apply check_page; vm_compute; reflexivity).
  split; [vm_compute; reflexivity|].
  destruct (ready_error_spec (fun c => [c]) boxed_page (ready (fun c => [c]) boxed_page).1.1
    (ready (fun c => [c]) boxed_page).1.2 NotFoundError H) as (b & m & a & _ & _ & E & _).
  - vm_compute. reflexivity.
  - exists b, m, a. exact E.
Defined.

(** C5. Running the script on a well-formed page leaves a well-formed page, with
    or without an exception: the elements it found keep their tags, classes and
    flags, and their display but where it is now "none"; and every member it gave
    buttons starts with its graphs hidden, no button active, and the button of a
    missing graph disabled. *)
Theorem ready_page_ok (lower_other : Z -> text) (d d' : Document) (cls : list Closure)
    (e : option DOMException) (Hd : page_ok d) (Hr : ready lower_other d = (d', cls, e)) :
  page_ok d' /\
  (forall i p, props d !! i = Some p ->
     exists v, props d' !! i = Some (with_display v p) /\ (v = display p \/ v = str "none")) /\
  Forall (fun cl => shows d' cl false false) cls.
Proof.
  destruct (setup_all_ok lower_other _ d Hd (memdocs_in d)) as (H1 & H2 & H3).
  unfold ready in Hr. rewrite Hr in H1, H2, H3. done.
Qed.

Lemma ready_page_ok_witness : page_ok sample_page /\ page_ok sample_ready.1.1.
Proof.
  split; [exact sample_page_ok|].
  apply (ready_page_ok (fun c => [c]) sample_page sample_ready.1.1 sample_ready.1.2 sample_ready.2
    sample_page_ok eq_refl).
Defined.
