(* ===== verification/ManaCost.v ===== *)
(** * Mana costs: [tricerules-card-model/src/mana.rs]

    The brace syntax of mana costs ([{4}{G}{G}]): the symbol type, the strict
    parser with its errors, the printer, and the readings the engine takes of
    a cost (mana value, colours, presence of [{X}]). Text is a list of code
    points, so that [trim], [find] and [split] act on Rust [char]s. *)
From S2P Require Import Prelude Text.
Open Scope cockatrice_scope.
Local Open Scope Z_scope.

(** ** Data *)

(** [primitives::Color]. *)
Inductive Color : Type := White | Blue | Black | Red | Green.

#[export] Instance Color_eq_dec : EqDecision Color.
Proof. solve_decision. Defined.

Module ColorPip.

Inductive t : Type := W | U | B | R | G.

#[global] Instance eq_dec : EqDecision t.
Proof. solve_decision. Defined.

Definition parse (token : text) : option t :=
  match token with
  | [87] => Some W
  | [85] => Some U
  | [66] => Some B
  | [82] => Some R
  | [71] => Some G
  | _ => None
  end.

Definition color (c : t) : Color :=
  match c with
  | W => White | U => Blue | B => Black | R => Red | G => Green
  end.

Definition letter (c : t) : Z :=
  match c with
  | W => 87 | U => 85 | B => 66 | R => 82 | G => 71
  end.

End ColorPip.

Abbreviation ColorPip := ColorPip.t.

Module ManaSymbol.

Inductive t : Type :=
| W | U | B | R | G
| C
| Generic (n : Z)
| X
| Hybrid (a b : ColorPip)
| MonoHybrid (n : Z) (c : ColorPip)
| Phyrexian (c : ColorPip)
| HybridPhyrexian (a b : ColorPip).

#[global] Instance eq_dec : EqDecision t.
Proof. solve_decision. Defined.

End ManaSymbol.

Abbreviation ManaSymbol := ManaSymbol.t.

Record ManaCost : Type := { pips : list ManaSymbol }.

(** The three error strings of the parser, by the text they interpolate. *)
Inductive parse_error : Type :=
| UnsupportedSymbol (token : text)
| NotBraceGroups (s : text)
| Unterminated (s : text).

(** ** Parsing *)

(** The literal arms of the last [match] of [parse_symbol]. *)
Definition plain_symbol (token : text) : option ManaSymbol :=
  match token with
  | [87] => Some ManaSymbol.W
  | [85] => Some ManaSymbol.U
  | [66] => Some ManaSymbol.B
  | [82] => Some ManaSymbol.R
  | [71] => Some ManaSymbol.G
  | [67] => Some ManaSymbol.C
  | [88] => Some ManaSymbol.X
  | _ => None
  end.

Definition parse_symbol (token : text) : result ManaSymbol parse_error :=
  let err := UnsupportedSymbol token in
  match split_char 47 token with
  | [p0; p1; p2] =>
      let? a := ok_or (ColorPip.parse p0) err in
      let? b := ok_or (ColorPip.parse p1) err in
      if negb (bool_decide (p2 = [80])) || bool_decide (a = b) then Err err
      else Ok (ManaSymbol.HybridPhyrexian a b)
  | _ =>
      match split_once 47 token with
      | Some (a, b) =>
          if bool_decide (b = [80]) then
            let? c := ok_or (ColorPip.parse a) err in
            Ok (ManaSymbol.Phyrexian c)
          else
            let? right := ok_or (ColorPip.parse b) err in
            match parse_u32 a with
            | Some n => Ok (ManaSymbol.MonoHybrid n right)
            | None =>
                let? left := ok_or (ColorPip.parse a) err in
                Ok (ManaSymbol.Hybrid left right)
            end
      | None =>
          match plain_symbol token with
          | Some p => Ok p
          | None =>
              match parse_u32 token with
              | Some n => Ok (ManaSymbol.Generic n)
              | None => Err err
              end
          end
      end
  end.

(** The [while !rest.is_empty()] loop of [ManaCost::parse]; [None] is out of
    fuel, which [parse_loop_total] rules out for the fuel [parse] gives. *)
Fixpoint parse_loop (fuel : nat) (s rest : text) (acc : list ManaSymbol)
    : option (result (list ManaSymbol) parse_error) :=
  match rest with
  | [] => Some (Ok acc)
  | _ =>
      match fuel with
      | O => None
      | S f =>
          match strip_prefix 123 rest with
          | None => Some (Err (NotBraceGroups s))
          | Some open =>
              match find_char 125 open with
              | None => Some (Err (Unterminated s))
              | Some e =>
                  match parse_symbol (take e open) with
                  | Err x => Some (Err x)
                  | Ok p => parse_loop f s (drop (S e) open) (acc ++ [p])
                  end
              end
          end
      end
  end.

Definition parse (s : text) : option (result ManaCost parse_error) :=
  let s := trim s in
  match s with
  | [] => Some (Ok {| pips := [] |})
  | _ =>
      match parse_loop (length s) s s [] with
      | Some (Ok ps) => Some (Ok {| pips := ps |})
      | Some (Err e) => Some (Err e)
      | None => None
      end
  end.

(** ** Printing *)

(** The text between the braces. *)
Definition symbol_body (p : ManaSymbol) : text :=
  match p with
  | ManaSymbol.W => [87]
  | ManaSymbol.U => [85]
  | ManaSymbol.B => [66]
  | ManaSymbol.R => [82]
  | ManaSymbol.G => [71]
  | ManaSymbol.C => [67]
  | ManaSymbol.Generic n => dec_u32 n
  | ManaSymbol.X => [88]
  | ManaSymbol.Hybrid a b => [ColorPip.letter a; 47; ColorPip.letter b]
  | ManaSymbol.MonoHybrid n c => dec_u32 n ++ [47; ColorPip.letter c]
  | ManaSymbol.Phyrexian c => [ColorPip.letter c; 47; 80]
  | ManaSymbol.HybridPhyrexian a b =>
      [ColorPip.letter a; 47; ColorPip.letter b; 47; 80]
  end.

Definition fmt_symbol (p : ManaSymbol) : text := 123 :: symbol_body p ++ [125].

Definition fmt_cost (c : ManaCost) : text := concat (map fmt_symbol (pips c)).

(** ** Readings of a cost *)

Definition pip_value (p : ManaSymbol) : Z :=
  match p with
  | ManaSymbol.Generic n => n
  | ManaSymbol.X => 0
  | ManaSymbol.MonoHybrid n _ => n
  | _ => 1
  end.

(** [Iterator::sum::<u32>], which adds from the left. *)
Definition mana_value (c : ManaCost) : Z :=
  fold_left u32_add (map pip_value (pips c)) 0.

Definition is_x (p : ManaSymbol) : bool :=
  match p with ManaSymbol.X => true | _ => false end.

Definition mana_value_on_stack (c : ManaCost) (chosen_x : Z) : Z :=
  u32_saturating_add (mana_value c)
    (u32_saturating_mul
       (wrap_u32 (Z.of_nat (length (List.filter is_x (pips c))))) chosen_x).

Definition push_color (out : list Color) (c : Color) : list Color :=
  if bool_decide (c ∈ out) then out else out ++ [c].

Definition pip_colors (p : ManaSymbol) : list Color :=
  match p with
  | ManaSymbol.W => [White]
  | ManaSymbol.U => [Blue]
  | ManaSymbol.B => [Black]
  | ManaSymbol.R => [Red]
  | ManaSymbol.G => [Green]
  | ManaSymbol.Hybrid a b | ManaSymbol.HybridPhyrexian a b =>
      [ColorPip.color a; ColorPip.color b]
  | ManaSymbol.MonoHybrid _ c | ManaSymbol.Phyrexian c => [ColorPip.color c]
  | ManaSymbol.C | ManaSymbol.Generic _ | ManaSymbol.X => []
  end.

Definition colors (c : ManaCost) : list Color :=
  fold_left (fun out p => fold_left push_color (pip_colors p) out) (pips c) [].

Definition is_empty (c : ManaCost) : bool :=
  match pips c with [] => true | _ => false end.

Definition has_x (c : ManaCost) : bool := existsb is_x (pips c).

(** The symbols the parser can produce: [u32] amounts, and distinct colours
    in a hybrid Phyrexian symbol. *)
Definition wf_symbol (p : ManaSymbol) : Prop :=
  match p with
  | ManaSymbol.Generic n | ManaSymbol.MonoHybrid n _ => u32_range n
  | ManaSymbol.HybridPhyrexian a b => a <> b
  | _ => True
  end.

Definition wf_cost (c : ManaCost) : Prop := Forall wf_symbol (pips c).

(** A brace group around a token. *)
Definition brace_group (t : text) : text := 123 :: t ++ [125].

(** ** The grammar of the brace bodies

    Written apart from the parser: the symbols as they are printed on cards,
    with the amounts as decimal numerals. *)

Definition decimal (digits : text) : Z :=
  fold_left (fun n c => 10 * n + (c - 48)) digits 0.

(** [str::parse::<u32>] reads digits with at most one plus before them. *)
Definition numeral (t : text) (n : Z) : Prop :=
  exists digits,
    (t = digits \/ t = str "+" ++ digits) /\ digits <> [] /\
    Forall is_digit digits /\ decimal digits = n /\ n <= u32_max.

Inductive pip_text : text -> ColorPip -> Prop :=
| pip_text_W : pip_text (str "W") ColorPip.W
| pip_text_U : pip_text (str "U") ColorPip.U
| pip_text_B : pip_text (str "B") ColorPip.B
| pip_text_R : pip_text (str "R") ColorPip.R
| pip_text_G : pip_text (str "G") ColorPip.G.

Inductive symbol_text : text -> ManaSymbol -> Prop :=
| symbol_text_W : symbol_text (str "W") ManaSymbol.W
| symbol_text_U : symbol_text (str "U") ManaSymbol.U
| symbol_text_B : symbol_text (str "B") ManaSymbol.B
| symbol_text_R : symbol_text (str "R") ManaSymbol.R
| symbol_text_G : symbol_text (str "G") ManaSymbol.G
| symbol_text_C : symbol_text (str "C") ManaSymbol.C
| symbol_text_X : symbol_text (str "X") ManaSymbol.X
| symbol_text_generic t n : numeral t n -> symbol_text t (ManaSymbol.Generic n)
| symbol_text_hybrid t u a b :
    pip_text t a -> pip_text u b ->
    symbol_text (t ++ str "/" ++ u) (ManaSymbol.Hybrid a b)
| symbol_text_mono t u n c :
    numeral t n -> pip_text u c ->
    symbol_text (t ++ str "/" ++ u) (ManaSymbol.MonoHybrid n c)
| symbol_text_phyrexian t c :
    pip_text t c -> symbol_text (t ++ str "/P") (ManaSymbol.Phyrexian c)
| symbol_text_hybrid_phyrexian t u a b :
    pip_text t a -> pip_text u b -> a <> b ->
    symbol_text (t ++ str "/" ++ u ++ str "/P") (ManaSymbol.HybridPhyrexian a b).

Definition supported (t : text) : Prop := exists p, symbol_text t p.

(** What stops a reader of [s] that has [rest] before it, and how it is
    reported. *)
Definition stuck (s rest : text) (e : parse_error) : Prop :=
  match e with
  | UnsupportedSymbol t =>
      ~ supported t /\ 125 ∉ t /\ exists more, rest = brace_group t ++ more
  | NotBraceGroups u => u = s /\ exists c more, rest = c :: more /\ c <> 123
  | Unterminated u => u = s /\ exists more, rest = 123 :: more /\ 125 ∉ more
  end.

(** ** Symbols *)

Lemma plain_symbol_digit c s : is_digit c -> plain_symbol (c :: s) = None.
Proof.
  unfold is_digit. intros Hc.
  assert (c = 48 \/ c = 49 \/ c = 50 \/ c = 51 \/ c = 52 \/ c = 53 \/ c = 54 \/
          c = 55 \/ c = 56 \/ c = 57) as Hd by lia.
  by destruct_or! Hd; subst c.
Qed.

Lemma letter_not_special c :
  ColorPip.letter c <> 47 /\ ColorPip.letter c <> 125 /\ ColorPip.letter c <> 80.
Proof. by destruct c. Qed.

Lemma pip_parse_letter c : ColorPip.parse [ColorPip.letter c] = Some c.
Proof. by destruct c. Qed.

Lemma pip_parse_Some s c : ColorPip.parse s = Some c -> s = [ColorPip.letter c].
Proof. unfold ColorPip.parse. intros. repeat case_match; by simplify_eq. Qed.

Lemma parse_symbol_body p : wf_symbol p -> parse_symbol (symbol_body p) = Ok p.
Proof.
  destruct p as [| | | | | |n| |a b|n c|c|a b]; cbn [wf_symbol symbol_body]; intros Hw;
    try reflexivity.
  - destruct (dec_u32_head n) as (c & s & He & Hc); [mlia|].
    assert (47 ∉ dec_u32 n) by (apply dec_u32_notin; unfold is_digit; mlia).
    unfold parse_symbol, split_once.
    rewrite split_char_notin, (proj2 (find_char_None _ _)) by done.
    rewrite He, plain_symbol_digit by done. rewrite <- He, parse_u32_dec; done.
  - by destruct a, b.
  - assert (47 ∉ dec_u32 n) by (apply dec_u32_notin; unfold is_digit; mlia).
    unfold parse_symbol. rewrite split_char_app, split_once_notin by done.
    rewrite split_char_notin by (pose proof (letter_not_special c); set_solver).
    rewrite bool_decide_eq_false_2 by (pose proof (letter_not_special c); intros [=]; lia).
    by rewrite pip_parse_letter, parse_u32_dec.
  - by destruct c.
  - destruct a, b; try reflexivity; congruence.
Qed.

Lemma symbol_body_no_brace p : wf_symbol p -> 125 ∉ symbol_body p.
Proof.
  assert (forall c, ColorPip.letter c <> 125) by (intros []; done).
  assert (forall n, u32_range n -> 125 ∉ dec_u32 n).
  { intros n Hn. apply dec_u32_notin; unfold is_digit; mlia. }
  destruct p; cbn [wf_symbol symbol_body]; intros Hw; set_solver.
Qed.

Lemma parse_symbol_wf t p : parse_symbol t = Ok p -> wf_symbol p.
Proof.
  assert (forall s n, parse_u32 s = Some n -> u32_range n) by apply parse_u32_range.
  assert (forall s q, plain_symbol s = Some q -> wf_symbol q).
  { unfold plain_symbol. intros. repeat case_match; by simplify_eq. }
  unfold parse_symbol. intros Hp.
  repeat first
    [ progress simplify_eq/= | case_match
    | match goal with
      | H : rbind _ _ = Ok _ |- _ => apply rbind_Ok in H as (? & ? & ?)
      | H : ok_or _ _ = Ok _ |- _ => apply ok_or_Ok in H
      | H : _ || _ = false |- _ => apply orb_false_iff in H as [? ?]
      | H : bool_decide _ = false |- _ => apply bool_decide_eq_false in H
      end ]; simpl; eauto.
Qed.

(** ** The parser of a symbol reads the grammar *)

Lemma digits_u32_decimal s acc n :
  u32_range acc ->
  digits_u32 acc s = Some n <->
  Forall is_digit s /\ fold_left (fun n c => 10 * n + (c - 48)) s acc = n /\ n <= u32_max.
Proof.
  revert acc. induction s as [|c s IH]; cbn [digits_u32 fold_left]; intros acc Ha.
  - split; [intros [= ->]; split_and!; [done|done|mlia]|]. by intros (_ & -> & _).
  - rewrite Forall_cons. unfold is_digit at 1.
    assert (Hmono : forall s' x, Forall is_digit s' -> 0 <= x ->
              x <= fold_left (fun n c => 10 * n + (c - 48)) s' x).
    { induction s' as [|d s' IHs]; cbn [fold_left]; intros x Hd Hx; [lia|].
      apply Forall_cons in Hd as [Hd Hs]. unfold is_digit in Hd.
      specialize (IHs (10 * x + (d - 48)) Hs ltac:(lia)). lia. }
    destruct ((48 <=? c) && (c <=? 57)) eqn:Hc;
      [|split; [done|intros ((? & _) & _); lia]].
    apply andb_true_iff in Hc as [Hc1%Z.leb_le Hc2%Z.leb_le].
    replace (acc * 10) with (10 * acc) by lia.
    destruct (Z.leb_spec (10 * acc + (c - 48)) u32_max).
    + rewrite IH by mlia. split; [|tauto]. intros (? & ? & ?). split_and!; auto; lia.
    + split; [done|]. intros ((_ & Hs) & He & Hn).
      specialize (Hmono s (10 * acc + (c - 48)) Hs ltac:(mlia)). lia.
Qed.

Lemma parse_u32_numeral t n : parse_u32 t = Some n <-> numeral t n.
Proof.
  assert (Hz : u32_range 0) by mlia.
  assert ((exists d, t = 43 :: d) \/ ~ exists d, t = 43 :: d) as [[d ->]|Hne].
  { destruct t as [|c t]; [naive_solver|]. destruct (decide (c = 43)); naive_solver. }
  - assert (parse_u32 (43 :: d) = match d with [] => None | _ => digits_u32 0 d end)
      as -> by by destruct d.
    split.
    + destruct d as [|c d]; [done|]. intros (Hd & He & Hn)%(digits_u32_decimal _ _ _ Hz).
      exists (c :: d). split_and!; auto.
    + intros (ds & [<-|[= <-]] & Hne & Hd & He & Hn).
      * apply Forall_cons in Hd as [Hd _]. unfold is_digit in Hd. lia.
      * destruct d as [|c d]; [done|]. by apply digits_u32_decimal.
  - assert (parse_u32 t = match t with [] => None | _ => digits_u32 0 t end) as ->.
    { destruct t as [|c t]; [done|]. unfold parse_u32.
      repeat case_match; try done; subst; by destruct Hne; eexists. }
    split.
    + destruct t as [|c t]; [done|]. intros (Hd & He & Hn)%(digits_u32_decimal _ _ _ Hz).
      exists (c :: t). split_and!; auto.
    + intros (ds & [<-|Ht] & Hne' & Hd & He & Hn).
      * destruct t as [|c t]; [done|]. by apply digits_u32_decimal.
      * destruct Hne. by exists ds.
Qed.

Lemma pip_text_parse t c : pip_text t c <-> ColorPip.parse t = Some c.
Proof.
  split; [by intros []|]. intros Hp. pose proof (pip_parse_Some _ _ Hp) as ->.
  destruct c; constructor.
Qed.

Lemma pip_text_letter t c : pip_text t c -> t = [ColorPip.letter c].
Proof. intros Hp%pip_text_parse. by apply pip_parse_Some. Qed.

Lemma numeral_notin t n c : numeral t n -> ~ is_digit c -> c <> 43 -> c ∉ t.
Proof.
  intros (d & Ht & _ & Hd & _) Hc Hp. rewrite Forall_forall in Hd.
  destruct Ht as [->| ->]; [naive_solver|].
  change (str "+" ++ d) with (43 :: d). rewrite not_elem_of_cons. naive_solver.
Qed.

Lemma numeral_not_plain t n : numeral t n -> plain_symbol t = None.
Proof.
  intros Ht. unfold plain_symbol. repeat case_match; try done; subst; exfalso;
    match type of Ht with numeral [?c] _ =>
      apply (numeral_notin _ _ c Ht); [unfold is_digit; lia|lia|set_solver]
    end.
Qed.

Lemma symbol_text_parse t p : symbol_text t p -> parse_symbol t = Ok p.
Proof.
  assert (Hs : ~ is_digit 47) by (unfold is_digit; lia).
  intros [| | | | | | |u n Hn|u v a b Ha Hb|u v n c Hn Hc|u c Hc|u v a b Ha Hb Hne];
    try reflexivity.
  - pose proof (numeral_notin _ _ 47 Hn Hs ltac:(lia)).
    unfold parse_symbol, split_once.
    rewrite split_char_notin, (proj2 (find_char_None _ _)) by done.
    by rewrite (numeral_not_plain _ _ Hn), (proj2 (parse_u32_numeral _ _) Hn).
  - rewrite (pip_text_letter _ _ Ha), (pip_text_letter _ _ Hb). by destruct a, b.
  - pose proof (numeral_notin _ _ 47 Hn Hs ltac:(lia)).
    rewrite (pip_text_letter _ _ Hc). change (str "/" ++ ?x) with (47 :: x).
    unfold parse_symbol. rewrite split_char_app, split_once_notin by done.
    rewrite split_char_notin by (pose proof (letter_not_special c); set_solver).
    rewrite bool_decide_eq_false_2 by (pose proof (letter_not_special c); intros [=]; lia).
    by rewrite pip_parse_letter, (proj2 (parse_u32_numeral _ _) Hn).
  - rewrite (pip_text_letter _ _ Hc). by destruct c.
  - rewrite (pip_text_letter _ _ Ha), (pip_text_letter _ _ Hb).
    destruct a, b; try reflexivity; congruence.
Qed.

Lemma plain_symbol_text t p : plain_symbol t = Some p -> symbol_text t p.
Proof. unfold plain_symbol. intros. repeat case_match; simplify_eq; constructor. Qed.

Lemma split_char_join c s : exists x xs,
  split_char c s = x :: xs /\ s = x ++ concat (map (cons c) xs).
Proof.
  induction s as [|d s (x & xs & Hx & Hs)]; simpl; [by exists [], []|].
  rewrite Hx. destruct (Z.eqb_spec d c) as [->|].
  - exists [], (x :: xs). split; [done|]. simpl. by rewrite <- Hs.
  - exists (d :: x), xs. split; [done|]. simpl. by rewrite <- Hs.
Qed.

Lemma parse_symbol_text t p : parse_symbol t = Ok p -> symbol_text t p.
Proof.
  assert (Htwo : forall x y, split_once 47 t = Some (x, y) -> t = x ++ str "/" ++ y).
  { unfold split_once. intros x y. destruct (find_char 47 t) eqn:Hf; intros; simplify_eq.
    by apply find_char_Some in Hf as [? _]. }
  destruct (split_char_join 47 t) as (x & xs & Hx & Ht).
  unfold parse_symbol. rewrite Hx. intros Hp.
  repeat first
    [ progress simplify_eq/= | case_match
    | match goal with
      | H : rbind _ _ = Ok _ |- _ => apply rbind_Ok in H as (? & ? & ?)
      | H : ok_or _ _ = Ok _ |- _ => apply ok_or_Ok in H
      | H : _ || _ = false |- _ => apply orb_false_iff in H as [? ?]
      | H : negb _ = false |- _ => apply negb_false_iff in H
      | H : bool_decide _ = false |- _ => apply bool_decide_eq_false in H
      | H : bool_decide _ = true |- _ => apply bool_decide_eq_true in H
      | H : ColorPip.parse _ = Some _ |- _ => apply pip_text_parse in H
      | H : parse_u32 _ = Some _ |- _ => apply parse_u32_numeral in H
      | H : plain_symbol _ = Some _ |- _ => apply plain_symbol_text in H
      end ]; try rewrite (Htwo _ _ eq_refl); eauto using symbol_text;
    match goal with
    | |- symbol_text (?a ++ _ :: ?b) (ManaSymbol.Hybrid _ _) =>
        by apply (symbol_text_hybrid a b)
    | |- symbol_text (?a ++ _ :: ?b) (ManaSymbol.MonoHybrid _ _) =>
        by apply (symbol_text_mono a b)
    | |- symbol_text (?a ++ _ :: ?b ++ _) (ManaSymbol.HybridPhyrexian _ _) =>
        by apply (symbol_text_hybrid_phyrexian a b)
    end.
Qed.

Lemma parse_symbol_iff t p : parse_symbol t = Ok p <-> symbol_text t p.
Proof. split; [apply parse_symbol_text|apply symbol_text_parse]. Qed.

Lemma parse_symbol_refuses t e :
  parse_symbol t = Err e <-> ~ supported t /\ e = UnsupportedSymbol t.
Proof.
  assert (parse_symbol t = Err e -> e = UnsupportedSymbol t) as He.
  { unfold parse_symbol, ok_or, rbind. intros. repeat (case_match; simplify_eq/=); done. }
  split.
  - intros Hp. split; [|by apply He]. intros [p Hs%parse_symbol_iff]. congruence.
  - intros [Hn ->]. destruct (parse_symbol t) as [p|e'] eqn:Hp.
    + destruct Hn. exists p. by apply parse_symbol_iff.
    + f_equal. clear He. revert Hp. unfold parse_symbol, ok_or, rbind. intros.
      repeat (case_match; simplify_eq/=); done.
Qed.

Lemma supported_no_brace t : supported t -> 125 ∉ t.
Proof.
  intros [p Hp]. assert (Hd : ~ is_digit 125) by (unfold is_digit; lia).
  assert (forall u c, pip_text u c -> 125 ∉ u).
  { intros u c Hc. rewrite (pip_text_letter _ _ Hc). destruct c; set_solver. }
  assert (forall u n, numeral u n -> 125 ∉ u).
  { intros u n Hn. apply (numeral_notin _ _ _ Hn Hd). lia. }
  inversion Hp; subst; simpl; rewrite ?not_elem_of_app, ?not_elem_of_cons;
    naive_solver (try set_solver).
Qed.

(** ** The parsing loop *)

Lemma parse_loop_total fuel s rest acc :
  (length rest <= fuel)%nat -> parse_loop fuel s rest acc <> None.
Proof.
  revert rest acc. induction fuel as [|f IH]; intros [|x rest] acc Hl; simpl in *;
    try done; [lia|].
  destruct (x =? 123); [|done]. destruct (find_char 125 rest) as [e|] eqn:He; [|done].
  destruct (parse_symbol (take e rest)); [|done].
  apply IH. rewrite length_drop. lia.
Qed.

Lemma parse_loop_spec fuel s rest acc ps :
  parse_loop fuel s rest acc = Some (Ok ps) <->
  exists toks qs,
    (length toks <= fuel)%nat /\ rest = concat (map brace_group toks) /\
    Forall (fun t => 125 ∉ t) toks /\
    Forall2 (fun t p => parse_symbol t = Ok p) toks qs /\ ps = acc ++ qs.
Proof.
  revert rest acc. induction fuel as [|f IH]; intros rest acc.
  - destruct rest as [|x rest]; simpl; split.
    + intros [= ->]. exists [], []. rewrite app_nil_r. auto.
    + intros ([|t toks] & qs & Hl & Hr & _ & H2 & ->); [|simpl in Hl; lia].
      inversion H2; subst. by rewrite app_nil_r.
    + done.
    + intros ([|t toks] & qs & Hl & Hr & _); simpl in *; [done|lia].
  - destruct rest as [|x rest]; simpl.
    + split.
      * intros [= ->]. exists [], []. rewrite app_nil_r. split_and!; auto; simpl; lia.
      * intros ([|t toks] & qs & Hl & Hr & _ & H2 & ->); [|done].
        inversion H2; subst. by rewrite app_nil_r.
    + split.
      * destruct (Z.eqb_spec x 123) as [->|]; [|done].
        destruct (find_char 125 rest) as [e|] eqn:He; [|done].
        destruct (parse_symbol (take e rest)) as [p|] eqn:Hp; [|done].
        intros (toks & qs & Hl & Hr & HF & H2 & ->)%IH.
        apply find_char_Some in He as [He Hn].
        exists (take e rest :: toks), (p :: qs). split_and!; try (by constructor).
        -- simpl. lia.
        -- cbn [map concat]. rewrite <- Hr. unfold brace_group. simpl.
           rewrite <- app_assoc. simpl. by rewrite <- He.
        -- by rewrite <- app_assoc.
      * intros ([|t toks] & qs & Hl & Hr & HF & H2 & ->); simplify_eq/=.
        inversion H2 as [|? q ? qs' Hq H2']; subst. apply Forall_cons in HF as [Hn HF].
        rewrite <- app_assoc. cbn [app]. rewrite find_char_notin by done.
        destruct (take_drop_found t 125 (concat (map brace_group toks))) as [-> ->].
        rewrite Hq. apply IH. exists toks, qs'. rewrite <- app_assoc.
        split_and!; auto. lia.
Qed.

Lemma parse_loop_stuck fuel s rest acc e :
  (length rest <= fuel)%nat ->
  parse_loop fuel s rest acc = Some (Err e) <->
  exists toks left, rest = concat (map brace_group toks) ++ left /\
    Forall supported toks /\ stuck s left e.
Proof.
  revert rest acc. induction fuel as [|f IH]; intros [|x rest] acc Hl; simpl in Hl; try lia.
  1, 2: split; [done|]; intros ([|t toks] & left & He & _ & Hs); simplify_eq/=;
    destruct e; naive_solver.
  cbn [parse_loop strip_prefix]. destruct (Z.eqb_spec x 123) as [->|Hx].
  2: { split.
    - intros [= <-]. exists [], (x :: rest). simpl. naive_solver.
    - intros ([|t toks] & left & He & _ & Hs); simplify_eq/=.
      destruct e; unfold brace_group in *; naive_solver. }
  destruct (find_char 125 rest) as [i|] eqn:Hf.
  2: { apply find_char_None in Hf. split.
    - intros [= <-]. exists [], (123 :: rest). simpl. naive_solver.
    - intros ([|t toks] & left & He & _ & Hs); simplify_eq/=.
      + destruct e as [t|u|u]; simpl in Hs.
        * destruct Hs as (_ & _ & more & Hm). simplify_eq/=. set_solver.
        * naive_solver.
        * naive_solver.
      + set_solver. }
  assert (Hcut : forall t k, rest = t ++ 125 :: k -> 125 ∉ t ->
            t = take i rest /\ k = drop (S i) rest).
  { intros t k -> Hn. rewrite find_char_notin in Hf by done. simplify_eq.
    by destruct (take_drop_found t 125 k) as [-> ->]. }
  apply find_char_Some in Hf as [Hr Hn].
  destruct (parse_symbol (take i rest)) as [p|e'] eqn:Hp.
  - apply parse_symbol_iff in Hp. rewrite IH by (rewrite length_drop; lia). split.
    + intros (toks & left & He & Ht & Hs). exists (take i rest :: toks), left.
      split_and!; [|constructor; [by exists p|done]|done].
      simpl. rewrite <- !app_assoc. simpl. by rewrite <- He, <- Hr.
    + intros ([|t toks] & left & He & Ht & Hs); cbn in He; [subst left|injection He as He].
      * destruct e as [t|u|u]; simpl in Hs.
        -- destruct Hs as (Hns & Hnt & more & Hm). injection Hm as Hm.
           rewrite <- app_assoc in Hm. apply Hcut in Hm as [-> _]; [|done].
           destruct Hns. by exists p.
        -- naive_solver.
        -- destruct Hs as (_ & more & Hm & Hnm). simplify_eq. rewrite Hr in Hnm. set_solver.
      * apply Forall_cons in Ht as [Ht Hts]. rewrite <- !app_assoc in He. simpl in He.
        apply Hcut in He as [-> He]; [|by apply supported_no_brace].
        exists toks, left. by rewrite <- He.
  - apply parse_symbol_refuses in Hp as [Hns ->]. split.
    + intros [= <-]. exists [], (123 :: rest). simpl. split_and!; [done|constructor|done|done|].
      exists (drop (S i) rest). unfold brace_group. simpl. rewrite <- app_assoc. simpl.
      by rewrite <- Hr.
    + intros ([|t toks] & left & He & Ht & Hs); cbn in He; [subst left|injection He as He].
      * destruct e as [t|u|u]; simpl in Hs.
        -- destruct Hs as (_ & Hnt & more & Hm). injection Hm as Hm.
           rewrite <- app_assoc in Hm. by apply Hcut in Hm as [-> _].
        -- naive_solver.
        -- destruct Hs as (_ & more & Hm & Hnm). simplify_eq. rewrite Hr in Hnm. set_solver.
      * apply Forall_cons in Ht as [Ht _]. rewrite <- !app_assoc in He. simpl in He.
        apply Hcut in He as [-> _]; [done|by apply supported_no_brace].
Qed.

Lemma brace_groups_length toks :
  (length toks <= length (concat (map brace_group toks)))%nat.
Proof.
  induction toks as [|t toks IH]; simpl; [lia|]. rewrite !length_app. simpl. lia.
Qed.

Lemma parse_Ok_iff s c :
  parse s = Some (Ok c) <->
  exists toks, trim s = concat (map brace_group toks) /\
    Forall (fun t => 125 ∉ t) toks /\
    Forall2 (fun t p => parse_symbol t = Ok p) toks (pips c).
Proof.
  unfold parse. destruct (trim s) as [|x r] eqn:Ht.
  - split.
    + intros [= <-]. by exists [].
    + intros ([|t toks] & He & _ & H2); [|done]. inversion H2.
      destruct c; simpl in *; by subst.
  - rewrite <- Ht. destruct c as [ps]; simpl.
    assert (parse_loop (length (trim s)) (trim s) (trim s) [] = Some (Ok ps) <->
            exists toks, trim s = concat (map brace_group toks) /\
              Forall (fun t => 125 ∉ t) toks /\
              Forall2 (fun t p => parse_symbol t = Ok p) toks ps) as <-.
    { rewrite parse_loop_spec. split.
      - intros (toks & qs & _ & ? & ? & ? & ->). eauto.
      - intros (toks & He & ? & ?). exists toks, ps. split_and!; auto.
        rewrite He. apply brace_groups_length. }
    split; repeat case_match; naive_solver.
Qed.

Lemma parse_Err_iff s e :
  parse s = Some (Err e) <->
  exists toks left, trim s = concat (map brace_group toks) ++ left /\
    Forall supported toks /\ stuck (trim s) left e.
Proof.
  unfold parse. destruct (trim s) as [|x r] eqn:Ht.
  - split; [done|]. intros ([|t toks] & left & He & _ & Hs); simplify_eq/=.
    destruct e; naive_solver.
  - rewrite <- Ht, <- (parse_loop_stuck (length (trim s)) (trim s) (trim s) []) by done.
    repeat case_match; naive_solver.
Qed.

Lemma parse_reads s c :
  parse s = Some (Ok c) <->
  exists toks, trim s = concat (map brace_group toks) /\ Forall2 symbol_text toks (pips c).
Proof.
  rewrite parse_Ok_iff. split; intros (toks & He & H).
  - destruct H as [_ H]. exists toks. split; [done|].
    eapply Forall2_impl; [exact H|]. intros. by apply parse_symbol_iff.
  - exists toks. split_and!; [done| |].
    + apply Forall_forall. intros t (i & Hi)%list_elem_of_lookup.
      destruct (Forall2_lookup_l _ _ _ _ _ H Hi) as (p & _ & Hp).
      apply supported_no_brace. by exists p.
    + eapply Forall2_impl; [exact H|]. intros. by apply parse_symbol_iff.
Qed.

(** ** Trimming printed costs *)

Lemma drop_while_head p x s : p x = false -> drop_while p (x :: s) = x :: s.
Proof. simpl. by intros ->. Qed.

Lemma fmt_cost_groups c : fmt_cost c = concat (map brace_group (map symbol_body (pips c))).
Proof. unfold fmt_cost. rewrite map_map. done. Qed.

Lemma groups_last toks : toks <> [] ->
  exists s, concat (map brace_group toks) = s ++ [125].
Proof.
  induction toks as [|t [|t' toks] IH]; intros Hne; [done| |].
  - exists (123 :: t). simpl. by rewrite app_nil_r.
  - destruct IH as [s Hs]; [done|]. exists (brace_group t ++ s).
    rewrite <- app_assoc, <- Hs. done.
Qed.

Lemma trim_bracketed s t u : s = 123 :: t -> s = u ++ [125] -> trim s = s.
Proof.
  intros Ht Hu. unfold trim. rewrite Ht at 1. rewrite drop_while_head by done.
  rewrite <- Ht, Hu, rev_app_distr. cbn [rev app].
  rewrite drop_while_head by done. cbn [rev]. by rewrite rev_involutive.
Qed.

Lemma trim_groups toks :
  trim (concat (map brace_group toks)) = concat (map brace_group toks).
Proof.
  destruct toks as [|t toks]; [done|].
  destruct (groups_last (t :: toks)) as [s Hs]; [done|].
  by eapply trim_bracketed.
Qed.

Lemma parse_fmt_cost c : wf_cost c -> parse (fmt_cost c) = Some (Ok c).
Proof.
  intros Hw. apply parse_Ok_iff. exists (map symbol_body (pips c)).
  rewrite fmt_cost_groups, trim_groups. split_and!; [done| |].
  - apply Forall_map. eapply Forall_impl; [exact Hw|]. apply symbol_body_no_brace.
  - unfold wf_cost in Hw. induction Hw; simpl; constructor; auto using parse_symbol_body.
Qed.

Lemma parse_wf s c : parse s = Some (Ok c) -> wf_cost c.
Proof.
  intros (toks & _ & _ & H2)%parse_Ok_iff. unfold wf_cost.
  induction H2; constructor; eauto using parse_symbol_wf.
Qed.

Lemma parse_total s : exists r, parse s = Some r.
Proof.
  unfold parse. destruct (trim s) as [|x r] eqn:Ht; [by eexists|]. rewrite <- Ht.
  pose proof (parse_loop_total (length (trim s)) (trim s) (trim s) [] ltac:(lia)).
  destruct (parse_loop _ _ _ _) as [[?|?]|]; [by eexists..|done].
Qed.

(** ** Lemmas on the readings of a cost *)

(** The value of a symbol when [X] is announced as [x]. *)
Definition value_with_x (x : Z) (p : ManaSymbol) : Z :=
  match p with ManaSymbol.X => x | _ => pip_value p end.

Lemma value_with_x_sum x ps :
  zsum (map (value_with_x x) ps) =
  zsum (map pip_value ps) + Z.of_nat (length (List.filter is_x ps)) * x.
Proof.
  induction ps as [|p ps IH]; [done|]. cbn [map zsum List.filter].
  destruct p; cbn [is_x length value_with_x]; rewrite IH; simpl; lia.
Qed.

Lemma pip_values_nonneg ps : Forall wf_symbol ps -> Forall (Z.le 0) (map pip_value ps).
Proof.
  intros Hw. apply Forall_map. eapply Forall_impl; [exact Hw|].
  intros [| | | | | |n| |a b|n c|c|a b]; cbn [wf_symbol pip_value]; unfold u32_range; lia.
Qed.

Lemma push_color_elem out c d : d ∈ push_color out c <-> d ∈ out \/ d = c.
Proof.
  unfold push_color. case_bool_decide; [naive_solver|]. rewrite elem_of_app. set_solver.
Qed.

Lemma push_color_nodup out c : NoDup out -> NoDup (push_color out c).
Proof.
  unfold push_color. case_bool_decide as Hc; [done|]. intros Hn. apply NoDup_app.
  split_and!; [done|set_solver|apply NoDup_singleton].
Qed.

Lemma push_colors_spec cs out :
  NoDup out ->
  NoDup (fold_left push_color cs out) /\
  forall d, d ∈ fold_left push_color cs out <-> d ∈ out \/ d ∈ cs.
Proof.
  revert out. induction cs as [|c cs IH]; intros out Hn; cbn [fold_left].
  - split; [done|]. intros d. set_solver.
  - destruct (IH (push_color out c) (push_color_nodup _ _ Hn)) as [H1 H2].
    split; [done|]. intros d. rewrite H2, push_color_elem, elem_of_cons. tauto.
Qed.

(** ** Properties *)

(** Printing and parsing a cost are inverse: the text of every cost the
    parser can produce parses back to that cost. *)
Theorem parse_fmt_roundtrip c : wf_cost c -> parse (fmt_cost c) = Some (Ok c).
Proof. exact (parse_fmt_cost c). Qed.

(** C35. The parser always answers, and what it answers is the grammar of
    mana costs, which [symbol_text] writes down symbol by symbol. It accepts
    a text exactly when the text is, after trimming, a sequence of brace
    groups around supported symbols, and gives these symbols in order. It
    refuses every other text with the error of the first place where no
    group of a supported symbol stands: the name of an unsupported symbol, a
    character that opens no group, or a group that is not closed. What it
    accepts prints as a text it reads as the same cost. *)
Theorem parse_spec s :
  (exists r, parse s = Some r) /\
  (forall c, parse s = Some (Ok c) <->
     exists toks, trim s = concat (map brace_group toks) /\
       Forall2 symbol_text toks (pips c)) /\
  (forall e, parse s = Some (Err e) <->
     exists toks left, trim s = concat (map brace_group toks) ++ left /\
       Forall supported toks /\ stuck (trim s) left e) /\
  (forall c, parse s = Some (Ok c) -> wf_cost c /\ parse (fmt_cost c) = Some (Ok c)).
Proof.
  split_and!; [apply parse_total|apply parse_reads|apply parse_Err_iff|].
  intros c Hc%parse_wf. split; [done|]. by apply parse_fmt_cost.
Qed.

(** The mana value on the stack is the sum of the symbols with every [X]
    read as the announced value, and off the stack with [X] read as zero, as
    long as the sum fits in [u32]. *)
Theorem mana_value_on_stack_spec c x :
  wf_cost c -> 0 <= x -> zsum (map (value_with_x x) (pips c)) <= u32_max ->
  Z.of_nat (length (pips c)) <= u32_max ->
  mana_value_on_stack c x = zsum (map (value_with_x x) (pips c)) /\
  mana_value c = zsum (map (value_with_x 0) (pips c)).
Proof.
  intros Hw Hx Hs Hl. pose proof (pip_values_nonneg _ Hw) as Hn. pose proof (zsum_nonneg _ Hn).
  pose proof (List.filter_length_le is_x (pips c)) as Hlen.
  rewrite !value_with_x_sum in *. assert (Hm : mana_value c = zsum (map pip_value (pips c))).
  { unfold mana_value. rewrite fold_u32_add; [done|done|lia|nia]. }
  split; [|lia]. unfold mana_value_on_stack, u32_saturating_add, u32_saturating_mul.
  rewrite Hm, wrap_u32_small by mlia. nia.
Qed.

(** The colours of a cost are listed once each, and are exactly the colours
    of its symbols: a hybrid symbol counts for both, generic mana, colorless
    mana and [X] for none. *)
Theorem colors_spec c :
  NoDup (colors c) /\
  forall d, d ∈ colors c <-> exists p, p ∈ pips c /\ d ∈ pip_colors p.
Proof.
  unfold colors.
  enough (H : forall ps out, NoDup out ->
    NoDup (fold_left (fun out p => fold_left push_color (pip_colors p) out) ps out) /\
    forall d, d ∈ fold_left (fun out p => fold_left push_color (pip_colors p) out) ps out <->
      d ∈ out \/ exists p, p ∈ ps /\ d ∈ pip_colors p).
  { destruct (H (pips c) []) as [H1 H2]; [constructor|]. split; [done|].
    intros d. rewrite H2. set_solver. }
  induction ps as [|p ps IH]; intros out Hn; cbn [fold_left].
  - split; [done|]. set_solver.
  - destruct (push_colors_spec (pip_colors p) out Hn) as [H1 H2].
    destruct (IH _ H1) as [H3 H4]. split; [done|]. intros d. rewrite H4, H2. set_solver.
Qed.

(** The mono-hybrid value is the printed number even when the colour is the
    dearer alternative: [{0/W}] is worth 0, not the 1 of its white half. *)
Theorem zero_mono_hybrid_value :
  parse (str "{0/W}") = Some (Ok {| pips := [ManaSymbol.MonoHybrid 0 ColorPip.W] |}) /\
  mana_value {| pips := [ManaSymbol.MonoHybrid 0 ColorPip.W] |} = 0.
Proof. split; vm_compute; reflexivity. Qed.

(** ** Witnesses *)

(** [{X}{X}{12}{2/W}{G/U/P}]. *)
Definition sample_pips : ManaCost :=
  {| pips := [ManaSymbol.X; ManaSymbol.X; ManaSymbol.Generic 12;
              ManaSymbol.MonoHybrid 2 ColorPip.W;
              ManaSymbol.HybridPhyrexian ColorPip.G ColorPip.U] |}.

Lemma sample_pips_wf : wf_cost sample_pips.
Proof.
  repeat (apply Forall_cons; split; [first [exact I | discriminate | split; vm_compute; discriminate]|]).
  apply Forall_nil_2.
Qed.

Lemma parse_fmt_roundtrip_witness :
  fmt_cost sample_pips = str "{X}{X}{12}{2/W}{G/U/P}" /\
  parse (str "{X}{X}{12}{2/W}{G/U/P}") = Some (Ok sample_pips).
Proof.
  split; [vm_compute; reflexivity|].
  exact (parse_fmt_roundtrip sample_pips sample_pips_wf).
Defined.

Lemma mana_value_on_stack_spec_witness :
  mana_value_on_stack sample_pips 3 = 21 /\ mana_value sample_pips = 15.
Proof.
  exact (mana_value_on_stack_spec sample_pips 3 sample_pips_wf
    ltac:(discriminate) ltac:(vm_compute; discriminate) ltac:(vm_compute; discriminate)).
Defined.

Lemma parse_spec_witness :
  (wf_cost sample_pips /\ parse (fmt_cost sample_pips) = Some (Ok sample_pips)) /\
  exists toks left,
    trim (str "{G}{W/U/X}") = concat (map brace_group toks) ++ left /\
    Forall supported toks /\
    stuck (trim (str "{G}{W/U/X}")) left (UnsupportedSymbol (str "W/U/X")).
Proof.
  split.
  - apply (parse_spec (str " {X}{X}{12}{2/W}{G/U/P} ")). vm_compute; reflexivity.
  - apply (parse_spec (str "{G}{W/U/X}")). vm_compute; reflexivity.
Defined.
