(* ===== verification/FlexSolver.v ===== *)
(** * The flexible-pip solver: [tricerules-core/src/engine/payment/mana.rs]

    [solve_flex] and [solve_flex_with_required_spend]: the backtracking search
    that decides whether the hybrid, mono-hybrid and Phyrexian symbols of a
    cost, together with its generic mana, can be paid from a pool.

    A pool is the array [[u32; 6]] of the source (W, U, B, R, G, C), a list of
    length six. Subtractions are written on [Z] where the line before them
    guards the subtrahend ([min], [> 0], a comparison); the two additions the
    source writes, the wrapping [generic + n] and the saturating
    [generic.saturating_add(n)], are kept apart. *)
From S2P Require Import Prelude ManaCost.
Open Scope cockatrice_scope.
Local Open Scope Z_scope.

Abbreviation PoolVec := (list Z).

Definition POOL_C : nat := 5.

Definition color_index (c : ColorPip) : nat :=
  match c with
  | ColorPip.W => 0
  | ColorPip.U => 1
  | ColorPip.B => 2
  | ColorPip.R => 3
  | ColorPip.G => 4
  end.

Module FlexPip.

Inductive t : Type :=
| Hybrid (a b : ColorPip)
| Mono (n : Z) (c : ColorPip)
| Color (c : ColorPip).

End FlexPip.

Abbreviation FlexPip := FlexPip.t.

(** [p[i] -= 1]. *)
Definition debit_one (i : nat) (pool : PoolVec) : PoolVec :=
  <[i := pool !!! i - 1]> pool.

(** One iteration of [for &i in &[POOL_C, 0, 1, 2, 3, 4]]. *)
Definition take_generic_slot (st : PoolVec * Z) (i : nat) : PoolVec * Z :=
  let '(p, g) := st in
  let t := Z.min g (p !!! i) in
  (<[i := p !!! i - t]> p, g - t).

Definition generic_order : list nat := [POOL_C; 0; 1; 2; 3; 4]%nat.

Definition take_generic (pool : PoolVec) (generic : Z) : PoolVec * Z :=
  fold_left take_generic_slot generic_order (pool, generic).

(** The slice [flex[idx..]] is the list argument. *)
Fixpoint solve_flex (pool : PoolVec) (flex : list FlexPip) (generic : Z)
    : option PoolVec :=
  match flex with
  | [] =>
      let '(p, g) := take_generic pool generic in
      if g =? 0 then Some p else None
  | FlexPip.Hybrid a b :: rest =>
      let try (c : ColorPip) :=
        let i := color_index c in
        if 0 <? pool !!! i then solve_flex (debit_one i pool) rest generic
        else None in
      match try a with
      | Some r => Some r
      | None => try b
      end
  | FlexPip.Color c :: rest =>
      let i := color_index c in
      if pool !!! i =? 0 then None
      else solve_flex (debit_one i pool) rest generic
  | FlexPip.Mono n c :: rest =>
      let i := color_index c in
      match
        (if 0 <? pool !!! i then solve_flex (debit_one i pool) rest generic
         else None)
      with
      | Some r => Some r
      | None => solve_flex pool rest (u32_add generic n)
      end
  end.

(** One iteration of the [for i in 0..6] loop of the required-spend solver. *)
Definition require_slot (max_remaining : PoolVec) (st : option (PoolVec * Z))
    (i : nat) : option (PoolVec * Z) :=
  match st with
  | None => None
  | Some (p, g) =>
      let required := u32_saturating_sub (p !!! i) (max_remaining !!! i) in
      if g <? required then None
      else Some (<[i := p !!! i - required]> p, g - required)
  end.

Definition take_required (pool : PoolVec) (generic : Z) (max_remaining : PoolVec)
    : option (PoolVec * Z) :=
  fold_left (require_slot max_remaining) (seq 0 6) (Some (pool, generic)).

Fixpoint solve_flex_with_required_spend (pool : PoolVec) (flex : list FlexPip)
    (generic : Z) (max_remaining : PoolVec) : option PoolVec :=
  match flex with
  | [] =>
      match take_required pool generic max_remaining with
      | None => None
      | Some (p, g) =>
          let '(p, g) := take_generic p g in
          if (g =? 0) &&
             forallb (fun i => p !!! i <=? max_remaining !!! i) (seq 0 6)
          then Some p else None
      end
  | FlexPip.Hybrid a b :: rest =>
      let try (c : ColorPip) :=
        let i := color_index c in
        if 0 <? pool !!! i
        then solve_flex_with_required_spend (debit_one i pool) rest generic max_remaining
        else None in
      match try a with
      | Some r => Some r
      | None => try b
      end
  | FlexPip.Color c :: rest =>
      let i := color_index c in
      if pool !!! i =? 0 then None
      else solve_flex_with_required_spend (debit_one i pool) rest generic max_remaining
  | FlexPip.Mono n c :: rest =>
      let i := color_index c in
      match
        (if 0 <? pool !!! i
         then solve_flex_with_required_spend (debit_one i pool) rest generic max_remaining
         else None)
      with
      | Some r => Some r
      | None =>
          solve_flex_with_required_spend pool rest
            (u32_saturating_add generic n) max_remaining
      end
  end.

(** ** Specification: an announced way to pay

    A pick is a slot and an amount; slot 6 is generic mana, as in the demand
    vectors. [solution pool flex generic r] says that, for some pick of every
    flexible pip, the coloured picks are in the pool and the rest of the pool
    covers the generic total, leaving [r]. *)

Definition wf_pool (p : PoolVec) : Prop := length p = 6%nat /\ Forall (Z.le 0) p.

Definition flex_options (f : FlexPip) : list (nat * Z) :=
  match f with
  | FlexPip.Hybrid a b => [(color_index a, 1); (color_index b, 1)]
  | FlexPip.Mono n c => [(color_index c, 1); (6%nat, n)]
  | FlexPip.Color c => [(color_index c, 1)]
  end.

(** The amount the picks put on a slot. *)
Fixpoint picked (picks : list (nat * Z)) (slot : nat) : Z :=
  match picks with
  | [] => 0
  | (s, a) :: rest => (if Nat.eqb s slot then a else 0) + picked rest slot
  end.

Definition mono_total (flex : list FlexPip) : Z :=
  zsum (map (fun f => match f with FlexPip.Mono n _ => n | _ => 0 end) flex).

Definition wf_flex (flex : list FlexPip) : Prop :=
  Forall (fun f => match f with FlexPip.Mono n _ => 0 <= n | _ => True end) flex.

Definition picks_for (flex : list FlexPip) (picks : list (nat * Z)) : Prop :=
  Forall2 (fun f p => p ∈ flex_options f) flex picks.

Definition solution (pool : PoolVec) (flex : list FlexPip) (generic : Z)
    (r : PoolVec) : Prop :=
  exists picks, picks_for flex picks /\
    length r = 6%nat /\
    (forall i, (i < 6)%nat -> 0 <= r !!! i <= pool !!! i - picked picks i) /\
    zsum r = zsum pool - zsum (map (picked picks) (seq 0 6)) -
             (generic + picked picks 6).

(** The solver may leave at most [max_remaining] in each slot. *)
Definition capped (r cap : PoolVec) : Prop :=
  forall i, (i < 6)%nat -> r !!! i <= cap !!! i.

(** ** Pools *)

Lemma color_index_lt c : (color_index c < 6)%nat.
Proof. destruct c; simpl; lia. Qed.

#[local] Hint Resolve color_index_lt : core.

Lemma wf_pool_nonneg p i : wf_pool p -> 0 <= p !!! i.
Proof. intros [_ HF]. by apply nonneg_lookup_total. Qed.

Lemma wf_pool_intro p :
  length p = 6%nat -> (forall i, (i < 6)%nat -> 0 <= p !!! i) -> wf_pool p.
Proof. intros Hl Hp. split; [done|]. apply nonneg_of_lookups. by rewrite Hl. Qed.

Lemma zsum_pool p : length p = 6%nat -> zsum p = zsum (map (fun i => p !!! i) (seq 0 6)).
Proof. intros <-. by rewrite zsum_lookups. Qed.

Lemma length_debit i p : length (debit_one i p) = length p.
Proof. apply length_insert. Qed.

Lemma debit_lookup i j p : (i < length p)%nat ->
  debit_one i p !!! j = p !!! j - (if Nat.eqb i j then 1 else 0).
Proof.
  intros Hi. unfold debit_one. rewrite lookup_total_insert by done.
  destruct (Nat.eqb_spec i j); subst; lia.
Qed.

Lemma zsum_debit i p : (i < length p)%nat -> zsum (debit_one i p) = zsum p - 1.
Proof. intros Hi. unfold debit_one. rewrite zsum_insert_total by done. lia. Qed.

Lemma wf_debit i p : (i < 6)%nat -> wf_pool p -> 0 < p !!! i -> wf_pool (debit_one i p).
Proof.
  intros Hi Hw Hp. apply wf_pool_intro; [rewrite length_debit; apply Hw|].
  intros j Hj. rewrite debit_lookup by (destruct Hw; lia).
  pose proof (wf_pool_nonneg p j Hw). destruct (Nat.eqb_spec i j); subst; lia.
Qed.

(** ** The generic loop *)

Lemma take_generic_fold order p g p' g' :
  Forall (fun i => (i < length p)%nat) order -> Forall (Z.le 0) p -> 0 <= g ->
  fold_left take_generic_slot order (p, g) = (p', g') ->
  length p' = length p /\ (forall i, 0 <= p' !!! i <= p !!! i) /\
  zsum p - zsum p' = g - g' /\ 0 <= g' <= g /\
  (g' = 0 \/ forall i, i ∈ order -> p' !!! i = 0).
Proof.
  revert p g. induction order as [|i order IH]; cbn [fold_left]; intros p g Ho Hp Hg He.
  - simplify_eq. split_and!; try done; try lia.
    + intros i. pose proof (nonneg_lookup_total p' i Hp). lia.
    + right. set_solver.
  - apply Forall_cons in Ho as [Hi Ho]. cbn [take_generic_slot] in He.
    set (t := Z.min g (p !!! i)) in He.
    pose proof (nonneg_lookup_total p i Hp) as Hpi.
    destruct (IH (<[i:=p !!! i - t]> p) (g - t)) as (Hl & Hb & Hs & Hg' & Hz);
      [by rewrite length_insert|apply Forall_insert; [done|]; lia|lia|done|].
    rewrite length_insert in Hl. rewrite zsum_insert_total in Hs by done.
    split_and!; try done; try lia.
    + intros j. specialize (Hb j). rewrite lookup_total_insert in Hb by done.
      destruct (Nat.eqb_spec i j); subst; lia.
    + destruct (Z.eq_dec g' 0) as [|Hne]; [by left|right].
      destruct Hz as [|Hz]; [done|].
      intros j [->|Hj]%elem_of_cons; [|by apply Hz].
      specialize (Hb i). rewrite lookup_total_insert, Nat.eqb_refl in Hb by done. lia.
Qed.

Lemma generic_order_all i : (i < 6)%nat -> i ∈ generic_order.
Proof. intros. do 6 (destruct i as [|i]; [set_solver|]). lia. Qed.

Lemma generic_order_lt : Forall (fun i => (i < 6)%nat) generic_order.
Proof. unfold generic_order, POOL_C. rewrite !Forall_cons. split_and!; lia || done. Qed.

Lemma take_generic_spec p g p' g' :
  wf_pool p -> 0 <= g -> take_generic p g = (p', g') ->
  length p' = 6%nat /\ (forall i, 0 <= p' !!! i <= p !!! i) /\
  zsum p - zsum p' = g - g' /\ 0 <= g' <= g /\ (g' = 0 \/ zsum p' = 0).
Proof.
  intros [Hl Hp] Hg He. unfold take_generic in He.
  apply take_generic_fold in He as (Hl' & Hb & Hs & Hg' & Hz); [|by rewrite Hl; apply generic_order_lt|done..].
  rewrite Hl in Hl'. split_and!; try done; try lia.
  destruct Hz as [->|Hz]; [by left|right].
  rewrite zsum_pool by done.
  rewrite (zsum_map_ext _ (fun _ => 0)); [done|].
  intros i Hi%elem_of_seq. apply Hz, generic_order_all. lia.
Qed.

(** ** Picks *)

Lemma picked_nonneg flex picks i :
  wf_flex flex -> picks_for flex picks -> 0 <= picked picks i.
Proof.
  intros Hw Hp. induction Hp as [|f [s a] flex picks Hin Hp IH]; cbn [picked]; [lia|].
  apply Forall_cons in Hw as [Hf Hw]. specialize (IH Hw).
  assert (0 <= a) by (destruct f; cbn [flex_options] in Hin; set_solver by lia).
  destruct (Nat.eqb s i); lia.
Qed.

Lemma picked_cons_sum s a picks :
  zsum (map (picked ((s, a) :: picks)) (seq 0 6)) =
  (if (s <? 6)%nat then a else 0) + zsum (map (picked picks) (seq 0 6)).
Proof.
  cbn [picked]. rewrite zsum_map_add. f_equal.
  do 6 (destruct s as [|s]; [simpl; lia|]). simpl. lia.
Qed.

Lemma flex_option_cases f s a :
  (s, a) ∈ flex_options f -> ((s < 6)%nat /\ a = 1) \/ s = 6%nat.
Proof.
  destruct f as [x y|n c|c]; cbn [flex_options]; rewrite ?elem_of_cons, ?elem_of_nil;
    intros Hin; pose proof color_index_lt; naive_solver.
Qed.

(** A solution of the whole cost is a pick for the first symbol and a
    solution of the rest. *)
Lemma solution_cons pool f rest g r :
  wf_pool pool -> wf_flex rest ->
  solution pool (f :: rest) g r <->
  exists s a, (s, a) ∈ flex_options f /\
    (((s < 6)%nat /\ 0 < pool !!! s /\ solution (debit_one s pool) rest g r) \/
     (s = 6%nat /\ solution pool rest (g + a) r)).
Proof.
  intros [Hlen _] Hw. split.
  - intros (picks & Hp & Hl & Hb & Hs). inversion Hp as [|? [s a] ? picks' Hin Hp']; subst.
    exists s, a. split; [done|]. rewrite picked_cons_sum in Hs. cbn [picked] in Hb, Hs.
    destruct (flex_option_cases _ _ _ Hin) as [[Hs6 ->]| ->]; [left|right].
    + pose proof (picked_nonneg _ _ s Hw Hp').
      pose proof (Hb s Hs6) as Hbs. rewrite Nat.eqb_refl in Hbs.
      split_and!; [done|lia|]. exists picks'. split_and!; try done.
      * intros i Hi. rewrite debit_lookup by lia. specialize (Hb i Hi).
        destruct (Nat.eqb s i); lia.
      * rewrite zsum_debit by lia. apply Nat.ltb_lt in Hs6 as Hs6'. rewrite Hs6' in Hs.
        assert (Nat.eqb s 6 = false) as Hs6'' by (apply Nat.eqb_neq; lia).
        rewrite Hs6'' in Hs. lia.
    + split; [done|]. exists picks'. split_and!; try done; [|change (6 <? 6)%nat with false in Hs; change (Nat.eqb 6 6) with true in Hs; cbv iota in Hs; lia].
      intros i Hi. specialize (Hb i Hi).
      assert (Nat.eqb 6 i = false) as Hs6 by (apply Nat.eqb_neq; lia).
      rewrite Hs6 in Hb. lia.
  - intros (s & a & Hin & [(Hs6 & Hpos & picks & Hp & Hl & Hb & Hs)| (-> & picks & Hp & Hl & Hb & Hs)]).
    + destruct (flex_option_cases _ _ _ Hin) as [[_ ->]| ->]; [|lia].
      exists ((s, 1) :: picks). rewrite picked_cons_sum. cbn [picked].
      split_and!; [by constructor|done| |].
      * intros i Hi. specialize (Hb i Hi). rewrite debit_lookup in Hb by lia.
        destruct (Nat.eqb s i); lia.
      * rewrite zsum_debit in Hs by lia. apply Nat.ltb_lt in Hs6 as Hs6'. rewrite Hs6'.
        assert (Nat.eqb s 6 = false) as -> by (apply Nat.eqb_neq; lia). lia.
    + exists ((6%nat, a) :: picks). rewrite picked_cons_sum. cbn [picked].
      split_and!; [by constructor|done| |
        change (6 <? 6)%nat with false; change (Nat.eqb 6 6) with true; cbv iota; lia].
      intros i Hi. specialize (Hb i Hi).
      assert (Nat.eqb 6 i = false) as -> by (apply Nat.eqb_neq; lia). lia.
Qed.

Lemma solution_nil pool g r :
  solution pool [] g r <->
  length r = 6%nat /\ (forall i, (i < 6)%nat -> 0 <= r !!! i <= pool !!! i) /\
  zsum r = zsum pool - g.
Proof.
  split.
  - intros (picks & Hp & Hl & Hb & Hs). inversion Hp; subst. cbn [picked] in *.
    simpl in Hs. split_and!; [done| |lia]. intros i Hi. specialize (Hb i Hi). lia.
  - intros (Hl & Hb & Hs). exists []. cbn [picked]. simpl.
    split_and!; [constructor|done| |lia]. intros i Hi. specialize (Hb i Hi). lia.
Qed.

(** A coloured pick cannot be taken from an empty slot. *)
Lemma solution_debit_pos pool rest g r s :
  length pool = 6%nat -> (s < 6)%nat -> wf_flex rest ->
  solution (debit_one s pool) rest g r -> 0 < pool !!! s.
Proof.
  intros Hl Hs Hw (picks & Hp & _ & Hb & _). specialize (Hb s Hs).
  rewrite debit_lookup, Nat.eqb_refl in Hb by lia.
  pose proof (picked_nonneg _ _ s Hw Hp). lia.
Qed.

(** ** A solver as a search for a constrained solution

    Both solvers make the same choices and differ in what they do once every
    flexible pip is decided; [search_ok P res pool flex g] says that [res] is
    a solution satisfying [P] when there is one, and [None] otherwise. *)

Definition search_ok (P : PoolVec -> Prop) (res : option PoolVec)
    (pool : PoolVec) (flex : list FlexPip) (g : Z) : Prop :=
  match res with
  | Some r => solution pool flex g r /\ P r
  | None => forall r, solution pool flex g r -> ~ P r
  end.

Section Search.
Context (P : PoolVec -> Prop).
Context (pool : PoolVec) (rest : list FlexPip) (g : Z).
Context (Hpool : wf_pool pool) (Hrest : wf_flex rest).

Lemma search_color c res :
  (0 < pool !!! color_index c ->
   search_ok P res (debit_one (color_index c) pool) rest g) ->
  search_ok P (if pool !!! color_index c =? 0 then None else res)
    pool (FlexPip.Color c :: rest) g.
Proof.
  intros Hres. pose proof (wf_pool_nonneg pool (color_index c) Hpool).
  pose proof (color_index_lt c).
  destruct (Z.eqb_spec (pool !!! color_index c) 0) as [He|Hne].
  - intros r Hr%solution_cons HP; [|done..].
    destruct Hr as (s & a & Hin & Hr). cbn [flex_options] in Hin.
    apply list_elem_of_singleton in Hin as [= -> ->].
    destruct Hr as [(_ & Hp & _)|[Hs _]]; lia.
  - specialize (Hres ltac:(lia)). destruct res as [r|]; cbn [search_ok] in *.
    + split; [|apply Hres]. apply solution_cons; [done..|].
      exists (color_index c), 1. split; [set_solver|]. left.
      split_and!; [done|lia|apply Hres].
    + intros r Hr%solution_cons HP; [|done..].
      destruct Hr as (s & a & Hin & Hr). cbn [flex_options] in Hin.
      apply list_elem_of_singleton in Hin as [= -> ->].
      destruct Hr as [(_ & _ & Hr)|[Hs _]]; [by eapply Hres|lia].
Qed.

Lemma search_hybrid a b ra rb :
  (0 < pool !!! color_index a ->
   search_ok P ra (debit_one (color_index a) pool) rest g) ->
  (0 < pool !!! color_index b ->
   search_ok P rb (debit_one (color_index b) pool) rest g) ->
  search_ok P
    (match (if 0 <? pool !!! color_index a then ra else None) with
     | Some r => Some r
     | None => if 0 <? pool !!! color_index b then rb else None
     end)
    pool (FlexPip.Hybrid a b :: rest) g.
Proof.
  intros Ha Hb. pose proof (color_index_lt a). pose proof (color_index_lt b).
  assert (Hok : forall c rc, c = a \/ c = b -> 0 < pool !!! color_index c ->
    search_ok P (Some rc) (debit_one (color_index c) pool) rest g ->
    search_ok P (Some rc) pool (FlexPip.Hybrid a b :: rest) g).
  { intros c rc Hc Hp [Hr HP]. split; [|done]. apply solution_cons; [done..|].
    exists (color_index c), 1. pose proof (color_index_lt c).
    split; [cbn [flex_options]; destruct Hc; subst; set_solver|]. left. done. }
  destruct (Z.ltb_spec 0 (pool !!! color_index a)) as [Hpa|Hpa];
    [specialize (Ha Hpa); destruct ra as [r|]; [by eapply (Hok a); auto|]|];
    (destruct (Z.ltb_spec 0 (pool !!! color_index b)) as [Hpb|Hpb];
     [specialize (Hb Hpb); destruct rb as [r'|]; [by eapply (Hok b); auto|]|]);
    intros r Hr%solution_cons HP; try done;
    destruct Hr as (s & n & Hin & Hr); cbn [flex_options] in Hin;
    apply elem_of_cons in Hin as [[= -> ->]|[= -> ->]%list_elem_of_singleton];
    (destruct Hr as [(_ & Hp & Hr)|[Hs _]]; [|lia]);
    first [by eapply Ha | by eapply Hb | lia].
Qed.

Lemma search_mono n c rc rn :
  (0 < pool !!! color_index c ->
   search_ok P rc (debit_one (color_index c) pool) rest g) ->
  search_ok P rn pool rest (g + n) ->
  search_ok P
    (match (if 0 <? pool !!! color_index c then rc else None) with
     | Some r => Some r
     | None => rn
     end)
    pool (FlexPip.Mono n c :: rest) g.
Proof.
  intros Hc Hn. pose proof (color_index_lt c).
  assert (Hgen : (0 < pool !!! color_index c -> rc = None) ->
    search_ok P rn pool (FlexPip.Mono n c :: rest) g).
  { intros Hno. destruct rn as [r|]; cbn [search_ok] in *.
    - split; [|apply Hn]. apply solution_cons; [done..|].
      exists 6%nat, n. split; [cbn [flex_options]; set_solver|]. right. split; [done|apply Hn].
    - intros r Hr%solution_cons HP; [|done..].
      destruct Hr as (s & m & Hin & Hr). cbn [flex_options] in Hin.
      apply elem_of_cons in Hin as [[= -> ->]|[= -> ->]%list_elem_of_singleton].
      + destruct Hr as [(_ & Hp & Hr)|[Hs _]]; [|lia].
        specialize (Hc Hp). rewrite Hno in Hc by done. by eapply Hc.
      + destruct Hr as [(Hs & _ & _)|[_ Hr]]; [lia|by eapply Hn]. }
  destruct (Z.ltb_spec 0 (pool !!! color_index c)) as [Hp|Hp]; [|apply Hgen; lia].
  specialize (Hc Hp). destruct rc as [r|]; [|by apply Hgen].
  destruct Hc as [Hr HP]. split; [|done]. apply solution_cons; [done..|].
  exists (color_index c), 1. split; [cbn [flex_options]; set_solver|]. left. done.
Qed.

End Search.

(** ** The plain solver *)

Lemma solve_flex_search pool flex g :
  wf_pool pool -> wf_flex flex -> 0 <= g -> g + mono_total flex <= u32_max ->
  search_ok (fun _ => True) (solve_flex pool flex g) pool flex g.
Proof.
  unfold mono_total.
  revert pool g. induction flex as [|f flex IH]; intros pool g Hp Hw Hg Hov.
  - cbn [solve_flex]. destruct (take_generic pool g) as [p' g'] eqn:He.
    destruct (take_generic_spec _ _ _ _ Hp Hg He) as (Hl & Hb & Hs & Hg' & Hz).
    destruct (Z.eqb_spec g' 0) as [->|Hne]; cbn [search_ok].
    + split; [|done]. apply solution_nil. split_and!; auto; lia.
    + intros r (Hlr & Hbr & Hsr)%solution_nil _. destruct Hz as [|Hz]; [lia|].
      assert (0 <= zsum r); [|lia]. apply zsum_nonneg, nonneg_of_lookups.
      intros i Hi. apply Hbr. lia.
  - apply Forall_cons in Hw as [Hf Hw]. cbn [map zsum] in Hov.
    assert (0 <= mono_total flex).
    { apply zsum_nonneg, Forall_map. eapply Forall_impl; [exact Hw|].
      intros []; simpl; lia. }
    unfold mono_total in *.
    assert (Hd : forall c, 0 < pool !!! color_index c ->
              search_ok (fun _ => True) (solve_flex (debit_one (color_index c) pool) flex g)
                (debit_one (color_index c) pool) flex g).
    { intros c Hc. apply IH; auto; [by apply wf_debit|]. destruct f; lia. }
    destruct f as [a b|n c|c]; cbn [solve_flex].
    + apply search_hybrid; auto.
    + apply search_mono; auto. rewrite u32_add_small by lia. apply IH; auto; lia.
    + apply search_color; auto.
Qed.

(** ** The required-spend solver *)

Lemma take_required_fold cap slots p g :
  NoDup slots -> Forall (fun i => (i < length p)%nat) slots ->
  Forall (Z.le 0) p -> Forall (Z.le 0) cap -> 0 <= g ->
  match fold_left (require_slot cap) slots (Some (p, g)) with
  | Some (p', g') =>
      length p' = length p /\
      (forall i, p' !!! i = if bool_decide (i ∈ slots) then Z.min (p !!! i) (cap !!! i)
                            else p !!! i) /\
      zsum p - zsum p' = g - g' /\ 0 <= g' <= g
  | None => g < zsum (map (fun i => Z.max (p !!! i - cap !!! i) 0) slots)
  end.
Proof.
  revert p g. induction slots as [|i slots IH]; intros p g Hnd Hs Hp Hcap Hg;
    cbn [fold_left].
  - split_and!; try done; lia.
  - apply NoDup_cons in Hnd as [Hi Hnd]. apply Forall_cons in Hs as [Hil Hs].
    cbn [require_slot]. unfold u32_saturating_sub.
    pose proof (nonneg_lookup_total p i Hp). pose proof (nonneg_lookup_total cap i Hcap).
    set (req := Z.max (p !!! i - cap !!! i) 0).
    destruct (Z.ltb_spec g req) as [Hlt|Hge].
    + replace (fold_left (require_slot cap) slots None) with (@None (PoolVec * Z))
        by (clear; induction slots; done).
      cbn [map zsum]. fold req.
      assert (0 <= zsum (map (fun j => Z.max (p !!! j - cap !!! j) 0) slots)); [|lia].
      apply zsum_nonneg, Forall_map, Forall_true. intros; lia.
    + specialize (IH (<[i:=p !!! i - req]> p) (g - req) Hnd).
      rewrite length_insert in IH.
      assert (Hp' : Forall (Z.le 0) (<[i:=p !!! i - req]> p))
        by (apply Forall_insert; [done|lia]).
      specialize (IH Hs Hp' Hcap ltac:(lia)).
      destruct (fold_left (require_slot cap) slots _) as [[p' g']|].
      * destruct IH as (Hl & Hv & Hsum & Hg'). rewrite zsum_insert_total in Hsum by done.
        split_and!; try done; try lia.
        intros j. rewrite Hv, lookup_total_insert by done.
        destruct (Nat.eqb_spec i j) as [->|Hne].
        -- rewrite bool_decide_eq_false_2, bool_decide_eq_true_2 by set_solver. lia.
        -- assert (Hiff : j ∈ i :: slots <-> j ∈ slots) by set_solver.
           by rewrite (bool_decide_ext _ _ Hiff).
      * cbn [map zsum]. fold req.
        enough (zsum (map (fun j => Z.max (p !!! j - cap !!! j) 0) slots) =
                zsum (map (fun j => Z.max (<[i:=p !!! i - req]> p !!! j - cap !!! j) 0) slots))
          by lia.
        apply zsum_map_ext. intros j Hj. rewrite lookup_total_insert by done.
        destruct (Nat.eqb_spec i j); [set_solver|done].
Qed.

Lemma take_required_spec pool g cap :
  wf_pool pool -> wf_pool cap -> 0 <= g ->
  match take_required pool g cap with
  | Some (p', g') =>
      wf_pool p' /\ (forall i, (i < 6)%nat -> p' !!! i = Z.min (pool !!! i) (cap !!! i)) /\
      zsum pool - zsum p' = g - g' /\ 0 <= g' <= g
  | None => g < zsum (map (fun i => Z.max (pool !!! i - cap !!! i) 0) (seq 0 6))
  end.
Proof.
  intros [Hl Hp] Hc Hg. pose proof Hc as [_ Hcap].
  pose proof (take_required_fold cap (seq 0 6) pool g (NoDup_seq _ _)) as H6.
  assert (Hs : Forall (fun i => (i < length pool)%nat) (seq 0 6)).
  { apply Forall_forall. intros i Hi%elem_of_seq. lia. }
  specialize (H6 Hs Hp Hcap Hg). fold (take_required pool g cap) in H6.
  destruct (take_required pool g cap) as [[p' g']|]; [|done].
  destruct H6 as (Hl' & Hv & Hsum & Hg').
  assert (Hmin : forall i, (i < 6)%nat -> p' !!! i = Z.min (pool !!! i) (cap !!! i)).
  { intros i Hi. rewrite Hv, bool_decide_eq_true_2; [done|]. apply elem_of_seq. lia. }
  split; [|done]. apply wf_pool_intro; [lia|]. intros i Hi. rewrite Hmin by done.
  pose proof (nonneg_lookup_total pool i Hp). pose proof (wf_pool_nonneg cap i Hc). lia.
Qed.

(** The base case: spend what must be spent, then the rest freely. *)
Lemma required_base pool g cap :
  wf_pool pool -> wf_pool cap -> 0 <= g ->
  search_ok (fun r => capped r cap)
    (solve_flex_with_required_spend pool [] g cap) pool [] g.
Proof.
  intros Hp Hc Hg. cbn [solve_flex_with_required_spend].
  pose proof (take_required_spec pool g cap Hp Hc Hg) as Hr.
  destruct (take_required pool g cap) as [[p' g']|].
  - destruct Hr as (Hp' & Hmin & Hsum & Hg').
    destruct (take_generic p' g') as [p2 g2] eqn:He.
    assert (Hg0 : 0 <= g') by lia.
    destruct (take_generic_spec _ _ _ _ Hp' Hg0 He) as (Hl & Hb & Hs & Hg2 & Hz).
    assert (Hcap : forallb (fun i => p2 !!! i <=? cap !!! i) (seq 0 6) = true).
    { apply forallb_forall. intros i Hi%list_elem_of_In%elem_of_seq.
      specialize (Hb i). rewrite Hmin in Hb by lia. lia. }
    rewrite Hcap, andb_true_r. destruct (Z.eqb_spec g2 0) as [->|Hne]; cbn [search_ok].
    + split.
      * apply solution_nil. split_and!; auto; [|lia]. intros i Hi. specialize (Hb i).
        rewrite Hmin in Hb by done. lia.
      * intros i Hi. specialize (Hb i). rewrite Hmin in Hb by done. lia.
    + intros r (Hlr & Hbr & Hsr)%solution_nil Hcp. destruct Hz as [|Hz]; [lia|].
      assert (0 <= zsum r); [|lia]. apply zsum_nonneg, nonneg_of_lookups.
      intros i Hi. apply Hbr. lia.
  - cbn [search_ok]. intros r (Hlr & Hbr & Hsr)%solution_nil Hcp.
    enough (zsum (map (fun i => Z.max (pool !!! i - cap !!! i) 0) (seq 0 6)) <= zsum pool - zsum r)
      by lia.
    rewrite (zsum_pool pool), (zsum_pool r) by (done || apply Hp).
    assert (Hle : zsum (map (fun i => Z.max (pool !!! i - cap !!! i) 0 + r !!! i) (seq 0 6)) <=
                  zsum (map (fun i => pool !!! i) (seq 0 6))).
    { apply zsum_map_le. intros i Hi%elem_of_seq.
      specialize (Hbr i ltac:(lia)). specialize (Hcp i ltac:(lia)). lia. }
    rewrite zsum_map_add in Hle. lia.
Qed.

Lemma mono_total_nonneg flex : wf_flex flex -> 0 <= mono_total flex.
Proof.
  intros Hw. apply zsum_nonneg, Forall_map. eapply Forall_impl; [exact Hw|].
  intros []; simpl; lia.
Qed.

Lemma solve_required_search pool flex g cap :
  wf_pool pool -> wf_pool cap -> wf_flex flex -> 0 <= g ->
  g + mono_total flex <= u32_max ->
  search_ok (fun r => capped r cap)
    (solve_flex_with_required_spend pool flex g cap) pool flex g.
Proof.
  intros Hp Hc. revert pool g Hp. induction flex as [|f flex IH]; intros pool g Hp Hw Hg Hov;
    [by apply required_base|].
  apply Forall_cons in Hw as [Hf Hw].
  pose proof (mono_total_nonneg flex Hw). unfold mono_total in *. cbn [map zsum] in Hov.
  assert (Hd : forall c, 0 < pool !!! color_index c ->
    search_ok (fun r => capped r cap)
      (solve_flex_with_required_spend (debit_one (color_index c) pool) flex g cap)
      (debit_one (color_index c) pool) flex g).
  { intros c Hpos. apply IH; auto; [by apply wf_debit|]. destruct f; lia. }
  destruct f as [a b|n c|c]; cbn [solve_flex_with_required_spend].
  - apply search_hybrid; auto.
  - apply search_mono; auto.
    assert (u32_saturating_add g n = g + n) as -> by (unfold u32_saturating_add; lia).
    apply IH; auto; lia.
  - apply search_color; auto.
Qed.

(** ** Properties *)

(** The backtracking solver is correct and complete: when the generic
    total stays in [u32], [solve_flex] returns a remaining pool exactly when
    some choice of a branch for every flexible pip can be paid, and the pool
    it returns is what such a payment leaves. *)
Theorem solve_flex_correct pool flex g :
  wf_pool pool -> wf_flex flex -> 0 <= g -> g + mono_total flex <= u32_max ->
  (forall r, solve_flex pool flex g = Some r -> solution pool flex g r) /\
  (solve_flex pool flex g = None <-> ~ exists r, solution pool flex g r).
Proof.
  intros Hp Hw Hg Hov. pose proof (solve_flex_search pool flex g Hp Hw Hg Hov) as Hs.
  destruct (solve_flex pool flex g) as [r|]; cbn [search_ok] in Hs.
  - split; [by intros ? [= <-]; apply Hs|]. split; [done|]. intros []. exists r. apply Hs.
  - split; [done|]. split; [|done]. intros _ [r Hr]. by eapply Hs.
Qed.

(** The solver used when restricted mana was selected: it succeeds exactly
    when the cost can be paid leaving at most [max_remaining] of every colour,
    and then leaves no more than that, so no selected restricted mana is left
    over. *)
Theorem solve_required_correct pool flex g cap :
  wf_pool pool -> wf_pool cap -> wf_flex flex -> 0 <= g ->
  g + mono_total flex <= u32_max ->
  (forall r, solve_flex_with_required_spend pool flex g cap = Some r ->
     solution pool flex g r /\ capped r cap) /\
  (solve_flex_with_required_spend pool flex g cap = None <->
     ~ exists r, solution pool flex g r /\ capped r cap).
Proof.
  intros Hp Hc Hw Hg Hov.
  pose proof (solve_required_search pool flex g cap Hp Hc Hw Hg Hov) as Hs.
  destruct (solve_flex_with_required_spend pool flex g cap) as [r|]; cbn [search_ok] in Hs.
  - split; [by intros ? [= <-]|]. split; [done|]. intros []. by exists r.
  - split; [done|]. split; [|done]. intros _ (r & Hr & Hcp). by eapply Hs.
Qed.

(** The bound on the generic total is not idle: the [generic + n] of
    [solve_flex] wraps in a release build, where the required-spend solver
    saturates. A single blue mana pays [{2/W}] on top of 2^32 - 1 generic. *)
Theorem solve_flex_generic_wraps :
  solve_flex [0; 1; 0; 0; 0; 0] [FlexPip.Mono 2 ColorPip.W] u32_max =
    Some [0; 0; 0; 0; 0; 0] /\
  solve_flex_with_required_spend [0; 1; 0; 0; 0; 0]
    [FlexPip.Mono 2 ColorPip.W] u32_max [0; 0; 0; 0; 0; 0] = None.
Proof. split; vm_compute; reflexivity. Qed.

Lemma solve_flex_correct_witness :
  wf_pool [1; 1; 0; 0; 0; 2] /\
  solution [1; 1; 0; 0; 0; 2]
    [FlexPip.Hybrid ColorPip.W ColorPip.U; FlexPip.Mono 2 ColorPip.W] 1 [0; 0; 0; 0; 0; 0].
Proof.
  assert (Hp : wf_pool [1; 1; 0; 0; 0; 2]).
  { split; [reflexivity|]. repeat (apply Forall_cons; split; [lia|]). apply Forall_nil_2. }
  split; [exact Hp|].
  apply (solve_flex_correct [1; 1; 0; 0; 0; 2]
           [FlexPip.Hybrid ColorPip.W ColorPip.U; FlexPip.Mono 2 ColorPip.W] 1 Hp).
  - repeat (apply Forall_cons; split; [lia || exact I|]). apply Forall_nil_2.
  - lia.
  - unfold mono_total, u32_max. simpl. lia.
  - vm_compute. reflexivity.
Defined.

Lemma solve_required_correct_witness :
  solution [1; 1; 0; 0; 0; 2] [FlexPip.Color ColorPip.U] 2 [1; 0; 0; 0; 0; 0] /\
  capped [1; 0; 0; 0; 0; 0] [1; 1; 0; 0; 0; 0].
Proof.
  assert (Hp : wf_pool [1; 1; 0; 0; 0; 2]).
  { split; [reflexivity|]. repeat (apply Forall_cons; split; [lia|]). apply Forall_nil_2. }
  assert (Hc : wf_pool [1; 1; 0; 0; 0; 0]).
  { split; [reflexivity|]. repeat (apply Forall_cons; split; [lia|]). apply Forall_nil_2. }
  apply (solve_required_correct [1; 1; 0; 0; 0; 2] [FlexPip.Color ColorPip.U] 2
           [1; 1; 0; 0; 0; 0] Hp Hc).
  - repeat (apply Forall_cons; split; [lia || exact I|]). apply Forall_nil_2.
  - lia.
  - unfold mono_total, u32_max. simpl. lia.
  - vm_compute. reflexivity.
Defined.
