(* ===== verification/Demand.v ===== *)
(** * Normalised spell demands: [tricerules-core/src/engine/payment/demand.rs]

    The demand vectors shared by the payment previews and the Convoke commit:
    validation of the announced Phyrexian branches, the expansion of a cost
    into its ordered set of demands ([normalize]) and the payment of a demand
    with creatures and exact mana ([pay_with_any_color]).

    A demand vector is the array [[u32; 7]] of the source (W, U, B, R, G, C,
    generic), a list of length seven; the [BTreeSet] of demands is its sorted
    list of elements. *)
From Stdlib Require Import Sorted.
From S2P Require Import Prelude ManaCost FlexSolver.
Open Scope cockatrice_scope.
Local Open Scope Z_scope.

(** ** Errors and wire types *)

(** [EngineError], the variants the modelled code raises. *)
Inductive EngineError : Type :=
| Illegal (msg : string)
| LifeNumericRange (msg : string)
| UnknownPlayer (player : Z)
| MissingCard (card_id : string).

(** [ruled.v1.FlexPipPayment]. *)
Record FlexPipPayment : Type := {
  pip_index : Z;
  pay_life : bool;
  mana_color : Z
}.

(** [rv1::ManaColor::try_from] on the five colours. *)
Definition mana_color_try_from (c : Z) : option ColorPip :=
  match c with
  | 1 => Some ColorPip.W
  | 2 => Some ColorPip.U
  | 3 => Some ColorPip.B
  | 4 => Some ColorPip.R
  | 5 => Some ColorPip.G
  | _ => None
  end.

Module PhyrexianPayment.
Inductive t : Type :=
| Mana (c : ColorPip)
| Life.
End PhyrexianPayment.

Abbreviation PhyrexianPayment := PhyrexianPayment.t.

(** ** Phyrexian branches *)

(** The [match pip] of the choice loop. *)
Definition phyrexian_branch (pip : ManaSymbol) (choice : FlexPipPayment)
    : result PhyrexianPayment EngineError :=
  let invalid := Err (Illegal "invalid flexible pip selection") in
  match pip with
  | ManaSymbol.Phyrexian color =>
      if mana_color choice =? 0 then
        Ok (if pay_life choice then PhyrexianPayment.Life
            else PhyrexianPayment.Mana color)
      else invalid
  | ManaSymbol.HybridPhyrexian a b =>
      if pay_life choice then
        if mana_color choice =? 0 then Ok PhyrexianPayment.Life else invalid
      else
        match mana_color_try_from (mana_color choice) with
        | None => Err (Illegal "invalid hybrid Phyrexian color")
        | Some color =>
            if bool_decide (color <> a) && bool_decide (color <> b) then
              Err (Illegal "hybrid Phyrexian color is not a component")
            else Ok (PhyrexianPayment.Mana color)
        end
  | _ => invalid
  end.

(** One iteration of [for choice in choices]. *)
Definition select_choice (cost : ManaCost)
    (selected : list (option PhyrexianPayment)) (choice : FlexPipPayment)
    : result (list (option PhyrexianPayment)) EngineError :=
  let index := Z.to_nat (pip_index choice) in
  match pips cost !! index with
  | None => Err (Illegal "invalid flexible pip selection")
  | Some pip =>
      match selected !! index with
      | Some (Some _) => Err (Illegal "duplicate flexible pip selection")
      | _ =>
          let? b := phyrexian_branch pip choice in
          Ok (<[index := Some b]> selected)
      end
  end.

Fixpoint select_choices (cost : ManaCost)
    (selected : list (option PhyrexianPayment)) (choices : list FlexPipPayment)
    : result (list (option PhyrexianPayment)) EngineError :=
  match choices with
  | [] => Ok selected
  | choice :: rest =>
      let? selected := select_choice cost selected choice in
      select_choices cost selected rest
  end.

(** The second loop: the default branch of an undeclared symbol. *)
Definition default_branch (pip : ManaSymbol) (sel : option PhyrexianPayment)
    : result (option PhyrexianPayment) EngineError :=
  match pip, sel with
  | ManaSymbol.HybridPhyrexian _ _, None =>
      Err (Illegal "hybrid Phyrexian pip needs an announced branch")
  | ManaSymbol.Phyrexian color, None => Ok (Some (PhyrexianPayment.Mana color))
  | _, _ => Ok sel
  end.

Fixpoint default_branches (ps : list ManaSymbol)
    (selected : list (option PhyrexianPayment))
    : result (list (option PhyrexianPayment)) EngineError :=
  match ps, selected with
  | p :: ps', s :: selected' =>
      let? s' := default_branch p s in
      let? rest := default_branches ps' selected' in
      Ok (s' :: rest)
  | _, _ => Ok selected
  end.

Definition validated_phyrexian_choices (cost : ManaCost)
    (choices : list FlexPipPayment)
    : result (list (option PhyrexianPayment)) EngineError :=
  let? selected :=
    select_choices cost (replicate (length (pips cost)) None) choices in
  default_branches (pips cost) selected.

(** ** Demands *)

Record Demand : Type := { amounts : list Z; life : Z }.

#[export] Instance Demand_eq_dec : EqDecision Demand.
Proof. solve_decision. Defined.

(** The order of [#[derive(Ord)]]: the amounts from the left, then the life. *)
Definition demand_key (d : Demand) : list Z := amounts d ++ [life d].

Definition demand_lt (d e : Demand) : bool := lex_lt (demand_key d) (demand_key e).

(** [BTreeSet::insert]. *)
Fixpoint bset_insert (d : Demand) (s : list Demand) : list Demand :=
  match s with
  | [] => [d]
  | e :: s' =>
      if demand_lt d e then d :: s
      else if demand_lt e d then e :: bset_insert d s'
      else s
  end.

(** [slice::sort], which is stable: insert after the equal elements. *)
Fixpoint sort_insert (d : Demand) (s : list Demand) : list Demand :=
  match s with
  | [] => [d]
  | e :: s' => if demand_lt d e then d :: s else e :: sort_insert d s'
  end.

Definition sort_demands (s : list Demand) : list Demand :=
  fold_left (fun acc d => sort_insert d acc) s [].

(** [Vec::dedup]. *)
Fixpoint dedup (s : list Demand) : list Demand :=
  match s with
  | d :: ((e :: _) as s') =>
      if bool_decide (d = e) then dedup s' else d :: dedup s'
  | _ => s
  end.

(** The [options] of a symbol; slot 6 is generic and slot 7 life. *)
Definition symbol_options (x : Z) (pip : ManaSymbol) (ph : option PhyrexianPayment)
    : list (nat * Z) :=
  match pip with
  | ManaSymbol.W => [(0%nat, 1)]
  | ManaSymbol.U => [(1%nat, 1)]
  | ManaSymbol.B => [(2%nat, 1)]
  | ManaSymbol.R => [(3%nat, 1)]
  | ManaSymbol.G => [(4%nat, 1)]
  | ManaSymbol.C => [(5%nat, 1)]
  | ManaSymbol.Generic n => [(6%nat, n)]
  | ManaSymbol.X => [(6%nat, x)]
  | ManaSymbol.Hybrid a b => [(color_index a, 1); (color_index b, 1)]
  | ManaSymbol.MonoHybrid n c => [(color_index c, 1); (6%nat, n)]
  | ManaSymbol.Phyrexian _ | ManaSymbol.HybridPhyrexian _ _ =>
      match ph with
      | Some PhyrexianPayment.Life => [(7%nat, 2)]
      | Some (PhyrexianPayment.Mana color) => [(color_index color, 1)]
      | None => []
      end
  end.

(** [*target = target.checked_add(amount)?]. *)
Definition add_option (d : Demand) (opt : nat * Z) : option Demand :=
  let '(slot, amount) := opt in
  if Nat.eqb slot 7 then
    v ← u32_checked_add (life d) amount;
    Some {| amounts := amounts d; life := v |}
  else
    v ← u32_checked_add (amounts d !!! slot) amount;
    Some {| amounts := <[slot := v]> (amounts d); life := life d |}.

(** The two inner loops over [demands] and [options]. *)
Fixpoint extend_options (d : Demand) (opts : list (nat * Z)) (next : list Demand)
    : result (list Demand) EngineError :=
  match opts with
  | [] => Ok next
  | o :: opts' =>
      let? d' := ok_or (add_option d o) (Illegal "spell cost overflow") in
      extend_options d opts' (bset_insert d' next)
  end.

Fixpoint extend_demands (demands : list Demand) (opts : list (nat * Z))
    (next : list Demand) : result (list Demand) EngineError :=
  match demands with
  | [] => Ok next
  | d :: ds =>
      let? next := extend_options d opts next in
      extend_demands ds opts next
  end.

Fixpoint expand (x : Z) (ps : list (ManaSymbol * option PhyrexianPayment))
    (demands : list Demand) : result (list Demand) EngineError :=
  match ps with
  | [] => Ok demands
  | (p, ph) :: ps' =>
      let? next := extend_demands demands (symbol_options x p ph) [] in
      expand x ps' next
  end.

Definition reduce_demand (reduction : Z) (d : Demand) : Demand :=
  {| amounts := <[6%nat := u32_saturating_sub (amounts d !!! 6%nat) reduction]> (amounts d);
     life := life d |}.

Definition normalize (cost : ManaCost) (x increase reduction : Z)
    (life_pips : list FlexPipPayment) : result (list Demand) EngineError :=
  let? phyrexian := validated_phyrexian_choices cost life_pips in
  let? demands := expand x (zip (pips cost) phyrexian)
                    [{| amounts := [0; 0; 0; 0; 0; 0; increase]; life := 0 |}] in
  Ok (dedup (sort_demands (map (reduce_demand reduction) demands))).

(** ** Paying a demand *)

(** [result.amounts.get_mut(slot)?.checked_sub(1)?]. *)
Fixpoint pay_creatures (a : list Z) (creatures : list nat) : option (list Z) :=
  match creatures with
  | [] => Some a
  | slot :: rest =>
      v ← a !! slot;
      v' ← u32_checked_sub v 1;
      pay_creatures (<[slot := v']> a) rest
  end.

(** One iteration of the loop over the five coloured demands. *)
Definition any_color_step (st : list Z * Z) (slot : nat) : list Z * Z :=
  let '(a, remaining) := st in
  let used := Z.min remaining (a !!! slot) in
  (<[slot := a !!! slot - used]> a, remaining - used).

(** The as-any-color branch; [remaining] is a [u64]. *)
Definition pay_any_color (a : list Z) (mana : list Z) : option (list Z) :=
  let true_colorless := Z.min (mana !!! 5%nat) (a !!! 5%nat) in
  let a := <[5%nat := a !!! 5%nat - true_colorless]> a in
  let remaining := zsum mana - true_colorless in
  let '(a, remaining) := fold_left any_color_step (seq 0 5) (a, remaining) in
  r ← u32_try_from remaining;
  v ← u32_checked_sub (a !!! 6%nat) r;
  Some (<[6%nat := v]> a).

(** The ordinary branch: each colour first, the excess against generic. *)
Fixpoint pay_colors (a : list Z) (slot : nat) (mana : list Z) : option (list Z) :=
  match mana with
  | [] => Some a
  | amount :: rest =>
      let colored := Z.min amount (a !!! slot) in
      let a := <[slot := a !!! slot - colored]> a in
      v ← u32_checked_sub (a !!! 6%nat) (amount - colored);
      pay_colors (<[6%nat := v]> a) (S slot) rest
  end.

Definition pay_with_any_color (d : Demand) (creatures : list nat) (mana : list Z)
    (as_any_color : bool) : option Demand :=
  a ← pay_creatures (amounts d) creatures;
  a ← (if as_any_color then pay_any_color a mana else pay_colors a 0 mana);
  Some {| amounts := a; life := life d |}.

(** [pay], the test entry point. *)
Definition pay (d : Demand) (creatures : list nat) (mana : list Z) : option Demand :=
  pay_with_any_color d creatures mana false.

Definition complete (d : Demand) : bool := forallb (fun n => n =? 0) (amounts d).

(** ** Specification *)

Definition wf_demand (d : Demand) : Prop :=
  length (amounts d) = 7%nat /\ Forall (Z.le 0) (amounts d).

(** Mana and creatures still owed. *)
Definition demand_total (d : Demand) : Z := zsum (amounts d).

(** [d] is what the picks of the symbols of a cost add up to, on top of the
    generic increase. *)
Definition picks_demand (increase : Z) (picks : list (nat * Z)) (d : Demand) : Prop :=
  length (amounts d) = 7%nat /\
  (forall i, (i < 7)%nat ->
     amounts d !!! i = (if Nat.eqb i 6 then increase else 0) + picked picks i) /\
  life d = picked picks 7.

(** One pick per symbol, each an option of its symbol. *)
Definition symbol_picks (x : Z) (ps : list (ManaSymbol * option PhyrexianPayment))
    (picks : list (nat * Z)) : Prop :=
  Forall2 (fun '(p, ph) pick => pick ∈ symbol_options x p ph) ps picks.

(** ** The order on demands *)

Lemma demand_key_inj d e : demand_key d = demand_key e -> d = e.
Proof.
  unfold demand_key. intros Hk. apply app_inj_tail in Hk as [Ha Hl].
  destruct d, e; simpl in *; congruence.
Qed.

Lemma demand_lt_antisym d e : demand_lt d e = false -> demand_lt e d = false -> d = e.
Proof. intros. by apply demand_key_inj, lex_lt_antisym. Qed.

Lemma demand_lt_trans d e f :
  demand_lt d e = true -> demand_lt e f = true -> demand_lt d f = true.
Proof. apply lex_lt_trans. Qed.

Lemma demand_lt_irrefl d : demand_lt d d = false.
Proof. apply lex_lt_irrefl. Qed.

Lemma demand_not_lt_trans d e f :
  demand_lt e d = false -> demand_lt f e = false -> demand_lt f d = false.
Proof.
  intros H1 H2. destruct (demand_lt f d) eqn:H3; [|done].
  destruct (demand_lt d e) eqn:H4.
  - by rewrite (demand_lt_trans _ _ _ H3 H4) in H2.
  - rewrite (demand_lt_antisym d e H4 H1) in H3. congruence.
Qed.

Definition demand_le (d e : Demand) : Prop := demand_lt e d = false.

(** ** Sets of demands *)

Lemma bset_insert_elem d e s : e ∈ bset_insert d s <-> e = d \/ e ∈ s.
Proof.
  induction s as [|f s IH]; simpl; [set_solver|].
  destruct (demand_lt d f) eqn:H1; [set_solver|].
  destruct (demand_lt f d) eqn:H2; [rewrite !elem_of_cons, IH; set_solver|].
  rewrite (demand_lt_antisym d f H1 H2). set_solver.
Qed.

Lemma sort_insert_elem d e s : e ∈ sort_insert d s <-> e = d \/ e ∈ s.
Proof.
  induction s as [|f s IH]; simpl; [set_solver|].
  destruct (demand_lt d f); [set_solver|]. rewrite !elem_of_cons, IH. set_solver.
Qed.

Lemma sort_demands_elem e s : e ∈ sort_demands s <-> e ∈ s.
Proof.
  unfold sort_demands.
  enough (H : forall acc, e ∈ fold_left (fun a d => sort_insert d a) s acc <-> e ∈ acc \/ e ∈ s)
    by (rewrite H; set_solver).
  induction s as [|d s IH]; intros acc; simpl; [set_solver|].
  rewrite IH, sort_insert_elem. set_solver.
Qed.

Lemma dedup_elem e s : e ∈ dedup s <-> e ∈ s.
Proof.
  induction s as [|d [|f s] IH]; [done|done|]. cbn [dedup] in *.
  destruct (bool_decide_reflect (d = f)) as [->|].
  - rewrite IH. set_solver.
  - rewrite !(elem_of_cons _ e d), IH. done.
Qed.

Lemma sort_insert_sorted d s :
  StronglySorted demand_le s -> StronglySorted demand_le (sort_insert d s).
Proof.
  induction 1 as [|e s Hs IH Hall]; simpl; [by repeat constructor|].
  destruct (demand_lt d e) eqn:Hde.
  - assert (Hed : demand_le d e).
    { unfold demand_le. destruct (demand_lt e d) eqn:Hed; [|done].
      pose proof (demand_lt_trans _ _ _ Hde Hed) as Hdd. by rewrite demand_lt_irrefl in Hdd. }
    constructor; [by constructor|]. constructor; [done|].
    eapply Forall_impl; [exact Hall|]. intros f Hf. simpl in Hf.
    by eapply demand_not_lt_trans.
  - constructor; [done|]. apply Forall_forall. intros f [->|Hf]%sort_insert_elem; [done|].
    rewrite Forall_forall in Hall. by apply Hall.
Qed.

Lemma sort_demands_sorted s : StronglySorted demand_le (sort_demands s).
Proof.
  unfold sort_demands.
  enough (H : forall acc, StronglySorted demand_le acc ->
    StronglySorted demand_le (fold_left (fun a d => sort_insert d a) s acc))
    by (apply H; constructor).
  induction s as [|d s IH]; intros acc Ha; simpl; [done|]. by apply IH, sort_insert_sorted.
Qed.

Lemma dedup_strict s :
  StronglySorted demand_le s ->
  StronglySorted (fun d e => demand_lt d e = true) (dedup s).
Proof.
  induction s as [|d [|f s] IH]; intros Hs; [constructor|by repeat constructor|].
  apply StronglySorted_inv in Hs as [Hs Hall]. cbn [dedup].
  destruct (bool_decide_reflect (d = f)) as [->|Hne]; [by apply IH|].
  constructor; [by apply IH|]. apply Forall_forall. intros e He.
  change (e ∈ dedup (f :: s)) in He. rewrite dedup_elem in He.
  assert (Hlt : demand_lt d f = true).
  { apply Forall_cons in Hall as [Hdf _]. destruct (demand_lt d f) eqn:Hdf'; [done|].
    by destruct Hne; apply demand_lt_antisym. }
  apply elem_of_cons in He as [->|He]; [done|].
  destruct (demand_lt d e) eqn:Hde; [done|].
  apply StronglySorted_inv in Hs as [_ Hfs]. rewrite Forall_forall in Hfs.
  pose proof (demand_not_lt_trans _ _ _ (Hfs e He) Hde) as Hfd. congruence.
Qed.

(** ** Expansion *)

Lemma extend_options_elem d opts next next' :
  extend_options d opts next = Ok next' ->
  forall e, e ∈ next' <-> e ∈ next \/ exists o, o ∈ opts /\ add_option d o = Some e.
Proof.
  revert next. induction opts as [|o opts IH]; cbn [extend_options]; intros next Hx e.
  - simplify_eq. set_solver.
  - apply rbind_Ok in Hx as (d' & Hd'%ok_or_Ok & Hx).
    rewrite (IH _ Hx), bset_insert_elem. set_solver.
Qed.

Lemma extend_demands_elem demands opts next next' :
  extend_demands demands opts next = Ok next' ->
  forall e, e ∈ next' <->
    e ∈ next \/ exists d o, d ∈ demands /\ o ∈ opts /\ add_option d o = Some e.
Proof.
  revert next. induction demands as [|d ds IH]; cbn [extend_demands]; intros next Hx e.
  - simplify_eq. set_solver.
  - apply rbind_Ok in Hx as (next1 & H1 & Hx).
    rewrite (IH _ Hx), (extend_options_elem _ _ _ _ H1). set_solver.
Qed.

(** [add_option] repeated over picks. *)
Fixpoint add_picks (d : Demand) (picks : list (nat * Z)) : option Demand :=
  match picks with
  | [] => Some d
  | o :: rest => d' ← add_option d o; add_picks d' rest
  end.

Lemma expand_elem x ps demands ds :
  expand x ps demands = Ok ds ->
  forall e, e ∈ ds <->
    exists d picks, d ∈ demands /\ symbol_picks x ps picks /\ add_picks d picks = Some e.
Proof.
  revert demands. induction ps as [|[p ph] ps IH]; cbn [expand]; intros demands Hx e.
  - simplify_eq. split.
    + intros He. exists e, []. split_and!; [done|constructor|done].
    + intros (d & picks & Hd & Hp & He). inversion Hp; subst. by simplify_eq/=.
  - apply rbind_Ok in Hx as (next & Hn & Hx). rewrite (IH _ Hx). split.
    + intros (d' & picks & Hd' & Hp & He).
      apply (extend_demands_elem _ _ _ _ Hn) in Hd' as [?%not_elem_of_nil|(d & o & Hd & Ho & Ha)];
        [done|].
      exists d, (o :: picks). split_and!; [done|by constructor|]. simpl. by rewrite Ha.
    + intros (d & picks & Hd & Hp & He). inversion Hp as [|? o ? picks' Ho Hp']; subst.
      simpl in He. destruct (add_option d o) as [d'|] eqn:Ha; [|done].
      exists d', picks'. split_and!; [|done|done].
      apply (extend_demands_elem _ _ _ _ Hn). eauto 10.
Qed.

Lemma symbol_option_slot x p ph o : o ∈ symbol_options x p ph -> (o.1 < 8)%nat.
Proof.
  pose proof color_index_lt as Hc.
  assert (forall c, (color_index c < 8)%nat) by (intros c; specialize (Hc c); lia).
  destruct p, ph as [[]|]; cbn [symbol_options];
    rewrite ?elem_of_cons, ?elem_of_nil; naive_solver lia.
Qed.

Lemma add_picks_demand picks d e :
  Forall (fun o => (o.1 < 8)%nat) picks -> length (amounts d) = 7%nat ->
  add_picks d picks = Some e ->
  length (amounts e) = 7%nat /\
  (forall i, (i < 7)%nat -> amounts e !!! i = amounts d !!! i + picked picks i) /\
  life e = life d + picked picks 7.
Proof.
  revert d. induction picks as [|[s a] picks IH]; intros d Hs Hl He.
  - simplify_eq/=. split_and!; [done|intros; lia|lia].
  - apply Forall_cons in Hs as [Hs Hss]. cbn [add_picks add_option fst] in *.
    destruct (Nat.eqb_spec s 7) as [->|Hne].
    + destruct (u32_checked_add (life d) a) as [v|] eqn:Hv; [|done].
      apply u32_checked_add_Some in Hv as [_ ->]. simpl in He.
      edestruct IH as (Hl' & Hv & Hlife); [exact Hss| |exact He|]; [done|].
      split_and!; [done| |].
      * intros i Hi. rewrite Hv by done. cbn [picked amounts].
        destruct (Nat.eqb_spec 7 i); [lia|]. lia.
      * rewrite Hlife. cbn [picked life]. change (Nat.eqb 7 7) with true. cbv iota. lia.
    + destruct (u32_checked_add (amounts d !!! s) a) as [v|] eqn:Hv; [|done].
      apply u32_checked_add_Some in Hv as [_ ->]. simpl in He.
      edestruct IH as (Hl' & Hv & Hlife); [exact Hss| |exact He|];
        [by cbn [amounts]; rewrite length_insert|].
      split_and!; [done| |].
      * intros i Hi. rewrite Hv by done. cbn [picked amounts].
        rewrite lookup_total_insert by lia. destruct (Nat.eqb_spec s i); subst; lia.
      * rewrite Hlife. cbn [picked life]. destruct (Nat.eqb_spec s 7); [done|]. lia.
Qed.

(** ** Payment *)

(** [a'] is [a] with [k] units paid off, slot by slot and never below zero. *)
Definition paid (a a' : list Z) (k : Z) : Prop :=
  length a' = length a /\ Forall (Z.le 0) a' /\
  (forall i, a' !!! i <= a !!! i) /\ zsum a' = zsum a - k.

Lemma paid_refl a : Forall (Z.le 0) a -> paid a a 0.
Proof. intros Ha. split_and!; try done; intros; lia. Qed.

Lemma paid_trans a b c k l : paid a b k -> paid b c l -> paid a c (k + l).
Proof.
  intros (Hl1 & Hf1 & Hb1 & Hs1) (Hl2 & Hf2 & Hb2 & Hs2).
  split_and!; [congruence|done| |lia]. intros i. specialize (Hb1 i). specialize (Hb2 i). lia.
Qed.

Lemma paid_slot a i k :
  (i < length a)%nat -> Forall (Z.le 0) a -> 0 <= k <= a !!! i ->
  paid a (<[i := a !!! i - k]> a) k.
Proof.
  intros Hi Ha Hk. split_and!; [apply length_insert|by apply Forall_insert; [|lia]| |].
  - intros j. rewrite lookup_total_insert by done. destruct (Nat.eqb_spec i j); subst; lia.
  - rewrite zsum_insert_total by done. lia.
Qed.

Lemma pay_creatures_paid a cs a' :
  Forall (Z.le 0) a -> pay_creatures a cs = Some a' -> paid a a' (Z.of_nat (length cs)).
Proof.
  revert a. induction cs as [|s cs IH]; intros a Ha Hp.
  - simplify_eq/=. by apply paid_refl.
  - cbn [pay_creatures] in Hp. destruct (a !! s) as [v|] eqn:Hs; [|done]. simpl in Hp.
    destruct (u32_checked_sub v 1) as [v'|] eqn:Hv; [|done]. simpl in Hp.
    apply u32_checked_sub_Some in Hv as [Hv1 ->].
    pose proof (list_lookup_total_correct _ _ _ Hs) as Ht. rewrite <- Ht in *.
    assert (Hstep : paid a (<[s := a !!! s - 1]> a) 1).
    { apply paid_slot; [by eapply lookup_lt_Some|done|lia]. }
    replace (Z.of_nat (length (s :: cs))) with (1 + Z.of_nat (length cs)) by (simpl; lia).
    eapply paid_trans; [exact Hstep|]. apply IH; [apply Hstep|done].
Qed.

(** What the coloured slots cannot absorb. *)
Fixpoint excess (a : list Z) (slot : nat) (mana : list Z) : Z :=
  match mana with
  | [] => 0
  | m :: rest => Z.max (m - a !!! slot) 0 + excess a (S slot) rest
  end.

Lemma excess_nonneg a slot mana : 0 <= excess a slot mana.
Proof. revert slot. induction mana; intros slot; simpl; [lia|]. specialize (IHmana (S slot)). lia. Qed.

Lemma excess_ext a b slot mana :
  (forall j, (slot <= j < slot + length mana)%nat -> a !!! j = b !!! j) ->
  excess a slot mana = excess b slot mana.
Proof.
  revert slot. induction mana as [|m mana IH]; intros slot Hab; simpl; [done|].
  rewrite Hab by (simpl; lia). f_equal. apply IH. intros j Hj. apply Hab. simpl. lia.
Qed.

Lemma pay_colors_spec a slot mana :
  length a = 7%nat -> Forall (Z.le 0) a -> Forall (Z.le 0) mana ->
  (slot + length mana <= 6)%nat ->
  match pay_colors a slot mana with
  | Some a' =>
      paid a a' (zsum mana) /\
      (forall j, (j < 7)%nat -> a' !!! j =
         if Nat.eqb j 6 then a !!! 6%nat - excess a slot mana
         else if (slot <=? j)%nat && (j <? slot + length mana)%nat
              then a !!! j - Z.min (mana !!! (j - slot)%nat) (a !!! j)
              else a !!! j)
  | None => a !!! 6%nat < excess a slot mana
  end.
Proof.
  revert a slot. induction mana as [|m mana IH]; intros a slot Hl Ha Hm Hs.
  - cbn [pay_colors excess zsum length]. split; [by apply paid_refl|].
    intros j Hj. destruct (Nat.eqb_spec j 6) as [->|]; [lia|].
    destruct ((slot <=? j)%nat && (j <? slot + 0)%nat) eqn:E; [|done].
    apply andb_true_iff in E as [?%Nat.leb_le ?%Nat.ltb_lt]. lia.
  - apply Forall_cons in Hm as [Hm0 Hm]. cbn [length] in Hs. cbn [pay_colors excess zsum].
    set (c := Z.min m (a !!! slot)).
    pose proof (nonneg_lookup_total a slot Ha) as Has.
    assert (H1 : paid a (<[slot := a !!! slot - c]> a) c)
      by (apply paid_slot; [lia|done|lia]).
    set (a1 := <[slot := a !!! slot - c]> a) in *.
    assert (Hl1 : length a1 = 7%nat) by (unfold a1; by rewrite length_insert).
    assert (H16 : a1 !!! 6%nat = a !!! 6%nat).
    { unfold a1. rewrite lookup_total_insert by lia. destruct (Nat.eqb_spec slot 6); [lia|done]. }
    pose proof (excess_nonneg a (S slot) mana) as Hex.
    destruct (u32_checked_sub (a1 !!! 6%nat) (m - c)) as [v|] eqn:Hv; simpl.
    + apply u32_checked_sub_Some in Hv as [Hv ->].
      assert (H2 : paid a1 (<[6%nat := a1 !!! 6%nat - (m - c)]> a1) (m - c))
        by (apply paid_slot; [lia|apply H1|lia]).
      set (a2 := <[6%nat := a1 !!! 6%nat - (m - c)]> a1) in *.
      assert (Hl2 : length a2 = 7%nat) by (unfold a2; by rewrite length_insert).
      assert (H2j : forall j, a2 !!! j = if Nat.eqb 6 j then a !!! 6%nat - (m - c)
                      else if Nat.eqb slot j then a !!! slot - c else a !!! j).
      { intros j. unfold a2. rewrite lookup_total_insert, H16 by lia. destruct (Nat.eqb 6 j); [done|].
        unfold a1. rewrite lookup_total_insert by lia. done. }
      assert (Hexc : excess a2 (S slot) mana = excess a (S slot) mana).
      { apply excess_ext. intros j Hj. rewrite H2j.
        destruct (Nat.eqb_spec 6 j); [lia|]. destruct (Nat.eqb_spec slot j); [lia|done]. }
      specialize (IH a2 (S slot) Hl2 ltac:(apply H2) Hm ltac:(lia)).
      destruct (pay_colors a2 (S slot) mana) as [a'|].
      * destruct IH as [Hp Hv']. split.
        { replace (m + zsum mana) with (c + (m - c) + zsum mana) by lia.
          eapply paid_trans; [|exact Hp]. by eapply paid_trans. }
        intros j Hj. rewrite Hv' by done. rewrite Hexc, !H2j.
        destruct (Nat.eqb_spec j 6) as [->|Hj6].
        { change (Nat.eqb 6 6) with true. cbv iota. lia. }
        destruct (Nat.eqb_spec 6 j); [lia|]. cbn [length].
        destruct (Nat.eqb_spec slot j) as [<-|Hsj].
        -- rewrite (proj2 (Nat.leb_gt (S slot) slot)) by lia.
           rewrite Nat.leb_refl, (proj2 (Nat.ltb_lt slot (slot + S (length mana)))) by lia.
           rewrite Nat.sub_diag. cbn [andb]. done.
        -- destruct (Nat.leb_spec slot j), (Nat.leb_spec (S slot) j); try lia; [|done].
           replace (slot + S (length mana))%nat with (S slot + length mana)%nat by lia.
           replace (j - slot)%nat with (S (j - S slot)) by lia. done.
      * rewrite Hexc in IH. rewrite H2j in IH. change (Nat.eqb 6 6) with true in IH.
        cbv iota in IH. lia.
    + unfold u32_checked_sub in Hv. rewrite H16 in Hv.
      destruct (Z.leb_spec (m - c) (a !!! 6%nat)); [done|]. lia.
Qed.

Lemma any_color_fold slots a r a' r' :
  Forall (fun i => (i < length a)%nat) slots -> Forall (Z.le 0) a -> 0 <= r ->
  fold_left any_color_step slots (a, r) = (a', r') ->
  paid a a' (r - r') /\ 0 <= r' <= r.
Proof.
  revert a r. induction slots as [|s slots IH]; intros a r Hs Ha Hr He.
  - simplify_eq/=. rewrite Z.sub_diag. split; [by apply paid_refl|lia].
  - apply Forall_cons in Hs as [Hi Hs]. cbn [fold_left any_color_step] in He.
    pose proof (nonneg_lookup_total a s Ha).
    set (used := Z.min r (a !!! s)) in *.
    assert (H1 : paid a (<[s := a !!! s - used]> a) used) by (apply paid_slot; [done..|lia]).
    edestruct IH as [H2 Hr']; [| | |exact He|];
      [by rewrite length_insert|apply H1|lia|].
    split; [|lia]. replace (r - r') with (used + (r - used - r')) by lia.
    by eapply paid_trans.
Qed.

Lemma pay_any_color_paid a mana a' :
  length a = 7%nat -> Forall (Z.le 0) a -> wf_pool mana ->
  pay_any_color a mana = Some a' -> paid a a' (zsum mana).
Proof.
  intros Hl Ha Hm Hp. unfold pay_any_color in Hp.
  pose proof (nonneg_lookup_total a 5 Ha). pose proof (wf_pool_nonneg mana 5 Hm).
  set (tc := Z.min (mana !!! 5%nat) (a !!! 5%nat)) in *.
  assert (H1 : paid a (<[5%nat := a !!! 5%nat - tc]> a) tc) by (apply paid_slot; [lia|done|lia]).
  assert (Hsum : mana !!! 5%nat <= zsum mana).
  { rewrite (zsum_pool mana) by apply Hm. cbn [seq map zsum].
    pose proof (fun i => wf_pool_nonneg mana i Hm) as Hn.
    pose proof (Hn 0%nat); pose proof (Hn 1%nat); pose proof (Hn 2%nat);
    pose proof (Hn 3%nat); pose proof (Hn 4%nat). lia. }
  destruct (fold_left any_color_step (seq 0 5) _) as [a1 r1] eqn:Hf.
  apply any_color_fold in Hf as [H2 Hr1];
    [|rewrite length_insert, Hl; apply Forall_forall; intros i Hi%elem_of_seq; lia
     |apply H1|lia].
  unfold u32_try_from in Hp. destruct ((0 <=? r1) && (r1 <=? u32_max)); [|done].
  simpl in Hp. destruct (u32_checked_sub (a1 !!! 6%nat) r1) as [v|] eqn:Hv; [|done].
  simplify_eq/=. apply u32_checked_sub_Some in Hv as [Hv ->].
  assert (Hl1 : length a1 = 7%nat) by (destruct H2 as [-> _]; by rewrite length_insert).
  assert (H3 : paid a1 (<[6%nat := a1 !!! 6%nat - r1]> a1) r1)
    by (apply paid_slot; [lia|apply H2|lia]).
  replace (zsum mana) with (tc + (zsum mana - tc - r1) + r1) by lia.
  eapply paid_trans; [|exact H3]. by eapply paid_trans.
Qed.

Lemma pay_paid d cs mana any d' :
  wf_demand d -> wf_pool mana -> pay_with_any_color d cs mana any = Some d' ->
  paid (amounts d) (amounts d') (Z.of_nat (length cs) + zsum mana) /\ life d' = life d.
Proof.
  intros [Hl Ha] Hm Hp. unfold pay_with_any_color in Hp.
  destruct (pay_creatures (amounts d) cs) as [a1|] eqn:Hc; [|done]. simpl in Hp.
  apply pay_creatures_paid in Hc; [|done].
  assert (Hl1 : length a1 = 7%nat) by (destruct Hc as [-> _]; done).
  destruct any.
  - destruct (pay_any_color a1 mana) as [a2|] eqn:H2; [|done]. simplify_eq/=.
    split; [|done]. eapply paid_trans; [exact Hc|].
    apply pay_any_color_paid; [done|apply Hc|done..].
  - pose proof (pay_colors_spec a1 0 mana Hl1 ltac:(apply Hc) (proj2 Hm)
      ltac:(destruct Hm; lia)) as Hs.
    destruct (pay_colors a1 0 mana) as [a2|]; [|done]. simplify_eq/=.
    split; [|done]. eapply paid_trans; [exact Hc|]. apply Hs.
Qed.

Lemma complete_true d :
  wf_demand d -> complete d = true <-> forall i, (i < 7)%nat -> amounts d !!! i = 0.
Proof.
  intros [Hl _]. unfold complete. rewrite forallb_forall. split.
  - intros H i Hi. apply Z.eqb_eq, H, list_elem_of_In, list_elem_of_lookup.
    exists i. apply list_lookup_lookup_total_lt. lia.
  - intros H n Hn%list_elem_of_In%list_elem_of_lookup. destruct Hn as [i Hi].
    pose proof (lookup_lt_Some _ _ _ Hi). apply Z.eqb_eq.
    rewrite <- (list_lookup_total_correct _ _ _ Hi). apply H. lia.
Qed.

(** ** Every successful expansion is total *)

Lemma extend_options_total d opts next next' o :
  extend_options d opts next = Ok next' -> o ∈ opts -> is_Some (add_option d o).
Proof.
  revert next. induction opts as [|o' opts IH]; cbn [extend_options]; intros next Hx Ho;
    [set_solver|].
  apply rbind_Ok in Hx as (d' & Hd'%ok_or_Ok & Hx).
  apply elem_of_cons in Ho as [->|Ho]; [by exists d'|by eapply IH].
Qed.

Lemma extend_demands_total demands opts next next' d o :
  extend_demands demands opts next = Ok next' -> d ∈ demands -> o ∈ opts ->
  is_Some (add_option d o).
Proof.
  revert next. induction demands as [|d' ds IH]; cbn [extend_demands]; intros next Hx Hd Ho;
    [set_solver|].
  apply rbind_Ok in Hx as (next1 & H1 & Hx).
  apply elem_of_cons in Hd as [->|Hd]; [by eapply extend_options_total|by eapply IH].
Qed.

Lemma expand_total x ps demands ds d picks :
  expand x ps demands = Ok ds -> d ∈ demands -> symbol_picks x ps picks ->
  is_Some (add_picks d picks).
Proof.
  revert demands d picks. induction ps as [|[p ph] ps IH]; intros demands d picks Hx Hd Hp.
  - inversion Hp; subst. by exists d.
  - inversion Hp as [|? o ? picks' Ho Hp']; subst. cbn [expand] in Hx.
    apply rbind_Ok in Hx as (next & Hn & Hx).
    destruct (extend_demands_total _ _ _ _ d o Hn Hd Ho) as [d' Hd'].
    simpl. rewrite Hd'. simpl. eapply IH; [exact Hx| |done].
    apply (extend_demands_elem _ _ _ _ Hn). eauto 10.
Qed.

Lemma symbol_picks_slots x ps picks :
  symbol_picks x ps picks -> Forall (fun o => (o.1 < 8)%nat) picks.
Proof.
  induction 1 as [|[p ph] o ps picks Ho Hp IH]; constructor; [|done].
  by eapply symbol_option_slot.
Qed.

Lemma picks_demand_inj inc picks d e :
  picks_demand inc picks d -> picks_demand inc picks e -> d = e.
Proof.
  intros (Hl1 & Ha1 & Hf1) (Hl2 & Ha2 & Hf2). destruct d as [a l], e as [b m]; simpl in *.
  f_equal; [|congruence]. apply list_eq. intros i. destruct (decide (i < 7)%nat) as [Hi|Hi].
  - rewrite !list_lookup_lookup_total_lt by lia. by rewrite Ha1, Ha2.
  - rewrite !lookup_ge_None_2 by lia. done.
Qed.

(** The demand the loop starts from. *)
Definition start_demand (increase : Z) : Demand :=
  {| amounts := [0; 0; 0; 0; 0; 0; increase]; life := 0 |}.

Lemma start_add_picks inc x ps picks e :
  symbol_picks x ps picks -> add_picks (start_demand inc) picks = Some e ->
  picks_demand inc picks e.
Proof.
  intros Hp He.
  destruct (add_picks_demand picks (start_demand inc) e (symbol_picks_slots _ _ _ Hp) eq_refl He)
    as (Hl & Ha & Hf).
  split_and!; [done| |by rewrite Hf].
  intros i Hi. rewrite Ha by done. f_equal.
  do 7 (destruct i as [|i]; [reflexivity|]). lia.
Qed.

Lemma zsum_demand a :
  length a = 7%nat -> zsum a = zsum (map (fun i => a !!! i) (seq 0 6)) + a !!! 6%nat.
Proof.
  intros Hl. rewrite <- (zsum_lookups a) at 1. rewrite Hl. cbn [seq map zsum]. lia.
Qed.

(** When every coloured demand is covered, the excess is the rest of the mana. *)
Lemma excess_covered a mana :
  wf_pool mana -> (forall i, (i < 6)%nat -> a !!! i <= mana !!! i) ->
  excess a 0 mana = zsum mana - zsum (map (fun i => a !!! i) (seq 0 6)).
Proof.
  intros [Hl _] Hcov. do 7 (destruct mana as [|? mana]; [try done|]); [|done].
  cbn [excess seq map zsum].
  pose proof (Hcov 0%nat ltac:(lia)); pose proof (Hcov 1%nat ltac:(lia));
  pose proof (Hcov 2%nat ltac:(lia)); pose proof (Hcov 3%nat ltac:(lia));
  pose proof (Hcov 4%nat ltac:(lia)); pose proof (Hcov 5%nat ltac:(lia)).
  cbn [lookup_total list_lookup_total] in *. lia.
Qed.

Lemma zsum_zero (a : list Z) : (forall i, (i < length a)%nat -> a !!! i = 0) -> zsum a = 0.
Proof.
  intros Hz. rewrite <- (zsum_lookups a), (zsum_map_ext _ (fun _ => 0)).
  - clear. induction (seq 0 (length a)); simpl; lia.
  - intros i Hi%elem_of_seq. apply Hz. lia.
Qed.

(** What completes a demand: see [pay_complete_iff]. *)
Lemma pay_complete_cover d mana :
  wf_demand d -> wf_pool mana ->
  (exists d', pay d [] mana = Some d' /\ complete d' = true) <->
  (forall i, (i < 6)%nat -> amounts d !!! i <= mana !!! i) /\
  demand_total d = zsum mana.
Proof.
  intros Hd Hm. pose proof Hd as [Hl Ha]. unfold pay, pay_with_any_color, demand_total.
  cbn [pay_creatures]. simpl.
  pose proof (pay_colors_spec (amounts d) 0 mana Hl Ha (proj2 Hm) ltac:(destruct Hm; lia)) as Hs.
  assert (Hlm : (0 + length mana = 6)%nat) by (destruct Hm; lia). rewrite Hlm in Hs.
  assert (Hval : forall a', paid (amounts d) a' (zsum mana) -> wf_demand {| amounts := a'; life := life d |}).
  { intros a' (? & ? & _). split; [simpl; congruence|done]. }
  split.
  - intros (d' & Hp & Hc). destruct (pay_colors (amounts d) 0 mana) as [a'|]; [|done].
    simplify_eq/=. destruct Hs as [Hp Hv]. rewrite complete_true in Hc by by apply Hval.
    cbn [amounts] in Hc. split.
    + intros i Hi. specialize (Hc i ltac:(lia)). rewrite Hv in Hc by lia.
      destruct (Nat.eqb_spec i 6); [lia|].
      rewrite (proj2 (Nat.ltb_lt i 6)) in Hc by lia. cbn [Nat.leb andb] in Hc.
      rewrite Nat.sub_0_r in Hc. lia.
    + destruct Hp as (Hla & _ & _ & Hsum).
      rewrite (zsum_zero a') in Hsum; [lia|]. intros i Hi. apply Hc. lia.
  - intros [Hcov Htot]. rewrite (excess_covered _ _ Hm Hcov) in Hs.
    rewrite (zsum_demand _ Hl) in Htot.
    destruct (pay_colors (amounts d) 0 mana) as [a'|]; [|lia].
    exists {| amounts := a'; life := life d |}. split; [done|]. destruct Hs as [Hp Hv].
    apply complete_true; [by apply Hval|]. cbn [amounts].
    intros i Hi. rewrite Hv by lia. destruct (Nat.eqb_spec i 6); [lia|].
    rewrite (proj2 (Nat.ltb_lt i 6)) by lia. cbn [Nat.leb andb].
    rewrite Nat.sub_0_r. specialize (Hcov i ltac:(lia)). lia.
Qed.

(** The demands of a cost: see [normalize_spec]. *)
Lemma normalize_elem cost x inc red lp ds :
  normalize cost x inc red lp = Ok ds ->
  exists ph, validated_phyrexian_choices cost lp = Ok ph /\
    forall d, d ∈ ds <->
      exists picks d0, symbol_picks x (zip (pips cost) ph) picks /\
        picks_demand inc picks d0 /\ d = reduce_demand red d0.
Proof.
  unfold normalize. intros Hn. apply rbind_Ok in Hn as (ph & Hph & Hn).
  apply rbind_Ok in Hn as (base & Hb & [= <-]).
  change [{| amounts := [0; 0; 0; 0; 0; 0; inc]; life := 0 |}] with [start_demand inc] in Hb.
  exists ph. split; [done|]. intros d.
  rewrite dedup_elem, sort_demands_elem. change (map ?f ?l) with (f <$> l).
  rewrite list_elem_of_fmap. split.
  - intros (d0 & -> & Hd0). apply (expand_elem _ _ _ _ Hb) in Hd0 as (s & picks & Hs & Hp & He).
    apply list_elem_of_singleton in Hs as ->.
    exists picks, d0. split_and!; [done|by eapply start_add_picks|done].
  - intros (picks & d0 & Hp & Hd0 & ->). exists d0. split; [done|].
    destruct (expand_total _ _ _ _ (start_demand inc) picks Hb) as [e He]; [set_solver|done|].
    rewrite (picks_demand_inj inc picks d0 e); [|done|by eapply start_add_picks].
    apply (expand_elem _ _ _ _ Hb). exists (start_demand inc), picks. set_solver.
Qed.

(** The demand a list of picks adds up to. *)
Lemma spent_demand inc picks :
  picks_demand inc picks
    {| amounts := map (fun i => (if Nat.eqb i 6 then inc else 0) + picked picks i) (seq 0 7);
       life := picked picks 7 |}.
Proof.
  split_and!; [done| |done]. intros i Hi. cbn [amounts].
  do 7 (destruct i as [|i]; [reflexivity|]). lia.
Qed.

(** ** Properties *)

(** Paying a demand conserves mana: whatever is paid with creatures and
    exact mana, under either colour rule, comes off the demand unit by unit,
    no slot goes below zero or grows, and life is never touched by mana. *)
Theorem pay_conserves d cs mana any d' :
  wf_demand d -> wf_pool mana -> pay_with_any_color d cs mana any = Some d' ->
  wf_demand d' /\ life d' = life d /\
  (forall i, amounts d' !!! i <= amounts d !!! i) /\
  demand_total d = demand_total d' + Z.of_nat (length cs) + zsum mana.
Proof.
  intros Hd Hm Hp. destruct (pay_paid _ _ _ _ _ Hd Hm Hp) as [(Hl & Ha & Hb & Hs) Hlife].
  destruct Hd as [Hd1 Hd2]. unfold demand_total.
  split; [split; [congruence|done]|]. split_and!; try done. lia.
Qed.

(** Exact mana completes a demand exactly when it covers every coloured
    and colourless unit and the excess is the generic part: nothing is
    overpaid and no coloured demand is met by another colour. *)
Theorem pay_complete_iff d mana :
  wf_demand d -> wf_pool mana ->
  (exists d', pay d [] mana = Some d' /\ complete d' = true) <->
  (forall i, (i < 6)%nat -> amounts d !!! i <= mana !!! i) /\
  demand_total d = zsum mana.
Proof. exact (pay_complete_cover d mana). Qed.

(** C30. [normalize] returns the demands in strictly increasing order, without
    duplicates, and they are exactly the sums of one option per symbol with
    the generic reduction floored at zero: no way to pay is lost or invented. *)
Theorem normalize_spec cost x inc red lp ds :
  normalize cost x inc red lp = Ok ds ->
  StronglySorted (fun d e => demand_lt d e = true) ds /\
  exists ph, validated_phyrexian_choices cost lp = Ok ph /\
    forall d, d ∈ ds <->
      exists picks d0, symbol_picks x (zip (pips cost) ph) picks /\
        picks_demand inc picks d0 /\ d = reduce_demand red d0.
Proof.
  intros Hn. split; [|by apply normalize_elem]. unfold normalize in Hn.
  apply rbind_Ok in Hn as (ph & _ & Hn). apply rbind_Ok in Hn as (base & _ & [= <-]).
  apply dedup_strict, sort_demands_sorted.
Qed.

Lemma pay_conserves_witness :
  wf_demand {| amounts := [1; 0; 0; 0; 0; 1; 2]; life := 2 |} /\
  demand_total {| amounts := [1; 0; 0; 0; 0; 1; 2]; life := 2 |} =
    demand_total {| amounts := [0; 0; 0; 0; 0; 0; 1]; life := 2 |} +
    Z.of_nat (length [0%nat]) + zsum [0; 0; 0; 1; 0; 1].
Proof.
  assert (Hd : wf_demand {| amounts := [1; 0; 0; 0; 0; 1; 2]; life := 2 |}).
  { split; [reflexivity|]. repeat (apply Forall_cons; split; [simpl; lia|]). apply Forall_nil_2. }
  assert (Hm : wf_pool [0; 0; 0; 1; 0; 1]).
  { split; [reflexivity|]. repeat (apply Forall_cons; split; [lia|]). apply Forall_nil_2. }
  split; [exact Hd|].
  apply (pay_conserves {| amounts := [1; 0; 0; 0; 0; 1; 2]; life := 2 |} [0%nat]
           [0; 0; 0; 1; 0; 1] false _ Hd Hm). vm_compute. reflexivity.
Defined.

Lemma pay_complete_iff_witness :
  exists d', pay {| amounts := [1; 0; 0; 0; 0; 1; 2]; life := 0 |} [] [2; 0; 0; 1; 0; 1] = Some d' /\
    complete d' = true.
Proof.
  assert (Hd : wf_demand {| amounts := [1; 0; 0; 0; 0; 1; 2]; life := 0 |}).
  { split; [reflexivity|]. repeat (apply Forall_cons; split; [simpl; lia|]). apply Forall_nil_2. }
  assert (Hm : wf_pool [2; 0; 0; 1; 0; 1]).
  { split; [reflexivity|]. repeat (apply Forall_cons; split; [lia|]). apply Forall_nil_2. }
  apply (pay_complete_iff _ _ Hd Hm). split; [|vm_compute; reflexivity].
  intros i Hi. do 6 (destruct i as [|i]; [vm_compute; discriminate|]). lia.
Defined.

Lemma normalize_spec_witness :
  exists ds, normalize {| pips := [ManaSymbol.X; ManaSymbol.MonoHybrid 2 ColorPip.W; ManaSymbol.C] |}
    2 1 4 [] = Ok ds /\
  StronglySorted (fun d e => demand_lt d e = true) ds.
Proof.
  exists [{| amounts := [0; 0; 0; 0; 0; 1; 1]; life := 0 |};
     {| amounts := [1; 0; 0; 0; 0; 1; 0]; life := 0 |}].
  split; [vm_compute; reflexivity|].
  apply (normalize_spec {| pips := [ManaSymbol.X; ManaSymbol.MonoHybrid 2 ColorPip.W; ManaSymbol.C] |}
           2 1 4 []). vm_compute. reflexivity.
Defined.
