(* ===== verification/ManaPayment.v ===== *)
(** * Mana payment plans: [tricerules-core/src/engine/payment/mana.rs]

    Planning a mana payment against a player's pool, life and restricted mana
    ([plan_mana_payment_with_any_color] and its entry points), planning an
    exact selection, checking that a plan still matches the state, rebasing an
    accepted plan on a restored state, and committing it. [commit_life_change]
    and its checked form come from [engine/history.rs].

    Only the state these functions read and write is modelled: the players'
    life, pools and restricted mana, and the per-player life history. *)
From S2P Require Import Prelude ManaCost FlexSolver Demand.
Open Scope cockatrice_scope.
Local Open Scope Z_scope.

(** ** State *)

(** [primitives::ManaAmount]. *)
Record ManaAmount : Type := {
  amt_w : Z; amt_u : Z; amt_b : Z; amt_r : Z; amt_g : Z; amt_c : Z
}.

#[export] Instance ManaAmount_eq_dec : EqDecision ManaAmount.
Proof. solve_decision. Defined.

Definition amount_vec (a : ManaAmount) : list Z :=
  [amt_w a; amt_u a; amt_b a; amt_r a; amt_g a; amt_c a].

Definition amount_of_vec (v : list Z) : ManaAmount :=
  {| amt_w := v !!! 0%nat; amt_u := v !!! 1%nat; amt_b := v !!! 2%nat;
     amt_r := v !!! 3%nat; amt_g := v !!! 4%nat; amt_c := v !!! 5%nat |}.

(** [state::ManaPool]. *)
Record ManaPool : Type := {
  white : Z; blue : Z; black : Z; red : Z; green : Z; colorless : Z
}.

#[export] Instance ManaPool_eq_dec : EqDecision ManaPool.
Proof. solve_decision. Defined.

(** The array literal [[pool.white, ..., pool.colorless]]. *)
Definition pool_vec (p : ManaPool) : PoolVec :=
  [white p; blue p; black p; red p; green p; colorless p].

Definition pool_of_vec (v : PoolVec) : ManaPool :=
  {| white := v !!! 0%nat; blue := v !!! 1%nat; black := v !!! 2%nat;
     red := v !!! 3%nat; green := v !!! 4%nat; colorless := v !!! POOL_C |}.

(** [ManaPool::clear]. *)
Definition clear_pool : ManaPool :=
  {| white := 0; blue := 0; black := 0; red := 0; green := 0; colorless := 0 |}.

Record RestrictedManaContribution : Type := {
  restriction_group_id : Z;
  contribution : ManaAmount
}.

#[export] Instance RestrictedManaContribution_eq_dec :
  EqDecision RestrictedManaContribution.
Proof. solve_decision. Defined.

Record PlayerState : Type := {
  player_id : Z;
  player_life : Z;
  mana_pool : ManaPool;
  retained_combat_mana : ManaPool;
  restricted_mana : list RestrictedManaContribution
}.

#[export] Instance PlayerState_inhabited : Inhabited PlayerState :=
  populate {| player_id := 0; player_life := 0; mana_pool := clear_pool;
              retained_combat_mana := clear_pool; restricted_mana := [] |}.

(** The life fields of [PlayerTurnRecord]. *)
Record LifeRecord : Type := { life_gained : Z; life_lost : Z }.

Definition empty_life_record : LifeRecord := {| life_gained := 0; life_lost := 0 |}.

Record GameState : Type := {
  players : list PlayerState;
  turn_history : gmap Z LifeRecord
}.

(** [rv1::ManaSpendSelection]. *)
Record ManaSpendSelection : Type := {
  sel_group_id : Z;
  sel_amount : ManaAmount
}.

Record ManaPaymentPlan : Type := {
  remaining : PoolVec;
  life_cost : Z;
  phyrexian_symbols_paid_with_life : Z;
  restricted_spent : list (Z * ManaAmount);
  requires_any_color : bool;
  expected_pool : PoolVec;
  remaining_retained_combat : PoolVec;
  expected_retained_combat : PoolVec;
  expected_life : Z;
  expected_restricted : list RestrictedManaContribution
}.

(** ** Reading a cost *)

(** The mutable locals of the pip loop. *)
Record Needs : Type := {
  need_color : PoolVec;
  need_generic : Z;
  needs_life : Z;
  needs_life_symbols : Z;
  needs_flex : list FlexPip
}.

Definition need_one (i : nat) (n : Needs) : Needs :=
  {| need_color := <[i := u32_add (need_color n !!! i) 1]> (need_color n);
     need_generic := need_generic n; needs_life := needs_life n;
     needs_life_symbols := needs_life_symbols n; needs_flex := needs_flex n |}.

Definition need_more (k : Z) (n : Needs) : Needs :=
  {| need_color := need_color n;
     need_generic := u32_saturating_add (need_generic n) k;
     needs_life := needs_life n;
     needs_life_symbols := needs_life_symbols n; needs_flex := needs_flex n |}.

Definition need_flex (f : FlexPip) (n : Needs) : Needs :=
  {| need_color := need_color n; need_generic := need_generic n;
     needs_life := needs_life n; needs_life_symbols := needs_life_symbols n;
     needs_flex := needs_flex n ++ [f] |}.

Definition need_two_life (n : Needs) : Needs :=
  {| need_color := need_color n; need_generic := need_generic n;
     needs_life := u32_add (needs_life n) 2;
     needs_life_symbols := u32_add (needs_life_symbols n) 1;
     needs_flex := needs_flex n |}.

(** One iteration of the pip loop. *)
Definition need_pip (x_value : Z) (n : Needs)
    (pip : ManaSymbol * option PhyrexianPayment) : Needs :=
  match pip with
  | (ManaSymbol.W, _) => need_one (color_index ColorPip.W) n
  | (ManaSymbol.U, _) => need_one (color_index ColorPip.U) n
  | (ManaSymbol.B, _) => need_one (color_index ColorPip.B) n
  | (ManaSymbol.R, _) => need_one (color_index ColorPip.R) n
  | (ManaSymbol.G, _) => need_one (color_index ColorPip.G) n
  | (ManaSymbol.C, _) => need_one POOL_C n
  | (ManaSymbol.Generic k, _) => need_more k n
  | (ManaSymbol.X, _) => need_more x_value n
  | (ManaSymbol.Hybrid a b, _) => need_flex (FlexPip.Hybrid a b) n
  | (ManaSymbol.MonoHybrid k c, _) => need_flex (FlexPip.Mono k c) n
  | ((ManaSymbol.Phyrexian _ | ManaSymbol.HybridPhyrexian _ _), ph) =>
      match ph with
      | Some PhyrexianPayment.Life => need_two_life n
      | Some (PhyrexianPayment.Mana color) => need_flex (FlexPip.Color color) n
      | None => n
      end
  end.

Definition cost_needs (x_value extra_generic : Z)
    (ps : list (ManaSymbol * option PhyrexianPayment)) : Needs :=
  fold_left (need_pip x_value) ps
    {| need_color := [0; 0; 0; 0; 0; 0]; need_generic := extra_generic;
       needs_life := 0; needs_life_symbols := 0; needs_flex := [] |}.

(** ** Restricted mana *)

Definition add_amounts (a b : ManaAmount) : ManaAmount :=
  {| amt_w := u32_add (amt_w a) (amt_w b); amt_u := u32_add (amt_u a) (amt_u b);
     amt_b := u32_add (amt_b a) (amt_b b); amt_r := u32_add (amt_r a) (amt_r b);
     amt_g := u32_add (amt_g a) (amt_g b); amt_c := u32_add (amt_c a) (amt_c b) |}.

Definition zero_amount : ManaAmount := amount_of_vec [0; 0; 0; 0; 0; 0].

(** The [filter(..).fold(..)] over the player's contributions. *)
Definition available_in_group (group_id : Z) (entries : list RestrictedManaContribution)
    : ManaAmount :=
  fold_left (fun total e => add_amounts total (contribution e))
    (List.filter (fun e => restriction_group_id e =? group_id) entries) zero_amount.

(** The six-way comparison [amount.w > available.w || ...]. *)
Definition exceeds (amount available : ManaAmount) : bool :=
  existsb (fun i => amount_vec available !!! i <? amount_vec amount !!! i) (seq 0 6).

(** The loop over [restricted_selections]; [seen] is the set of group ids. *)
Fixpoint take_selections (eligible : list Z) (entries : list RestrictedManaContribution)
    (sels : list ManaSpendSelection) (seen : gset Z) (working : PoolVec)
    (spent : list (Z * ManaAmount))
    : result (PoolVec * list (Z * ManaAmount)) EngineError :=
  match sels with
  | [] => Ok (working, spent)
  | s :: rest =>
      let group_id := sel_group_id s in
      if (group_id =? 0) || bool_decide (group_id ∈ seen) ||
         negb (bool_decide (group_id ∈ eligible)) then
        Err (Illegal "invalid or ineligible restricted mana selection")
      else
        let amount := sel_amount s in
        if forallb (fun n => n =? 0) (amount_vec amount) then
          Err (Illegal "restricted mana selection is empty")
        else if exceeds amount (available_in_group group_id entries) then
          Err (Illegal "restricted mana selection exceeds pool")
        else
          take_selections eligible entries rest ({[group_id]} ∪ seen)
            (zip_with u32_saturating_add working (amount_vec amount))
            (spent ++ [(group_id, amount)])
  end.

(** ** Planning *)

Definition not_enough_mana : EngineError :=
  Illegal "not enough mana in pool; tap your lands first".

(** [for i in 0..6 { if working[i] < need_color[i] ..; working[i] -= .. }]. *)
Fixpoint subtract_needs (working need : PoolVec) : option PoolVec :=
  match working, need with
  | w :: ws, n :: ns =>
      if w <? n then None
      else rest ← subtract_needs ws ns; Some ((w - n) :: rest)
  | _, _ => Some []
  end.

(** [demands.sort_by_key(..)]: a stable sort by the total amount. *)
Fixpoint key_insert (d : Demand) (s : list Demand) : list Demand :=
  match s with
  | [] => [d]
  | e :: s' =>
      if zsum (amounts d) <? zsum (amounts e) then d :: s
      else e :: key_insert d s'
  end.

Definition sort_by_total (s : list Demand) : list Demand :=
  fold_left (fun acc d => key_insert d acc) s [].

(** [try_fold(0u32, checked_add)] over every slot but [POOL_C]. *)
Definition generic_of_demand (d : Demand) : option Z :=
  fold_left (fun (acc : option Z) (i : nat) =>
      s ← acc; if Nat.eqb i POOL_C then Some s else u32_checked_add s (amounts d !!! i))
    (seq 0 (length (amounts d))) (Some 0).

Definition solve_any_color (working unrestricted : PoolVec) (no_restricted : bool)
    (d : Demand) : option PoolVec :=
  c ← u32_checked_sub (working !!! POOL_C) (amounts d !!! POOL_C);
  generic ← generic_of_demand d;
  let available := <[POOL_C := c]> working in
  if no_restricted then solve_flex available [] generic
  else solve_flex_with_required_spend available [] generic unrestricted.

Fixpoint find_map_demand (f : Demand -> option PoolVec) (ds : list Demand)
    : option PoolVec :=
  match ds with
  | [] => None
  | d :: ds' => match f d with Some r => Some r | None => find_map_demand f ds' end
  end.

Definition solve_remaining (cost : ManaCost) (x_value extra_generic generic_reduction : Z)
    (flex_payments : list FlexPipPayment) (as_any_color no_restricted : bool)
    (needs : Needs) (generic : Z) (working unrestricted : PoolVec)
    : result (option PoolVec) EngineError :=
  if as_any_color then
    let? demands := normalize cost x_value extra_generic generic_reduction flex_payments in
    Ok (find_map_demand (solve_any_color working unrestricted no_restricted)
          (sort_by_total demands))
  else
    match subtract_needs working (need_color needs) with
    | None => Err not_enough_mana
    | Some working =>
        Ok (if no_restricted then solve_flex working (needs_flex needs) generic
            else solve_flex_with_required_spend working (needs_flex needs) generic
                   unrestricted)
    end.

Definition plan_mana_payment_with_any_color (state : GameState) (player_idx : nat)
    (cost : ManaCost) (x_value extra_generic generic_reduction : Z)
    (flex_payments : list FlexPipPayment)
    (restricted_selections : list ManaSpendSelection) (eligible_group_ids : list Z)
    (as_any_color : bool) : result ManaPaymentPlan EngineError :=
  let? phyrexian := validated_phyrexian_choices cost flex_payments in
  let needs := cost_needs x_value extra_generic (zip (pips cost) phyrexian) in
  let generic := u32_saturating_sub (need_generic needs) generic_reduction in
  let player := players state !!! player_idx in
  if (0 <? needs_life needs) && (player_life player <? wrap_i32 (needs_life needs)) then
    Err (Illegal "not enough life to pay Phyrexian cost")
  else
    let unrestricted := pool_vec (mana_pool player) in
    let? taken := take_selections eligible_group_ids (restricted_mana player)
                    restricted_selections ∅ unrestricted [] in
    let '(working, restricted_spent) := taken in
    let no_restricted := bool_decide (restricted_spent = []) in
    let? solved := solve_remaining cost x_value extra_generic generic_reduction
                     flex_payments as_any_color no_restricted needs generic
                     working unrestricted in
    match solved with
    | None => Err not_enough_mana
    | Some remaining =>
        let retained := pool_vec (retained_combat_mana player) in
        Ok {| remaining := remaining;
              life_cost := needs_life needs;
              phyrexian_symbols_paid_with_life := needs_life_symbols needs;
              restricted_spent := restricted_spent;
              requires_any_color := false;
              expected_pool := unrestricted;
              remaining_retained_combat := zip_with Z.min retained remaining;
              expected_retained_combat := retained;
              expected_life := player_life player;
              expected_restricted := restricted_mana player |}
    end.

Definition plan_mana_payment_with_restricted_reduction (state : GameState)
    (player_idx : nat) (cost : ManaCost) (x_value extra_generic generic_reduction : Z)
    (flex_payments : list FlexPipPayment)
    (restricted_selections : list ManaSpendSelection) (eligible_group_ids : list Z)
    : result ManaPaymentPlan EngineError :=
  plan_mana_payment_with_any_color state player_idx cost x_value extra_generic
    generic_reduction flex_payments restricted_selections eligible_group_ids false.

Definition plan_mana_payment_with_reduction (state : GameState) (player_idx : nat)
    (cost : ManaCost) (x_value extra_generic generic_reduction : Z)
    (flex_payments : list FlexPipPayment) : result ManaPaymentPlan EngineError :=
  plan_mana_payment_with_restricted_reduction state player_idx cost x_value
    extra_generic generic_reduction flex_payments [] [].

Definition plan_mana_payment (state : GameState) (player_idx : nat)
    (cost : ManaCost) (x_value extra_generic : Z)
    (flex_payments : list FlexPipPayment) : result ManaPaymentPlan EngineError :=
  plan_mana_payment_with_reduction state player_idx cost x_value extra_generic 0
    flex_payments.

(** [total.try_fold(0u32, checked_add)] over a list of amounts. *)
Definition checked_sum (l : list Z) : option Z :=
  fold_left (fun (acc : option Z) n => s ← acc; u32_checked_add s n) l (Some 0).

Definition plan_exact_mana_payment (state : GameState) (player_idx : nat)
    (ordinary : PoolVec) (restricted : list ManaSpendSelection) (eligible : list Z)
    (life : Z) : result ManaPaymentPlan EngineError :=
  let player := players state !!! player_idx in
  let available := pool_vec (mana_pool player) in
  if existsb (fun '(used, have) => have <? used) (zip ordinary available) ||
     (player_life player <? life) then
    Err (Illegal "selected mana or life is unavailable")
  else
    let? total := ok_or
      (checked_sum (ordinary ++ concat (map (fun m => amount_vec (sel_amount m)) restricted)))
      (Illegal "payment overflow") in
    let? plan := plan_mana_payment_with_restricted_reduction state player_idx
                   {| pips := [] |} 0 total 0 [] restricted eligible in
    let remaining' := zip_with Z.sub available ordinary in
    Ok {| remaining := remaining';
          life_cost := life;
          phyrexian_symbols_paid_with_life := phyrexian_symbols_paid_with_life plan;
          restricted_spent := restricted_spent plan;
          requires_any_color := requires_any_color plan;
          expected_pool := expected_pool plan;
          remaining_retained_combat :=
            zip_with Z.min (expected_retained_combat plan) remaining';
          expected_retained_combat := expected_retained_combat plan;
          expected_life := expected_life plan;
          expected_restricted := expected_restricted plan |}.

(** ** Reading a plan *)

Definition unrestricted_spent (plan : ManaPaymentPlan) : ManaAmount :=
  amount_of_vec (zip_with u32_sub (expected_pool plan) (remaining plan)).

(** [ManaColorsSpent] as its five presence flags. *)
Definition colors_spent (plan : ManaPaymentPlan) : list bool :=
  map (fun i =>
         (remaining plan !!! i <? expected_pool plan !!! i) ||
         existsb (fun e : Z * ManaAmount => 0 <? amount_vec e.2 !!! i) (restricted_spent plan))
      (seq 0 5).

Definition mana_spent (plan : ManaPaymentPlan) : Z :=
  zsum (zip_with u32_sub (expected_pool plan) (remaining plan)) +
  zsum (map (fun e : Z * ManaAmount => zsum (amount_vec e.2)) (restricted_spent plan)).

Definition mana_payment_still_valid (state : GameState) (player_idx : nat)
    (plan : ManaPaymentPlan) : bool :=
  match players state !! player_idx with
  | None => false
  | Some player =>
      bool_decide (expected_pool plan = pool_vec (mana_pool player)) &&
      bool_decide (expected_life plan = player_life player) &&
      bool_decide (expected_retained_combat plan =
                   pool_vec (retained_combat_mana player)) &&
      bool_decide (expected_restricted plan = restricted_mana player)
  end.

(** ** Rebasing an accepted plan *)

Definition saturating_add_amounts (a b : ManaAmount) : ManaAmount :=
  amount_of_vec (zip_with u32_saturating_add (amount_vec a) (amount_vec b)).

(** The [HashMap] of the amounts left in each restriction group. *)
Definition group_totals (entries : list RestrictedManaContribution) : gmap Z ManaAmount :=
  fold_left (fun m e =>
      <[restriction_group_id e :=
          saturating_add_amounts (default zero_amount (m !! restriction_group_id e))
            (contribution e)]> m)
    entries ∅.

(** The loop debiting each recorded group. *)
Fixpoint debit_groups (totals : gmap Z ManaAmount) (spent : list (Z * ManaAmount))
    : result (gmap Z ManaAmount) EngineError :=
  let stale := Illegal
    "later mana activation depends on the reversed restricted-mana receipt" in
  match spent with
  | [] => Ok totals
  | (group_id, amount) :: rest =>
      match totals !! group_id with
      | None => Err stale
      | Some available =>
          if exceeds amount available then Err stale
          else debit_groups
                 (<[group_id := amount_of_vec
                      (zip_with Z.sub (amount_vec available) (amount_vec amount))]> totals)
                 rest
      end
  end.

Definition rebase_for_attack_receipt (plan : ManaPaymentPlan) (state : GameState)
    (player_idx : nat) : result ManaPaymentPlan EngineError :=
  match players state !! player_idx with
  | None => Err (Illegal "attack mana receipt payer changed")
  | Some player =>
      let available := pool_vec (mana_pool player) in
      let retained := pool_vec (retained_combat_mana player) in
      let spent := map (fun i => u32_saturating_sub (expected_pool plan !!! i)
                                   (remaining plan !!! i)) (seq 0 6) in
      let retained_spent := map (fun i =>
          u32_saturating_sub (expected_retained_combat plan !!! i)
            (remaining_retained_combat plan !!! i)) (seq 0 6) in
      if existsb (fun i => (available !!! i <? spent !!! i) ||
                           (retained !!! i <? retained_spent !!! i)) (seq 0 6) then
        Err (Illegal "later mana activation depends on the reversed mana receipt")
      else
        let? _ := debit_groups (group_totals (restricted_mana player))
                    (restricted_spent plan) in
        Ok {| remaining := zip_with Z.sub available spent;
              life_cost := life_cost plan;
              phyrexian_symbols_paid_with_life := phyrexian_symbols_paid_with_life plan;
              restricted_spent := restricted_spent plan;
              requires_any_color := requires_any_color plan;
              expected_pool := available;
              remaining_retained_combat := zip_with Z.sub retained retained_spent;
              expected_retained_combat := retained;
              expected_life := player_life player;
              expected_restricted := restricted_mana player |}
  end.

Definition remap_restricted_groups (plan : ManaPaymentPlan) (remap : gmap Z Z) : ManaPaymentPlan :=
  {| remaining := remaining plan;
     life_cost := life_cost plan;
     phyrexian_symbols_paid_with_life := phyrexian_symbols_paid_with_life plan;
     restricted_spent :=
       map (fun e : Z * ManaAmount => (default e.1 (remap !! e.1), e.2)) (restricted_spent plan);
     requires_any_color := requires_any_color plan;
     expected_pool := expected_pool plan;
     remaining_retained_combat := remaining_retained_combat plan;
     expected_retained_combat := expected_retained_combat plan;
     expected_life := expected_life plan;
     expected_restricted := expected_restricted plan |}.

(** ** Committing *)

(** [engine/history.rs: commit_life_change]. *)
Definition record_life_change (delta : Z) (r : LifeRecord) : LifeRecord :=
  if 0 <? delta
  then {| life_gained := Z.min (life_gained r + Z.abs delta) u64_max;
          life_lost := life_lost r |}
  else {| life_gained := life_gained r;
          life_lost := Z.min (life_lost r + Z.abs delta) u64_max |}.

Definition set_life (v : Z) (p : PlayerState) : PlayerState :=
  {| player_id := player_id p; player_life := v; mana_pool := mana_pool p;
     retained_combat_mana := retained_combat_mana p;
     restricted_mana := restricted_mana p |}.

Definition life_record (state : GameState) (pid : Z) : LifeRecord :=
  default empty_life_record (turn_history state !! pid).

Definition commit_life_change (state : GameState) (player_idx : nat) (delta : Z)
    : GameState :=
  if delta =? 0 then state
  else
    let player := players state !!! player_idx in
    {| players := <[player_idx :=
                      set_life (wrap_i32 (player_life player + delta)) player]>
                    (players state);
       turn_history := <[player_id player :=
                           record_life_change delta (life_record state (player_id player))]>
                         (turn_history state) |}.

(** [commit_life_change_checked]: both totals are checked before either moves. *)
Definition commit_life_change_checked (state : GameState) (player_idx : nat) (delta : Z)
    : result GameState EngineError :=
  if delta =? 0 then Ok state
  else
    let player := players state !!! player_idx in
    let new_total := player_life player + delta in
    if negb ((i32_min <=? new_total) && (new_total <=? i32_max)) then
      Err (LifeNumericRange "life total")
    else
      let record := life_record state (player_id player) in
      let prior := if 0 <? delta then life_gained record else life_lost record in
      let history := prior + Z.abs delta in
      if u64_max <? history then Err (LifeNumericRange "life history")
      else
        Ok {| players := <[player_idx := set_life new_total player]> (players state);
              turn_history := <[player_id player :=
                  if 0 <? delta
                  then {| life_gained := history; life_lost := life_lost record |}
                  else {| life_gained := life_gained record; life_lost := history |}]>
                (turn_history state) |}.

(** The inner loop over the entries of one group and one colour slot. *)
Fixpoint debit_slot (group_id : Z) (slot : nat) (left : Z)
    (entries : list RestrictedManaContribution) : list RestrictedManaContribution :=
  match entries with
  | [] => []
  | e :: rest =>
      if (restriction_group_id e =? group_id) && negb (left =? 0) then
        let field := amount_vec (contribution e) !!! slot in
        let take := Z.min left field in
        {| restriction_group_id := restriction_group_id e;
           contribution := amount_of_vec
             (<[slot := field - take]> (amount_vec (contribution e))) |}
        :: debit_slot group_id slot (left - take) rest
      else e :: debit_slot group_id slot left rest
  end.

Definition debit_amount (group_id : Z) (spent : ManaAmount)
    (entries : list RestrictedManaContribution) : list RestrictedManaContribution :=
  fold_left (fun es slot => debit_slot group_id slot (amount_vec spent !!! slot) es)
    (seq 0 6) entries.

(** [entries.retain(..)]: the [u32] sum of the six fields is positive. *)
Definition nonempty_entry (e : RestrictedManaContribution) : bool :=
  0 <? fold_left u32_add (amount_vec (contribution e)) 0.

Definition debit_restricted (spent : list (Z * ManaAmount))
    (entries : list RestrictedManaContribution) : list RestrictedManaContribution :=
  fold_left (fun es (gs : Z * ManaAmount) =>
      List.filter nonempty_entry (debit_amount gs.1 gs.2 es)) spent entries.

Definition pay_player (plan : ManaPaymentPlan) (p : PlayerState) : PlayerState :=
  {| player_id := player_id p;
     player_life := player_life p;
     mana_pool := pool_of_vec (remaining plan);
     retained_combat_mana := pool_of_vec (remaining_retained_combat plan);
     restricted_mana := debit_restricted (restricted_spent plan) (restricted_mana p) |}.

Definition commit_mana_payment (state : GameState) (player_idx : nat)
    (plan : ManaPaymentPlan) : GameState :=
  let player := players state !!! player_idx in
  commit_life_change
    {| players := <[player_idx := pay_player plan player]> (players state);
       turn_history := turn_history state |}
    player_idx (wrap_i32 (- wrap_i32 (life_cost plan))).
