(* ===== verification/PlanCorrect.v ===== *)
(** * Correctness of mana payment plans

    The planner of [ManaPayment] against the ways to pay a cost that
    [Demand] enumerates: the pip loop reads the same options off a cost, so a
    plan exists exactly when some announced way to pay is covered by the pool
    and the life total, and a plan with restricted mana spends all of it. *)
From S2P Require Import Prelude ManaCost FlexSolver Demand ManaPayment.
Open Scope cockatrice_scope.
Local Open Scope Z_scope.

(** ** Specification *)

(** What a symbol can contribute to the counters of the pip loop. *)
Definition pip_size (x : Z) (pip : ManaSymbol) : Z :=
  match pip with
  | ManaSymbol.Generic n | ManaSymbol.MonoHybrid n _ => n
  | ManaSymbol.X => x
  | ManaSymbol.Phyrexian _ | ManaSymbol.HybridPhyrexian _ _ => 3
  | _ => 1
  end.

Definition wf_pip (pip : ManaSymbol) : Prop :=
  match pip with
  | ManaSymbol.Generic n | ManaSymbol.MonoHybrid n _ => 0 <= n
  | _ => True
  end.

Definition cost_size (x : Z) (ps : list ManaSymbol) : Z := zsum (map (pip_size x) ps).

(** Every Phyrexian symbol has an announced branch. *)
Definition announced (pp : ManaSymbol * option PhyrexianPayment) : Prop :=
  match pp with
  | ((ManaSymbol.Phyrexian _ | ManaSymbol.HybridPhyrexian _ _), None) => False
  | _ => True
  end.

Definition pool_of (state : GameState) (player_idx : nat) : PoolVec :=
  pool_vec (mana_pool (players state !!! player_idx)).

(** A way to pay: the picks are covered by [pool] with [r] left, the generic
    part included, and the life picked is there to pay. *)
Definition pays (pool : PoolVec) (life increase : Z) (picks : list (nat * Z))
    (r : PoolVec) : Prop :=
  length r = 6%nat /\
  (forall i, (i < 6)%nat -> 0 <= r !!! i <= pool !!! i - picked picks i) /\
  zsum r = zsum pool - zsum (map (picked picks) (seq 0 6)) -
           (increase + picked picks 6) /\
  (picked picks 7 = 0 \/ picked picks 7 <= life).

(** ** The pip loop *)

Definition fixed_need (n : Needs) (slot : nat) : Z :=
  match slot with
  | 6%nat => need_generic n
  | 7%nat => needs_life n
  | _ => need_color n !!! slot
  end.

Definition owed (n : Needs) (fp : list (nat * Z)) (slot : nat) : Z :=
  fixed_need n slot + picked fp slot.

Definition needs_size (n : Needs) : Z :=
  zsum (need_color n) + need_generic n + needs_life n + needs_life_symbols n +
  mono_total (needs_flex n).

Definition wf_needs (n : Needs) : Prop :=
  wf_pool (need_color n) /\ 0 <= need_generic n /\ 0 <= needs_life n /\
  0 <= needs_life_symbols n /\ wf_flex (needs_flex n).

(** [n'] is [n] with one more symbol, whose options are [opts]. *)
Definition extends (opts : list (nat * Z)) (n n' : Needs) : Prop :=
  (forall fp o, picks_for (needs_flex n) fp -> o ∈ opts ->
     exists fp', picks_for (needs_flex n') fp' /\
       forall s, (s < 8)%nat -> owed n' fp' s = owed n fp s + picked [o] s) /\
  (forall fp', picks_for (needs_flex n') fp' ->
     exists fp o, picks_for (needs_flex n) fp /\ o ∈ opts /\
       forall s, (s < 8)%nat -> owed n' fp' s = owed n fp s + picked [o] s).

Lemma picked_app a b s : picked (a ++ b) s = picked a s + picked b s.
Proof. induction a as [|[t k] a IH]; simpl; lia. Qed.

Lemma zsum_lookup_le (l : list Z) i :
  (i < length l)%nat -> Forall (Z.le 0) l -> l !!! i <= zsum l.
Proof.
  intros Hi Hl. pose proof (zsum_insert_total l i 0 Hi) as Hs.
  assert (0 <= zsum (<[i:=0]> l)) by (apply zsum_nonneg, Forall_insert; [done|lia]). lia.
Qed.

Lemma mono_total_app a b : mono_total (a ++ b) = mono_total a + mono_total b.
Proof. unfold mono_total. by rewrite map_app, zsum_app. Qed.

(** A symbol with one option changes a fixed counter and no flexible pip. *)
Lemma extends_fixed o n n' :
  needs_flex n' = needs_flex n ->
  (forall s, (s < 8)%nat -> fixed_need n' s = fixed_need n s + picked [o] s) ->
  extends [o] n n'.
Proof.
  intros Hf Hs. split.
  - intros fp o' Hp ->%list_elem_of_singleton. exists fp. rewrite Hf. split; [done|].
    intros s Hlt. unfold owed. rewrite Hs by done. lia.
  - intros fp' Hp. exists fp', o. rewrite Hf in Hp. split_and!; [done|set_solver|].
    intros s Hlt. unfold owed. rewrite Hs by done. lia.
Qed.

(** A flexible pip is appended with its own options. *)
Lemma extends_flex f n : extends (flex_options f) n (need_flex f n).
Proof.
  split.
  - intros fp o Hp Ho. exists (fp ++ [o]). split.
    + apply Forall2_app; [done|by repeat constructor].
    + intros s _. unfold owed. rewrite picked_app. unfold fixed_need, need_flex. simpl. lia.
  - intros fp' Hp. apply Forall2_app_inv_l in Hp as (fp & l & Hp & Hl & ->).
    inversion Hl as [|? o ? ? Ho Hnil]; subst. inversion Hnil; subst.
    exists fp, o. split_and!; [done|done|].
    intros s _. unfold owed. rewrite picked_app. unfold fixed_need, need_flex. simpl. lia.
Qed.

Ltac slot_case i :=
  match goal with |- context [Nat.eqb i ?k] => destruct (Nat.eqb_spec i k) end.

Lemma need_one_extends i n :
  wf_needs n -> (i < 6)%nat -> needs_size n + 1 <= u32_max ->
  wf_needs (need_one i n) /\ extends [(i, 1)] n (need_one i n) /\
  needs_size (need_one i n) = needs_size n + 1.
Proof.
  intros ([Hl Hc] & Hg & Hlf & Hls & Hf) Hi Hsz.
  pose proof (zsum_lookup_le (need_color n) i ltac:(lia) Hc). pose proof (nonneg_lookup_total _ i Hc).
  pose proof (mono_total_nonneg _ Hf). unfold needs_size in Hsz.
  assert (Ha : u32_add (need_color n !!! i) 1 = need_color n !!! i + 1) by (apply u32_add_small; lia).
  split_and!.
  - split_and!; simpl; try done. split; [by rewrite length_insert|].
    apply Forall_insert; [done|]. lia.
  - apply extends_fixed; [done|]. intros s Hs. unfold fixed_need, need_one. simpl.
    rewrite lookup_total_insert, Ha by lia.
    do 8 (destruct s as [|s]; [cbn [picked]; slot_case i; subst; lia|]). lia.
  - unfold needs_size, need_one. simpl. rewrite zsum_insert_total by lia. lia.
Qed.

Lemma need_more_extends k n :
  wf_needs n -> 0 <= k -> needs_size n + k <= u32_max ->
  wf_needs (need_more k n) /\ extends [(6%nat, k)] n (need_more k n) /\
  needs_size (need_more k n) = needs_size n + k.
Proof.
  intros ([Hl Hc] & Hg & Hlf & Hls & Hf) Hk Hsz.
  pose proof (zsum_nonneg _ Hc). pose proof (mono_total_nonneg _ Hf). unfold needs_size in Hsz.
  assert (Ha : u32_saturating_add (need_generic n) k = need_generic n + k)
    by (unfold u32_saturating_add; lia).
  split_and!.
  - split_and!; simpl; try done. lia.
  - apply extends_fixed; [done|]. intros s Hs. unfold fixed_need, need_more. simpl. rewrite Ha.
    do 8 (destruct s as [|s]; [simpl; lia|]). lia.
  - unfold needs_size, need_more. simpl. lia.
Qed.

Lemma need_two_life_extends n :
  wf_needs n -> needs_size n + 3 <= u32_max ->
  wf_needs (need_two_life n) /\ extends [(7%nat, 2)] n (need_two_life n) /\
  needs_size (need_two_life n) = needs_size n + 3.
Proof.
  intros ([Hl Hc] & Hg & Hlf & Hls & Hf) Hsz.
  pose proof (zsum_nonneg _ Hc). pose proof (mono_total_nonneg _ Hf). unfold needs_size in Hsz.
  assert (Ha : u32_add (needs_life n) 2 = needs_life n + 2) by (apply u32_add_small; lia).
  assert (Hb : u32_add (needs_life_symbols n) 1 = needs_life_symbols n + 1)
    by (apply u32_add_small; lia).
  split_and!.
  - split_and!; simpl; try done; lia.
  - apply extends_fixed; [done|]. intros s Hs. unfold fixed_need, need_two_life. simpl. rewrite Ha.
    do 8 (destruct s as [|s]; [simpl; lia|]). lia.
  - unfold needs_size, need_two_life. simpl. lia.
Qed.

Lemma need_flex_extends f n :
  wf_needs n -> match f with FlexPip.Mono k _ => 0 <= k | _ => True end ->
  wf_needs (need_flex f n) /\ extends (flex_options f) n (need_flex f n) /\
  needs_size (need_flex f n) =
    needs_size n + match f with FlexPip.Mono k _ => k | _ => 0 end.
Proof.
  intros (Hc & Hg & Hlf & Hls & Hf) Hk. split_and!.
  - split_and!; simpl; try done. apply Forall_app. split; [done|by repeat constructor].
  - apply extends_flex.
  - unfold needs_size, need_flex. simpl. rewrite mono_total_app.
    unfold mono_total at 2. simpl. lia.
Qed.

Lemma need_pip_extends x n p ph :
  wf_needs n -> 0 <= x -> wf_pip p -> announced (p, ph) ->
  needs_size n + pip_size x p <= u32_max ->
  wf_needs (need_pip x n (p, ph)) /\
  extends (symbol_options x p ph) n (need_pip x n (p, ph)) /\
  needs_size (need_pip x n (p, ph)) <= needs_size n + pip_size x p /\
  needs_life (need_pip x n (p, ph)) <= needs_life n + 2.
Proof.
  intros Hn Hx Hp Han Hsz.
  assert (Hlife : u32_add (needs_life n) 2 <= needs_life n + 2).
  { unfold u32_add, wrap_u32. apply Z.mod_le; [destruct Hn as (_ & _ & ? & _)|]; lia. }
  assert (Hend : forall n' opts k, symbol_options x p ph = opts ->
    wf_needs n' /\ extends opts n n' /\ needs_size n' = needs_size n + k ->
    k <= pip_size x p -> needs_life n' <= needs_life n + 2 ->
    wf_needs n' /\ extends (symbol_options x p ph) n n' /\
    needs_size n' <= needs_size n + pip_size x p /\ needs_life n' <= needs_life n + 2)
    by (intros ? ? ? <- (? & ? & ?) ??; split_and!; [done|done|lia|done]).
  pose proof (color_index_lt) as Hci.
  assert (Hone : forall i, (i < 6)%nat -> symbol_options x p ph = [(i, 1)] ->
    pip_size x p = 1 ->
    wf_needs (need_one i n) /\ extends (symbol_options x p ph) n (need_one i n) /\
    needs_size (need_one i n) <= needs_size n + pip_size x p /\
    needs_life (need_one i n) <= needs_life n + 2).
  { intros i Hi Ho H1. rewrite H1 in Hsz.
    apply (Hend _ _ _ Ho (need_one_extends i n Hn Hi Hsz)); simpl; lia. }
  destruct p as [| | | | | |k| |a b|k c|c|a b]; simpl in Hsz, Hp; cbn [need_pip];
    try (apply Hone; [unfold POOL_C; simpl; lia|reflexivity|reflexivity]); clear Hone.
  1: apply (Hend _ _ _ eq_refl (need_more_extends k n Hn Hp Hsz)); simpl; lia.
  1: apply (Hend _ _ _ eq_refl (need_more_extends x n Hn Hx Hsz)); simpl; lia.
  - apply (Hend _ _ _ eq_refl (need_flex_extends (FlexPip.Hybrid a b) n Hn I)); simpl; lia.
  - apply (Hend _ _ _ eq_refl (need_flex_extends (FlexPip.Mono k c) n Hn Hp)); simpl; lia.
  - destruct ph as [[color|]|]; [| |done].
    + apply (Hend _ _ _ eq_refl (need_flex_extends (FlexPip.Color color) n Hn I)); simpl; lia.
    + apply (Hend _ _ _ eq_refl (need_two_life_extends n Hn Hsz)); simpl; lia.
  - destruct ph as [[color|]|]; [| |done].
    + apply (Hend _ _ _ eq_refl (need_flex_extends (FlexPip.Color color) n Hn I)); simpl; lia.
    + apply (Hend _ _ _ eq_refl (need_two_life_extends n Hn Hsz)); simpl; lia.
Qed.

(** The whole loop: the picks of the symbols of a cost are those of its
    flexible pips on top of the fixed counters. *)
Definition extends_all (x : Z) (ps : list (ManaSymbol * option PhyrexianPayment))
    (n n' : Needs) : Prop :=
  (forall fp picks, picks_for (needs_flex n) fp -> symbol_picks x ps picks ->
     exists fp', picks_for (needs_flex n') fp' /\
       forall s, (s < 8)%nat -> owed n' fp' s = owed n fp s + picked picks s) /\
  (forall fp', picks_for (needs_flex n') fp' ->
     exists fp picks, picks_for (needs_flex n) fp /\ symbol_picks x ps picks /\
       forall s, (s < 8)%nat -> owed n' fp' s = owed n fp s + picked picks s).

Lemma extends_all_cons x p ph ps n n1 n2 :
  extends (symbol_options x p ph) n n1 -> extends_all x ps n1 n2 ->
  extends_all x ((p, ph) :: ps) n n2.
Proof.
  intros [H1 H1'] [H2 H2']. split.
  - intros fp picks Hfp Hp. inversion Hp as [|? o ? picks' Ho Hp']; subst.
    destruct (H1 fp o Hfp Ho) as (fp1 & Hfp1 & He1).
    destruct (H2 fp1 picks' Hfp1 Hp') as (fp2 & Hfp2 & He2).
    exists fp2. split; [done|]. intros s Hs. rewrite He2, He1 by done.
    change (o :: picks') with ([o] ++ picks'). rewrite picked_app. lia.
  - intros fp2 Hfp2. destruct (H2' fp2 Hfp2) as (fp1 & picks & Hfp1 & Hp & He2).
    destruct (H1' fp1 Hfp1) as (fp & o & Hfp & Ho & He1).
    exists fp, (o :: picks). split_and!; [done|by constructor|].
    intros s Hs. rewrite He2, He1 by done.
    change (o :: picks) with ([o] ++ picks). rewrite picked_app. lia.
Qed.

Lemma cost_needs_fold x ps n0 :
  wf_needs n0 -> 0 <= x -> Forall (fun pp => wf_pip pp.1 /\ announced pp) ps ->
  needs_size n0 + cost_size x (map fst ps) <= u32_max ->
  let n := fold_left (need_pip x) ps n0 in
  wf_needs n /\ extends_all x ps n0 n /\
  needs_size n <= needs_size n0 + cost_size x (map fst ps) /\
  needs_life n <= needs_life n0 + 2 * Z.of_nat (length ps).
Proof.
  revert n0. induction ps as [|[p ph] ps IH]; intros n0 Hn Hx Hps Hsz n.
  - unfold cost_size in *. simpl in *. subst n. split_and!; [done| |lia|lia]. split.
    + intros fp picks Hfp Hp. inversion Hp; subst. exists fp. split; [done|]. simpl. lia.
    + intros fp' Hfp'. exists fp', []. split_and!; [done|constructor|]. simpl. lia.
  - apply Forall_cons in Hps as [[Hp Ha] Hps]. unfold cost_size in *. cbn [map zsum fst length] in *.
    assert (Hrest : 0 <= zsum (map (pip_size x) (map fst ps))).
    { clear -Hps Hx. induction Hps as [|[q ?] ps [Hq _] _ IH]; simpl in *; [lia|].
      assert (0 <= pip_size x q) by (destruct q; simpl in *; lia). lia. }
    destruct (need_pip_extends x n0 p ph Hn Hx Hp Ha ltac:(lia)) as (H1 & H2 & H3 & H4).
    destruct (IH _ H1 Hx Hps ltac:(lia)) as (H5 & H6 & H7 & H8).
    subst n. cbn [fold_left].
    split_and!; [done|by eapply extends_all_cons|lia|lia].
Qed.

Lemma cost_needs_spec x inc ps :
  0 <= x -> 0 <= inc -> Forall (fun pp => wf_pip pp.1 /\ announced pp) ps ->
  inc + cost_size x (map fst ps) <= u32_max ->
  let n := cost_needs x inc ps in
  wf_needs n /\ needs_size n <= inc + cost_size x (map fst ps) /\
  needs_life n <= 2 * Z.of_nat (length ps) /\
  (forall picks, symbol_picks x ps picks -> exists fp, picks_for (needs_flex n) fp /\
     forall s, (s < 8)%nat ->
       owed n fp s = (if Nat.eqb s 6 then inc else 0) + picked picks s) /\
  (forall fp, picks_for (needs_flex n) fp -> exists picks, symbol_picks x ps picks /\
     forall s, (s < 8)%nat ->
       owed n fp s = (if Nat.eqb s 6 then inc else 0) + picked picks s).
Proof.
  intros Hx Hinc Hps Hsz n.
  set (n0 := {| need_color := [0; 0; 0; 0; 0; 0]; need_generic := inc; needs_life := 0;
                needs_life_symbols := 0; needs_flex := [] |}).
  assert (Hn0 : wf_needs n0).
  { repeat split; simpl; try lia; try apply Forall_nil_2. by repeat constructor. }
  assert (Hs0 : needs_size n0 = inc) by (unfold needs_size, mono_total, n0; simpl; lia).
  assert (H0 : forall s, (s < 8)%nat -> owed n0 [] s = if Nat.eqb s 6 then inc else 0).
  { intros s Hs. unfold owed. do 8 (destruct s as [|s]; [simpl; lia|]). lia. }
  destruct (cost_needs_fold x ps n0 Hn0 Hx Hps) as (H1 & [H2 H2'] & H3 & H4);
    [lia|].
  change (needs_life n0) with 0 in H4. change (fold_left (need_pip x) ps n0) with n in *.
  split_and!; [done|lia|lia| |].
  - intros picks Hp. destruct (H2 [] picks ltac:(constructor) Hp) as (fp & Hfp & He).
    exists fp. split; [done|]. intros s Hs. rewrite He, H0 by done. done.
  - intros fp Hfp. destruct (H2' fp Hfp) as (fp0 & picks & Hfp0 & Hp & He).
    apply Forall2_nil_inv_l in Hfp0 as ->. exists picks. split; [done|]. intros s Hs. by rewrite He, H0.
Qed.

(** ** Announced branches *)

Lemma default_branches_announced ps sel out :
  default_branches ps sel = Ok out -> Forall announced (zip ps out).
Proof.
  revert sel out. induction ps as [|p ps IH]; intros sel out He; [constructor|].
  destruct sel as [|s sel]; cbn [default_branches] in He; [by simplify_eq|].
  apply rbind_Ok in He as (s' & Hs & He). apply rbind_Ok in He as (rest & Hr & [= <-]).
  simpl. constructor; [|by eapply IH].
  destruct p, s as [[]|]; by simplify_eq/=.
Qed.

Lemma validated_announced cost choices ph :
  validated_phyrexian_choices cost choices = Ok ph -> Forall announced (zip (pips cost) ph).
Proof.
  unfold validated_phyrexian_choices. intros (sel & _ & He)%rbind_Ok.
  by eapply default_branches_announced.
Qed.

(** ** Solving for a cost *)

Lemma subtract_needs_spec w n :
  length w = length n ->
  match subtract_needs w n with
  | Some r => length r = length w /\ forall i, (i < length w)%nat -> n !!! i <= w !!! i /\
                r !!! i = w !!! i - n !!! i
  | None => exists i, (i < length w)%nat /\ w !!! i < n !!! i
  end.
Proof.
  revert n. induction w as [|a w IH]; intros [|b n] Hl; simplify_eq/=; [split; [done|lia]|].
  destruct (Z.ltb_spec a b) as [Hab|Hab]; [exists 0%nat; simpl; lia|].
  specialize (IH n Hl). destruct (subtract_needs w n) as [r|]; simpl.
  - destruct IH as [Hr IH]. split; [by rewrite Hr|]. intros [|i] Hi; simpl; [lia|].
    apply IH. lia.
  - destruct IH as (i & Hi & Hlt). exists (S i). simpl. split; [lia|done].
Qed.

Lemma zsum_subtract w n r :
  length w = 6%nat -> length n = 6%nat -> length r = 6%nat ->
  (forall i, (i < 6)%nat -> r !!! i = w !!! i - n !!! i) -> zsum r = zsum w - zsum n.
Proof.
  intros Hw Hn Hr He. rewrite (zsum_pool r), (zsum_pool w), (zsum_pool n) by done. cbn [seq map zsum].
  rewrite !He by lia. lia.
Qed.

(** [r] is left of [pool] once the fixed counters and the picks for the
    flexible pips are paid. *)
Definition covers (pool : PoolVec) (n : Needs) (fp : list (nat * Z)) (r : PoolVec) : Prop :=
  length r = 6%nat /\
  (forall i, (i < 6)%nat -> 0 <= r !!! i <= pool !!! i - owed n fp i) /\
  zsum r = zsum pool - zsum (map (owed n fp) (seq 0 6)) - owed n fp 6.

Lemma fixed_need_color n i : (i < 6)%nat -> fixed_need n i = need_color n !!! i.
Proof. intros. by do 6 (destruct i as [|i]; [done|]); lia. Qed.

Lemma solution_covers pool n w r :
  wf_needs n -> length pool = 6%nat -> length w = 6%nat ->
  (forall i, (i < 6)%nat -> w !!! i = pool !!! i - need_color n !!! i) ->
  solution w (needs_flex n) (need_generic n) r <->
  exists fp, picks_for (needs_flex n) fp /\ covers pool n fp r.
Proof.
  intros [[Hnl _] _] Hpl Hwl Hw.
  pose proof (zsum_subtract pool (need_color n) w Hpl Hnl Hwl Hw) as Hzw.
  rewrite (zsum_pool (need_color n) Hnl) in Hzw. unfold solution, covers, owed.
  split; intros (fp & Hfp & Hl & Hb & Hs); exists fp; split_and!; try done.
  - intros i Hi. rewrite fixed_need_color by done. specialize (Hb i Hi).
    rewrite Hw in Hb by done. lia.
  - rewrite zsum_map_add. rewrite Hs, Hzw. cbn [seq map zsum fixed_need]. lia.
  - intros i Hi. specialize (Hb i Hi). rewrite fixed_need_color in Hb by done.
    rewrite Hw by done. lia.
  - rewrite zsum_map_add in Hs. rewrite Hs, Hzw. cbn [seq map zsum fixed_need]. lia.
Qed.

Lemma covers_pays pool life inc n fp picks r :
  (forall s, (s < 8)%nat ->
     owed n fp s = (if Nat.eqb s 6 then inc else 0) + picked picks s) ->
  picked picks 7 = 0 \/ picked picks 7 <= life ->
  covers pool n fp r <-> pays pool life inc picks r.
Proof.
  intros Ho Hlife.
  assert (Hc : forall i, (i < 6)%nat -> owed n fp i = picked picks i).
  { intros i Hi. rewrite Ho by lia. by rewrite (proj2 (Nat.eqb_neq i 6)) by lia. }
  unfold covers, pays. rewrite (Ho 6%nat) by lia. cbn [Nat.eqb].
  rewrite (zsum_map_ext (owed n fp) (picked picks)) by (intros i Hi%elem_of_seq; apply Hc; lia).
  split.
  - intros (Hr & Hb & Hsum). split_and!; try done.
    intros i Hi. rewrite <- Hc by done. by apply Hb.
  - intros (Hr & Hb & Hsum & _). split_and!; try done.
    intros i Hi. rewrite Hc by done. by apply Hb.
Qed.

Definition wf_player (p : PlayerState) : Prop :=
  wf_pool (pool_vec (mana_pool p)) /\ wf_pool (pool_vec (retained_combat_mana p)).

(** The hypotheses under which the counters of a plan stay in range. *)
Record in_range (cost : ManaCost) (x inc : Z) : Prop := {
  range_x : 0 <= x;
  range_inc : 0 <= inc;
  range_pips : Forall wf_pip (pips cost);
  range_size : inc + cost_size x (pips cost) <= u32_max;
  range_length : 2 * Z.of_nat (length (pips cost)) <= i32_max
}.

Lemma select_choices_length cost sel choices out :
  select_choices cost sel choices = Ok out -> length out = length sel.
Proof.
  revert sel. induction choices as [|c cs IH]; cbn [select_choices]; intros sel He;
    [by simplify_eq|].
  apply rbind_Ok in He as (sel' & Hs & He). rewrite (IH _ He).
  unfold select_choice in Hs. destruct (pips cost !! _); [|done].
  destruct (sel !! _) as [[?|]|]; try done;
    apply rbind_Ok in Hs as (b & _ & [= <-]); by rewrite length_insert.
Qed.

Lemma default_branches_length ps sel out :
  default_branches ps sel = Ok out -> length out = length sel.
Proof.
  revert sel out. induction ps as [|p ps IH]; intros [|s sel] out He;
    cbn [default_branches] in He; try by simplify_eq.
  apply rbind_Ok in He as (s' & _ & He). apply rbind_Ok in He as (rest & Hr & [= <-]).
  simpl. f_equal. by eapply IH.
Qed.

Lemma validated_length cost choices ph :
  validated_phyrexian_choices cost choices = Ok ph -> length ph = length (pips cost).
Proof.
  unfold validated_phyrexian_choices. intros (sel & Hs & He)%rbind_Ok.
  rewrite (default_branches_length _ _ _ He), (select_choices_length _ _ _ _ Hs).
  apply length_replicate.
Qed.

Lemma zip_fst {A B} (l : list A) (k : list B) :
  length l = length k -> map fst (zip l k) = l.
Proof.
  revert k. induction l as [|a l IH]; intros [|b k] Hl; simplify_eq/=; [done|].
  f_equal. by apply IH.
Qed.

Lemma in_range_needs cost x inc choices ph :
  in_range cost x inc -> validated_phyrexian_choices cost choices = Ok ph ->
  let ps := zip (pips cost) ph in
  Forall (fun pp => wf_pip pp.1 /\ announced pp) ps /\
  map fst ps = pips cost /\ length ps = length (pips cost).
Proof.
  intros [Hx Hi Hp Hs Hl] Hv ps. pose proof (validated_length _ _ _ Hv) as Hlen.
  assert (Hf : map fst ps = pips cost) by (by apply zip_fst).
  split_and!; [|done|by rewrite <- Hf, length_map].
  apply Forall_and. split; [|by eapply validated_announced].
  rewrite <- Hf in Hp. rewrite Forall_map in Hp. done.
Qed.

(** ** Unrestricted plans *)

Lemma plan_mana_payment_unfold state i cost x inc lp ph :
  validated_phyrexian_choices cost lp = Ok ph ->
  let n := cost_needs x inc (zip (pips cost) ph) in
  let p := players state !!! i in
  plan_mana_payment state i cost x inc lp =
    if (0 <? needs_life n) && (player_life p <? wrap_i32 (needs_life n)) then
      Err (Illegal "not enough life to pay Phyrexian cost")
    else
      match subtract_needs (pool_vec (mana_pool p)) (need_color n) with
      | None => Err not_enough_mana
      | Some w =>
          match solve_flex w (needs_flex n) (u32_saturating_sub (need_generic n) 0) with
          | None => Err not_enough_mana
          | Some r =>
              Ok {| remaining := r; life_cost := needs_life n;
                    phyrexian_symbols_paid_with_life := needs_life_symbols n;
                    restricted_spent := []; requires_any_color := false;
                    expected_pool := pool_vec (mana_pool p);
                    remaining_retained_combat :=
                      zip_with Z.min (pool_vec (retained_combat_mana p)) r;
                    expected_retained_combat := pool_vec (retained_combat_mana p);
                    expected_life := player_life p;
                    expected_restricted := restricted_mana p |}
          end
      end.
Proof.
  intros Hv n p. unfold plan_mana_payment, plan_mana_payment_with_reduction,
    plan_mana_payment_with_restricted_reduction, plan_mana_payment_with_any_color.
  rewrite Hv. cbn [rbind]. fold n p.
  destruct (_ && _); [done|]. cbn [take_selections rbind].
  unfold solve_remaining. rewrite bool_decide_true by done.
  destruct (subtract_needs _ _) as [w|]; [|done]. cbn [rbind].
  by destruct (solve_flex _ _ _).
Qed.

Lemma life_check cost x inc lp ph :
  in_range cost x inc -> validated_phyrexian_choices cost lp = Ok ph ->
  let n := cost_needs x inc (zip (pips cost) ph) in
  forall l, (0 <? needs_life n) && (l <? wrap_i32 (needs_life n)) = false <->
    needs_life n = 0 \/ needs_life n <= l.
Proof.
  intros Hr Hv n l. destruct (in_range_needs _ _ _ _ _ Hr Hv) as (Hps & Hf & Hlen).
  destruct Hr as [Hx Hi _ Hs Hl]. rewrite <- Hf in Hs.
  destruct (cost_needs_spec x inc _ Hx Hi Hps Hs) as ((_ & _ & Hnl & _) & _ & Hb & _).
  fold n in Hnl, Hb. rewrite Hlen in Hb.
  rewrite wrap_i32_small by mlia.
  destruct (Z.ltb_spec 0 (needs_life n)), (Z.ltb_spec l (needs_life n)); simpl;
    split; intros; (done || lia).
Qed.

(** What planning decides, in terms of the counters of the pip loop. *)
Lemma plan_search state i cost x inc lp ph :
  wf_player (players state !!! i) -> in_range cost x inc ->
  validated_phyrexian_choices cost lp = Ok ph ->
  let n := cost_needs x inc (zip (pips cost) ph) in
  let l := player_life (players state !!! i) in
  match plan_mana_payment state i cost x inc lp with
  | Ok plan =>
      (needs_life n = 0 \/ needs_life n <= l) /\ life_cost plan = needs_life n /\
      restricted_spent plan = [] /\
      exists fp, picks_for (needs_flex n) fp /\ covers (pool_of state i) n fp (remaining plan)
  | Err _ =>
      ~ (needs_life n = 0 \/ needs_life n <= l) \/
      forall fp r, picks_for (needs_flex n) fp -> ~ covers (pool_of state i) n fp r
  end.
Proof.
  intros [Hw _] Hr Hv n l. rewrite (plan_mana_payment_unfold _ _ _ _ _ _ _ Hv). fold n.
  pose proof (life_check _ _ _ _ _ Hr Hv l) as Hlife. fold n in Hlife.
  destruct (in_range_needs _ _ _ _ _ Hr Hv) as (Hps & Hf & _).
  destruct Hr as [Hx Hi _ Hs _]. rewrite <- Hf in Hs.
  destruct (cost_needs_spec x inc _ Hx Hi Hps Hs) as (Hn & Hsz & _). fold n in Hn, Hsz.
  fold l. destruct (_ && _).
  { left. intros Hc%Hlife. done. }
  pose proof Hn as ([Hnl Hnc] & Hg & Hn2 & Hn3 & Hn4). pose proof Hw as [Hpl _].
  pose proof (subtract_needs_spec (pool_of state i) (need_color n)) as Hsub.
  unfold pool_of in *. specialize (Hsub ltac:(lia)). rewrite Hpl in Hsub.
  destruct (subtract_needs _ _) as [w|].
  2: { right. intros fp r Hfp (_ & Hb & _). destruct Hsub as (j & Hj & Hlt).
       specialize (Hb j Hj). pose proof (picked_nonneg _ _ j Hn4 Hfp).
       unfold owed in Hb. rewrite fixed_need_color in Hb by done. lia. }
  destruct Hsub as [Hwl Hsub].
  assert (Hww : wf_pool w)
    by (apply wf_pool_intro; [done|]; intros j Hj; specialize (Hsub j Hj); lia).
  assert (Hcov : forall r, solution w (needs_flex n) (need_generic n) r <->
      exists fp, picks_for (needs_flex n) fp /\
        covers (pool_vec (mana_pool (players state !!! i))) n fp r)
    by (intros r; apply solution_covers; try done; intros j Hj; apply Hsub; lia).
  replace (u32_saturating_sub (need_generic n) 0) with (need_generic n)
    by (unfold u32_saturating_sub; lia).
  pose proof (zsum_nonneg _ Hnc).
  pose proof (solve_flex_search w (needs_flex n) (need_generic n) Hww Hn4 Hg
                ltac:(unfold needs_size in Hsz; lia)) as Hsolve.
  destruct (solve_flex _ _ _) as [r|]; cbn [search_ok] in Hsolve.
  - split_and!; [by apply Hlife|done|done|]. apply Hcov, Hsolve.
  - right. intros fp r Hfp Hc. apply (Hsolve r); [|done]. apply Hcov. by exists fp.
Qed.

Lemma picks_for_no_life flex fp : picks_for flex fp -> picked fp 7 = 0.
Proof.
  induction 1 as [|f [s a] fl fp Ho _ IH]; [done|]. cbn [picked]. rewrite IH.
  destruct (flex_option_cases _ _ _ Ho) as [[Hs _]| ->]; [|done].
  rewrite (proj2 (Nat.eqb_neq s 7)) by lia. done.
Qed.

(** The plan found is a way to pay. *)
Lemma plan_sound state i cost x inc lp ph plan :
  wf_player (players state !!! i) -> in_range cost x inc ->
  validated_phyrexian_choices cost lp = Ok ph ->
  plan_mana_payment state i cost x inc lp = Ok plan ->
  exists picks, symbol_picks x (zip (pips cost) ph) picks /\
    pays (pool_of state i) (player_life (players state !!! i)) inc picks (remaining plan) /\
    life_cost plan = picked picks 7 /\ restricted_spent plan = [].
Proof.
  intros Hw Hr Hv Hplan. pose proof (plan_search state i cost x inc lp ph Hw Hr Hv) as Hs.
  rewrite Hplan in Hs. destruct Hs as (Hl & Hlc & Hrs & fp & Hfp & Hc).
  destruct (in_range_needs _ _ _ _ _ Hr Hv) as (Hps & Hf & _).
  destruct Hr as [Hx Hi _ Hsz _]. rewrite <- Hf in Hsz.
  destruct (cost_needs_spec x inc _ Hx Hi Hps Hsz) as (_ & _ & _ & _ & Hback).
  destruct (Hback fp Hfp) as (picks & Hp & Ho). exists picks.
  pose proof (Ho 7%nat ltac:(lia)) as H7. unfold owed in H7.
  rewrite (picks_for_no_life _ _ Hfp) in H7. simpl in H7.
  split_and!; [done| |lia|done]. eapply (covers_pays _ _ inc _ fp picks); [exact Ho|lia|done].
Qed.

(** Every way to pay is found. *)
Lemma plan_complete state i cost x inc lp ph picks r :
  wf_player (players state !!! i) -> in_range cost x inc ->
  validated_phyrexian_choices cost lp = Ok ph ->
  symbol_picks x (zip (pips cost) ph) picks ->
  pays (pool_of state i) (player_life (players state !!! i)) inc picks r ->
  is_ok (plan_mana_payment state i cost x inc lp) = true.
Proof.
  intros Hw Hr Hv Hp Hpay. pose proof (plan_search state i cost x inc lp ph Hw Hr Hv) as Hs.
  destruct (plan_mana_payment _ _ _ _ _ _); [done|]. exfalso.
  destruct (in_range_needs _ _ _ _ _ Hr Hv) as (Hps & Hf & _).
  destruct Hr as [Hx Hi _ Hsz _]. rewrite <- Hf in Hsz.
  destruct (cost_needs_spec x inc _ Hx Hi Hps Hsz) as (_ & _ & _ & Hfwd & _).
  destruct (Hfwd picks Hp) as (fp & Hfp & Ho).
  pose proof (Ho 7%nat ltac:(lia)) as H7. unfold owed in H7.
  rewrite (picks_for_no_life _ _ Hfp) in H7. simpl in H7.
  pose proof Hpay as (_ & _ & _ & Hl7).
  destruct Hs as [Hs|Hs]; [lia|]. apply (Hs fp r Hfp).
  by eapply (covers_pays _ _ inc _ fp picks) in Hpay; [|exact Ho|lia].
Qed.

(** ** Restricted mana *)

(** A selection is accepted: its group is announced once, eligible and holds
    the selected amount, which is not empty. *)
Definition selection_ok (eligible : list Z) (entries : list RestrictedManaContribution)
    (s : ManaSpendSelection) : Prop :=
  sel_group_id s <> 0 /\ sel_group_id s ∈ eligible /\
  (exists i, (i < 6)%nat /\ amount_vec (sel_amount s) !!! i <> 0) /\
  forall i, (i < 6)%nat ->
    amount_vec (sel_amount s) !!! i <=
      amount_vec (available_in_group (sel_group_id s) entries) !!! i.

Definition selection_pair (s : ManaSpendSelection) : Z * ManaAmount :=
  (sel_group_id s, sel_amount s).

Lemma exceeds_false a b :
  exceeds a b = false <-> forall i, (i < 6)%nat -> amount_vec a !!! i <= amount_vec b !!! i.
Proof.
  unfold exceeds. rewrite <- not_true_iff_false, existsb_exists. split.
  - intros Hn i Hi. destruct (Z.le_gt_cases (amount_vec a !!! i) (amount_vec b !!! i)); [done|].
    exfalso. apply Hn. exists i. split; [by apply in_seq; lia|]. by apply Z.ltb_lt.
  - intros Hle (i & Hi%in_seq & Hlt%Z.ltb_lt). specialize (Hle i). lia.
Qed.

Lemma amount_all_zero a :
  forallb (fun n => n =? 0) (amount_vec a) = false <->
  exists i, (i < 6)%nat /\ amount_vec a !!! i <> 0.
Proof.
  split.
  - intros Hf. destruct (amt_w a =? 0) eqn:H0, (amt_u a =? 0) eqn:H1, (amt_b a =? 0) eqn:H2,
      (amt_r a =? 0) eqn:H3, (amt_g a =? 0) eqn:H4, (amt_c a =? 0) eqn:H5;
      try (by exists 0%nat; split; [lia|simpl; lia]);
      try (by exists 1%nat; split; [lia|simpl; lia]);
      try (by exists 2%nat; split; [lia|simpl; lia]);
      try (by exists 3%nat; split; [lia|simpl; lia]);
      try (by exists 4%nat; split; [lia|simpl; lia]);
      try (by exists 5%nat; split; [lia|simpl; lia]).
    simpl in Hf. by rewrite H0, H1, H2, H3, H4, H5 in Hf.
  - intros (i & Hi & Hne). apply not_true_iff_false. rewrite forallb_forall. intros Hall.
    apply Hne, Z.eqb_eq, Hall, list_elem_of_In. eapply list_elem_of_lookup_2.
    apply list_lookup_lookup_total_lt. done.
Qed.

(** The selections a successful loop has accepted, what it adds to the pool
    and what it records. *)
Lemma take_selections_spec eligible entries sels seen working spent w sp :
  take_selections eligible entries sels seen working spent = Ok (w, sp) <->
  NoDup (map sel_group_id sels) /\
  Forall (fun s => sel_group_id s ∉ seen /\ selection_ok eligible entries s) sels /\
  w = fold_left (fun w s => zip_with u32_saturating_add w (amount_vec (sel_amount s)))
        sels working /\
  sp = spent ++ map selection_pair sels.
Proof.
  revert seen working spent. induction sels as [|s sels IH]; intros seen working spent;
    cbn [take_selections map fold_left].
  { rewrite app_nil_r. split.
    - intros [= <- <-]. split_and!; try done. constructor.
    - by intros (_ & _ & -> & ->). }
  rewrite NoDup_cons, Forall_cons. unfold selection_ok at 1.
  destruct (Z.eqb_spec (sel_group_id s) 0) as [H0|H0]; cbn [orb].
  { split; [done|]. intros (_ & [(_ & ? & _) _] & _). done. }
  destruct (bool_decide_reflect (sel_group_id s ∈ seen)) as [H1|H1]; cbn [orb].
  { split; [done|]. intros (_ & [(? & _) _] & _). done. }
  destruct (bool_decide_reflect (sel_group_id s ∈ eligible)) as [H2|H2]; cbn [orb negb].
  2: { split; [done|]. intros (_ & [(_ & _ & ? & _) _] & _). done. }
  destruct (forallb _ _) eqn:H3.
  { split; [done|]. intros (_ & [(_ & _ & _ & Hne & _) _] & _).
    apply amount_all_zero in Hne. congruence. }
  destruct (exceeds _ _) eqn:H4.
  { split; [done|]. intros (_ & [(_ & _ & _ & _ & Hle) _] & _).
    apply exceeds_false in Hle. congruence. }
  apply amount_all_zero in H3. rewrite exceeds_false in H4. rewrite IH, <- app_assoc.
  rewrite !Forall_forall. cbn [app]. split.
  - intros (Hnd & Hall & -> & ->). split_and!; try done.
    + intros Hin. apply list_elem_of_fmap in Hin as (s' & He & Hs').
      destruct (Hall s' Hs') as [Hns _]. set_solver.
    + intros s' Hs'. destruct (Hall s' Hs') as [Hns ?]. split; [set_solver|done].
  - intros ([Hni Hnd] & [_ Hall] & -> & ->). split_and!; try done.
    intros s' Hs'. destruct (Hall s' Hs') as [Hns ?]. split; [|done].
    apply not_elem_of_union. split; [|done]. intros He%elem_of_singleton.
    apply Hni. rewrite <- He. apply list_elem_of_fmap. by exists s'.
Qed.

(** The pool with every selection added. *)
Definition with_selections (pool : PoolVec) (sels : list ManaSpendSelection) : PoolVec :=
  fold_left (fun w s => zip_with u32_saturating_add w (amount_vec (sel_amount s))) sels pool.

Definition selected_in (sels : list ManaSpendSelection) (i : nat) : Z :=
  zsum (map (fun s => amount_vec (sel_amount s) !!! i) sels).

Definition nonneg_selections (sels : list ManaSpendSelection) : Prop :=
  Forall (fun s => wf_pool (amount_vec (sel_amount s))) sels.

Lemma zip_with_total (f : Z -> Z -> Z) a b i :
  length a = length b -> (i < length a)%nat -> zip_with f a b !!! i = f (a !!! i) (b !!! i).
Proof.
  intros Hl Hi. apply list_lookup_total_correct, lookup_zip_with_Some.
  exists (a !!! i), (b !!! i). split_and!; [done| |]; apply list_lookup_lookup_total_lt; lia.
Qed.

Lemma with_selections_wf pool sels :
  wf_pool pool -> nonneg_selections sels -> wf_pool (with_selections pool sels).
Proof.
  unfold with_selections. intros Hp Hs. revert pool Hp.
  induction Hs as [|s sels Ha Hs IH]; intros pool Hp; [done|]. cbn [fold_left]. apply IH.
  destruct Hp as [Hl Hn], Ha as [Hla Ha].
  apply wf_pool_intro; [rewrite length_zip_with; lia|]. intros i Hi.
  rewrite zip_with_total by lia. unfold u32_saturating_add.
  pose proof (nonneg_lookup_total _ i Hn). pose proof (nonneg_lookup_total _ i Ha). mlia.
Qed.

Lemma with_selections_exact pool sels :
  wf_pool pool -> nonneg_selections sels ->
  (forall i, (i < 6)%nat -> pool !!! i + selected_in sels i <= u32_max) ->
  forall i, (i < 6)%nat -> with_selections pool sels !!! i = pool !!! i + selected_in sels i.
Proof.
  unfold with_selections, selected_in. intros Hp Hs. revert pool Hp.
  induction Hs as [|s sels Ha Hs IH]; intros pool Hp Hov i Hi; [simpl; lia|]. cbn [fold_left].
  assert (Hz : forall j, (j < 6)%nat -> 0 <= zsum (map (fun s => amount_vec (sel_amount s) !!! j) sels)).
  { intros j _. apply zsum_nonneg, Forall_forall. intros z Hz.
    apply list_elem_of_fmap in Hz as (s' & -> & Hs').
    rewrite Forall_forall in Hs. by apply wf_pool_nonneg, Hs. }
  assert (Hw : forall j, (j < 6)%nat ->
    zip_with u32_saturating_add pool (amount_vec (sel_amount s)) !!! j =
      pool !!! j + amount_vec (sel_amount s) !!! j).
  { intros j Hj. rewrite zip_with_total by (destruct Hp, Ha; lia).
    specialize (Hov j Hj). cbn [map zsum] in Hov. specialize (Hz j Hj). unfold u32_saturating_add. lia. }
  cbn [map zsum]. rewrite IH; [rewrite Hw by done; lia| | |done].
  - apply (with_selections_wf pool [s]); [done|].
    apply Forall_cons; split; [done|apply Forall_nil_2].
  - intros j Hj. rewrite Hw by done. specialize (Hov j Hj). cbn [map zsum] in Hov. lia.
Qed.

(** A restricted plan comes from the required-spend solver. *)
Lemma restricted_plan_inv state i cost x inc red lp sels eligible plan :
  sels <> [] ->
  plan_mana_payment_with_restricted_reduction state i cost x inc red lp sels eligible = Ok plan ->
  let p := players state !!! i in
  exists ph w, validated_phyrexian_choices cost lp = Ok ph /\
    let n := cost_needs x inc (zip (pips cost) ph) in
    NoDup (map sel_group_id sels) /\
    Forall (selection_ok eligible (restricted_mana p)) sels /\
    subtract_needs (with_selections (pool_of state i) sels) (need_color n) = Some w /\
    solve_flex_with_required_spend w (needs_flex n)
      (u32_saturating_sub (need_generic n) red) (pool_of state i) = Some (remaining plan) /\
    restricted_spent plan = map selection_pair sels /\ expected_pool plan = pool_of state i.
Proof.
  intros Hne. unfold plan_mana_payment_with_restricted_reduction, plan_mana_payment_with_any_color.
  intros Hp. cbv zeta. apply rbind_Ok in Hp as (ph & Hv & Hp).
  destruct (_ && _); [done|].
  apply rbind_Ok in Hp as ([w sp] & Ht & Hp).
  apply take_selections_spec in Ht as (Hnd & Hall & -> & ->).
  apply rbind_Ok in Hp as (solved & Hsol & Hp). destruct solved as [r|]; [|done].
  simplify_eq. unfold solve_remaining in Hsol.
  rewrite bool_decide_false in Hsol by (by destruct sels).
  destruct (subtract_needs _ _) as [w|] eqn:Hw; [|done]. simplify_eq.
  exists ph, w. split_and!; try done.
  eapply Forall_impl; [exact Hall|]. by intros s [_ ?].
Qed.

Lemma zsum_amounts sels :
  zsum (map (fun e : Z * ManaAmount => zsum (amount_vec e.2)) (map selection_pair sels)) =
  zsum (map (selected_in sels) (seq 0 6)).
Proof.
  unfold selected_in. induction sels as [|s sels IH]; [reflexivity|].
  cbn [map zsum]. rewrite IH. rewrite zsum_map_add. f_equal.
Qed.

Lemma zsum_u32_sub a b :
  wf_pool a -> wf_pool b -> Forall u32_range a -> capped b a ->
  zsum (zip_with u32_sub a b) = zsum a - zsum b.
Proof.
  intros [Hla _] [Hlb Hb] Ha Hc. apply zsum_subtract; [done|done|by rewrite length_zip_with; lia|].
  intros i Hi. rewrite zip_with_total by lia. apply u32_sub_small.
  - eapply Forall_lookup_1; [done|]. apply list_lookup_lookup_total_lt. lia.
  - split; [by apply nonneg_lookup_total|by apply Hc].
Qed.

(** ** Properties *)

(** C20. Planning an unrestricted payment is sound and complete: a plan is
    returned exactly when some announced way to pay the cost is covered by the
    pool and the life total, and the plan then leaves what that way leaves,
    charges its life and touches no restricted mana. *)
Theorem plan_mana_payment_correct state i cost x inc lp ph :
  wf_player (players state !!! i) -> in_range cost x inc ->
  validated_phyrexian_choices cost lp = Ok ph ->
  let l := player_life (players state !!! i) in
  (is_ok (plan_mana_payment state i cost x inc lp) = true <->
     exists picks r, symbol_picks x (zip (pips cost) ph) picks /\
       pays (pool_of state i) l inc picks r) /\
  (forall plan, plan_mana_payment state i cost x inc lp = Ok plan ->
     exists picks, symbol_picks x (zip (pips cost) ph) picks /\
       pays (pool_of state i) l inc picks (remaining plan) /\
       life_cost plan = picked picks 7 /\ restricted_spent plan = []).
Proof.
  intros Hw Hr Hv l. split.
  - split.
    + destruct (plan_mana_payment state i cost x inc lp) as [plan|] eqn:Hp; [intros _|done].
      destruct (plan_sound _ _ _ _ _ _ _ _ Hw Hr Hv Hp) as (picks & ? & ? & _). eauto.
    + intros (picks & r & ? & ?). by eapply plan_complete.
  - intros plan Hp. by eapply plan_sound.
Qed.

(** A demand can be met from a pool with exact mana, and its life paid. *)
Definition payable (pool : PoolVec) (l : Z) (d : Demand) : Prop :=
  (exists mana d', wf_pool mana /\ (forall i, (i < 6)%nat -> mana !!! i <= pool !!! i) /\
     pay d [] mana = Some d' /\ complete d' = true) /\
  (life d = 0 \/ life d <= l).

Lemma payable_pays pool l inc x ps picks d :
  wf_pool pool -> wf_demand d -> symbol_picks x ps picks -> picks_demand inc picks d ->
  payable pool l d <-> exists r, pays pool l inc picks r.
Proof.
  intros [Hpl Hpn] Hd _ (Hl & Ha & Hlife).
  assert (Hc : forall i, (i < 6)%nat -> amounts d !!! i = picked picks i).
  { intros i Hi. rewrite Ha by lia. by rewrite (proj2 (Nat.eqb_neq i 6)) by lia. }
  assert (Hs : demand_total d = zsum (map (picked picks) (seq 0 6)) + (inc + picked picks 6)).
  { unfold demand_total. rewrite zsum_demand by done. rewrite (Ha 6%nat) by lia.
    rewrite (zsum_map_ext _ (picked picks)); [done|]. intros i Hi%elem_of_seq. apply Hc. lia. }
  unfold payable, pays. rewrite Hlife. split.
  - intros [(mana & d' & Hm & Hle & Hpay) Hl7].
    assert (Hx : exists d', pay d [] mana = Some d' /\ complete d' = true) by eauto.
    apply (pay_complete_cover d mana Hd Hm) in Hx as [Hcov Htot]. destruct Hm as [Hml Hm].
    set (r := zip_with Z.sub pool mana).
    assert (Hrl : length r = 6%nat) by (unfold r; rewrite length_zip_with; lia).
    assert (Hri : forall i, (i < 6)%nat -> r !!! i = pool !!! i - mana !!! i)
      by (intros; apply zip_with_total; lia).
    exists r. split_and!; [done| | |done].
    + intros i Hi. rewrite Hri, <- Hc by done. specialize (Hle i Hi). specialize (Hcov i Hi). lia.
    + rewrite (zsum_subtract pool mana r) by done. lia.
  - intros (r & Hrl & Hb & Hsum & Hl7). split; [|done].
    set (mana := zip_with Z.sub pool r).
    assert (Hml : length mana = 6%nat) by (unfold mana; rewrite length_zip_with; lia).
    assert (Hmi : forall i, (i < 6)%nat -> mana !!! i = pool !!! i - r !!! i)
      by (intros; apply zip_with_total; lia).
    assert (Hnn : forall i, (i < 6)%nat -> 0 <= picked picks i).
    { intros i Hi. rewrite <- Hc by done. destruct Hd. by apply nonneg_lookup_total. }
    assert (Hm : wf_pool mana).
    { apply wf_pool_intro; [done|]. intros i Hi. rewrite Hmi by done.
      specialize (Hb i Hi). specialize (Hnn i Hi). lia. }
    destruct (proj2 (pay_complete_cover d mana Hd Hm)) as (d' & Hp & Hcm); [split|].
    + intros i Hi. rewrite Hc, Hmi by done. specialize (Hb i Hi). lia.
    + rewrite (zsum_subtract pool r mana) by done. lia.
    + exists mana, d'. split_and!; try done. intros i Hi. rewrite Hmi by done.
      specialize (Hb i Hi). lia.
Qed.

Lemma picks_demand_wf x inc ps picks d :
  0 <= x -> 0 <= inc -> Forall (fun pp => wf_pip pp.1) ps -> symbol_picks x ps picks ->
  picks_demand inc picks d -> wf_demand d.
Proof.
  intros Hx Hi Hps Hp (Hl & Ha & _). split; [done|]. apply nonneg_of_lookups. intros s Hs.
  rewrite Ha by lia.
  assert (0 <= picked picks s); [|by destruct (Nat.eqb s 6); lia]. clear -Hx Hps Hp.
  induction Hp as [|[p ph] [t a] ps picks Ho Hp IH]; [done|].
  apply Forall_cons in Hps as [Hq Hps]. specialize (IH Hps). cbn [picked].
  assert (0 <= a); [|by destruct (Nat.eqb t s); lia].
  destruct p, ph as [[]|]; cbn [symbol_options] in Ho; simpl in Hq;
    rewrite ?elem_of_cons, ?elem_of_nil in Ho; naive_solver lia.
Qed.

(** C25. The preview and the payment agree: with no reduction, the planner
    finds a payment exactly when one of the demands that [normalize] lists for
    the same announcement can be met with exact mana of the pool and the
    life. *)
Theorem plan_agrees_with_demands state i cost x inc lp ds :
  wf_player (players state !!! i) -> in_range cost x inc ->
  normalize cost x inc 0 lp = Ok ds ->
  is_ok (plan_mana_payment state i cost x inc lp) = true <->
  exists d, d ∈ ds /\ payable (pool_of state i) (player_life (players state !!! i)) d.
Proof.
  intros Hw Hr Hn. destruct (normalize_elem _ _ _ _ _ _ Hn) as (ph & Hv & Hds).
  assert (Hred : forall picks d0, picks_demand inc picks d0 ->
    wf_demand d0 -> reduce_demand 0 d0 = d0).
  { intros picks [a l] (Hl & _) [_ Hd]. unfold reduce_demand, u32_saturating_sub. simpl in *.
    f_equal. pose proof (nonneg_lookup_total a 6 Hd). rewrite Z.sub_0_r, Z.max_l by lia.
    apply list_insert_id. apply list_lookup_lookup_total_lt. lia. }
  assert (Hwf : forall picks d0, symbol_picks x (zip (pips cost) ph) picks ->
    picks_demand inc picks d0 -> wf_demand d0).
  { destruct (in_range_needs _ _ _ _ _ Hr Hv) as (Hps & _). destruct Hr as [Hx Hi _ _ _].
    intros picks d0. apply picks_demand_wf; try done.
    eapply Forall_impl; [exact Hps|]. by intros ? [? _]. }
  split.
  - destruct (plan_mana_payment state i cost x inc lp) as [plan|] eqn:Hp; [intros _|done].
    destruct (plan_sound _ _ _ _ _ _ _ _ Hw Hr Hv Hp) as (picks & Hpk & Hpay & _).
    pose proof (spent_demand inc picks) as Hd.
    set (d := {| amounts := _; life := _ |}) in Hd. exists d. split.
    + apply Hds. exists picks, d. split_and!; [done|done|]. symmetry. by eapply Hred, Hwf.
    + eapply payable_pays; [apply Hw|by eapply Hwf|done|done|by eexists].
  - intros (d & Hd & Hpay). apply Hds in Hd as (picks & d0 & Hpk & Hd0 & ->).
    rewrite (Hred picks) in Hpay by eauto.
    eapply payable_pays in Hpay as [r Hpays]; [|apply Hw|by eapply Hwf|done|done].
    by eapply plan_complete.
Qed.

(** A plan that spends restricted mana spends every unit of it: the
    selections are distinct eligible groups holding what is selected, they are
    recorded as announced, no more is left in the pool than was there before
    they were added, and the mana spent in total is exactly what some choice
    for the flexible pips owes, nothing over. *)
Theorem restricted_plan_exact state i cost x inc red lp sels eligible plan :
  wf_player (players state !!! i) -> Forall u32_range (pool_of state i) ->
  in_range cost x inc -> 0 <= red -> sels <> [] -> nonneg_selections sels ->
  (forall j, (j < 6)%nat -> pool_of state i !!! j + selected_in sels j <= u32_max) ->
  plan_mana_payment_with_restricted_reduction state i cost x inc red lp sels eligible = Ok plan ->
  NoDup (map sel_group_id sels) /\
  Forall (selection_ok eligible (restricted_mana (players state !!! i))) sels /\
  restricted_spent plan = map selection_pair sels /\
  capped (remaining plan) (expected_pool plan) /\
  exists ph fp, validated_phyrexian_choices cost lp = Ok ph /\
    let n := cost_needs x inc (zip (pips cost) ph) in
    picks_for (needs_flex n) fp /\
    mana_spent plan =
      zsum (map (owed n fp) (seq 0 6)) + Z.max (need_generic n - red) 0 + picked fp 6.
Proof.
  intros [Hw _] Hu Hr Hred Hne Hnn Hov Hp.
  apply restricted_plan_inv in Hp as (ph & w & Hv & Hnd & Hall & Hsub & Hsol & Hrs & Hexp); [|done].
  set (n := cost_needs x inc (zip (pips cost) ph)) in *.
  destruct (in_range_needs _ _ _ _ _ Hr Hv) as (Hps & Hf & _).
  destruct Hr as [Hx Hi _ Hs _]. rewrite <- Hf in Hs.
  destruct (cost_needs_spec x inc _ Hx Hi Hps Hs) as (Hn & Hsz & _). fold n in Hn, Hsz.
  pose proof Hn as ([Hnl Hnc] & Hg & Hn2 & Hn3 & Hn4).
  pose proof (with_selections_wf _ _ Hw Hnn) as Hws. pose proof Hws as [Hwsl _].
  pose proof (subtract_needs_spec (with_selections (pool_of state i) sels) (need_color n)) as Hsp.
  fold (pool_of state i) in Hwsl. rewrite Hsub, Hwsl in Hsp.
  destruct (Hsp ltac:(lia)) as [Hwl Hwi].
  assert (Hww : wf_pool w)
    by (apply wf_pool_intro; [done|]; intros j Hj; specialize (Hwi j Hj); lia).
  pose proof (zsum_nonneg _ Hnc). unfold u32_saturating_sub in Hsol.
  pose proof (solve_required_search w (needs_flex n) (Z.max (need_generic n - red) 0)
    (pool_of state i) Hww Hw Hn4 ltac:(lia) ltac:(unfold needs_size in Hsz; lia)) as Hsearch.
  rewrite Hsol in Hsearch. destruct Hsearch as [(fp & Hfp & Hrl & Hb & Hsum) Hcap].
  rewrite <- Hexp in Hcap. split_and!; try done.
  exists ph, fp. split; [done|]. cbv zeta. fold n. split; [done|].
  pose proof (with_selections_exact _ _ Hw Hnn Hov) as Hex. fold (pool_of state i) in Hex.
  assert (Hzs : zsum (with_selections (pool_of state i) sels) =
                zsum (pool_of state i) + zsum (map (selected_in sels) (seq 0 6))).
  { rewrite (zsum_pool (with_selections _ _)), (zsum_pool (pool_of state i)) by apply Hw || done.
    cbn [seq map zsum]. rewrite !Hex by lia. lia. }
  rewrite (zsum_subtract _ (need_color n) w Hwsl Hnl Hwl) in Hsum by (intros; apply Hwi; lia).
  unfold mana_spent. rewrite Hrs, zsum_amounts, Hexp.
  rewrite zsum_u32_sub; [|done| |done|by rewrite <- Hexp].
  2: { apply wf_pool_intro; [done|]. intros j Hj. by apply Hb. }
  unfold owed. rewrite zsum_map_add.
  rewrite (zsum_map_ext (fixed_need n) (fun j => need_color n !!! j))
    by (intros j Hj%elem_of_seq; apply fixed_need_color; lia).
  rewrite <- (zsum_pool (need_color n) Hnl). lia.
Qed.

(** The two readings of a cost disagree on a generic reduction: planning takes
    it off the fixed generic part before a mono-hybrid symbol is paid
    generically, [normalize] off the generic total after. For [{2/W}] reduced
    by 2 and an empty pool, the preview's demand is free and the plan fails. *)
Theorem reduction_before_mono_hybrid :
  let cost := {| pips := [ManaSymbol.MonoHybrid 2 ColorPip.W] |} in
  let state := {| players := [inhabitant]; turn_history := ∅ |} in
  normalize cost 0 0 2 [] =
    Ok [{| amounts := [0; 0; 0; 0; 0; 0; 0]; life := 0 |};
        {| amounts := [1; 0; 0; 0; 0; 0; 0]; life := 0 |}] /\
  plan_mana_payment_with_reduction state 0 cost 0 0 2 [] = Err not_enough_mana.
Proof. split; vm_compute; reflexivity. Qed.

(** ** Witnesses *)

(** A player with one white, two red and one colorless mana and two restricted
    contributions of group 7. *)
Definition sample_player : PlayerState :=
  {| player_id := 3; player_life := 20;
     mana_pool := pool_of_vec [1; 0; 0; 2; 0; 1];
     retained_combat_mana := pool_of_vec [0; 0; 0; 1; 0; 0];
     restricted_mana :=
       [{| restriction_group_id := 7; contribution := amount_of_vec [0; 1; 0; 0; 0; 0] |};
        {| restriction_group_id := 7; contribution := amount_of_vec [0; 1; 0; 0; 1; 0] |}] |}.

Definition sample_state : GameState := {| players := [sample_player]; turn_history := ∅ |}.

(** [{1}{2/R}{W/P}], the Phyrexian symbol paid with life. *)
Definition sample_cost : ManaCost :=
  {| pips := [ManaSymbol.Generic 1; ManaSymbol.MonoHybrid 2 ColorPip.R;
              ManaSymbol.Phyrexian ColorPip.W] |}.

Definition sample_choice : FlexPipPayment :=
  {| pip_index := 2; mana_color := 0; pay_life := true |}.

Definition sample_selection : ManaSpendSelection :=
  {| sel_group_id := 7; sel_amount := amount_of_vec [0; 2; 0; 0; 0; 0] |}.

Lemma sample_wf : wf_player (players sample_state !!! 0%nat).
Proof.
  split; (split; [reflexivity|]); apply nonneg_of_lookups; intros i Hi;
    do 6 (destruct i as [|i]; [simpl; lia|]); simpl in Hi; lia.
Qed.

Lemma sample_in_range : in_range sample_cost 0 0.
Proof.
  split; [lia|lia| |vm_compute; discriminate|vm_compute; discriminate].
  repeat (apply Forall_cons; split; [simpl; lia|]). apply Forall_nil_2.
Qed.

Lemma plan_mana_payment_correct_witness :
  (exists plan, plan_mana_payment sample_state 0 sample_cost 0 0 [sample_choice] = Ok plan /\
     remaining plan = [1; 0; 0; 1; 0; 0] /\ life_cost plan = 2) /\
  exists picks r,
    symbol_picks 0 (zip (pips sample_cost) [None; None; Some PhyrexianPayment.Life]) picks /\
    pays (pool_of sample_state 0) 20 0 picks r.
Proof.
  split; [eexists; split; [vm_compute; reflexivity|split; reflexivity]|].
  apply (plan_mana_payment_correct sample_state 0 sample_cost 0 0 [sample_choice]
           [None; None; Some PhyrexianPayment.Life] sample_wf sample_in_range);
    vm_compute; reflexivity.
Defined.

Lemma plan_agrees_with_demands_witness :
  exists ds d, normalize sample_cost 0 0 0 [sample_choice] = Ok ds /\ d ∈ ds /\
    payable (pool_of sample_state 0) 20 d.
Proof.
  assert (Hn : normalize sample_cost 0 0 0 [sample_choice] =
    Ok [{| amounts := [0; 0; 0; 0; 0; 0; 3]; life := 2 |};
        {| amounts := [0; 0; 0; 1; 0; 0; 1]; life := 2 |}]) by (vm_compute; reflexivity).
  destruct (proj1 (plan_agrees_with_demands sample_state 0 sample_cost 0 0
    [sample_choice] _ sample_wf sample_in_range Hn)) as [d Hd]; [vm_compute; reflexivity|].
  eexists _, d. split; [exact Hn|exact Hd].
Defined.

Lemma restricted_plan_exact_witness :
  exists plan, plan_mana_payment_with_restricted_reduction sample_state 0 sample_cost 0 0 0
      [sample_choice] [sample_selection] [7] = Ok plan /\
    mana_spent plan = 3 /\ capped (remaining plan) (expected_pool plan).
Proof.
  eexists. split; [vm_compute; reflexivity|]. split; [vm_compute; reflexivity|].
  apply (restricted_plan_exact sample_state 0 sample_cost 0 0 0 [sample_choice]
           [sample_selection] [7]); [exact sample_wf| |exact sample_in_range|lia|done| | |].
  - repeat (apply Forall_cons; split; [vm_compute; split; discriminate|]). apply Forall_nil_2.
  - apply Forall_cons; split; [|apply Forall_nil_2]. split; [reflexivity|].
    repeat (apply Forall_cons; split; [vm_compute; discriminate|]). apply Forall_nil_2.
  - intros j Hj. do 6 (destruct j as [|j]; [vm_compute; discriminate|]). lia.
  - vm_compute; reflexivity.
Defined.
