(* ===== verification/DemandLabel.v ===== *)
(** * How a demand is shown: [Demand::label] of [engine/payment/demand.rs]

    The text of a demand: generic mana, the symbols one by one or, beyond
    twenty, with their number, and the life. It stays short whatever the client
    sent, and two demands never look the same. *)
From S2P Require Import Prelude Text ManaCost FlexSolver Demand.
Open Scope cockatrice_scope.
Local Open Scope Z_scope.
#[local] Open Scope list_scope.

Definition label_symbols : list Z := [chr "W"; chr "U"; chr "B"; chr "R"; chr "G"; chr "C"].

Definition braced (body : text) : text := chr "{" :: body ++ [chr "}"].

(** One iteration of the loop over the symbols. *)
Definition label_symbol (symbol amount : Z) : text :=
  if 20 <? amount
  then dec_u32 amount ++ str " x " ++ braced [symbol]
  else concat (replicate (Z.to_nat amount) (braced [symbol])).

Definition label_mana (d : Demand) : text :=
  (if 0 <? amounts d !!! 6%nat then braced (dec_u32 (amounts d !!! 6%nat)) else [])
  ++ concat (zip_with label_symbol label_symbols (amounts d)).

Definition label_life (d : Demand) : text :=
  if 0 <? life d then str " + " ++ dec_u32 (life d) ++ str " life" else [].

Definition label (d : Demand) : text :=
  (match label_mana d with [] => str "{0}" | text => text end)
  ++ label_life d.

Example label_demand :
  label {| amounts := [0; 2; 21; 0; 0; 1; 3]; life := 4 |} = str "{3}{U}{U}21 x {B}{C} + 4 life".
Proof. vm_compute. reflexivity. Qed.

(** ** Numbers *)

Lemma dec_u32_digits n : 0 <= n -> Forall is_digit (dec_u32 n).
Proof.
  intros Hn. apply Forall_forall. intros c Hc.
  destruct (decide (is_digit c)) as [|Hd]; [done|]. by destruct (dec_u32_notin n c Hn Hd).
Qed.

Lemma dec_u32_inj n m : u32_range n -> u32_range m -> dec_u32 n = dec_u32 m -> n = m.
Proof.
  intros Hn Hm E. apply (inj Some). by rewrite <- !parse_u32_dec, E.
Qed.

Lemma dec_aux_length fuel n acc : (length (dec_aux fuel n acc) <= fuel + length acc)%nat.
Proof.
  revert n acc. induction fuel as [|fuel IH]; intros n acc; cbn [dec_aux]; [lia|].
  destruct (n <? 10); cbn [length]; [lia|]. specialize (IH (n / 10) ((48 + n mod 10) :: acc)).
  cbn [length] in IH. lia.
Qed.

Lemma dec_u32_length n : (length (dec_u32 n) <= 10)%nat.
Proof. apply (dec_aux_length 10 n []). Qed.

(** ** The length of a label *)

Lemma label_symbol_length s n : (length (label_symbol s n) <= 60)%nat.
Proof.
  unfold label_symbol. destruct (Z.ltb_spec 20 n) as [_|Hn].
  - rewrite !length_app. assert (H := dec_u32_length n).
    change (length (str " x ")) with 3%nat. change (length (braced [s])) with 3%nat. lia.
  - assert (Hlen : forall k, length (concat (replicate k (braced [s]))) = (k * 3)%nat).
    { induction k as [|k IH]; [done|]. cbn [replicate concat]. rewrite length_app, IH. cbn. lia. }
    rewrite Hlen. lia.
Qed.

Lemma zip_labels_length ss a :
  (length (concat (zip_with label_symbol ss a)) <= 60 * length ss)%nat.
Proof.
  revert a. induction ss as [|s ss IH]; intros [|n a]; cbn; try lia.
  rewrite length_app. assert (H := label_symbol_length s n). specialize (IH a). lia.
Qed.

Lemma label_length d : (length (label d) <= 390)%nat.
Proof.
  assert (Hm : (length (label_mana d) <= 372)%nat).
  { unfold label_mana. rewrite length_app.
    assert (H := zip_labels_length label_symbols (amounts d)). change (60 * length label_symbols)%nat with 360%nat in H.
    assert (Hd := dec_u32_length (amounts d !!! 6%nat)).
    destruct (0 <? _); unfold braced; cbn [length]; rewrite ?length_app; cbn [length]; lia. }
  unfold label. rewrite length_app.
  assert (Hd := dec_u32_length (life d)).
  assert (Hl : (length (label_life d) <= 18)%nat).
  { unfold label_life. destruct (0 <? life d); [|cbn; lia]. rewrite !length_app.
    change (length (str " + ")) with 3%nat. change (length (str " life")) with 5%nat. lia. }
  destruct (label_mana d) as [|c t]; [change (length (str "{0}")) with 3%nat; lia|]. lia.
Qed.

(** ** The symbol a text goes on with *)

Fixpoint skip_label_digits (t : text) : text :=
  match t with
  | c :: t' => if bool_decide (is_digit c) then skip_label_digits t' else t
  | [] => []
  end.

(** The letter behind an opening brace, with or without a number before it. *)
Definition brace_letter (t : text) : option Z :=
  match t with
  | b :: c :: _ => if b =? chr "{" then Some c else None
  | _ => None
  end.

Definition next_symbol (t : text) : option Z :=
  match t with
  | [] => None
  | b :: _ => if b =? chr "{" then brace_letter t
              else match skip_label_digits t with
                   | 32 :: 120 :: 32 :: t' => brace_letter t'
                   | _ => None
                   end
  end.

#[export] Instance is_digit_dec c : Decision (is_digit c).
Proof. unfold is_digit. apply _. Defined.

Lemma skip_label_digits_app a c t : Forall is_digit a -> ~ is_digit c -> skip_label_digits (a ++ c :: t) = c :: t.
Proof.
  intros Ha Hc. induction Ha as [|x a Hx _ IH]; cbn; [by rewrite bool_decide_false|].
  by rewrite bool_decide_true.
Qed.

Lemma digit_not_brace c : is_digit c -> c <> chr "{".
Proof. unfold is_digit. change (chr "{") with 123. lia. Qed.

Lemma next_symbol_counted s n t :
  0 <= n -> next_symbol (dec_u32 n ++ str " x " ++ braced [s] ++ t) = Some s.
Proof.
  intros Hn. destruct (dec_u32_head n Hn) as (c & r & E & Hc).
  assert (Hd := dec_u32_digits n Hn). unfold next_symbol. rewrite E in *. cbn [app].
  replace (c =? chr "{") with false by (symmetry; apply Z.eqb_neq, digit_not_brace, Hc).
  change ((c :: r ++ str " x " ++ braced [s] ++ t)) with ((c :: r) ++ 32 :: 120 :: 32 :: braced [s] ++ t).
  rewrite skip_label_digits_app; [done|done|]. unfold is_digit. lia.
Qed.

Lemma next_symbol_label s n t :
  0 <= n -> next_symbol (label_symbol s n ++ t) = if n =? 0 then next_symbol t else Some s.
Proof.
  intros Hn. unfold label_symbol. destruct (Z.ltb_spec 20 n) as [Hl|Hl].
  - rewrite <- !app_assoc, next_symbol_counted by done.
    by rewrite (proj2 (Z.eqb_neq n 0)) by lia.
  - destruct (Z.eqb_spec n 0) as [->|Hne]; [done|].
    destruct (Z.to_nat n) as [|k] eqn:E; [lia|]. done.
Qed.

(** ** Labels are read in one way *)

Lemma braced_app s t : braced [s] ++ t = chr "{" :: s :: chr "}" :: t.
Proof. done. Qed.

(** The number of a symbol and what follows it, where that does not go on with the symbol. *)
Lemma label_symbol_inj s n m t u :
  ~ is_digit s -> u32_range n -> u32_range m -> next_symbol t <> Some s -> next_symbol u <> Some s ->
  label_symbol s n ++ t = label_symbol s m ++ u -> n = m /\ t = u.
Proof.
  intros Hs Hn Hm Ht Hu E.
  assert (Hnext := f_equal next_symbol E). rewrite !next_symbol_label in Hnext by mlia.
  assert (Hhead : forall k r, 20 < k -> u32_range k -> exists c r', is_digit c /\ label_symbol s k ++ r = c :: r').
  { intros k r Hk Hr. unfold label_symbol. rewrite (proj2 (Z.ltb_lt 20 k)) by done.
    destruct (dec_u32_head k) as (c & r' & E' & Hc); [mlia|]. rewrite E'. by eexists _, _. }
  assert (Hbrace : forall k r, 0 < k <= 20 -> exists r', label_symbol s k ++ r = chr "{" :: r').
  { intros k r Hk. unfold label_symbol. rewrite (proj2 (Z.ltb_ge 20 k)) by lia.
    destruct (Z.to_nat k) as [|k'] eqn:Ek; [lia|]. by eexists. }
  destruct (Z.eqb_spec n 0) as [->|Hn0], (Z.eqb_spec m 0) as [->|Hm0]; try done.
  destruct (Z.lt_ge_cases 20 n) as [Hn1|Hn1], (Z.lt_ge_cases 20 m) as [Hm1|Hm1].
  - unfold label_symbol in E. rewrite (proj2 (Z.ltb_lt 20 n)), (proj2 (Z.ltb_lt 20 m)) in E by done.
    rewrite <- !app_assoc in E. change (str " x ") with (32 :: str "x ") in E. cbn [app] in E.
    assert (H32 : forall k, u32_range k -> 32 ∉ dec_u32 k)
      by (intros; apply dec_u32_notin; unfold is_digit; mlia).
    apply app_sep_inj in E as [E Er]; auto. split; [by apply dec_u32_inj|].
    by apply app_inv_head, app_inv_head in Er.
  - destruct (Hhead n t) as (c & r & Hc & E1); [done|done|]. destruct (Hbrace m u) as (r' & E2); [mlia|].
    rewrite E1, E2 in E. injection E as E _. by destruct (digit_not_brace c Hc).
  - destruct (Hhead m u) as (c & r & Hc & E1); [done|done|]. destruct (Hbrace n t) as (r' & E2); [mlia|].
    rewrite E1, E2 in E. injection E as E _. by destruct (digit_not_brace c Hc).
  - unfold label_symbol in E. rewrite (proj2 (Z.ltb_ge 20 n)), (proj2 (Z.ltb_ge 20 m)) in E by done.
    enough (Z.to_nat n = Z.to_nat m /\ t = u) as [Hk ?] by (split; [mlia|done]).
    clear - E Ht Hu. revert E. generalize (Z.to_nat n), (Z.to_nat m). clear n m.
    intros i. induction i as [|i IH]; intros [|j]; cbn [replicate concat app].
    + done.
    + intros ->. by destruct Ht.
    + intros <-. by destruct Hu.
    + rewrite <- !app_assoc. intros E%app_inv_head. apply IH in E as [-> ->]. done.
Qed.

Lemma next_symbol_chain ss a t :
  Forall (Z.le 0) a -> next_symbol t = None ->
  next_symbol (concat (zip_with label_symbol ss a) ++ t) = None \/
  exists s, s ∈ ss /\ next_symbol (concat (zip_with label_symbol ss a) ++ t) = Some s.
Proof.
  intros Ha Ht. revert a Ha. induction ss as [|s ss IH]; intros a Ha; [by left|].
  destruct a as [|n a]; [by left|]. apply Forall_cons in Ha as [Hn Ha].
  cbn [zip_with concat]. rewrite <- app_assoc, next_symbol_label by done.
  destruct (n =? 0); [|right; exists s; split; [left|done]].
  destruct (IH a Ha) as [H|(s' & Hs & H)]; [by left|right]. exists s'. split; [by right|done].
Qed.

Lemma label_chain_inj ss a b t u :
  NoDup ss -> Forall (fun s => ~ is_digit s) ss ->
  (length ss <= length a)%nat -> (length ss <= length b)%nat ->
  Forall u32_range a -> Forall u32_range b ->
  next_symbol t = None -> next_symbol u = None ->
  concat (zip_with label_symbol ss a) ++ t = concat (zip_with label_symbol ss b) ++ u ->
  take (length ss) a = take (length ss) b /\ t = u.
Proof.
  intros Hnd Hds Hla Hlb Ha Hb Ht Hu. revert a b Hla Hlb Ha Hb.
  induction Hnd as [|s ss Hs _ IH]; intros [|n a] [|m b]; cbn [length]; try lia; try done.
  intros Hla Hlb [Hn Ha]%Forall_cons [Hm Hb]%Forall_cons. apply Forall_cons in Hds as [Hd Hds].
  cbn [zip_with concat]. rewrite <- !app_assoc. intros E.
  assert (Hnext : forall c v, Forall u32_range c -> next_symbol v = None ->
    next_symbol (concat (zip_with label_symbol ss c) ++ v) <> Some s).
  { intros c v Hc Hv Hsome. destruct (next_symbol_chain ss c v) as [H|(s' & Hs' & H)];
      [eapply Forall_impl; [exact Hc|intros; mlia]|done|congruence|].
    rewrite Hsome in H. injection H as ->. by destruct Hs. }
  apply label_symbol_inj in E as [-> E]; try done; auto.
  destruct (IH Hds a b) as [Htake ->]; auto; try lia. cbn [take]. by rewrite Htake.
Qed.

(** ** The whole label *)

Definition wf_amounts (d : Demand) : Prop :=
  length (amounts d) = 7%nat /\ Forall u32_range (amounts d) /\ u32_range (life d).

Lemma generic_range d : wf_amounts d -> u32_range (amounts d !!! 6%nat).
Proof.
  intros (Hl & Ha & _). rewrite Forall_lookup in Ha. apply (Ha 6%nat).
  apply list_lookup_lookup_total_lt. lia.
Qed.

Lemma next_symbol_life d : next_symbol (label_life d) = None.
Proof. unfold label_life. by destruct (0 <? life d). Qed.

Lemma label_life_inj d e : u32_range (life d) -> u32_range (life e) -> label_life d = label_life e -> life d = life e.
Proof.
  intros Hd He. unfold label_life. destruct (Z.ltb_spec 0 (life d)), (Z.ltb_spec 0 (life e)); try done; [|mlia].
  intros E%(app_inv_head (str " + ")). change (str " life") with (32 :: str "life") in E.
  assert (H32 : forall k, u32_range k -> 32 ∉ dec_u32 k)
    by (intros; apply dec_u32_notin; unfold is_digit; mlia).
  apply app_sep_inj in E as [E _]; auto. by apply dec_u32_inj.
Qed.

(** A text of symbols and life alone does not begin with a number in braces. *)
Lemma symbols_not_number a c r t :
  Forall u32_range a -> is_digit c -> next_symbol t = None ->
  concat (zip_with label_symbol label_symbols a) ++ t <> chr "{" :: c :: r.
Proof.
  intros Ha Hc Ht E. assert (Hn := f_equal next_symbol E).
  change (next_symbol (chr "{" :: c :: r)) with (Some c) in Hn.
  destruct (next_symbol_chain label_symbols a t) as [H|(s & Hs & H)];
    [eapply Forall_impl; [exact Ha|intros; mlia]|done|congruence|].
  rewrite H in Hn. injection Hn as ->. revert Hc. unfold is_digit.
  change label_symbols with [87; 85; 66; 82; 71; 67] in Hs. rewrite !elem_of_cons, elem_of_nil in Hs. lia.
Qed.

(** A label begins with its generic number, the zero of an empty one included, or with a symbol. *)
Lemma label_shape d t :
  wf_amounts d ->
  let chain := concat (zip_with label_symbol label_symbols (amounts d)) in
  let text := (match label_mana d with [] => str "{0}" | x => x end) ++ t in
  text = braced (dec_u32 (amounts d !!! 6%nat)) ++ chain ++ t \/
  amounts d !!! 6%nat = 0 /\ text = chain ++ t.
Proof.
  intros Hd%generic_range. unfold label_mana. cbn zeta.
  destruct (Z.ltb_spec 0 (amounts d !!! 6%nat)) as [Hg|Hg].
  - left. unfold braced. cbn [app]. by rewrite <- !app_assoc.
  - assert (amounts d !!! 6%nat = 0) as -> by mlia. cbn [app].
    destruct (concat _) as [|c r]; [by left|by right].
Qed.

Lemma braced_inj n m t u :
  u32_range n -> u32_range m -> braced (dec_u32 n) ++ t = braced (dec_u32 m) ++ u -> n = m /\ t = u.
Proof.
  intros Hn Hm. unfold braced. cbn [app]. intros [= E]. rewrite <- !app_assoc in E. cbn [app] in E.
  assert (H125 : forall k, u32_range k -> 125 ∉ dec_u32 k)
    by (intros; apply dec_u32_notin; unfold is_digit; mlia).
  apply app_sep_inj in E as [E ->]; [|by apply H125..]. split; [by apply dec_u32_inj|done].
Qed.

Lemma braced_not_symbols n a t u :
  u32_range n -> Forall u32_range a -> next_symbol t = None ->
  braced (dec_u32 n) ++ u <> concat (zip_with label_symbol label_symbols a) ++ t.
Proof.
  intros Hn Ha Ht E. destruct (dec_u32_head n) as (c & r & E' & Hc); [mlia|].
  unfold braced in E. rewrite E' in E. symmetry in E. by apply symbols_not_number in E.
Qed.

Lemma label_mana_inj d e t u :
  wf_amounts d -> wf_amounts e -> next_symbol t = None -> next_symbol u = None ->
  (match label_mana d with [] => str "{0}" | x => x end) ++ t =
  (match label_mana e with [] => str "{0}" | x => x end) ++ u ->
  amounts d !!! 6%nat = amounts e !!! 6%nat /\
  concat (zip_with label_symbol label_symbols (amounts d)) ++ t =
  concat (zip_with label_symbol label_symbols (amounts e)) ++ u.
Proof.
  intros Hd He Ht Hu E.
  destruct (label_shape d t Hd) as [Ed|[H6d Ed]], (label_shape e u He) as [Ee|[H6e Ee]];
    cbn zeta in Ed, Ee; rewrite Ed, Ee in E.
  - apply braced_inj; [by apply generic_range..|done].
  - apply braced_not_symbols in E; [done|by apply generic_range|apply He|done].
  - symmetry in E. apply braced_not_symbols in E; [done|by apply generic_range|apply Hd|done].
  - split; [congruence|done].
Qed.

(** C39. A label is at most 390 code units long, and the labels of two different demands differ. *)
Theorem label_faithful d e :
  wf_amounts d -> wf_amounts e ->
  (length (label d) <= 390)%nat /\ (label d = label e -> d = e).
Proof.
  intros Hd He. split; [apply label_length|]. intros E.
  destruct (label_mana_inj d e _ _ Hd He (next_symbol_life d) (next_symbol_life e) E) as [H6 Ec].
  destruct Hd as (Hld & Had & Hlifed), He as (Hle & Hae & Hlifee).
  apply label_chain_inj in Ec as [Hs Hl]; try apply next_symbol_life; try done; try lia.
  - apply label_life_inj in Hl; [|done..].
    destruct d as [a l], e as [b k]; cbn [amounts life] in *. f_equal; [|done].
    change (length label_symbols) with 6%nat in Hs.
    do 8 (destruct a as [|? a]; try done). do 8 (destruct b as [|? b]; try done).
    cbn in *. congruence.
  - apply (bool_decide_eq_true (NoDup label_symbols)). vm_compute. reflexivity.
  - apply (bool_decide_eq_true (Forall (fun s => ~ is_digit s) label_symbols)). vm_compute. reflexivity.
  - rewrite Hld. cbn. lia.
  - rewrite Hle. cbn. lia.
Qed.

Lemma label_faithful_witness :
  let d := {| amounts := [0; 2; 21; 0; 0; 1; 3]; life := 4 |} in
  wf_amounts d /\ (length (label d) <= 390)%nat.
Proof.
  assert (Hd : wf_amounts {| amounts := [0; 2; 21; 0; 0; 1; 3]; life := 4 |}).
  { split; [reflexivity|]. cbn. rewrite !Forall_cons. repeat split; try mlia; constructor. }
  split; [exact Hd|]. exact (proj1 (label_faithful _ _ Hd Hd)).
Defined.
