(* ===== verification/Commander.v ===== *)
(** * Commander: [tricerules-core/src/engine/commander.rs]

    The tax of a commander, the cost the engine publishes for it, the count of
    its casts ([engine/casting.rs]), the combat damage each commander has dealt to
    each player, and the loss it leads to ([engine/state_based.rs]). A player is
    the part of [PlayerState] these functions use; the maps are finite maps by
    object. *)
From S2P Require Import Prelude ManaCost FlexSolver Demand PlanCorrect.
From stdpp Require Import sorting.
Open Scope cockatrice_scope.
Local Open Scope Z_scope.

Record CommanderPlayer : Type := {
  seat_id : Z;
  commander_cast_counts : gmap Z Z;
  declared_commander_object_ids : list Z;
  commander_damage : gmap Z Z;
  has_lost : bool
}.

(** [players.iter().position(|p| p.id == pid)]. *)
Definition player_idx (ps : list CommanderPlayer) (pid : Z) : option nat :=
  fst <$> list_find (fun p => seat_id p = pid) ps.

Definition commander_tax (ps : list CommanderPlayer) (player object : Z) : Z :=
  u32_saturating_mul
    (default 0 (i ← player_idx ps player; p ← ps !! i; commander_cast_counts p !! object)) 2.

(** [iter_mut().find(...)]: the tax goes on the first generic symbol. *)
Fixpoint add_to_generic (tax : Z) (pips : list ManaSymbol) : option (list ManaSymbol) :=
  match pips with
  | [] => None
  | ManaSymbol.Generic amount :: pips' => Some (ManaSymbol.Generic (u32_saturating_add amount tax) :: pips')
  | pip :: pips' => cons pip <$> add_to_generic tax pips'
  end.

Definition commander_cost (ps : list CommanderPlayer) (player object : Z) (cost : ManaCost) : ManaCost :=
  let tax := commander_tax ps player object in
  if 0 <? tax
  then
    match add_to_generic tax (pips cost) with
    | Some pips' => {| pips := pips' |}
    | None => {| pips := ManaSymbol.Generic tax :: pips cost |}
    end
  else cost.

(** The count of a cast committed from the command zone. *)
Definition count_commander_cast (ps : list CommanderPlayer) (idx : nat) (oid : Z) : list CommanderPlayer :=
  alter (fun p =>
    {| seat_id := seat_id p;
       commander_cast_counts :=
         <[oid := u32_saturating_add (default 0 (commander_cast_counts p !! oid)) 1]> (commander_cast_counts p);
       declared_commander_object_ids := declared_commander_object_ids p;
       commander_damage := commander_damage p;
       has_lost := has_lost p |}) idx ps.

Inductive DamageRecipient : Type :=
  | RecipientPlayer (pid : Z)
  | RecipientPermanent (oid : Z).

#[export] Instance DamageRecipient_eq_dec : EqDecision DamageRecipient.
Proof. solve_decision. Defined.

Inductive DamageClassification : Type := Combat | Noncombat.

#[export] Instance DamageClassification_eq_dec : EqDecision DamageClassification.
Proof. solve_decision. Defined.

Record DamageEvent : Type := {
  source_object_id : Z;
  recipient : DamageRecipient;
  classification : DamageClassification
}.

Definition with_commander_damage (oid dealt : Z) (p : CommanderPlayer) : CommanderPlayer :=
  {| seat_id := seat_id p;
     commander_cast_counts := commander_cast_counts p;
     declared_commander_object_ids := declared_commander_object_ids p;
     commander_damage :=
       <[oid := u32_saturating_add (default 0 (commander_damage p !! oid)) dealt]> (commander_damage p);
     has_lost := has_lost p |}.

Definition is_commander (ps : list CommanderPlayer) (oid : Z) : bool :=
  existsb (fun p => bool_decide (oid ∈ declared_commander_object_ids p)) ps.

Definition record_commander_damage (ps : list CommanderPlayer) (event : DamageEvent) (dealt : Z)
    : list CommanderPlayer :=
  match recipient event with
  | RecipientPermanent _ => ps
  | RecipientPlayer player =>
      if bool_decide (classification event <> Combat) || (dealt =? 0)
         || negb (is_commander ps (source_object_id event))
      then ps
      else
        match player_idx ps player with
        | Some index => alter (with_commander_damage (source_object_id event) dealt) index ps
        | None => ps
        end
  end.

(** The state-based check: twenty-one from one commander. *)
Definition lose_to_commander (p : CommanderPlayer) : CommanderPlayer :=
  if negb (has_lost p) && existsb (fun e => 21 <=? e.2) (map_to_list (commander_damage p))
  then {| seat_id := seat_id p;
          commander_cast_counts := commander_cast_counts p;
          declared_commander_object_ids := declared_commander_object_ids p;
          commander_damage := commander_damage p;
          has_lost := true |}
  else p.

Definition check_commander_damage (ps : list CommanderPlayer) : list CommanderPlayer :=
  map lose_to_commander ps.

(** ** The published cost stands for the printed one with the tax *)

(** Where a symbol is put in front, the later ones move by one. *)
Definition shift_choice (c : FlexPipPayment) : FlexPipPayment :=
  {| pip_index := pip_index c + 1; pay_life := pay_life c; mana_color := mana_color c |}.

Definition has_generic (cost : ManaCost) : bool :=
  existsb (fun p => match p with ManaSymbol.Generic _ => true | _ => false end) (pips cost).

(** The announcement for the published cost that says what [lp] says for the printed one. *)
Definition published_choices (tax : Z) (cost : ManaCost) (lp : list FlexPipPayment) : list FlexPipPayment :=
  if has_generic cost || (tax <=? 0) then lp else map shift_choice lp.

Lemma select_choice_shift p ps sel c :
  0 <= pip_index c ->
  select_choice {| pips := p :: ps |} (None :: sel) (shift_choice c) =
  (let? out := select_choice {| pips := ps |} sel c in Ok (None :: out)).
Proof.
  intros Hc. unfold select_choice. cbn [pip_index shift_choice pips].
  replace (Z.to_nat (pip_index c + 1)) with (S (Z.to_nat (pip_index c))) by lia. cbn [lookup list_lookup].
  assert (Hb : forall q, phyrexian_branch q (shift_choice c) = phyrexian_branch q c) by done.
  change (list_lookup (Z.to_nat (pip_index c)) ps) with (ps !! Z.to_nat (pip_index c)).
  change (list_lookup (Z.to_nat (pip_index c)) sel) with (sel !! Z.to_nat (pip_index c)).
  destruct (ps !! Z.to_nat (pip_index c)) as [q|]; [|done].
  destruct (sel !! Z.to_nat (pip_index c)) as [[]|]; [done|..];
    rewrite Hb; by destruct (phyrexian_branch q c).
Qed.

Lemma select_choices_shift p ps sel lp :
  Forall (fun c => 0 <= pip_index c) lp ->
  select_choices {| pips := p :: ps |} (None :: sel) (map shift_choice lp) =
  (let? out := select_choices {| pips := ps |} sel lp in Ok (None :: out)).
Proof.
  intros Hlp. revert sel. induction Hlp as [|c lp Hc _ IH]; intros sel; [done|].
  cbn [map select_choices]. rewrite select_choice_shift by done.
  destruct (select_choice {| pips := ps |} sel c); [apply IH|done].
Qed.

Lemma validated_shift tax ps lp :
  Forall (fun c => 0 <= pip_index c) lp ->
  validated_phyrexian_choices {| pips := ManaSymbol.Generic tax :: ps |} (map shift_choice lp) =
  (let? ph := validated_phyrexian_choices {| pips := ps |} lp in Ok (None :: ph)).
Proof.
  intros Hlp. unfold validated_phyrexian_choices. cbn [pips length replicate].
  rewrite select_choices_shift by done.
  destruct (select_choices {| pips := ps |} _ lp); [|done]. cbn [rbind default_branches default_branch].
  by destruct (default_branches ps _).
Qed.

(** Generic numbers do not matter to the announced branches. *)
Definition same_branches (p q : ManaSymbol) : Prop :=
  p = q \/ exists n m, p = ManaSymbol.Generic n /\ q = ManaSymbol.Generic m.

Lemma add_to_generic_same tax ps ps' : add_to_generic tax ps = Some ps' -> Forall2 same_branches ps ps'.
Proof.
  assert (Hrefl : forall l, Forall2 same_branches l l) by (induction l; constructor; [by left|done]).
  revert ps'. induction ps as [|p ps IH]; intros ps' H; [done|].
  destruct p; cbn in H;
    try (apply fmap_Some in H as (r & Hr & ->); constructor; [by left|by apply IH]).
  injection H as <-. constructor; [right; eauto|done].
Qed.

Lemma validated_same ps ps' lp :
  Forall2 same_branches ps ps' ->
  validated_phyrexian_choices {| pips := ps' |} lp = validated_phyrexian_choices {| pips := ps |} lp.
Proof.
  intros H. unfold validated_phyrexian_choices. cbn [pips]. rewrite <- (Forall2_length _ _ _ H).
  assert (Hsel : forall sel, select_choices {| pips := ps' |} sel lp = select_choices {| pips := ps |} sel lp).
  { induction lp as [|c lp IH]; intros sel; [done|]. cbn [select_choices].
    assert (Hc : select_choice {| pips := ps' |} sel c = select_choice {| pips := ps |} sel c).
    { unfold select_choice. cbn [pips].
      destruct (ps !! _) as [p|] eqn:E.
      - destruct (Forall2_lookup_l _ _ _ _ _ H E) as (q & -> & [->|(n & m & -> & ->)]); done.
      - apply lookup_ge_None in E. rewrite (Forall2_length _ _ _ H) in E.
        by rewrite (lookup_ge_None_2 ps') by done. }
    rewrite Hc. clear Hc. destruct (select_choice {| pips := ps |} sel c); [apply IH|done]. }
  rewrite Hsel. destruct (select_choices _ _ lp) as [sel|]; [|done]. cbn [rbind].
  clear Hsel. revert sel. induction H as [|p q ps ps' Hpq _ IH]; intros [|s sel]; try done.
  cbn [default_branches]. rewrite IH. by destruct Hpq as [->|(n & m & -> & ->)].
Qed.

(** ** Picks for the published cost *)

(** The picks of one cost are those of the other with [tax] more generic mana. *)
Definition more_generic (tax : Z) (picks picks' : list (nat * Z)) : Prop :=
  forall s, picked picks' s = picked picks s + (if Nat.eqb s 6 then tax else 0).

Lemma more_generic_demand tax inc picks picks' d :
  more_generic tax picks picks' -> picks_demand inc picks' d <-> picks_demand (inc + tax) picks d.
Proof.
  intros Hm. unfold picks_demand. rewrite (Hm 7%nat), Z.add_0_r.
  assert (H : forall i, (if Nat.eqb i 6 then inc else 0) + picked picks' i =
    (if Nat.eqb i 6 then inc + tax else 0) + picked picks i).
  { intros i. rewrite (Hm i). destruct (Nat.eqb i 6); lia. }
  by setoid_rewrite H.
Qed.

(** Every way to pay the one is a way to pay the other, up to the tax. *)
Definition taxed (tax x : Z) (ps ps' : list (ManaSymbol * option PhyrexianPayment)) : Prop :=
  (forall picks, symbol_picks x ps picks ->
     exists picks', symbol_picks x ps' picks' /\ more_generic tax picks picks') /\
  (forall picks', symbol_picks x ps' picks' ->
     exists picks, symbol_picks x ps picks /\ more_generic tax picks picks').

Lemma taxed_cons tax x p ps ps' : taxed tax x ps ps' -> taxed tax x (p :: ps) (p :: ps').
Proof.
  intros [H1 H2]. split; intros picks Hpk; inversion Hpk as [|? o ? rest Ho Hrest]; subst.
  - destruct (H1 _ Hrest) as (rest' & Hr & Hm). exists (o :: rest').
    split; [by constructor|]. intros s. destruct o as [k a]. cbn. rewrite (Hm s). lia.
  - destruct (H2 _ Hrest) as (rest' & Hr & Hm). exists (o :: rest').
    split; [by constructor|]. intros s. destruct o as [k a]. cbn. rewrite (Hm s). lia.
Qed.

Lemma symbol_picks_generic x n h ps picks :
  symbol_picks x ((ManaSymbol.Generic n, h) :: ps) picks <->
  exists rest, picks = (6%nat, n) :: rest /\ symbol_picks x ps rest.
Proof.
  split.
  - intros Hpk. inversion Hpk as [|? o ? rest Ho Hrest]; subst. cbn [symbol_options] in Ho.
    apply list_elem_of_singleton in Ho as ->. eauto.
  - intros (rest & -> & Hrest). constructor; [|done]. cbn. by apply list_elem_of_singleton.
Qed.

Lemma taxed_generic tax x n h ps :
  taxed tax x ((ManaSymbol.Generic n, h) :: ps) ((ManaSymbol.Generic (n + tax), h) :: ps).
Proof.
  split; intros picks (rest & -> & Hrest)%symbol_picks_generic; eexists;
    (split; [apply symbol_picks_generic; eauto|]); intros s; cbn [picked];
    rewrite (Nat.eqb_sym s); destruct (Nat.eqb 6 s); lia.
Qed.

Lemma taxed_front tax x h ps : taxed tax x ps ((ManaSymbol.Generic tax, h) :: ps).
Proof.
  split.
  - intros picks Hpk. exists ((6%nat, tax) :: picks). split; [apply symbol_picks_generic; eauto|].
    intros s. cbn [picked]. rewrite (Nat.eqb_sym s). lia.
  - intros picks' (rest & -> & Hrest)%symbol_picks_generic. exists rest. split; [done|].
    intros s. cbn [picked]. rewrite (Nat.eqb_sym s). lia.
Qed.

Lemma taxed_zero x ps : taxed 0 x ps ps.
Proof.
  split; intros picks Hpk; exists picks; (split; [done|]); intros s; destruct (Nat.eqb s 6); lia.
Qed.

Lemma taxed_add tax x ps ps' ph :
  length ph = length ps -> Forall (fun p => forall n, p = ManaSymbol.Generic n -> n + tax <= u32_max) ps ->
  add_to_generic tax ps = Some ps' -> taxed tax x (zip ps ph) (zip ps' ph).
Proof.
  revert ps' ph. induction ps as [|p ps IH]; intros ps' [|h ph]; try done.
  intros [= Hlen] [Hp Hps]%Forall_cons Hadd. destruct p; cbn [add_to_generic] in Hadd;
    try (apply fmap_Some in Hadd as (r & Hr & ->); cbn [zip zip_with]; by apply taxed_cons, IH).
  injection Hadd as <-. unfold u32_saturating_add. rewrite Z.min_l by (by apply Hp).
  apply taxed_generic.
Qed.

(** ** Strictly increasing lists of demands are determined by their elements *)

Lemma strict_demands_unique ds es :
  StronglySorted (fun d e => demand_lt d e = true) ds ->
  StronglySorted (fun d e => demand_lt d e = true) es ->
  (forall d, d ∈ ds <-> d ∈ es) -> ds = es.
Proof.
  revert es. induction ds as [|d ds IH]; intros es Hd He Helem.
  { destruct es as [|e es]; [done|]. destruct (Helem e) as [_ H]. exfalso.
    by apply elem_of_nil in H; [|left]. }
  destruct es as [|e es].
  { destruct (Helem d) as [H _]. exfalso. by apply elem_of_nil in H; [|left]. }
  apply StronglySorted_inv in Hd as [Hd Hdall], He as [He Heall]. rewrite Forall_forall in Hdall, Heall.
  assert (d = e) as <-.
  { destruct (proj1 (elem_of_cons _ _ _) (proj1 (Helem d) ltac:(left))) as [|Hin]; [done|].
    destruct (proj1 (elem_of_cons _ _ _) (proj2 (Helem e) ltac:(left))) as [|Hin']; [done|].
    assert (H1 := Heall d Hin). assert (H2 := Hdall e Hin').
    assert (H3 := demand_lt_trans _ _ _ H1 H2). by rewrite demand_lt_irrefl in H3. }
  f_equal. apply IH; [done|done|]. intros f. split; intros Hf.
  - destruct (proj1 (elem_of_cons _ _ _) (proj1 (Helem f) ltac:(by right))) as [->|]; [|done].
    assert (H := Hdall d Hf). by rewrite demand_lt_irrefl in H.
  - destruct (proj1 (elem_of_cons _ _ _) (proj2 (Helem f) ltac:(by right))) as [->|]; [|done].
    assert (H := Heall d Hf). by rewrite demand_lt_irrefl in H.
Qed.

(** ** Expansion succeeds where the numbers are small *)

Definition slots_within (b : Z) (d : Demand) : Prop :=
  length (amounts d) = 7%nat /\ Forall (fun n => 0 <= n <= b) (life d :: amounts d).

Lemma add_option_within b d o :
  slots_within b d -> (o.1 < 8)%nat -> 0 <= o.2 -> b + o.2 <= u32_max ->
  exists e, add_option d o = Some e /\ slots_within (b + o.2) e.
Proof.
  intros (Hlen & Hall) Hslot Hpos Hmax. apply Forall_cons in Hall as [Hlife Hall].
  assert (Hwide : Forall (fun n => 0 <= n <= b + o.2) (amounts d))
    by (eapply Forall_impl; [exact Hall|]; cbn; lia).
  destruct o as [slot a]; cbn [fst snd] in *. unfold add_option.
  destruct (Nat.eqb_spec slot 7) as [->|Hne].
  - unfold u32_checked_add. destruct (Z.leb_spec (life d + a) u32_max); [|mlia]. cbn.
    eexists. split; [done|]. split; [done|]. cbn. constructor; [lia|done].
  - destruct (lookup_lt_is_Some_2 (amounts d) slot) as [v Hv]; [lia|].
    rewrite (list_lookup_total_correct _ _ _ Hv).
    assert (Hb : 0 <= v <= b) by (rewrite Forall_lookup in Hall; by eapply Hall).
    unfold u32_checked_add. destruct (Z.leb_spec (v + a) u32_max); [|mlia]. cbn.
    eexists. split; [done|]. cbn [amounts life]. split; [cbn [amounts]; by rewrite length_insert|].
    cbn [amounts life]. constructor; [lia|]. apply Forall_insert; [done|lia].
Qed.

Lemma extend_demands_ok b k opts demands next :
  Forall (slots_within b) demands -> Forall (fun o => (o.1 < 8)%nat /\ 0 <= o.2 <= k) opts ->
  b + k <= u32_max -> exists next', extend_demands demands opts next = Ok next'.
Proof.
  intros Hd Ho Hmax. revert next. induction Hd as [|d demands Hd _ IH]; intros next; [by eexists|].
  cbn [extend_demands].
  assert (Hx : exists next', extend_options d opts next = Ok next').
  { clear IH. revert next. induction Ho as [|o opts [H1 H2] _ IHo]; intros next; [by eexists|].
    cbn [extend_options]. destruct (add_option_within b d o) as (e & -> & _); [done|done|lia|lia|].
    cbn [ok_or rbind]. apply IHo. }
  destruct Hx as [next' ->]. cbn [rbind]. apply IH.
Qed.

(** The largest option of a symbol. *)
Definition option_bound (x : Z) (p : ManaSymbol) : Z := pip_size x p + 1.

Lemma symbol_options_bound x p ph o :
  0 <= x -> wf_pip p -> o ∈ symbol_options x p ph -> (o.1 < 8)%nat /\ 0 <= o.2 <= option_bound x p.
Proof.
  intros Hx Hp Ho. split; [by eapply symbol_option_slot|].
  unfold option_bound. destruct p, ph as [[]|]; cbn in *;
    rewrite ?elem_of_cons, ?elem_of_nil in Ho; destruct_or? Ho; subst; cbn; lia || done.
Qed.

Lemma extend_demands_within b k opts demands next' :
  Forall (slots_within b) demands -> Forall (fun o => (o.1 < 8)%nat /\ 0 <= o.2 <= k) opts ->
  b + k <= u32_max -> extend_demands demands opts [] = Ok next' -> Forall (slots_within (b + k)) next'.
Proof.
  intros Hd Ho Hmax Hx. rewrite Forall_forall in Hd. rewrite Forall_forall in Ho. apply Forall_forall. intros e He.
  apply (extend_demands_elem _ _ _ _ Hx) in He as [?%elem_of_nil|(d & o & Hin & Hino & Ha)]; [done|].
  destruct (Ho o Hino) as [H1 H2].
  destruct (add_option_within b d o) as (e' & Ha' & Hl & Hw); [by apply Hd|done|lia|lia|].
  rewrite Ha in Ha'. injection Ha' as ->. split; [done|].
  eapply Forall_impl; [exact Hw|]. cbn; lia.
Qed.

Lemma expand_ok x ps b demands :
  0 <= x -> Forall (fun pp => wf_pip pp.1) ps -> Forall (slots_within b) demands ->
  b + zsum (map (fun pp => option_bound x pp.1) ps) <= u32_max -> exists ds, expand x ps demands = Ok ds.
Proof.
  intros Hx Hps. revert b demands.
  induction Hps as [|[p ph] ps Hp Hps IH]; intros b demands Hd Hmax; [by eexists|].
  cbn [map zsum fst] in Hmax. cbn [expand fst] in *.
  assert (Hpos : 0 <= zsum (map (fun pp => option_bound x pp.1) ps)).
  { apply zsum_nonneg, Forall_map. eapply Forall_impl; [exact Hps|].
    intros [[] ?]; unfold option_bound; cbn; lia. }
  assert (Hopts : Forall (fun o => (o.1 < 8)%nat /\ 0 <= o.2 <= option_bound x p) (symbol_options x p ph)).
  { apply Forall_forall. intros o. by apply symbol_options_bound. }
  destruct (extend_demands_ok b (option_bound x p) _ demands [] Hd Hopts ltac:(lia)) as [next Hn].
  rewrite Hn. cbn [rbind]. apply (IH (b + option_bound x p)); [|lia].
  by apply (extend_demands_within b _ _ _ _ Hd Hopts ltac:(lia)).
Qed.

Lemma normalize_ok cost x inc red lp ph :
  0 <= x -> 0 <= inc -> Forall wf_pip (pips cost) ->
  inc + zsum (map (option_bound x) (pips cost)) <= u32_max ->
  validated_phyrexian_choices cost lp = Ok ph -> exists ds, normalize cost x inc red lp = Ok ds.
Proof.
  intros Hx Hinc Hps Hmax Hv. unfold normalize. rewrite Hv. cbn [rbind].
  assert (Hlen := validated_length _ _ _ Hv). assert (Hzip := zip_fst (pips cost) ph (eq_sym Hlen)).
  destruct (expand_ok x (zip (pips cost) ph) inc [start_demand inc]) as [ds Hds]; [done| | | |].
  - rewrite <- Hzip, Forall_map in Hps. exact Hps.
  - apply Forall_singleton. split; [done|]. cbn.
    rewrite !Forall_cons. repeat split; try lia. constructor.
  - rewrite <- (map_map fst (option_bound x)), Hzip. done.
  - unfold start_demand in Hds. rewrite Hds. by eexists.
Qed.

Lemma normalize_taxed cost cost' x inc tax red lp lp' ph ph' ds ds' :
  validated_phyrexian_choices cost lp = Ok ph -> validated_phyrexian_choices cost' lp' = Ok ph' ->
  taxed tax x (zip (pips cost) ph) (zip (pips cost') ph') ->
  normalize cost x (inc + tax) red lp = Ok ds -> normalize cost' x inc red lp' = Ok ds' -> ds' = ds.
Proof.
  intros Hv Hv' [Ht Ht'] Hn Hn'. apply strict_demands_unique.
  - unfold normalize in Hn'. rewrite Hv' in Hn'. cbn [rbind] in Hn'.
    apply rbind_Ok in Hn' as (base & _ & [= <-]). apply dedup_strict, sort_demands_sorted.
  - unfold normalize in Hn. rewrite Hv in Hn. cbn [rbind] in Hn.
    apply rbind_Ok in Hn as (base & _ & [= <-]). apply dedup_strict, sort_demands_sorted.
  - apply normalize_elem in Hn as (h & Hh & Hn), Hn' as (h' & Hh' & Hn').
    rewrite Hv in Hh. rewrite Hv' in Hh'. injection Hh as <-. injection Hh' as <-.
    intros d. rewrite Hn, Hn'. split.
    + intros (picks' & d0 & Hp & Hd & ->). destruct (Ht' picks' Hp) as (picks & Hpk & Hm).
      exists picks, d0. split; [done|]. split; [|done]. by apply (more_generic_demand tax inc _ picks').
    + intros (picks & d0 & Hp & Hd & ->). destruct (Ht picks Hp) as (picks' & Hpk & Hm).
      exists picks', d0. split; [done|]. split; [|done]. by apply (more_generic_demand tax inc picks).
Qed.

Lemma has_generic_add tax ps : is_Some (add_to_generic tax ps) <-> has_generic {| pips := ps |} = true.
Proof.
  unfold has_generic. cbn [pips]. induction ps as [|p ps IH]; [by split; [intros []|]|].
  destruct p; cbn; by rewrite ?fmap_is_Some, ?IH.
Qed.

Lemma add_to_generic_bound tax x ps ps' :
  0 <= tax -> add_to_generic tax ps = Some ps' -> Forall wf_pip ps ->
  Forall wf_pip ps' /\
  zsum (map (option_bound x) ps') <= zsum (map (option_bound x) ps) + tax.
Proof.
  intros Htax. revert ps'. induction ps as [|p ps IH]; intros ps' Hadd; [done|].
  intros [Hp Hps]%Forall_cons.
  destruct p; cbn [add_to_generic] in Hadd;
    try (apply fmap_Some in Hadd as (r & Hr & ->); destruct (IH r Hr Hps) as [H1 H2];
         split; [by constructor|]; cbn [map zsum]; lia).
  injection Hadd as <-. cbn in Hp. split.
  - constructor; [cbn; unfold u32_saturating_add; mlia|done].
  - cbn [map zsum]. unfold option_bound, u32_saturating_add. cbn [pip_size]. lia.
Qed.

Definition players_ok (ps : list CommanderPlayer) : Prop :=
  Forall (fun p => map_Forall (fun _ n => u32_range n) (commander_cast_counts p)) ps.

Lemma commander_tax_nonneg ps player object : players_ok ps -> 0 <= commander_tax ps player object.
Proof.
  intros Hps. unfold commander_tax.
  enough (0 <= default 0 (i ← player_idx ps player; p ← ps !! i; commander_cast_counts p !! object))
    by (unfold u32_saturating_mul; mlia).
  destruct (player_idx ps player) as [i|]; [|done].
  change (0 <= default 0 (p ← ps !! i; commander_cast_counts p !! object)).
  destruct (ps !! i) as [p|] eqn:E; [|done].
  change (0 <= default 0 (commander_cast_counts p !! object)).
  destruct (commander_cast_counts p !! object) as [n|] eqn:En; [|done].
  unfold players_ok in Hps. rewrite Forall_lookup in Hps. assert (H := Hps i p E object n En). cbn in H |- *. mlia.
Qed.

Lemma option_bound_elem x ps p : Forall wf_pip ps -> 0 <= x -> p ∈ ps -> option_bound x p <= zsum (map (option_bound x) ps).
Proof.
  intros Hwf Hx. induction Hwf as [|q ps Hq Hps IH]; [by intros ?%elem_of_nil|].
  assert (Hpos : 0 <= zsum (map (option_bound x) ps)).
  { apply zsum_nonneg. rewrite Forall_map. eapply Forall_impl; [exact Hps|].
    intros []; unfold option_bound; cbn; lia. }
  intros [->|Hin]%elem_of_cons; cbn [map zsum]; [lia|].
  assert (0 <= option_bound x q) by (unfold option_bound; destruct q; cbn in *; lia).
  specialize (IH Hin). lia.
Qed.

(** Costs that validate alike, with the tax on one or the other side. *)
Lemma normalize_published cost cost' x inc tax red lp lp' f :
  0 <= x -> 0 <= inc -> 0 <= tax -> Forall wf_pip (pips cost) -> Forall wf_pip (pips cost') ->
  inc + tax + zsum (map (option_bound x) (pips cost)) <= u32_max ->
  inc + zsum (map (option_bound x) (pips cost')) <= u32_max ->
  (forall ph, validated_phyrexian_choices cost lp = Ok ph ->
     validated_phyrexian_choices cost' lp' = Ok (f ph)) ->
  (forall e, validated_phyrexian_choices cost lp = Err e ->
     validated_phyrexian_choices cost' lp' = Err e) ->
  (forall ph, validated_phyrexian_choices cost lp = Ok ph ->
     taxed tax x (zip (pips cost) ph) (zip (pips cost') (f ph))) ->
  normalize cost' x inc red lp' = normalize cost x (inc + tax) red lp.
Proof.
  intros Hx Hinc Htax Hwf Hwf' Hsz Hsz' Hok Herr Ht.
  destruct (validated_phyrexian_choices cost lp) as [ph|e] eqn:Hv.
  - specialize (Hok ph eq_refl). specialize (Ht ph eq_refl).
    destruct (normalize_ok cost x (inc + tax) red lp ph) as [ds Hds]; try done; [lia|].
    destruct (normalize_ok cost' x inc red lp' (f ph)) as [ds' Hds']; try done.
    rewrite Hds, Hds'. f_equal. by eapply (normalize_taxed cost cost').
  - specialize (Herr e eq_refl). unfold normalize. by rewrite Hv, Herr.
Qed.

(** C23. The cost published for a commander stands for the same demands as its printed cost with the tax
    as an increase, when the announced branches are read with the positions of the published cost:
    one further where the tax was put in front as a symbol of its own. *)
Theorem commander_cost_demands ps player object cost x inc red lp :
  players_ok ps -> 0 <= x -> 0 <= inc -> Forall wf_pip (pips cost) ->
  Forall (fun c => 0 <= pip_index c) lp ->
  let tax := commander_tax ps player object in
  inc + 2 * tax + 1 + zsum (map (option_bound x) (pips cost)) <= u32_max ->
  normalize (commander_cost ps player object cost) x inc red (published_choices tax cost lp) =
  normalize cost x (inc + tax) red lp.
Proof.
  intros Hps Hx Hinc Hwf Hlp tax Hmax. assert (Htax := commander_tax_nonneg ps player object Hps).
  fold tax in Htax. unfold commander_cost, published_choices. fold tax.
  destruct (Z.ltb_spec 0 tax) as [Hpos|Hzero].
  2:{ assert (tax = 0) as -> by lia. by rewrite Z.add_0_r, orb_true_r. }
  rewrite (proj2 (Z.leb_gt tax 0)), orb_false_r by lia. destruct cost as [qs]; cbn [pips] in *.
  assert (Hb := has_generic_add tax qs).
  destruct (add_to_generic tax qs) as [qs'|] eqn:Hadd.
  - rewrite (proj1 Hb) by done.
    destruct (add_to_generic_bound tax x qs qs' Htax Hadd Hwf) as [Hwf' Hsz].
    assert (Hv := validated_same qs qs' lp (add_to_generic_same tax qs qs' Hadd)).
    apply normalize_published with (f := id); cbn [pips]; try done; try lia.
    + intros ph Hph. rewrite Hv. done.
    + intros e He. rewrite Hv. done.
    + intros ph Hph. apply validated_length in Hph. apply taxed_add; [done| |done].
      apply Forall_forall. intros p Hin n ->.
      assert (Hle := option_bound_elem x qs _ Hwf Hx Hin). unfold option_bound at 1 in Hle.
      cbn [pip_size] in Hle. lia.
  - rewrite (not_true_is_false _ (fun H => is_Some_None (proj2 Hb H))).
    apply normalize_published with (f := cons None); cbn [pips map zsum]; try done; try lia.
    + by constructor.
    + unfold option_bound at 1. cbn [pip_size]. lia.
    + intros ph Hph. by rewrite validated_shift, Hph.
    + intros e He. by rewrite validated_shift, He.
    + intros ph Hph. apply taxed_front.
Qed.

(** ** Sequences of damage *)

(** The combat damage a commander has dealt to a seat in a list of events. *)
Definition dealt_to (pid oid : Z) (e : DamageEvent * Z) : Z :=
  if bool_decide (recipient e.1 = RecipientPlayer pid /\ classification e.1 = Combat
                  /\ source_object_id e.1 = oid)
  then e.2 else 0.

Definition damage_total (pid oid : Z) (es : list (DamageEvent * Z)) : Z := zsum (map (dealt_to pid oid) es).

Definition record_all (ps : list CommanderPlayer) (es : list (DamageEvent * Z)) : list CommanderPlayer :=
  fold_left (fun ps e => record_commander_damage ps e.1 e.2) es ps.

Definition damage_from (p : CommanderPlayer) (oid : Z) : Z := default 0 (commander_damage p !! oid).

(** What recording damage leaves alone. *)
Definition same_seat (p q : CommanderPlayer) : Prop :=
  seat_id p = seat_id q /\ commander_cast_counts p = commander_cast_counts q /\
  declared_commander_object_ids p = declared_commander_object_ids q /\ has_lost p = has_lost q.

Lemma player_idx_Some ps pid i :
  player_idx ps pid = Some i -> exists p, ps !! i = Some p /\ seat_id p = pid.
Proof.
  unfold player_idx. intros ((j & p) & (H1 & H2 & _)%list_find_Some & ->)%fmap_Some. eauto.
Qed.

Lemma player_idx_unique ps i p :
  NoDup (map seat_id ps) -> ps !! i = Some p -> player_idx ps (seat_id p) = Some i.
Proof.
  intros Hnd Hi. unfold player_idx.
  destruct (list_find _ ps) as [[j q]|] eqn:E; cbn.
  - apply list_find_Some in E as (Hj & Hq & _). f_equal.
    eapply NoDup_lookup; [exact Hnd| |]; rewrite list_lookup_fmap; [by rewrite Hj; cbn; rewrite Hq|by rewrite Hi].
  - apply list_find_None in E. rewrite Forall_lookup in E. by destruct (E i p Hi).
Qed.

Lemma is_commander_same ps qs oid : Forall2 same_seat ps qs -> is_commander qs oid = is_commander ps oid.
Proof.
  unfold is_commander. induction 1 as [|p q ps qs (_ & _ & E & _) _ IH]; [done|]. cbn. by rewrite IH, E.
Qed.

(** The event is combat damage of a commander to the seat. *)
Definition hits (ps : list CommanderPlayer) (p : CommanderPlayer) (event : DamageEvent) : Prop :=
  recipient event = RecipientPlayer (seat_id p) /\ classification event = Combat /\
  is_commander ps (source_object_id event) = true.

Lemma record_hit ps event dealt i p :
  NoDup (map seat_id ps) -> dealt <> 0 -> ps !! i = Some p -> hits ps p event ->
  record_commander_damage ps event dealt !! i =
  Some (with_commander_damage (source_object_id event) dealt p).
Proof.
  intros Hnd Hne Hi (Hr & Hc & Hs). unfold record_commander_damage.
  rewrite Hr, Hs, Hc, (player_idx_unique ps i p Hnd Hi), (proj2 (Z.eqb_neq dealt 0) Hne).
  rewrite (bool_decide_false (Combat <> Combat)) by naive_solver. cbn [orb negb].
  by rewrite list_lookup_alter_eq, Hi.
Qed.

Lemma record_miss ps event dealt i p :
  ps !! i = Some p -> dealt = 0 \/ ~ hits ps p event ->
  record_commander_damage ps event dealt !! i = Some p.
Proof.
  intros Hi Hmiss. unfold record_commander_damage.
  destruct (recipient event) as [pid|] eqn:Er; [|done].
  destruct (bool_decide_reflect (classification event <> Combat)) as [|Hc]; [done|].
  destruct (Z.eqb_spec dealt 0) as [|Hne]; [done|].
  destruct (is_commander ps (source_object_id event)) eqn:Es; [|done]. cbn.
  destruct (player_idx ps pid) as [j|] eqn:Ej; [|done].
  apply player_idx_Some in Ej as (q & Hj & <-). rewrite list_lookup_alter_ne; [done|].
  intros ->. destruct Hmiss as [?|Hmiss]; [done|]. apply Hmiss.
  assert (q = p) as -> by congruence. split; [done|]. split; [|done].
  by destruct (classification event); [|destruct Hc].
Qed.

Lemma dealt_to_hits ps p oid event dealt :
  is_commander ps oid = true ->
  dealt_to (seat_id p) oid (event, dealt) = 0 \/
  hits ps p event /\ oid = source_object_id event /\ dealt_to (seat_id p) oid (event, dealt) = dealt.
Proof.
  intros Hs. unfold dealt_to. cbn [fst snd]. case_bool_decide as H; [right|by left].
  destruct H as (H1 & H2 & H3). subst oid. by repeat split.
Qed.

Lemma same_seat_trans p q r : same_seat p q -> same_seat q r -> same_seat p r.
Proof. unfold same_seat. intuition congruence. Qed.

Lemma same_seats_ids ps qs : Forall2 same_seat ps qs -> map seat_id ps = map seat_id qs.
Proof. induction 1 as [|p q ps qs (E & _) _ IH]; [done|]. cbn. congruence. Qed.

Lemma record_seats ps event dealt : Forall2 same_seat ps (record_commander_damage ps event dealt).
Proof.
  assert (Hrefl : Forall2 same_seat ps ps) by (by apply Forall_Forall2_diag, Forall_true).
  unfold record_commander_damage. destruct (recipient event); [|done].
  destruct (_ || _); [done|]. destruct (player_idx ps pid) as [j|]; [|done].
  apply Forall2_alter_r; [done|]. by intros p q _ _ H.
Qed.

Lemma record_step ps event dealt i p :
  NoDup (map seat_id ps) -> ps !! i = Some p ->
  exists q, record_commander_damage ps event dealt !! i = Some q /\ same_seat p q /\
  forall oid, 0 <= damage_from p oid <= u32_max ->
    damage_from q oid =
      if is_commander ps oid
      then Z.min (damage_from p oid + dealt_to (seat_id p) oid (event, dealt)) u32_max
      else damage_from p oid.
Proof.
  intros Hnd Hi.
  assert (Hdec : dealt = 0 \/ ~ hits ps p event \/ dealt <> 0 /\ hits ps p event).
  { destruct (decide (dealt = 0)); [auto|right].
    destruct (decide (recipient event = RecipientPlayer (seat_id p) /\ classification event = Combat /\
      is_commander ps (source_object_id event) = true)); [right|left]; done. }
  assert (Hmiss : dealt = 0 \/ ~ hits ps p event ->
    forall oid, is_commander ps oid = true -> dealt_to (seat_id p) oid (event, dealt) = 0).
  { intros Hm oid Ho. destruct (dealt_to_hits ps p oid event dealt Ho) as [?|(Hh & _ & ->)]; [done|].
    destruct Hm as [?|Hm]; [done|by destruct Hm]. }
  destruct Hdec as [Hz|[Hz|[Hne Hh]]].
  1,2: exists p; split; [by apply record_miss; auto|]; split; [done|]; intros oid Hr;
    destruct (is_commander ps oid) eqn:Ec; [rewrite Hmiss by auto; lia|done].
  exists (with_commander_damage (source_object_id event) dealt p).
  split; [by apply record_hit|]. split; [done|]. intros oid Hr.
  unfold damage_from, dealt_to, with_commander_damage in *. cbn [fst snd commander_damage].
  destruct Hh as (Hr' & Hc & Hs). destruct (decide (source_object_id event = oid)) as [<-|Hno].
  - by rewrite lookup_insert_eq, Hs, bool_decide_true.
  - rewrite lookup_insert_ne, bool_decide_false by naive_solver.
    destruct (is_commander ps oid); [|done]. lia.
Qed.

Lemma record_all_spec ps es i p :
  NoDup (map seat_id ps) -> Forall (fun e => 0 <= e.2) es -> ps !! i = Some p ->
  exists q, record_all ps es !! i = Some q /\ same_seat p q /\
  forall oid, 0 <= damage_from p oid <= u32_max ->
    damage_from q oid =
      if is_commander ps oid then Z.min (damage_from p oid + damage_total (seat_id p) oid es) u32_max
      else damage_from p oid.
Proof.
  intros Hnd Hes. revert ps p Hnd. induction Hes as [|[event dealt] es He Hes IH]; intros ps p Hnd Hi.
  { exists p. split; [done|]. split; [done|]. intros oid Hr. destruct (is_commander ps oid); [|done].
    unfold damage_total. cbn. lia. }
  destruct (record_step ps event dealt i p Hnd Hi) as (q & Hq & Hsame & Hd).
  assert (Hall : Forall2 same_seat ps (record_commander_damage ps event dealt)) by (by apply record_seats).
  destruct (IH (record_commander_damage ps event dealt) q) as (r & Hr & Hsame' & Hd'); [|done|].
  { by rewrite <- (same_seats_ids _ _ Hall). }
  exists r. split; [done|]. split; [by eapply same_seat_trans|]. intros oid Hrange.
  specialize (Hd oid Hrange). specialize (Hd' oid). rewrite (is_commander_same _ _ oid Hall) in Hd'.
  assert (Hdt : 0 <= dealt_to (seat_id p) oid (event, dealt))
    by (unfold dealt_to; case_bool_decide; cbn in *; lia).
  assert (Htot : 0 <= damage_total (seat_id p) oid es).
  { apply zsum_nonneg. rewrite Forall_map. eapply Forall_impl; [exact Hes|]. intros e H.
    cbn in H. unfold dealt_to. case_bool_decide; lia. }
  destruct Hsame as (E & _). rewrite <- E in Hd'. unfold damage_total in *. cbn [map zsum].
  revert Hd Hd'. destruct (is_commander ps oid); intros Hd Hd'; rewrite Hd' by lia; lia.
Qed.

Lemma lose_to_commander_spec p :
  has_lost (lose_to_commander p) = true <->
  has_lost p = true \/ exists oid n, commander_damage p !! oid = Some n /\ 21 <= n.
Proof.
  assert (H : existsb (fun e => 21 <=? e.2) (map_to_list (commander_damage p)) = true <->
    exists oid n, commander_damage p !! oid = Some n /\ 21 <= n).
  { rewrite existsb_exists. split.
    - intros ([oid n] & Hin%list_elem_of_In%elem_of_map_to_list & Hn%Z.leb_le). eauto.
    - intros (oid & n & Hin & Hn). exists (oid, n). split; [|by apply Z.leb_le].
      by apply list_elem_of_In, elem_of_map_to_list. }
  unfold lose_to_commander. destruct (has_lost p) eqn:El; cbn [negb andb].
  - rewrite El. intuition.
  - rewrite <- H. destruct (existsb _ _); cbn; rewrite ?El; intuition congruence.
Qed.

(** However damage events follow one another, what a player has on record from a commander is the
    combat damage that card has dealt to that player, whoever controlled it, up to the width of the
    counter, and the check that follows makes exactly the players lose who have twenty-one from one
    commander. *)
Theorem commander_damage_exact ps es i p :
  NoDup (map seat_id ps) -> Forall (fun e => 0 <= e.2) es -> ps !! i = Some p ->
  commander_damage p = ∅ -> has_lost p = false ->
  let total oid := damage_total (seat_id p) oid es in
  exists q, check_commander_damage (record_all ps es) !! i = Some q /\ seat_id q = seat_id p /\
  (forall oid, damage_from q oid = if is_commander ps oid then Z.min (total oid) u32_max else 0) /\
  (has_lost q = true <-> exists oid, is_commander ps oid = true /\ 21 <= total oid).
Proof.
  intros Hnd Hes Hi Hempty Hlost total.
  destruct (record_all_spec ps es i p Hnd Hes Hi) as (q & Hq & (Hseat & _ & _ & Hl) & Hd).
  exists (lose_to_commander q). unfold check_commander_damage.
  rewrite list_lookup_fmap, Hq. split; [done|].
  assert (Hdam : commander_damage (lose_to_commander q) = commander_damage q)
    by (unfold lose_to_commander; by destruct (_ && _)).
  assert (Hfrom : forall oid, damage_from q oid =
    if is_commander ps oid then Z.min (total oid) u32_max else 0).
  { intros oid. assert (H0 : damage_from p oid = 0) by (unfold damage_from; by rewrite Hempty, lookup_empty).
    rewrite Hd, H0 by mlia. done. }
  split; [by unfold lose_to_commander; destruct (_ && _)|]. split.
  { intros oid. unfold damage_from. rewrite Hdam. apply Hfrom. }
  rewrite lose_to_commander_spec, <- Hl, Hlost. split.
  - intros [|(oid & n & Hn & H21)]; [done|]. exists oid. specialize (Hfrom oid).
    unfold damage_from in Hfrom. rewrite Hn in Hfrom. cbn in Hfrom.
    destruct (is_commander ps oid); [split; [done|lia]|lia].
  - intros (oid & Hc & H21). right. exists oid. specialize (Hfrom oid). rewrite Hc in Hfrom.
    unfold damage_from in Hfrom. destruct (commander_damage q !! oid) as [n|]; cbn in Hfrom.
    + exists n. split; [done|]. mlia.
    + mlia.
Qed.

(** Every cast from the command zone makes the next one cost two more, for that commander alone. *)
Lemma tax_grows ps player i oid oid' :
  players_ok ps -> player_idx ps player = Some i ->
  commander_tax (count_commander_cast ps i oid) player oid' =
  if bool_decide (oid = oid') then Z.min (commander_tax ps player oid + 2) u32_max
  else commander_tax ps player oid'.
Proof.
  intros Hok Hidx. destruct (player_idx_Some ps player i Hidx) as (p & Hi & Hseat).
  assert (Hidx' : player_idx (count_commander_cast ps i oid) player = Some i).
  { unfold player_idx in *. apply fmap_Some in Hidx as ([j q] & Hf & ->).
    apply list_find_Some in Hf as (Hj & Hq & Hmin). cbn [fst] in *.
    apply fmap_Some. eexists (j, _). split; [|done].
    apply list_find_Some. unfold count_commander_cast. rewrite list_lookup_alter_eq, Hi.
    split; [done|]. split; [done|]. intros k r Hk Hlt. rewrite list_lookup_alter_ne in Hk by lia.
    by apply (Hmin k). }
  unfold commander_tax. rewrite Hidx, Hidx'. cbn [mbind option_bind].
  unfold count_commander_cast. rewrite list_lookup_alter_eq, Hi. cbn [fmap option_fmap option_map].
  unfold players_ok in Hok. rewrite Forall_lookup in Hok. specialize (Hok i p Hi).
  case_bool_decide as E.
  - subst oid'. cbn. rewrite lookup_insert_eq. cbn.
    assert (Hr : u32_range (default 0 (commander_cast_counts p !! oid))).
    { destruct (commander_cast_counts p !! oid) as [n|] eqn:En; [by apply (Hok oid)|cbn; mlia]. }
    revert Hr. generalize (default 0 (commander_cast_counts p !! oid)). intros n Hr.
    unfold u32_saturating_mul, u32_saturating_add. mlia.
  - cbn. by rewrite lookup_insert_ne.
Qed.

(** ** A commander with a hybrid Phyrexian symbol, cast twice *)

Definition sample_seat (id : Z) : CommanderPlayer :=
  {| seat_id := id; commander_cast_counts := ∅; declared_commander_object_ids := [100 + id];
     commander_damage := ∅; has_lost := false |}.

Definition sample_table : list CommanderPlayer := map sample_seat [0; 1; 2].

Definition sample_after_cast : list CommanderPlayer := count_commander_cast sample_table 0 100.

Definition sample_commander : ManaCost :=
  {| pips := [ManaSymbol.HybridPhyrexian ColorPip.G ColorPip.U; ManaSymbol.G] |}.

Example published_cost :
  fmt_cost (commander_cost sample_after_cast 0 100 sample_commander) = str "{2}{G/U/P}{G}" /\
  fmt_cost (commander_cost sample_after_cast 0 101 sample_commander) = str "{G/U/P}{G}".
Proof. vm_compute. done. Qed.

(** A branch announced at its position in the published cost is refused for the printed cost, which
    casting validates it against: life cannot be announced for the symbol at all. *)
Lemma published_position_refused :
  validated_phyrexian_choices (commander_cost sample_after_cast 0 100 sample_commander)
    [{| pip_index := 1; pay_life := true; mana_color := 0 |}]
    = Ok [None; Some PhyrexianPayment.Life; None] /\
  validated_phyrexian_choices sample_commander
    [{| pip_index := 1; pay_life := true; mana_color := 0 |}]
    = Err (Illegal "invalid flexible pip selection").
Proof. vm_compute. done. Qed.

Lemma sample_after_cast_ok : players_ok sample_after_cast.
Proof.
  unfold players_ok, sample_after_cast, sample_table, count_commander_cast. cbn.
  rewrite !Forall_cons, Forall_nil. split_and!; [|apply map_Forall_empty..|done].
  apply map_Forall_insert_2; [vm_compute; split; discriminate|apply map_Forall_empty].
Qed.

Lemma commander_cost_demands_witness :
  normalize (commander_cost sample_after_cast 0 100 sample_commander) 0 1 0
    [{| pip_index := 1; pay_life := true; mana_color := 0 |}] =
  normalize sample_commander 0 (1 + 2) 0 [{| pip_index := 0; pay_life := true; mana_color := 0 |}].
Proof.
  apply (commander_cost_demands sample_after_cast 0 100 sample_commander 0 1 0
    [{| pip_index := 0; pay_life := true; mana_color := 0 |}] sample_after_cast_ok).
  - lia.
  - lia.
  - repeat constructor.
  - apply Forall_singleton. cbn. lia.
  - vm_compute. discriminate.
Defined.

Definition combat_damage (source victim : Z) : DamageEvent :=
  {| source_object_id := source; recipient := RecipientPlayer victim; classification := Combat |}.

Definition sample_damage : list (DamageEvent * Z) :=
  [(combat_damage 100 1, 10); (combat_damage 101 1, 11); (combat_damage 100 2, 11);
   ({| source_object_id := 100; recipient := RecipientPlayer 1; classification := Noncombat |}, 1);
   (combat_damage 100 1, 11)].

Lemma commander_damage_exact_witness :
  map has_lost (check_commander_damage (record_all sample_table sample_damage)) = [false; true; false] /\
  exists q, check_commander_damage (record_all sample_table sample_damage) !! 1%nat = Some q /\
    damage_from q 100 = 21.
Proof.
  split; [vm_compute; reflexivity|].
  destruct (commander_damage_exact sample_table sample_damage 1 (sample_seat 1)) as (q & Hq & _ & Hd & _).
  - vm_compute. apply (bool_decide_unpack (NoDup [0; 1; 2])). exact I.
  - unfold sample_damage. rewrite !Forall_cons. cbn. repeat split; try lia. constructor.
  - reflexivity.
  - reflexivity.
  - reflexivity.
  - exists q. split; [exact Hq|]. rewrite Hd. vm_compute. reflexivity.
Defined.
