(* ===== verification/Candidates.v ===== *)
(** * Proposals for payments: [tricerules-core/src/engine/payment/candidates.rs]

    The bounded enumerations behind the affordability witnesses: combinations of
    objects, products of choices, distributions of removed counters, the
    selections for the costs offered to a client and the branches of Phyrexian
    symbols. Each enumeration is cut at [PROPOSAL_LIMIT]; the reference
    definitions below it are not, and the theorems say that the code returns
    the first entries of the reference. The wire messages are those of
    [ruled_v1.proto], the fields the code reads. *)
From S2P Require Import Prelude ManaCost FlexSolver Demand.
Open Scope cockatrice_scope.
#[local] Open Scope list_scope.

Definition PROPOSAL_LIMIT : nat := 256.

(** ** Combinations *)

Section Combinations.
Context {T : Type} (min max : nat).

(** The body of [visit] around its loop [more] over the items still open. *)
Definition visit (more : list T -> list (list T) -> list (list T)) (chosen : list T)
    (out : list (list T)) : list (list T) :=
  if (PROPOSAL_LIMIT <=? length out)%nat then out
  else
    let out := if (min <=? length chosen)%nat then out ++ [chosen] else out in
    if (length chosen =? max)%nat then out else more chosen out.

(** [for index in start..items.len()], on the items from [start] on. *)
Fixpoint visit_items (items chosen : list T) (out : list (list T)) : list (list T) :=
  match items with
  | [] => out
  | x :: items' =>
      if (length chosen + length items <? min)%nat then out
      else
        let out := visit (visit_items items') (chosen ++ [x]) out in
        if (PROPOSAL_LIMIT <=? length out)%nat then out
        else visit_items items' chosen out
  end.
End Combinations.

Definition combinations {T} (items : list T) (min max : nat) : list (list T) :=
  if (min <=? max)%nat
  then let max := Nat.min max (length items) in visit min max (visit_items min max items) [] []
  else [].

(** ** Products *)

(** The loop over [group]; [true] when the limit was reached, [break 'outer]. *)
Fixpoint push_rows {T} (prefix group : list T) (next : list (list T)) : list (list T) * bool :=
  match group with
  | [] => (next, false)
  | value :: group' =>
      let next := next ++ [prefix ++ [value]] in
      if (length next =? PROPOSAL_LIMIT)%nat then (next, true) else push_rows prefix group' next
  end.

Fixpoint push_prefixes {T} (prefixes : list (list T)) (group : list T) (next : list (list T))
    : list (list T) :=
  match prefixes with
  | [] => next
  | prefix :: prefixes' =>
      let '(next, stop) := push_rows prefix group next in
      if stop then next else push_prefixes prefixes' group next
  end.

Definition product {T} (groups : list (list T)) : list (list T) :=
  fold_left (fun result group => push_prefixes result group []) groups [[]].

(** ** Distributions of removed counters *)

Record CostObjectRef : Type := { object_id : Z; zone_change_generation : Z }.

Record CounterRemovalContribution : Type := {
  contribution_object : option CostObjectRef;
  contribution_option : Z;
  contribution_count : Z
}.

Record CounterRemovalSelection : Type := {
  removal_source : option CostObjectRef;
  removal_option : Z
}.

Inductive Selection : Type :=
  | HandIndex (i : Z)
  | PermanentId (i : Z)
  | GraveyardObjects (objects : list CostObjectRef)
  | BattlefieldObjects (objects : list CostObjectRef)
  | CounterRemoval (s : CounterRemovalSelection)
  | CounterRemovalGroup (contributions : list CounterRemovalContribution).

(** A row of [distribute]: the object, the option and how many counters there are. *)
Definition counter_row : Type := option CostObjectRef * Z * Z.

Definition contribution (row : counter_row) (count : Z) : CounterRemovalContribution :=
  {| contribution_object := row.1.1; contribution_option := row.1.2; contribution_count := count |}.

(** [for count in (1..=available.min(remaining)).rev()], counting down from [n]; [go] is the
    recursive call with what is then left, and [true] says that the limit was reached. *)
Fixpoint take_counts {R} (go : Z -> list CounterRemovalContribution -> list R -> list R)
    (row : counter_row) (remaining : Z) (n : nat) (selected : list CounterRemovalContribution)
    (out : list R) : list R * bool :=
  match n with
  | O => (out, false)
  | S n' =>
      let count := Z.of_nat n in
      let out := go (remaining - count)%Z (selected ++ [contribution row count]) out in
      if (PROPOSAL_LIMIT <=? length out)%nat then (out, true)
      else take_counts go row remaining n' selected out
  end.

Fixpoint distribute (rows : list counter_row) (remaining : Z)
    (selected : list CounterRemovalContribution) (out : list Selection) : list Selection :=
  if (PROPOSAL_LIMIT <=? length out)%nat then out
  else if (remaining =? 0)%Z then out ++ [CounterRemovalGroup selected]
  else
    match rows with
    | [] => out
    | row :: rows' =>
        let n := Z.to_nat (Z.min row.2 remaining) in
        let '(out, stop) :=
          take_counts (distribute rows') row remaining n selected out in
        if stop then out else distribute rows' remaining selected out
    end.

(** ** The selections for the costs offered to a client *)

Record CounterRemovalOption : Type := { option_id : Z; available_count : Z }.

Record CounterRemovalChoices : Type := {
  counter_source : option CostObjectRef;
  counter_count : Z;
  counter_options : list CounterRemovalOption
}.

Record CounterRemovalGroupCandidate : Type := {
  candidate_object : option CostObjectRef;
  candidate_options : list CounterRemovalOption
}.

Record CounterRemovalGroupChoices : Type := {
  required_count : Z;
  group_candidates : list CounterRemovalGroupCandidate
}.

Record CostObjectCandidate : Type := { object : option CostObjectRef; contribution_value : Z }.

Record LegalCostChoice : Type := {
  cost_index : Z;
  zone : Z;
  candidate_ids : list Z;
  choice_min : Z;
  choice_max : Z;
  kind : Z;
  candidate_objects : list CostObjectCandidate;
  counter_removal : option CounterRemovalChoices;
  aggregate_minimum : option Z;
  counter_removal_group : option CounterRemovalGroupChoices
}.

Record CostSelection : Type := { selection_cost_index : Z; selection : option Selection }.

Definition COST_CHOICE_ZONE_HAND : Z := 1.
Definition COST_CHOICE_ZONE_GRAVEYARD : Z := 3.
Definition COST_CHOICE_KIND_SACRIFICE : Z := 2.
Definition COST_CHOICE_KIND_BLIGHT : Z := 5.

(** One counter cost: a source and an option with enough counters. *)
Definition counter_selections (choice : LegalCostChoice) (counter : CounterRemovalChoices)
    : list Selection :=
  let sources :=
    match counter_source counter with
    | Some source => [source]
    | None => omap object (candidate_objects choice)
    end in
  source ← sources;
  o ← counter_options counter;
  if (counter_count counter <=? available_count o)%Z
  then [CounterRemoval {| removal_source := Some source; removal_option := option_id o |}]
  else [].

Definition group_rows (group : CounterRemovalGroupChoices) : list counter_row :=
  candidate ← group_candidates group;
  o ← candidate_options candidate;
  [(candidate_object candidate, option_id o, available_count o)].

(** The sum over [i128] of contributions that are [i64] has its exact value. *)
Definition below_minimum (choice : LegalCostChoice) (selected : list CostObjectCandidate) : bool :=
  match aggregate_minimum choice with
  | Some minimum => (zsum (map contribution_value selected) <? minimum)%Z
  | None => false
  end.

Definition object_selections (choice : LegalCostChoice) : list Selection :=
  selected ← combinations (candidate_objects choice)
               (Z.to_nat (choice_min choice)) (Z.to_nat (choice_max choice));
  if below_minimum choice selected then []
  else
    let objects := omap object selected in
    [if (zone choice =? COST_CHOICE_ZONE_GRAVEYARD)%Z then GraveyardObjects objects
     else BattlefieldObjects objects].

Definition choice_selections (choice : LegalCostChoice) : list Selection :=
  match counter_removal choice, counter_removal_group choice with
  | Some counter, _ => counter_selections choice counter
  | None, Some group => distribute (group_rows group) (required_count group) [] []
  | None, None =>
      if (zone choice =? COST_CHOICE_ZONE_HAND)%Z then HandIndex <$> candidate_ids choice
      else if (kind choice =? COST_CHOICE_KIND_BLIGHT)%Z
              || ((kind choice =? COST_CHOICE_KIND_SACRIFICE)%Z && (choice_max choice =? 1)%Z)
      then PermanentId <$> candidate_ids choice
      else object_selections choice
  end.

Definition cost_selections (choices : list LegalCostChoice) : list (list CostSelection) :=
  product ((fun choice =>
    (fun s => {| selection_cost_index := cost_index choice; selection := Some s |})
      <$> choice_selections choice) <$> choices).

(** ** Branches of Phyrexian symbols *)

(** The [variants] of the symbol at [index]: one per way to pay mana, then life. *)
Definition phyrexian_variants (index : nat) (pip : ManaSymbol) : option (list FlexPipPayment) :=
  let variant life color :=
    {| pip_index := wrap_u32 (Z.of_nat index); pay_life := life; mana_color := color |} in
  let variants colors := map (variant false) colors ++ [variant true 0%Z] in
  match pip with
  | ManaSymbol.Phyrexian _ => Some (variants [0%Z])
  | ManaSymbol.HybridPhyrexian a b =>
      Some (variants [(Z.of_nat (color_index a) + 1)%Z; (Z.of_nat (color_index b) + 1)%Z])
  | _ => None
  end.

(** [enumerate().filter_map(...)] from [index] on. *)
Fixpoint phyrexian_groups (ps : list ManaSymbol) (index : nat) : list (list FlexPipPayment) :=
  match ps with
  | [] => []
  | pip :: ps' =>
      match phyrexian_variants index pip with
      | Some variants => variants :: phyrexian_groups ps' (S index)
      | None => phyrexian_groups ps' (S index)
      end
  end.

Definition phyrexian_choices (cost : ManaCost) : list (list FlexPipPayment) :=
  product (phyrexian_groups (pips cost) 0).

(** ** Lists cut at the limit *)

Section Cut.
Context {A : Type}.
Implicit Types l k out : list A.

(** What is collected in [out] when [more] is added until the limit is reached. *)
Definition fill out more : list A := take PROPOSAL_LIMIT (out ++ more).

Lemma fill_length out more : (length (fill out more) <= PROPOSAL_LIMIT)%nat.
Proof. unfold fill. rewrite length_take. lia. Qed.

Lemma fill_full out more :
  (length out <= PROPOSAL_LIMIT)%nat -> (PROPOSAL_LIMIT <= length out)%nat -> fill out more = out.
Proof. intros. unfold fill. rewrite take_app_le by lia. apply take_ge. lia. Qed.

Lemma fill_nil out : (length out <= PROPOSAL_LIMIT)%nat -> fill out [] = out.
Proof. intros. unfold fill. rewrite app_nil_r. by apply take_ge. Qed.

Lemma fill_fill out more more' : fill (fill out more) more' = fill out (more ++ more').
Proof.
  unfold fill. rewrite (app_assoc out). generalize (out ++ more) as l. intros l.
  rewrite !take_app, take_take, length_take, Nat.min_id. f_equal. f_equal. lia.
Qed.

(** Going on only below the limit loses nothing. *)
Lemma fill_stop out more (b : bool) (r : list A) :
  (length out <= PROPOSAL_LIMIT)%nat -> b = (PROPOSAL_LIMIT <=? length out)%nat ->
  (b = false -> r = fill out more) -> (if b then out else r) = fill out more.
Proof.
  intros Hlen -> Hr. destruct (Nat.leb_spec PROPOSAL_LIMIT (length out)); [|by apply Hr].
  symmetry. by apply fill_full.
Qed.
End Cut.

Arguments fill {A} out more : simpl never.
Arguments PROPOSAL_LIMIT : simpl never.

(** ** Combinations are the first sublists of the right lengths *)

Section Sublists.
Context {T : Type}.
Implicit Types (items chosen s : list T).

(** The sublists but the empty one: those with the first item come first. *)
Fixpoint nonempty_subs items : list (list T) :=
  match items with
  | [] => []
  | x :: items' => map (cons x) ([] :: nonempty_subs items') ++ nonempty_subs items'
  end.

Definition subs items : list (list T) := [] :: nonempty_subs items.

Definition fits (min max c : nat) (s : list T) : bool :=
  (min <=? c + length s)%nat && (c + length s <=? max)%nat.

Lemma subs_sublist items s : s ∈ subs items <-> s `sublist_of` items.
Proof.
  unfold subs. revert s. induction items as [|x items IH]; intros s.
  - cbn. rewrite list_elem_of_singleton. split; [by intros ->|by intros ->%sublist_nil_r].
  - cbn [nonempty_subs]. rewrite elem_of_cons, elem_of_app. split.
    + intros [->|[H|H]]; [apply sublist_nil_l| |].
      * apply list_elem_of_fmap in H as (s' & -> & H%IH). by apply sublist_skip.
      * apply sublist_cons, IH. by right.
    + intros H. inversion H as [|? s' ? H'|? ? ? H']; subst.
      * right; left. apply list_elem_of_fmap. exists s'. split; [done|]. by apply IH.
      * apply IH, elem_of_cons in H' as [->|H']; auto.
Qed.

Lemma nonempty_subs_length items s :
  s ∈ nonempty_subs items -> (1 <= length s <= length items)%nat.
Proof.
  revert s. induction items as [|x items IH]; intros s; [by intros ?%elem_of_nil|].
  cbn [nonempty_subs length]. rewrite elem_of_app. intros [H|H].
  - apply list_elem_of_fmap in H as (s' & -> & H). apply elem_of_cons in H as [->|H%IH]; cbn; lia.
  - apply IH in H. lia.
Qed.

Definition taken (min max : nat) (chosen : list T) (ss : list (list T)) : list (list T) :=
  map (app chosen) (List.filter (fits min max (length chosen)) ss).

Lemma taken_none min max chosen ss :
  (forall s, s ∈ ss -> fits min max (length chosen) s = false) -> taken min max chosen ss = [].
Proof.
  unfold taken. intros H. induction ss as [|s ss IH]; [done|]. cbn. rewrite H by left.
  apply IH. intros s' Hs. apply H. by right.
Qed.

Lemma taken_app min max chosen ss ss' :
  taken min max chosen (ss ++ ss') = taken min max chosen ss ++ taken min max chosen ss'.
Proof. unfold taken. by rewrite List.filter_app, map_app. Qed.

Lemma taken_cons min max chosen x ss :
  taken min max chosen (map (cons x) ss) = taken min max (chosen ++ [x]) ss.
Proof.
  unfold taken. induction ss as [|s ss IH]; [done|]. cbn. unfold fits in *. cbn in *.
  rewrite length_app in *. cbn. replace (length chosen + 1 + length s)%nat
    with (length chosen + S (length s))%nat by lia.
  destruct (_ && _); cbn; [|done]. by rewrite IH, <- app_assoc.
Qed.

Lemma visit_fill min max more items chosen out :
  (length out <= PROPOSAL_LIMIT)%nat -> (length chosen <= max)%nat ->
  (forall out, (length out <= PROPOSAL_LIMIT)%nat -> (length chosen < max)%nat ->
    more chosen out = fill out (taken min max chosen (nonempty_subs items))) ->
  visit min max more chosen out = fill out (taken min max chosen (subs items)).
Proof.
  intros Hout Hmax Hmore. unfold visit. apply fill_stop; [done|done|intros Hfree%Nat.leb_gt].
  unfold subs. change ([] :: nonempty_subs items) with ([[]] ++ nonempty_subs items).
  rewrite taken_app, <- fill_fill.
  replace (if (min <=? length chosen)%nat then out ++ [chosen] else out)
    with (fill out (taken min max chosen [[]])).
  - destruct (Nat.eqb_spec (length chosen) max) as [He|He].
    + rewrite (taken_none _ _ _ (nonempty_subs items)), fill_nil; [done|apply fill_length|].
      intros s [Hs _]%nonempty_subs_length. apply andb_false_intro2, Nat.leb_gt. lia.
    + apply Hmore; [apply fill_length|lia].
  - unfold taken, fits. cbn. rewrite Nat.add_0_r, (proj2 (Nat.leb_le (length chosen) max)), andb_true_r by lia.
    destruct (min <=? length chosen)%nat; cbn; [|by apply fill_nil].
    rewrite app_nil_r. unfold fill. apply take_ge. rewrite length_app. cbn. lia.
Qed.

Lemma visit_items_fill min max items chosen out :
  (length out <= PROPOSAL_LIMIT)%nat -> (length chosen < max)%nat ->
  visit_items min max items chosen out = fill out (taken min max chosen (nonempty_subs items)).
Proof.
  revert chosen out. induction items as [|x items IH]; intros chosen out Hout Hmax.
  { symmetry. by apply fill_nil. }
  cbn [visit_items nonempty_subs].
  destruct (Nat.ltb_spec (length chosen + length (x :: items)) min) as [Hlt|_].
  - rewrite taken_none, fill_nil; [done|done|].
    intros s [_ Hs]%(nonempty_subs_length (x :: items)).
    apply andb_false_intro1, Nat.leb_gt. lia.
  - rewrite taken_app, taken_cons, <- fill_fill. fold (subs items).
    rewrite (visit_fill _ _ _ items); [|done|rewrite length_app; cbn; lia|].
    + apply fill_stop; [apply fill_length|done|]. intros _. by apply IH; [apply fill_length|].
    + intros out' Hout' Hc. by apply IH.
Qed.
End Sublists.

Lemma combinations_fill {T} (items : list T) min max :
  (min <= max)%nat ->
  combinations items min max = fill [] (List.filter (fits min max 0) (subs items)).
Proof.
  intros Hle. unfold combinations. rewrite (proj2 (Nat.leb_le _ _) Hle).
  rewrite (visit_fill _ _ _ items);
    [|cbn; lia|cbn; lia|intros out Hout Hc; by apply visit_items_fill].
  unfold taken. change (app (A := T) []) with (fun s : list T => s). rewrite map_id. cbn [length].
  f_equal. apply List.filter_ext_in. intros s Hs%list_elem_of_In.
  apply subs_sublist, sublist_length in Hs. unfold fits. f_equal. cbn.
  destruct (Nat.leb_spec (length s) max), (Nat.leb_spec (length s) (Nat.min max (length items))); lia.
Qed.

(** ** Products are the first rows of the cartesian product *)

Section Products.
Context {T : Type}.
Implicit Types (group prefix row : list T) (groups prefixes : list (list T)).

Definition rows_of group prefix : list (list T) := map (fun v => prefix ++ [v]) group.

Definition cartesian groups : list (list T) :=
  fold_left (fun result group => result ≫= rows_of group) groups [[]].

Lemma push_rows_fill prefix group next :
  (length next < PROPOSAL_LIMIT)%nat ->
  push_rows prefix group next =
  (fill next (rows_of group prefix), (PROPOSAL_LIMIT <=? length (fill next (rows_of group prefix)))%nat).
Proof.
  revert next. induction group as [|v group IH]; intros next Hlen; cbn [push_rows].
  { cbn. rewrite fill_nil by lia. f_equal. symmetry. by apply Nat.leb_gt. }
  assert (Hfill : fill next [prefix ++ [v]] = next ++ [prefix ++ [v]]).
  { unfold fill. apply take_ge. rewrite length_app. cbn. lia. }
  change (rows_of (v :: group) prefix) with ([prefix ++ [v]] ++ rows_of group prefix).
  rewrite <- fill_fill, Hfill.
  assert (Hlen' : length (next ++ [prefix ++ [v]]) = S (length next)) by (rewrite length_app; cbn; lia).
  destruct (Nat.eqb_spec (length (next ++ [prefix ++ [v]])) PROPOSAL_LIMIT) as [He|He].
  - rewrite fill_full by lia. f_equal. symmetry. apply Nat.leb_le. lia.
  - rewrite IH by lia. done.
Qed.

Lemma push_prefixes_fill prefixes group next :
  (length next < PROPOSAL_LIMIT)%nat ->
  push_prefixes prefixes group next = fill next (prefixes ≫= rows_of group).
Proof.
  revert next. induction prefixes as [|p prefixes IH]; intros next Hlen; cbn.
  { symmetry. apply fill_nil. lia. }
  rewrite push_rows_fill by done. rewrite <- fill_fill.
  apply fill_stop; [apply fill_length|done|]. intros H%Nat.leb_gt. by apply IH.
Qed.

(** Prefixes beyond the limit give rows beyond the limit. *)
Lemma cut_prefixes prefixes group :
  fill [] (fill [] prefixes ≫= rows_of group) = fill [] (prefixes ≫= rows_of group).
Proof.
  unfold fill; cbn [app]. destruct group as [|v group].
  { assert (H : forall ps : list (list T), ps ≫= rows_of [] = []) by (by induction ps).
    by rewrite !H. }
  generalize PROPOSAL_LIMIT as n. induction prefixes as [|p prefixes IH]; intros n; [by rewrite take_nil|].
  destruct n as [|n]; [done|]. cbn [take mbind list_bind].
  rewrite !take_app. f_equal.
  unfold rows_of at 1 3. cbn [map length]. rewrite length_map.
  replace (S n - S (length group))%nat with (Nat.min (n - length group) n) by lia.
  rewrite <- !take_take. by rewrite IH.
Qed.

Lemma product_snoc groups group :
  product (groups ++ [group]) = push_prefixes (product groups) group [].
Proof. unfold product. by rewrite fold_left_app. Qed.

Lemma cartesian_snoc groups group : cartesian (groups ++ [group]) = cartesian groups ≫= rows_of group.
Proof. unfold cartesian. by rewrite fold_left_app. Qed.

Lemma limit_pos : (0 < PROPOSAL_LIMIT)%nat.
Proof. unfold PROPOSAL_LIMIT. lia. Qed.

Lemma product_fill groups : product groups = fill [] (cartesian groups).
Proof.
  induction groups as [|group groups IH] using rev_ind; [done|].
  rewrite product_snoc, cartesian_snoc, IH, push_prefixes_fill by exact limit_pos.
  apply cut_prefixes.
Qed.

Lemma elem_of_cartesian row groups : row ∈ cartesian groups <-> Forall2 elem_of row groups.
Proof.
  revert row. induction groups as [|group groups IH] using rev_ind; intros row.
  - cbn. rewrite list_elem_of_singleton. split; [by intros ->|by intros ->%Forall2_nil_inv_r].
  - rewrite cartesian_snoc, list_elem_of_bind. split.
    + intros (p & Hrow & Hp%IH). apply list_elem_of_fmap in Hrow as (v & -> & Hv).
      apply Forall2_app; [done|]. by constructor.
    + intros (p & q & Hp & Hq & ->)%Forall2_app_inv_r.
      apply Forall2_cons_inv_r in Hq as (v & q' & Hv & ->%Forall2_nil_inv_r & ->).
      exists p. split; [|by apply IH]. apply list_elem_of_fmap. by exists v.
Qed.
End Products.

(** An entry of the reference is found unless the limit cuts it off. *)
Lemma elem_of_fill {A} (l : list A) x :
  (x ∈ fill [] l -> x ∈ l) /\ ((length l <= PROPOSAL_LIMIT)%nat -> x ∈ fill [] l <-> x ∈ l).
Proof.
  unfold fill; cbn [app]. split.
  - apply elem_of_take_weaken || (intros H; rewrite <- (take_drop PROPOSAL_LIMIT l); by apply elem_of_app; left).
  - intros H. by rewrite take_ge.
Qed.

(** ** Distributions of removed counters *)

Fixpoint counts_down (n : nat) : list Z :=
  match n with
  | O => []
  | S n' => Z.of_nat n :: counts_down n'
  end.

Fixpoint distributions (rows : list counter_row) (remaining : Z)
    : list (list CounterRemovalContribution) :=
  if (remaining =? 0)%Z then [[]]
  else
    match rows with
    | [] => []
    | row :: rows' =>
        (count ← counts_down (Z.to_nat (Z.min row.2 remaining));
         map (cons (contribution row count)) (distributions rows' (remaining - count)%Z))
        ++ distributions rows' remaining
    end.

Definition selections (selected : list CounterRemovalContribution)
    (ds : list (list CounterRemovalContribution)) : list Selection :=
  map (fun d => CounterRemovalGroup (selected ++ d)) ds.

Lemma selections_app selected ds ds' :
  selections selected (ds ++ ds') = selections selected ds ++ selections selected ds'.
Proof. apply map_app. Qed.

Lemma selections_cons selected c ds :
  selections selected (map (cons c) ds) = selections (selected ++ [c]) ds.
Proof. unfold selections. rewrite map_map. apply map_ext. intros d. by rewrite <- app_assoc. Qed.

Lemma take_counts_fill go rows' row remaining n selected (out : list Selection) :
  (forall r sel out, (length out <= PROPOSAL_LIMIT)%nat ->
     go r sel out = fill out (selections sel (distributions rows' r))) ->
  (length out < PROPOSAL_LIMIT)%nat ->
  let more := selections selected (count ← counts_down n;
    map (cons (contribution row count)) (distributions rows' (remaining - count)%Z)) in
  take_counts go row remaining n selected out =
  (fill out more, (PROPOSAL_LIMIT <=? length (fill out more))%nat).
Proof.
  intros Hgo. revert out. induction n as [|n IH]; intros out Hlen; cbn zeta.
  { cbn. rewrite fill_nil by lia. f_equal. symmetry. by apply Nat.leb_gt. }
  cbn [take_counts counts_down mbind list_bind]. rewrite Hgo by lia.
  rewrite selections_app, selections_cons, <- fill_fill.
  destruct (Nat.leb_spec PROPOSAL_LIMIT (length (fill out (selections (selected ++ [contribution row (Z.of_nat (S n))])
    (distributions rows' (remaining - Z.of_nat (S n))%Z))))) as [Hf|Hf].
  - rewrite (fill_full (fill _ _)) by (done || apply fill_length). f_equal. symmetry. by apply Nat.leb_le.
  - by apply IH.
Qed.

Lemma distribute_fill rows remaining selected out :
  (length out <= PROPOSAL_LIMIT)%nat ->
  distribute rows remaining selected out = fill out (selections selected (distributions rows remaining)).
Proof.
  revert remaining selected out. induction rows as [|row rows IH]; intros remaining selected out Hlen;
    cbn [distribute distributions];
    (apply fill_stop; [done|done|]; intros Hfree%Nat.leb_gt);
    (destruct (remaining =? 0)%Z;
      [unfold selections; cbn [map]; rewrite app_nil_r; unfold fill;
       rewrite take_ge; [done|rewrite length_app; cbn; lia]|]).
  - symmetry. by apply fill_nil.
  - rewrite (take_counts_fill _ rows) by done. rewrite selections_app, <- fill_fill.
    apply fill_stop; [apply fill_length|done|]. intros _. apply IH, fill_length.
Qed.

(** Contributions drawn from the rows in their order, each within what is there. *)
Inductive drawn : list counter_row -> list CounterRemovalContribution -> Prop :=
  | drawn_nil rows : drawn rows []
  | drawn_take row rows count d :
      (1 <= count <= row.2)%Z -> drawn rows d -> drawn (row :: rows) (contribution row count :: d)
  | drawn_skip row rows d : drawn rows d -> drawn (row :: rows) d.
#[local] Hint Constructors drawn : core.

Definition total_count (d : list CounterRemovalContribution) : Z := zsum (map contribution_count d).

Lemma elem_of_counts_down n count : count ∈ counts_down n <-> (1 <= count <= Z.of_nat n)%Z.
Proof.
  induction n as [|n IH]; cbn [counts_down].
  - rewrite elem_of_nil. lia.
  - rewrite elem_of_cons, IH. lia.
Qed.

Lemma drawn_total rows d : drawn rows d -> d = [] \/ (0 < total_count d)%Z.
Proof.
  unfold total_count. induction 1 as [|row rows count d Hc _ IH|row rows d _ IH]; auto.
  right. cbn. destruct IH as [->|IH]; cbn in *; lia.
Qed.

Lemma elem_of_distributions rows remaining d :
  (0 <= remaining)%Z ->
  d ∈ distributions rows remaining <-> drawn rows d /\ total_count d = remaining.
Proof.
  revert remaining d. induction rows as [|row rows IH]; intros remaining d Hr; cbn [distributions];
    (destruct (Z.eqb_spec remaining 0) as [->|Hne];
      [rewrite list_elem_of_singleton; split;
        [intros ->; by split|intros [Hd Ht]; destruct (drawn_total _ _ Hd) as [->|]; [done|lia]]|]).
  - rewrite elem_of_nil. split; [done|]. intros [Hd Ht].
    inversion Hd; subst. by cbn in Hne.
  - rewrite elem_of_app, list_elem_of_bind, IH by done. split.
    + intros [(count & Hd & Hc)|[Hd Ht]]; [|auto].
      apply elem_of_counts_down in Hc. rewrite Z2Nat.id in Hc by lia.
      apply list_elem_of_fmap in Hd as (d' & -> & Hd). apply IH in Hd as [Hd Ht]; [|lia].
      split; [constructor; [lia|done]|]. unfold total_count in *. cbn. lia.
    + intros [Hd Ht]. inversion Hd as [rows'|row' rows' count d' Hc Hd'|row' rows' d' Hd']; subst.
      * by cbn in Hne.
      * left. exists count. assert (Hpos := drawn_total _ _ Hd'). unfold total_count in *. cbn in *.
        assert (0 <= zsum (map contribution_count d'))%Z by (destruct Hpos as [->|]; cbn; lia).
        split; [|apply elem_of_counts_down; rewrite Z2Nat.id; lia].
        apply list_elem_of_fmap. exists d'. split; [done|]. apply IH; [lia|]. split; [done|lia].
      * right. auto.
Qed.

(** ** What a selection for a cost may be *)

(** The selections a client may make for a cost, as the offer describes them. *)
Definition offered (choice : LegalCostChoice) (s : Selection) : Prop :=
  match counter_removal choice, counter_removal_group choice with
  | Some counter, _ =>
      exists source o,
        (counter_source counter = Some source \/
         counter_source counter = None /\ exists c, c ∈ candidate_objects choice /\ object c = Some source) /\
        o ∈ counter_options counter /\ (counter_count counter <= available_count o)%Z /\
        s = CounterRemoval {| removal_source := Some source; removal_option := option_id o |}
  | None, Some group =>
      exists d, drawn (group_rows group) d /\ total_count d = required_count group /\
        s = CounterRemovalGroup d
  | None, None =>
      if (zone choice =? COST_CHOICE_ZONE_HAND)%Z then exists i, i ∈ candidate_ids choice /\ s = HandIndex i
      else if (kind choice =? COST_CHOICE_KIND_BLIGHT)%Z
              || ((kind choice =? COST_CHOICE_KIND_SACRIFICE)%Z && (choice_max choice =? 1)%Z)
      then exists i, i ∈ candidate_ids choice /\ s = PermanentId i
      else
        exists selected, selected `sublist_of` candidate_objects choice /\
          (choice_min choice <= Z.of_nat (length selected) <= choice_max choice)%Z /\
          below_minimum choice selected = false /\
          s = if (zone choice =? COST_CHOICE_ZONE_GRAVEYARD)%Z
              then GraveyardObjects (omap object selected) else BattlefieldObjects (omap object selected)
  end.

(** The numbers of the offer are unsigned. *)
Definition choice_ok (choice : LegalCostChoice) : Prop :=
  (0 <= choice_min choice)%Z /\ (0 <= choice_max choice)%Z /\
  forall group, counter_removal_group choice = Some group -> (0 <= required_count group)%Z.

(** The enumerations for the cost stayed below the limit. *)
Definition choice_uncut (choice : LegalCostChoice) : Prop :=
  (length (choice_selections choice) < PROPOSAL_LIMIT)%nat /\
  (length (combinations (candidate_objects choice)
    (Z.to_nat (choice_min choice)) (Z.to_nat (choice_max choice))) < PROPOSAL_LIMIT)%nat.

Lemma fill_uncut {A} (l : list A) : (length (fill [] l) < PROPOSAL_LIMIT)%nat -> fill [] l = l.
Proof. unfold fill; cbn [app]. rewrite length_take. intros. apply take_ge. lia. Qed.

Lemma elem_of_combinations {T} (items s : list T) min max :
  (s ∈ combinations items min max ->
   s `sublist_of` items /\ (min <= length s <= max)%nat) /\
  ((length (combinations items min max) < PROPOSAL_LIMIT)%nat ->
   s `sublist_of` items -> (min <= length s <= max)%nat -> s ∈ combinations items min max).
Proof.
  assert (Hfit : forall l, s ∈ List.filter (fits min max 0) l <-> s ∈ l /\ (min <= length s <= max)%nat).
  { intros l. rewrite !list_elem_of_In, filter_In. unfold fits. cbn.
    rewrite andb_true_iff, !Nat.leb_le. done. }
  destruct (Nat.leb_spec min max) as [Hle|Hlt].
  - rewrite combinations_fill by done. split.
    + intros H%(proj1 (elem_of_fill _ s)). by rewrite Hfit, subs_sublist in H.
    + intros Hcut Hs Hlen. rewrite fill_uncut by done. by rewrite Hfit, subs_sublist.
  - unfold combinations. rewrite (proj2 (Nat.leb_gt _ _) Hlt). split; [by intros ?%elem_of_nil|lia].
Qed.

Lemma counter_selections_offered choice counter s :
  counter_removal choice = Some counter -> s ∈ counter_selections choice counter <-> offered choice s.
Proof.
  intros Hc. unfold offered, counter_selections. rewrite Hc, list_elem_of_bind. split.
  - intros (source & Hs & Hsource). apply list_elem_of_bind in Hs as (o & Hs & Ho). exists source, o.
    destruct (Z.leb_spec (counter_count counter) (available_count o)); [|by apply elem_of_nil in Hs].
    apply list_elem_of_singleton in Hs as ->. repeat split; try done.
    destruct (counter_source counter); [apply list_elem_of_singleton in Hsource as ->; auto|].
    apply list_elem_of_omap in Hsource as (c & ? & ?). eauto.
  - intros (source & o & Hsource & Ho & Hle & ->). exists source. split.
    + apply list_elem_of_bind. exists o. split; [|done].
      rewrite (proj2 (Z.leb_le _ _) Hle). by apply list_elem_of_singleton.
    + destruct Hsource as [->|(-> & c & Hc' & Ho')]; [by left|]. apply list_elem_of_omap. eauto.
Qed.

Lemma object_selections_elem choice s :
  s ∈ object_selections choice <->
  exists selected, selected ∈ combinations (candidate_objects choice)
      (Z.to_nat (choice_min choice)) (Z.to_nat (choice_max choice)) /\
    below_minimum choice selected = false /\
    s = if (zone choice =? COST_CHOICE_ZONE_GRAVEYARD)%Z
        then GraveyardObjects (omap object selected) else BattlefieldObjects (omap object selected).
Proof.
  unfold object_selections. rewrite list_elem_of_bind. split.
  - intros (sel & Hs & Hsel). exists sel. split; [done|].
    destruct (below_minimum choice sel); [by apply elem_of_nil in Hs|].
    by apply list_elem_of_singleton in Hs.
  - intros (sel & Hsel & Hb & ->). exists sel. split; [|done]. rewrite Hb. by apply list_elem_of_singleton.
Qed.

(** Everything proposed is offered; everything offered is proposed unless the limit was reached. *)
Lemma choice_selections_offered choice s :
  choice_ok choice ->
  (s ∈ choice_selections choice -> offered choice s) /\
  (choice_uncut choice -> offered choice s -> s ∈ choice_selections choice).
Proof.
  intros (Hmin & Hmax & Hgroup). unfold choice_uncut, choice_selections.
  destruct (counter_removal choice) as [counter|] eqn:Hc.
  { rewrite (counter_selections_offered choice counter s Hc). auto. }
  unfold offered. rewrite Hc. destruct (counter_removal_group choice) as [group|] eqn:Hg.
  { specialize (Hgroup group eq_refl). rewrite distribute_fill by (cbn; unfold PROPOSAL_LIMIT; lia).
    assert (Hsel : s ∈ selections [] (distributions (group_rows group) (required_count group)) <->
      exists d, drawn (group_rows group) d /\ total_count d = required_count group /\
        s = CounterRemovalGroup d).
    { unfold selections. rewrite list_elem_of_fmap. cbn. split.
      - intros (d & -> & H%elem_of_distributions); [|done]. exists d. intuition.
      - intros (d & H1 & H2 & ->). exists d. split; [done|]. by apply elem_of_distributions. }
    split.
    - intros H%(proj1 (elem_of_fill _ s)). by apply Hsel.
    - intros [Hcut _] H%Hsel. by rewrite fill_uncut. }
  destruct (_ =? COST_CHOICE_ZONE_HAND)%Z; [rewrite list_elem_of_fmap; naive_solver|].
  destruct (_ || _); [rewrite list_elem_of_fmap; naive_solver|].
  rewrite object_selections_elem. split.
  - intros (sel & Hsel & Hb & ->). exists sel.
    destruct (proj1 (elem_of_combinations _ _ _ _) Hsel).
    repeat split; try done; lia.
  - intros [_ Hcut] (sel & Hsub & Hlen & Hb & ->). exists sel. split; [|done].
    apply elem_of_combinations; [done|done|]. lia.
Qed.

(** ** Theorems *)

(** The combinations are the first sublists of the items with the wanted lengths, in the order in
    which the longer lists follow their beginnings, cut at the limit. *)
Theorem combinations_exact {T} (items : list T) min max :
  combinations items min max =
  take PROPOSAL_LIMIT (List.filter (fun s => (min <=? length s)%nat && (length s <=? max)%nat) (subs items)).
Proof.
  destruct (Nat.leb_spec min max) as [Hle|Hlt]; [by apply combinations_fill|].
  unfold combinations. rewrite (proj2 (Nat.leb_gt _ _) Hlt). symmetry.
  assert (H : forall l : list (list T),
    List.filter (fun s => (min <=? length s)%nat && (length s <=? max)%nat) l = []).
  { induction l as [|s l IH]; [done|]. cbn [List.filter].
    destruct (Nat.leb_spec min (length s)), (Nat.leb_spec (length s) max); try done; lia. }
  by rewrite H.
Qed.

(** A proposal for the costs of an offer has one selection per cost, under its index, and each
    is one the offer allows: sources and options with enough counters, removed counters that add
    up, sets of objects of the right size and weight. Where no enumeration reached the limit, every
    such row is proposed. *)
Theorem cost_selections_offered choices row :
  Forall choice_ok choices ->
  let fits_choice e choice :=
    selection_cost_index e = cost_index choice /\ exists s, selection e = Some s /\ offered choice s in
  (row ∈ cost_selections choices -> Forall2 fits_choice row choices) /\
  (Forall choice_uncut choices -> (length (cost_selections choices) < PROPOSAL_LIMIT)%nat ->
   Forall2 fits_choice row choices -> row ∈ cost_selections choices).
Proof.
  intros Hok. cbn zeta. unfold cost_selections. rewrite product_fill. split.
  - intros H%(proj1 (elem_of_fill _ row)). rewrite elem_of_cartesian, Forall2_fmap_r in H.
    apply Forall2_same_length_lookup_2; [by eapply Forall2_length|].
    intros i e choice He Hc. rewrite Forall_lookup in Hok. specialize (Hok i choice Hc).
    eapply Forall2_lookup_lr in H; [|done|done]. cbn in H.
    apply list_elem_of_fmap in H as (s & -> & Hs). split; [done|]. exists s. split; [done|].
    by apply choice_selections_offered.
  - intros Hcut Hlen H. rewrite fill_uncut by done. rewrite elem_of_cartesian, Forall2_fmap_r.
    apply Forall2_same_length_lookup_2; [by eapply Forall2_length|].
    intros i e choice He Hc. rewrite Forall_lookup in Hok, Hcut.
    eapply Forall2_lookup_lr in H as (Hi & s & Hs & Ho); [|done|done].
    apply list_elem_of_fmap. exists s. destruct e; cbn in *. subst. split; [done|].
    apply (proj2 (choice_selections_offered choice s (Hok i choice Hc))); [by eapply Hcut|done].
Qed.

(** ** An offer with a group of counters and a set of objects *)

Definition creature (id power : Z) : CostObjectCandidate :=
  {| object := Some {| object_id := id; zone_change_generation := 0 |}; contribution_value := power |}.

Definition sample_choice_of (index min max : Z) (objects : list CostObjectCandidate)
    (minimum : option Z) (group : option CounterRemovalGroupChoices) : LegalCostChoice :=
  {| cost_index := index; zone := 2; candidate_ids := []; choice_min := min; choice_max := max; kind := 4;
     candidate_objects := objects; counter_removal := None; aggregate_minimum := minimum;
     counter_removal_group := group |}.

(** Tap one or two creatures with power three or more together; remove two counters. *)
Definition sample_offer : list LegalCostChoice :=
  [sample_choice_of 0 1 2 [creature 1 1; creature 2 2; creature 3 3] (Some 3%Z) None;
   sample_choice_of 1 0 0 [] None
     (Some {| required_count := 2; group_candidates :=
       [{| candidate_object := None; candidate_options := [{| option_id := 9; available_count := 5 |}] |};
        {| candidate_object := None; candidate_options := [{| option_id := 8; available_count := 1 |}] |}] |})].

Example sample_offer_proposals :
  map (map choice_selections) [sample_offer] =
  [[[BattlefieldObjects (omap object [creature 1 1; creature 2 2]);
     BattlefieldObjects (omap object [creature 1 1; creature 3 3]);
     BattlefieldObjects (omap object [creature 2 2; creature 3 3]);
     BattlefieldObjects (omap object [creature 3 3])];
    [CounterRemovalGroup [contribution (None, 9, 5) 2];
     CounterRemovalGroup [contribution (None, 9, 5) 1; contribution (None, 8, 1) 1]]]]%Z.
Proof. vm_compute. reflexivity. Qed.

Lemma cost_selections_offered_witness :
  let row := [{| selection_cost_index := 0; selection := Some (BattlefieldObjects (omap object [creature 3 3])) |};
              {| selection_cost_index := 1;
                 selection := Some (CounterRemovalGroup [contribution (None, 9, 5) 2]) |}]%Z in
  row ∈ cost_selections sample_offer /\
  Forall2 (fun e choice => selection_cost_index e = cost_index choice /\
    exists s, selection e = Some s /\ offered choice s) row sample_offer.
Proof.
  assert (Hin : let row := [{| selection_cost_index := 0;
                   selection := Some (BattlefieldObjects (omap object [creature 3 3])) |};
                {| selection_cost_index := 1;
                   selection := Some (CounterRemovalGroup [contribution (None, 9, 5) 2]) |}]%Z in
    row ∈ cost_selections sample_offer).
  { apply (list_elem_of_lookup_2 _ 6). vm_compute. reflexivity. }
  split; [exact Hin|].
  apply (cost_selections_offered sample_offer); [|exact Hin].
  unfold sample_offer. rewrite !Forall_cons. unfold choice_ok, sample_choice_of. cbn.
  repeat split; try lia; try (by intros g [=]); try constructor.
  intros g [= <-]. cbn. lia.
Defined.
