(* ===== verification/Proposals.v ===== *)
(** * The proposals cover the payments

    The branches [phyrexian_choices] proposes against the validation of
    announced branches and the planner: every proposal is a valid announcement,
    and where the proposals were not cut, whatever an announcement plans some
    proposal plans as well. *)
From S2P Require Import Prelude ManaCost FlexSolver Demand ManaPayment PlanCorrect Candidates.
Open Scope cockatrice_scope.
#[local] Open Scope list_scope.

(** A branch of a symbol, as a validated announcement has it. *)
Definition branch (p : ManaSymbol) (s : option PhyrexianPayment) : Prop :=
  match p, s with
  | ManaSymbol.Phyrexian c, Some (PhyrexianPayment.Mana c') => c' = c
  | ManaSymbol.HybridPhyrexian a b, Some (PhyrexianPayment.Mana c) => c = a \/ c = b
  | (ManaSymbol.Phyrexian _ | ManaSymbol.HybridPhyrexian _ _), Some PhyrexianPayment.Life => True
  | (ManaSymbol.Phyrexian _ | ManaSymbol.HybridPhyrexian _ _), None => False
  | _, s => s = None
  end.

(** What a client writes to announce the branch of the symbol at [index]. *)
Definition declared_one (index : nat) (p : ManaSymbol) (s : option PhyrexianPayment)
    : option FlexPipPayment :=
  let entry life color :=
    Some {| pip_index := wrap_u32 (Z.of_nat index); pay_life := life; mana_color := color |} in
  match p, s with
  | (ManaSymbol.Phyrexian _ | ManaSymbol.HybridPhyrexian _ _), Some PhyrexianPayment.Life => entry true 0%Z
  | ManaSymbol.Phyrexian _, Some (PhyrexianPayment.Mana _) => entry false 0%Z
  | ManaSymbol.HybridPhyrexian _ _, Some (PhyrexianPayment.Mana c) =>
      entry false (Z.of_nat (color_index c) + 1)%Z
  | _, _ => None
  end.

Fixpoint declared (index : nat) (ps : list ManaSymbol) (ph : list (option PhyrexianPayment))
    : list FlexPipPayment :=
  match ps, ph with
  | p :: ps, s :: ph => option_list (declared_one index p s) ++ declared (S index) ps ph
  | _, _ => []
  end.

Lemma variants_declared index p v g :
  phyrexian_variants index p = Some g ->
  v ∈ g <-> exists s, branch p s /\ declared_one index p s = Some v.
Proof.
  destruct p; cbn [phyrexian_variants]; intros [= <-]; cbn [map app];
    rewrite ?elem_of_cons, ?elem_of_nil; split.
  - intros [-> | [-> | []]]; [by exists (Some (PhyrexianPayment.Mana c))|by exists (Some PhyrexianPayment.Life)].
  - intros ([[c'|]|] & Hb & E); cbn in *; simplify_eq; auto.
  - intros [-> | [-> | [-> | []]]];
      [exists (Some (PhyrexianPayment.Mana a))|exists (Some (PhyrexianPayment.Mana b))|
       by exists (Some PhyrexianPayment.Life)]; (split; [cbn; auto|done]).
  - intros ([[c'|]|] & Hb & E); cbn in *; simplify_eq; auto. destruct Hb as [-> | ->]; auto.
Qed.

Lemma variants_none index p s : phyrexian_variants index p = None -> declared_one index p s = None.
Proof. by destruct p. Qed.

Lemma variants_none_branch index p s : phyrexian_variants index p = None -> branch p s -> s = None.
Proof. by destruct p. Qed.

Lemma variants_some_declared index p s g :
  phyrexian_variants index p = Some g -> branch p s -> exists v, declared_one index p s = Some v.
Proof. destruct p; try done; destruct s as [[]|]; try done; cbn; eauto. Qed.

(** A row of the product declares one branch for each Phyrexian symbol. *)
Lemma cartesian_declared ps index row :
  row ∈ cartesian (phyrexian_groups ps index) <->
  exists ph, Forall2 branch ps ph /\ row = declared index ps ph.
Proof.
  rewrite elem_of_cartesian. revert index row. induction ps as [|p ps IH]; intros index row;
    cbn [phyrexian_groups].
  - split; [intros ->%Forall2_nil_inv_r; by exists []|by intros (ph & _ & ->)].
  - destruct (phyrexian_variants index p) as [g|] eqn:Hv.
    + split.
      * intros (v & row' & Hin & Hrow & ->)%Forall2_cons_inv_r.
        apply IH in Hrow as (ph & Hph & ->). apply (variants_declared _ _ _ _ Hv) in Hin as (s & Hs & E).
        exists (s :: ph). split; [by constructor|]. cbn [declared]. by rewrite E.
      * intros (ph & Hph & ->). apply Forall2_cons_inv_l in Hph as (s & ph' & Hs & Hph & ->).
        cbn [declared]. destruct (variants_some_declared _ _ _ _ Hv Hs) as [v E]. rewrite E.
        constructor; [apply (variants_declared _ _ _ _ Hv); eauto|]. apply IH. eauto.
    + rewrite IH. split.
      * intros (ph & Hph & ->). exists (None :: ph). split; [|by cbn [declared]; rewrite (variants_none _ _ _ Hv)].
        constructor; [by destruct p|done].
      * intros (ph & Hph & ->). apply Forall2_cons_inv_l in Hph as (s & ph' & Hs & Hph & ->).
        exists ph'. split; [done|]. cbn [declared]. by rewrite (variants_none _ _ _ Hv).
Qed.

(** ** Validation *)

Lemma phyrexian_branch_declared index p s v :
  branch p s -> declared_one index p s = Some v -> exists b, s = Some b /\ phyrexian_branch p v = Ok b.
Proof.
  destruct p as [| | | | | | | | | |c|a b]; destruct s as [[c'|]|]; cbn;
    intros Hb [= <-]; try done; eexists; (split; [reflexivity|]); cbn; subst; try done.
  assert (Hc : mana_color_try_from (Z.of_nat (color_index c') + 1) = Some c') by by destruct c'.
  rewrite Hc. destruct Hb as [<-|<-].
  - by rewrite (bool_decide_false (c' <> c')) by naive_solver.
  - rewrite andb_comm. by rewrite (bool_decide_false (c' <> c')) by naive_solver.
Qed.

(** The declarations of the symbols behind [pre], chosen one after the other. *)
Lemma select_declared pre ps ph done_ :
  (Z.of_nat (length (pre ++ ps)) <= u32_max)%Z ->
  Forall2 branch ps ph -> length done_ = length pre ->
  select_choices {| pips := pre ++ ps |} (done_ ++ replicate (length ps) None)
    (declared (length pre) ps ph) = Ok (done_ ++ ph).
Proof.
  intros Hlen Hb. revert pre done_ Hlen. induction Hb as [|p s ps ph Hs Hb IH]; intros pre done_ Hlen Hd.
  { done. }
  cbn [declared length replicate].
  assert (Hnext : forall b, select_choices {| pips := pre ++ p :: ps |}
      (done_ ++ b :: replicate (length ps) None) (declared (S (length pre)) ps ph) =
      Ok (done_ ++ b :: ph)).
  { intros b. specialize (IH (pre ++ [p]) (done_ ++ [b])).
    rewrite !length_app, <- !app_assoc in IH. cbn [app length] in IH. rewrite Nat.add_1_r in IH.
    rewrite length_app in Hlen. cbn [length] in Hlen. apply IH; [cbn; lia|lia]. }
  destruct (declared_one (length pre) p s) as [v|] eqn:E; cbn [option_list app].
  - destruct (phyrexian_branch_declared _ _ _ _ Hs E) as (b & -> & Hbr).
    change (option_list (Some v) ++ ?l) with (v :: l). cbn [select_choices].
    unfold select_choice. replace (pip_index v) with (Z.of_nat (length pre)).
    + rewrite Nat2Z.id. cbn [pips]. rewrite list_lookup_middle by done.
      rewrite list_lookup_middle by congruence. rewrite Hbr. cbn [rbind].
      rewrite <- Hd, insert_app_r_alt, Nat.sub_diag by lia. cbn. rewrite Hd. apply Hnext.
    + assert (Hr : u32_range (Z.of_nat (length pre))) by (rewrite length_app in Hlen; cbn in Hlen; mlia).
      destruct p, b; cbn in E; simplify_eq; cbn; by rewrite wrap_u32_small.
  - assert (s = None) as -> by (destruct p, s as [[]|]; cbn in *; simplify_eq; done).
    apply Hnext.
Qed.

Lemma default_branches_complete ps ph : Forall2 branch ps ph -> default_branches ps ph = Ok ph.
Proof.
  induction 1 as [|p s ps ph Hs _ IH]; [done|]. cbn [default_branches]. rewrite IH.
  destruct p, s as [[]|]; cbn in *; try done; contradiction.
Qed.

Lemma validated_declared cost ph :
  (Z.of_nat (length (pips cost)) <= u32_max)%Z -> Forall2 branch (pips cost) ph ->
  validated_phyrexian_choices cost (declared 0 (pips cost) ph) = Ok ph.
Proof.
  intros Hlen Hb. unfold validated_phyrexian_choices.
  assert (H := select_declared [] (pips cost) ph [] Hlen Hb eq_refl). cbn [app length] in H.
  destruct cost as [ps]. cbn [pips] in *. rewrite H. cbn [rbind]. by apply default_branches_complete.
Qed.

(** Whatever validation accepts is a branch for every symbol. *)
Lemma phyrexian_branch_ok p v b : phyrexian_branch p v = Ok b -> branch p (Some b).
Proof.
  destruct p; cbn; try done.
  - destruct (_ =? 0)%Z; [|done]. destruct (pay_life v); by intros [= <-].
  - destruct (pay_life v); [destruct (_ =? 0)%Z; by intros [= <-]|].
    destruct (mana_color_try_from _) as [c|]; [|done].
    repeat case_bool_decide; cbn; try done; intros [= <-]; cbn; destruct (decide (c = a)); auto;
      destruct (decide (c = b0)); auto; naive_solver.
Qed.

Definition undecided (p : ManaSymbol) (s : option PhyrexianPayment) : Prop := s = None \/ branch p s.

Lemma select_choices_undecided cost sel choices out :
  Forall2 undecided (pips cost) sel -> select_choices cost sel choices = Ok out ->
  Forall2 undecided (pips cost) out.
Proof.
  revert sel. induction choices as [|v choices IH]; intros sel Hsel; cbn [select_choices].
  { by intros [= <-]. }
  intros (sel' & Hs & He)%rbind_Ok. apply (IH sel'); [|done].
  unfold select_choice in Hs. destruct (pips cost !! _) as [p|] eqn:Hp; [|done].
  assert (Hnew : forall b, phyrexian_branch p v = Ok b ->
    Forall2 undecided (pips cost) (<[Z.to_nat (pip_index v) := Some b]> sel)).
  { intros b Hb%phyrexian_branch_ok. rewrite <- (list_insert_id (pips cost) _ p) by done.
    apply Forall2_insert; [done|by right]. }
  destruct (sel !! _) as [[]|]; try done; apply rbind_Ok in Hs as (b & Hb & [= <-]); auto.
Qed.

Lemma default_branches_branch ps sel ph :
  Forall2 undecided ps sel -> default_branches ps sel = Ok ph -> Forall2 branch ps ph.
Proof.
  intros H. revert ph. induction H as [|p s ps sel Hs _ IH]; intros ph; cbn [default_branches].
  { intros [= <-]. constructor. }
  intros (s' & Hd & (rest & Hr & [= <-])%rbind_Ok)%rbind_Ok.
  constructor; [|by apply IH].
  destruct Hs as [->|Hs]; [destruct p; cbn in Hd; by simplify_eq/=|].
  destruct p, s as [[]|]; cbn in Hd, Hs; simplify_eq/=; done.
Qed.

Lemma validated_branch cost choices ph :
  validated_phyrexian_choices cost choices = Ok ph -> Forall2 branch (pips cost) ph.
Proof.
  unfold validated_phyrexian_choices. intros (sel & Hs & Hd)%rbind_Ok.
  eapply default_branches_branch; [|exact Hd]. eapply select_choices_undecided; [|exact Hs].
  apply Forall2_same_length_lookup_2; [by rewrite length_replicate|].
  intros i p s _ [-> _]%lookup_replicate. by left.
Qed.

(** ** The planner sees only the validated branches *)

Lemma plan_of_branches state i cost x inc red lp lp' sels eligible any ph :
  validated_phyrexian_choices cost lp = Ok ph -> validated_phyrexian_choices cost lp' = Ok ph ->
  plan_mana_payment_with_any_color state i cost x inc red lp sels eligible any =
  plan_mana_payment_with_any_color state i cost x inc red lp' sels eligible any.
Proof.
  intros H H'. unfold plan_mana_payment_with_any_color, solve_remaining, normalize. by rewrite H, H'.
Qed.

(** ** Theorems *)

(** C26. Every proposal for the Phyrexian symbols of a cost is a valid announcement, and where the
    proposals stayed below the limit, whatever some announcement makes the planner return some
    proposal makes it return. *)
Theorem proposals_cover_plans state i cost x inc red sels eligible any :
  (Z.of_nat (length (pips cost)) <= u32_max)%Z ->
  let plan lp := plan_mana_payment_with_any_color state i cost x inc red lp sels eligible any in
  (forall lp, lp ∈ phyrexian_choices cost -> is_ok (validated_phyrexian_choices cost lp) = true) /\
  ((length (phyrexian_choices cost) < PROPOSAL_LIMIT)%nat ->
   forall lp p, plan lp = Ok p -> exists lp', lp' ∈ phyrexian_choices cost /\ plan lp' = Ok p).
Proof.
  intros Hlen plan. unfold phyrexian_choices. rewrite product_fill. split.
  - intros lp H%(proj1 (elem_of_fill _ lp)). apply cartesian_declared in H as (ph & Hb & ->).
    by rewrite (validated_declared cost ph Hlen Hb).
  - intros Hcut lp p Hp. rewrite fill_uncut by done.
    destruct (validated_phyrexian_choices cost lp) as [ph|e] eqn:Hv.
    + assert (Hb := validated_branch _ _ _ Hv). exists (declared 0 (pips cost) ph).
      split; [apply cartesian_declared; eauto|]. rewrite <- Hp.
      by apply plan_of_branches with ph; [apply validated_declared|].
    + unfold plan, plan_mana_payment_with_any_color in Hp. by rewrite Hv in Hp.
Qed.

(** ** A cost with a Phyrexian symbol of either kind *)

Definition phyrexian_cost : ManaCost :=
  {| pips := [ManaSymbol.Generic 1; ManaSymbol.Phyrexian ColorPip.U;
              ManaSymbol.HybridPhyrexian ColorPip.W ColorPip.R] |}.

Example phyrexian_proposals :
  map (map (fun c => (pip_index c, pay_life c, mana_color c))) (phyrexian_choices phyrexian_cost) =
  [[(1, false, 0); (2, false, 1)]; [(1, false, 0); (2, false, 4)]; [(1, false, 0); (2, true, 0)];
   [(1, true, 0); (2, false, 1)]; [(1, true, 0); (2, false, 4)]; [(1, true, 0); (2, true, 0)]]%Z.
Proof. vm_compute. reflexivity. Qed.

Lemma proposals_cover_plans_witness :
  exists p, plan_mana_payment_with_any_color sample_state 0 sample_cost 0 0 0 [sample_choice] [] [] false
    = Ok p /\
  exists lp', lp' ∈ phyrexian_choices sample_cost /\
    plan_mana_payment_with_any_color sample_state 0 sample_cost 0 0 0 lp' [] [] false = Ok p.
Proof.
  eexists. split; [vm_compute; reflexivity|].
  apply (proj2 (proposals_cover_plans sample_state 0 sample_cost 0 0 0 [] [] false
    ltac:(vm_compute; discriminate)) ltac:(vm_compute; lia) [sample_choice]).
  vm_compute. reflexivity.
Defined.
