(* ===== verification/CommitCorrect.v ===== *)
(** * Committing, rechecking and rebasing mana payments

    What [commit_mana_payment] does to the state, given a plan the planner
    returned: the pool, the restricted contributions and the life total go down
    by exactly what the plan says and nothing else moves. Also the recheck
    [mana_payment_still_valid], the rebasing of an accepted receipt and the
    life-change commits of [engine/history.rs]. *)
From S2P Require Import Prelude ManaCost FlexSolver Demand ManaPayment PlanCorrect.
Open Scope cockatrice_scope.
Local Open Scope Z_scope.

(** ** Specification *)

(** The mana of one slot held by one restriction group, exactly. *)
Definition group_sum (g : Z) (slot : nat) (es : list RestrictedManaContribution) : Z :=
  zsum (map (fun e => if restriction_group_id e =? g
                      then amount_vec (contribution e) !!! slot else 0) es).

Definition restricted_total (es : list RestrictedManaContribution) : Z :=
  zsum (map (fun e => zsum (amount_vec (contribution e))) es).

Definition wf_entry (e : RestrictedManaContribution) : Prop :=
  wf_pool (amount_vec (contribution e)).

(** Everything a player can spend, ordinary and restricted. *)
Definition player_mana (p : PlayerState) : Z :=
  zsum (pool_vec (mana_pool p)) + restricted_total (restricted_mana p).

(** The invariant of a player between commands: no negative mana, retained
    combat mana is part of the pool, the life total is an [i32], and the
    restricted contributions are not empty. *)
Record player_ok (p : PlayerState) : Prop := {
  ok_pools : wf_player p;
  ok_retained : forall i, (i < 6)%nat ->
    pool_vec (retained_combat_mana p) !!! i <= pool_vec (mana_pool p) !!! i;
  ok_life : i32_range (player_life p);
  ok_entries : Forall (fun e => wf_entry e /\ 0 < zsum (amount_vec (contribution e)))
                 (restricted_mana p)
}.

(** ** Amounts as vectors *)

Lemma amount_vec_length a : length (amount_vec a) = 6%nat.
Proof. done. Qed.

Lemma amount_vec_of_vec v : length v = 6%nat -> amount_vec (amount_of_vec v) = v.
Proof. intros Hl. do 7 (destruct v as [|? v]; try done). Qed.

Lemma pool_vec_of_vec v : length v = 6%nat -> pool_vec (pool_of_vec v) = v.
Proof. intros Hl. do 7 (destruct v as [|? v]; try done). Qed.

(** ** Debiting restricted contributions *)

Lemma debit_slot_spec g slot l es :
  (slot < 6)%nat -> Forall wf_entry es -> 0 <= l <= group_sum g slot es ->
  Forall wf_entry (debit_slot g slot l es) /\
  restricted_total (debit_slot g slot l es) = restricted_total es - l /\
  forall g' slot', (slot' < 6)%nat -> group_sum g' slot' (debit_slot g slot l es) =
    group_sum g' slot' es - (if (g' =? g) && Nat.eqb slot' slot then l else 0).
Proof.
  intros Hs Hw. revert l. unfold group_sum, restricted_total.
  induction Hw as [|e es He Hw IH]; intros l Hl; cbn [debit_slot map zsum] in *.
  { split_and!; [constructor|lia|]. intros. assert (l = 0) as -> by lia. by destruct (_ && _). }
  assert (Ht : 0 <= zsum (map (fun e => if restriction_group_id e =? g
                      then amount_vec (contribution e) !!! slot else 0) es)).
  { apply zsum_nonneg, Forall_map. eapply Forall_impl; [exact Hw|].
    intros e' He'. cbv beta. destruct (restriction_group_id e' =? g); [by apply wf_pool_nonneg|lia]. }
  destruct (Z.eqb_spec (restriction_group_id e) g) as [Hg|Hg]; cbn [andb].
  2: { destruct (IH l ltac:(lia)) as (H1 & H2 & H3). cbn [map zsum].
       split_and!; [by constructor|lia|]. intros g' s' Hs'. rewrite H3 by done. lia. }
  pose proof (wf_pool_nonneg _ slot He) as Hf.
  destruct (Z.eqb_spec l 0) as [->|Hl0]; cbn [negb].
  { destruct (IH 0 ltac:(lia)) as (H1 & H2 & H3).
    cbn [map zsum]. split_and!; [by constructor|lia|].
    intros g' s' Hs'. rewrite H3 by done. lia. }
  set (t := Z.min l (amount_vec (contribution e) !!! slot)).
  destruct (IH (l - t) ltac:(lia)) as (H1 & H2 & H3).
  cbn [map zsum restriction_group_id contribution].
  rewrite amount_vec_of_vec by (by rewrite length_insert). rewrite zsum_insert_total by done.
  split_and!; [|lia|].
  - constructor; [|done]. unfold wf_entry. cbn [contribution].
    rewrite amount_vec_of_vec by (by rewrite length_insert). destruct He as [Hel Hen].
    split; [by rewrite length_insert|]. apply Forall_insert; [done|]. lia.
  - intros g' s' Hs'. rewrite H3 by done. rewrite lookup_total_insert by done.
    rewrite (Nat.eqb_sym s' slot), Hg.
    destruct (Z.eqb_spec g' g), (Z.eqb_spec g g'), (Nat.eqb_spec slot s'); subst; simpl;
      congruence || lia.
Qed.

(** The slots before [k] are debited. *)
Lemma debit_amount_fold g a es k :
  (k <= 6)%nat -> wf_pool (amount_vec a) -> Forall wf_entry es ->
  (forall s, (s < 6)%nat -> amount_vec a !!! s <= group_sum g s es) ->
  let es' := fold_left (fun es s => debit_slot g s (amount_vec a !!! s) es) (seq 0 k) es in
  Forall wf_entry es' /\
  restricted_total es' =
    restricted_total es - zsum (map (fun s => amount_vec a !!! s) (seq 0 k)) /\
  forall g' s, (s < 6)%nat -> group_sum g' s es' =
    group_sum g' s es - (if (g' =? g) && (s <? k)%nat then amount_vec a !!! s else 0).
Proof.
  intros Hk Ha Hw Hle. induction k as [|k IH].
  { cbn [seq fold_left map zsum]. split_and!; [done|lia|].
    intros. rewrite andb_false_r. lia. }
  destruct (IH ltac:(lia)) as (H1 & H2 & H3). clear IH. cbv zeta.
  rewrite seq_S, fold_left_app, map_app, zsum_app, Nat.add_0_l. cbn [fold_left map zsum].
  set (es1 := fold_left _ (seq 0 k) es) in *.
  destruct (debit_slot_spec g k (amount_vec a !!! k) es1 ltac:(lia) H1) as (H4 & H5 & H6).
  { split; [by apply wf_pool_nonneg|]. rewrite H3 by lia. rewrite Nat.ltb_irrefl, andb_false_r.
    specialize (Hle k ltac:(lia)). lia. }
  split_and!; [done|lia|]. intros g' s Hs. rewrite H6, H3 by done.
  destruct (Z.eqb_spec g' g), (Nat.eqb_spec s k), (Nat.ltb_spec s k), (Nat.ltb_spec s (S k));
    subst; simpl; try lia.
Qed.

Lemma debit_amount_spec g a es :
  wf_pool (amount_vec a) -> Forall wf_entry es ->
  (forall s, (s < 6)%nat -> amount_vec a !!! s <= group_sum g s es) ->
  Forall wf_entry (debit_amount g a es) /\
  restricted_total (debit_amount g a es) = restricted_total es - zsum (amount_vec a) /\
  forall g' s, (s < 6)%nat -> group_sum g' s (debit_amount g a es) =
    group_sum g' s es - (if g' =? g then amount_vec a !!! s else 0).
Proof.
  intros Ha Hw Hle. destruct (debit_amount_fold g a es 6 ltac:(lia) Ha Hw Hle) as (H1 & H2 & H3).
  split_and!; [done|done|].
  intros g' s Hs. unfold debit_amount. rewrite H3 by done.
  by rewrite (proj2 (Nat.ltb_lt s 6)), andb_true_r by done.
Qed.

(** ** Dropping the empty contributions *)

Lemma nonempty_entry_spec e :
  wf_entry e -> zsum (amount_vec (contribution e)) <= u32_max ->
  nonempty_entry e = (0 <? zsum (amount_vec (contribution e))).
Proof. intros [_ Hn] Hb. unfold nonempty_entry. by rewrite fold_u32_add. Qed.

Lemma zsum_entries_nonneg es : Forall wf_entry es -> 0 <= restricted_total es.
Proof.
  intros Hw. apply zsum_nonneg, Forall_map. eapply Forall_impl; [exact Hw|].
  intros e [_ He]. by apply zsum_nonneg.
Qed.

(** Dropping them changes no sum. *)
Lemma filter_nonempty_spec es :
  Forall wf_entry es -> restricted_total es <= u32_max ->
  let es' := List.filter nonempty_entry es in
  Forall (fun e => wf_entry e /\ 0 < zsum (amount_vec (contribution e))) es' /\
  restricted_total es' = restricted_total es /\
  forall g s, (s < 6)%nat -> group_sum g s es' = group_sum g s es.
Proof.
  intros Hw. unfold restricted_total, group_sum. induction Hw as [|e es He Hw IH];
    intros Hb; cbn [List.filter map zsum] in *; [by split_and!|].
  pose proof (zsum_entries_nonneg _ Hw) as Ht. unfold restricted_total in Ht.
  pose proof (zsum_nonneg _ (proj2 He)) as Hz.
  rewrite nonempty_entry_spec by (done || lia).
  destruct (IH ltac:(lia)) as (H1 & H2 & H3). destruct (Z.ltb_spec 0 (zsum (amount_vec (contribution e)))).
  - cbn [map zsum]. split_and!; [by constructor|lia|].
    intros g s Hs. rewrite H3 by done. lia.
  - split_and!; [done|lia|]. intros g s Hs. rewrite H3 by done.
    pose proof (zsum_lookup_le (amount_vec (contribution e)) s ltac:(simpl; lia) (proj2 He)).
    pose proof (wf_pool_nonneg _ s He). destruct (_ =? g); lia.
Qed.

(** The amount a plan takes from a group. *)
Definition spent_in (spent : list (Z * ManaAmount)) (g : Z) (s : nat) : Z :=
  zsum (map (fun ga : Z * ManaAmount =>
               if g =? ga.1 then amount_vec ga.2 !!! s else 0) spent).

Lemma spent_in_notin spent g s : g ∉ map fst spent -> spent_in spent g s = 0.
Proof.
  unfold spent_in. induction spent as [|[h a] spent IH]; cbn [map zsum fst snd]; [done|].
  intros Hni. apply not_elem_of_cons in Hni as [Hne Hni].
  rewrite (proj2 (Z.eqb_neq g h)) by done. by apply IH.
Qed.

Definition spendable (es : list RestrictedManaContribution) (spent : list (Z * ManaAmount)) : Prop :=
  NoDup (map fst spent) /\
  Forall (fun ga : Z * ManaAmount => wf_pool (amount_vec ga.2) /\
            forall s, (s < 6)%nat -> amount_vec ga.2 !!! s <= group_sum ga.1 s es) spent.

Lemma debit_restricted_spec spent es :
  spendable es spent ->
  Forall (fun e => wf_entry e /\ 0 < zsum (amount_vec (contribution e))) es ->
  restricted_total es <= u32_max ->
  let es' := debit_restricted spent es in
  Forall (fun e => wf_entry e /\ 0 < zsum (amount_vec (contribution e))) es' /\
  restricted_total es' =
    restricted_total es - zsum (map (fun ga : Z * ManaAmount => zsum (amount_vec ga.2)) spent) /\
  forall g s, (s < 6)%nat -> group_sum g s es' = group_sum g s es - spent_in spent g s.
Proof.
  unfold debit_restricted. revert es. induction spent as [|[h a] spent IH]; intros es [Hnd Hsp] Hw Hb.
  { cbn [fold_left map zsum]. split_and!; [done|lia|]. intros. unfold spent_in. simpl. lia. }
  apply NoDup_cons in Hnd as [Hni Hnd]. apply Forall_cons in Hsp as [[Ha Hle] Hsp].
  cbn [fst snd] in *. cbn [fold_left fst snd].
  assert (Hw' : Forall wf_entry es) by (eapply Forall_impl; [exact Hw|]; by intros ? [? _]).
  destruct (debit_amount_spec h a es Ha Hw' Hle) as (H1 & H2 & H3).
  pose proof (zsum_nonneg _ (proj2 Ha)) as Hz.
  destruct (filter_nonempty_spec _ H1 ltac:(lia)) as (H4 & H5 & H6).
  set (es1 := List.filter nonempty_entry (debit_amount h a es)) in *.
  assert (Hgs : forall g s, (s < 6)%nat ->
    group_sum g s es1 = group_sum g s es - (if g =? h then amount_vec a !!! s else 0))
    by (intros; rewrite H6, H3 by done; done).
  destruct (IH es1) as (H7 & H8 & H9); [|done|lia|].
  - split; [done|]. apply Forall_forall. intros [g b] Hin. rewrite Forall_forall in Hsp.
    destruct (Hsp _ Hin) as [Hb1 Hb2]. cbn [fst snd] in *. split; [done|]. intros s Hs.
    rewrite Hgs by done. rewrite (proj2 (Z.eqb_neq g h)), Z.sub_0_r; [by apply Hb2|].
    intros ->. apply Hni. apply list_elem_of_fmap. by exists (h, b).
  - split_and!; [done|cbn [map zsum fst snd]; lia|].
    intros g s Hs. rewrite H9, Hgs by done. unfold spent_in. cbn [map zsum fst snd]. lia.
Qed.

(** ** What a plan of the planner guarantees *)

Lemma available_in_group_spec g es :
  Forall wf_entry es -> restricted_total es <= u32_max ->
  forall s, (s < 6)%nat -> amount_vec (available_in_group g es) !!! s = group_sum g s es.
Proof.
  intros Hw Hb s Hs. unfold available_in_group.
  enough (H : forall tot, wf_pool (amount_vec tot) ->
    zsum (amount_vec tot) + restricted_total es <= u32_max ->
    amount_vec (fold_left (fun t e => add_amounts t (contribution e))
      (List.filter (fun e => restriction_group_id e =? g) es) tot) !!! s =
    amount_vec tot !!! s + group_sum g s es).
  { rewrite H; [|split; [done|apply nonneg_of_lookups; intros i Hi]|exact Hb].
    - do 6 (destruct s as [|s]; [done|]). lia.
    - do 6 (destruct i as [|i]; [done|]). simpl in Hi. lia. }
  clear Hb. unfold group_sum, restricted_total.
  induction Hw as [|e es He Hw IH]; intros tot Ht Hb; cbn [List.filter fold_left map zsum] in *; [lia|].
  pose proof (zsum_entries_nonneg _ Hw) as Hrest. unfold restricted_total in Hrest.
  pose proof (zsum_nonneg _ (proj2 He)) as Hez. pose proof (zsum_nonneg _ (proj2 Ht)) as Htz.
  destruct (_ =? g); [|rewrite IH by (done || lia); lia].
  assert (Hv : amount_vec (add_amounts tot (contribution e)) =
               zip_with Z.add (amount_vec tot) (amount_vec (contribution e))).
  { destruct He as [_ He], Ht as [_ Ht]. unfold amount_vec in *.
    rewrite !Forall_cons in He, Ht. cbn [zsum] in *. unfold add_amounts. simpl.
    repeat f_equal; apply u32_add_small; lia. }
  cbn [fold_left]. rewrite IH.
  - rewrite Hv, zip_with_total by (simpl; lia). lia.
  - rewrite Hv. apply wf_pool_intro; [done|]. intros i Hi. rewrite zip_with_total by (simpl; lia).
    pose proof (wf_pool_nonneg _ i He). pose proof (wf_pool_nonneg _ i Ht). lia.
  - rewrite Hv. enough (zsum (zip_with Z.add (amount_vec tot) (amount_vec (contribution e))) =
      zsum (amount_vec tot) + zsum (amount_vec (contribution e))) by lia.
    unfold amount_vec. simpl. lia.
Qed.

Record plan_for (state : GameState) (i : nat) (plan : ManaPaymentPlan) : Prop := {
  for_remaining : wf_pool (remaining plan);
  for_capped : capped (remaining plan) (pool_of state i);
  for_pool : expected_pool plan = pool_of state i;
  for_life : expected_life plan = player_life (players state !!! i);
  for_retained : expected_retained_combat plan =
                   pool_vec (retained_combat_mana (players state !!! i));
  for_restricted : expected_restricted plan = restricted_mana (players state !!! i);
  for_rem_retained : remaining_retained_combat plan =
    zip_with Z.min (pool_vec (retained_combat_mana (players state !!! i))) (remaining plan);
  for_groups : NoDup (map fst (restricted_spent plan));
  for_spent : Forall (fun ga : Z * ManaAmount => wf_pool (amount_vec ga.2) /\
      forall s, (s < 6)%nat -> amount_vec ga.2 !!! s <=
        amount_vec (available_in_group ga.1 (restricted_mana (players state !!! i))) !!! s)
    (restricted_spent plan);
  for_nonempty : Forall (fun ga : Z * ManaAmount =>
      exists s, (s < 6)%nat /\ amount_vec ga.2 !!! s <> 0) (restricted_spent plan);
  for_cost : 0 <= life_cost plan <= i32_max /\
    (life_cost plan = 0 \/ life_cost plan <= player_life (players state !!! i))
}.

(** Both solvers leave a part of the ordinary pool: the plain one starts from
    it, the other is capped by it. *)
Lemma solvers_bound (no_restricted : bool) pool w flex g r :
  wf_pool w -> wf_pool pool -> wf_flex flex -> 0 <= g -> g + mono_total flex <= u32_max ->
  (no_restricted = true -> capped w pool) ->
  (if no_restricted then solve_flex w flex g
   else solve_flex_with_required_spend w flex g pool) = Some r ->
  wf_pool r /\ capped r pool.
Proof.
  intros Hw Hp Hf Hg Hov Hc Hs.
  assert (Hsol : forall P, search_ok P (Some r) w flex g -> wf_pool r /\
    forall j, (j < 6)%nat -> r !!! j <= w !!! j).
  { intros P [(fp & Hfp & Hl & Hb & _) _].
    split; [apply wf_pool_intro; [done|]; intros j Hj; by apply Hb|].
    intros j Hj. specialize (Hb j Hj). pose proof (picked_nonneg _ _ j Hf Hfp). lia. }
  destruct no_restricted.
  - pose proof (solve_flex_search w flex g Hw Hf Hg Hov) as H. rewrite Hs in H.
    destruct (Hsol _ H) as [Hr Hle]. split; [done|]. intros j Hj.
    specialize (Hc eq_refl j Hj). specialize (Hle j Hj). lia.
  - pose proof (solve_required_search w flex g pool Hw Hp Hf Hg Hov) as H. rewrite Hs in H.
    split; [by eapply Hsol|]. by destruct H as [_ ?].
Qed.

Lemma generic_of_demand_bound d g :
  wf_demand d -> generic_of_demand d = Some g -> 0 <= g <= u32_max.
Proof.
  intros [Hl Hn]. unfold generic_of_demand.
  enough (H : forall l acc, Forall (fun i => (i < 7)%nat) l ->
    (forall s, acc = Some s -> 0 <= s <= u32_max) ->
    fold_left (fun (acc : option Z) (i : nat) =>
      s ← acc; if Nat.eqb i POOL_C then Some s else u32_checked_add s (amounts d !!! i)) l acc =
    Some g -> 0 <= g <= u32_max).
  { apply H; [|intros s [= <-]; mlia]. apply Forall_forall. intros i Hi%elem_of_seq. lia. }
  induction l as [|i l IH]; intros acc Hlt Ha; cbn [fold_left]; [apply Ha|].
  apply Forall_cons in Hlt as [Hi Hlt]. apply IH; [done|].
  intros s Hs. destruct acc as [a|]; [|done]. simpl in Hs. specialize (Ha a eq_refl).
  destruct (Nat.eqb i POOL_C); [by simplify_eq|].
  apply u32_checked_add_Some in Hs as [Hb ->]. pose proof (nonneg_lookup_total _ i Hn). lia.
Qed.

Lemma find_map_demand_Some f ds r :
  find_map_demand f ds = Some r -> exists d, d ∈ ds /\ f d = Some r.
Proof.
  induction ds as [|d ds IH]; cbn [find_map_demand]; [done|].
  destruct (f d) as [r'|] eqn:He; [intros [= <-]|intros Hf].
  - exists d. split; [left|done].
  - destruct (IH Hf) as (d' & ? & ?). exists d'. split; [by right|done].
Qed.

Lemma key_insert_elem d e s : e ∈ key_insert d s <-> e = d \/ e ∈ s.
Proof.
  induction s as [|f s IH]; cbn [key_insert]; [set_solver|].
  destruct (_ <? _); [set_solver|]. rewrite !elem_of_cons, IH. set_solver.
Qed.

Lemma sort_by_total_elem e s : e ∈ sort_by_total s <-> e ∈ s.
Proof.
  unfold sort_by_total.
  enough (H : forall acc, e ∈ fold_left (fun a d => key_insert d a) s acc <-> e ∈ acc \/ e ∈ s)
    by (rewrite H; set_solver).
  induction s as [|d s IH]; intros acc; cbn [fold_left]; [set_solver|].
  rewrite IH, key_insert_elem. set_solver.
Qed.

Lemma normalize_wf cost x inc red lp ds :
  in_range cost x inc -> normalize cost x inc red lp = Ok ds -> Forall wf_demand ds.
Proof.
  intros Hr Hn. destruct (normalize_elem _ _ _ _ _ _ Hn) as (ph & Hv & Hds).
  destruct (in_range_needs _ _ _ _ _ Hr Hv) as (Hps & _). destruct Hr as [Hx Hi _ _ _].
  apply Forall_forall. intros d (picks & d0 & Hp & Hd & ->)%Hds.
  assert (Hw : wf_demand d0).
  { apply (picks_demand_wf x inc (zip (pips cost) ph) picks d0 Hx Hi); [|exact Hp|exact Hd].
    eapply Forall_impl; [exact Hps|]. by intros ? [? _]. }
  destruct Hw as [Hl Hnn]. split; [by simpl; rewrite length_insert|].
  apply Forall_insert; [done|]. unfold u32_saturating_sub. lia.
Qed.

Lemma solve_any_color_bound pool w b d r :
  wf_pool w -> wf_pool pool -> wf_demand d -> (b = true -> capped w pool) ->
  solve_any_color w pool b d = Some r -> wf_pool r /\ capped r pool.
Proof.
  intros Hw Hp Hd Hc. unfold solve_any_color.
  destruct (u32_checked_sub _ _) as [c|] eqn:Hsub; [|done].
  cbn [mbind option_bind]. destruct (generic_of_demand d) as [g|] eqn:Hg; [|done].
  cbn [mbind option_bind].
  apply u32_checked_sub_Some in Hsub as [Hle ->].
  pose proof (nonneg_lookup_total _ 5 (proj2 Hd)).
  pose proof (generic_of_demand_bound _ _ Hd Hg) as Hgb.
  pose proof Hw as [Hwl Hwn]. unfold POOL_C in *.
  apply solvers_bound; [|done|apply Forall_nil_2|lia|unfold mono_total; simpl; lia|].
  - split; [by rewrite length_insert|]. apply Forall_insert; [done|]. lia.
  - intros Hb j Hj. rewrite lookup_total_insert by lia. specialize (Hc Hb j Hj).
    destruct (Nat.eqb_spec 5 j); subst; lia.
Qed.

Lemma solve_remaining_bound state i cost x inc red lp any b n w r ph sels :
  let pool := pool_of state i in
  wf_pool pool -> nonneg_selections sels -> in_range cost x inc -> 0 <= red ->
  validated_phyrexian_choices cost lp = Ok ph ->
  n = cost_needs x inc (zip (pips cost) ph) ->
  w = with_selections pool sels -> (b = true -> sels = []) ->
  solve_remaining cost x inc red lp any b n (u32_saturating_sub (need_generic n) red) w pool =
    Ok (Some r) ->
  wf_pool r /\ capped r pool.
Proof.
  intros pool Hp Hnn Hr Hred Hv -> -> Hb Hs.
  pose proof (with_selections_wf _ _ Hp Hnn) as Hw.
  unfold solve_remaining in Hs. destruct any.
  - apply rbind_Ok in Hs as (ds & Hds & [= Hs]).
    apply find_map_demand_Some in Hs as (d & Hd & Hs). apply (proj1 (sort_by_total_elem _ _)) in Hd.
    pose proof (normalize_wf _ _ _ _ _ _ Hr Hds) as Hall. rewrite Forall_forall in Hall.
    apply (solve_any_color_bound pool _ b d r Hw Hp); [by apply Hall| |exact Hs].
    intros -> j Hj. rewrite (Hb eq_refl). apply Z.le_refl.
  - destruct (in_range_needs _ _ _ _ _ Hr Hv) as (Hps & Hf & _).
    destruct Hr as [Hx Hi _ Hsz _]. rewrite <- Hf in Hsz.
    destruct (cost_needs_spec x inc _ Hx Hi Hps Hsz) as (Hn & Hsize & _).
    set (n := cost_needs _ _ _) in *.
    destruct Hn as ([Hnl Hnc] & Hg & Hn2 & Hn3 & Hn4). pose proof (zsum_nonneg _ Hnc).
    pose proof (subtract_needs_spec (with_selections pool sels) (need_color n)) as Hsub.
    pose proof Hw as [Hwl _]. rewrite Hwl in Hsub. specialize (Hsub ltac:(lia)).
    destruct (subtract_needs _ _) as [w'|]; [|done]. destruct Hsub as [Hl Hsub].
    injection Hs as Hs. unfold u32_saturating_sub in Hs.
    eapply (solvers_bound b pool w'); [|done|exact Hn4| | | |exact Hs]; [|lia| |].
    + apply wf_pool_intro; [done|]. intros j Hj. specialize (Hsub j Hj). lia.
    + unfold needs_size in Hsize. lia.
    + intros Hb'. rewrite (Hb Hb') in Hsub. intros j Hj. specialize (Hsub j Hj).
      pose proof (nonneg_lookup_total _ j Hnc). change (with_selections pool []) with pool in Hsub.
      lia.
Qed.

(** Every plan the planner returns, under either colour rule. *)
Lemma planned state i cost x inc red lp sels eligible any plan :
  wf_player (players state !!! i) -> nonneg_selections sels -> in_range cost x inc -> 0 <= red ->
  plan_mana_payment_with_any_color state i cost x inc red lp sels eligible any = Ok plan ->
  plan_for state i plan.
Proof.
  intros [Hp _] Hnn Hr Hred. unfold plan_mana_payment_with_any_color. intros Hplan.
  apply rbind_Ok in Hplan as (ph & Hv & Hplan).
  pose proof (life_check _ _ _ _ _ Hr Hv (player_life (players state !!! i))) as Hlife.
  destruct (in_range_needs _ _ _ _ _ Hr Hv) as (Hps & Hf & Hlen).
  pose proof Hr as [Hx Hi _ Hsz Hln]. rewrite <- Hf in Hsz.
  destruct (cost_needs_spec x inc _ Hx Hi Hps Hsz) as ((_ & _ & Hn & _) & _ & Hnb & _).
  destruct (_ && _); [done|]. apply proj1 in Hlife. specialize (Hlife eq_refl).
  apply rbind_Ok in Hplan as ([w sp] & Ht & Hplan).
  apply take_selections_spec in Ht as (Hnd & Hall & -> & ->).
  apply rbind_Ok in Hplan as (solved & Hs & Hplan). destruct solved as [r|]; [|done].
  apply (solve_remaining_bound _ _ _ _ _ _ _ _ _ _ _ _ ph sels Hp Hnn Hr Hred Hv eq_refl eq_refl)
    in Hs as [Hrw Hrc]; [|intros Hb%bool_decide_eq_true; by destruct sels].
  simplify_eq. split; try done; cbn [restricted_spent life_cost app].
  - rewrite map_map. exact Hnd.
  - apply Forall_forall. intros ga Hin. apply list_elem_of_fmap in Hin as (s & -> & Hs).
    unfold nonneg_selections in Hnn. rewrite Forall_forall in Hall, Hnn.
    destruct (Hall s Hs) as [_ (_ & _ & _ & Hle)]. split; [by apply Hnn|exact Hle].
  - apply Forall_forall. intros ga Hin. apply list_elem_of_fmap in Hin as (s & -> & Hs).
    rewrite Forall_forall in Hall. by destruct (Hall s Hs) as [_ (_ & _ & Hne & _)].
  - rewrite Hlen in Hnb. split; [lia|done].
Qed.

(** ** Committing a plan *)

Lemma still_valid_iff state i plan :
  mana_payment_still_valid state i plan = true <->
  exists p, players state !! i = Some p /\ expected_pool plan = pool_vec (mana_pool p) /\
    expected_life plan = player_life p /\
    expected_retained_combat plan = pool_vec (retained_combat_mana p) /\
    expected_restricted plan = restricted_mana p.
Proof.
  unfold mana_payment_still_valid. destruct (players state !! i) as [p|].
  - rewrite !andb_true_iff, !bool_decide_eq_true. split.
    + intros (((? & ?) & ?) & ?). exists p. by split_and!.
    + intros (p' & [= <-] & ? & ? & ? & ?). by split_and!.
  - split; [done|]. by intros (? & ? & _).
Qed.

(** A plan made on one state is a plan for every state it is still valid on. *)
Lemma plan_for_transfer s1 s2 i plan :
  plan_for s1 i plan -> mana_payment_still_valid s2 i plan = true -> plan_for s2 i plan.
Proof.
  intros Hf (p & Hp & H1 & H2 & H3 & H4)%still_valid_iff.
  pose proof (list_lookup_total_correct _ _ _ Hp) as Ht. destruct Hf. unfold pool_of in *.
  split; unfold pool_of; rewrite ?Ht; try done; try congruence.
  - by rewrite <- H1, for_pool0.
  - by rewrite <- H4, for_restricted0.
Qed.

(** The player after a commit. *)
Definition committed_player (plan : ManaPaymentPlan) (p : PlayerState) : PlayerState :=
  set_life (player_life p - life_cost plan) (pay_player plan p).

Lemma commit_player state i plan p :
  plan_for state i plan -> players state !! i = Some p -> i32_range (player_life p) ->
  players (commit_mana_payment state i plan) =
    <[i := committed_player plan p]> (players state).
Proof.
  intros Hf Hp Hl. destruct (for_cost _ _ _ Hf) as [Hc Hle].
  pose proof (list_lookup_total_correct _ _ _ Hp) as Ht. rewrite Ht in Hle.
  pose proof (lookup_lt_Some _ _ _ Hp) as Hlt.
  unfold commit_mana_payment, commit_life_change. rewrite Ht.
  rewrite (wrap_i32_small (life_cost plan)) by mlia. rewrite wrap_i32_small by mlia.
  destruct (Z.eqb_spec (- life_cost plan) 0) as [H0|H0]; cbn [players].
  - f_equal. unfold committed_player, set_life, pay_player. simpl. f_equal. lia.
  - rewrite list_lookup_total_insert_eq by done. rewrite list_insert_insert_eq.
    f_equal. unfold committed_player, set_life, pay_player. simpl. f_equal.
    rewrite wrap_i32_small by mlia. lia.
Qed.

Lemma planned_spendable state i plan :
  plan_for state i plan -> Forall wf_entry (restricted_mana (players state !!! i)) ->
  restricted_total (restricted_mana (players state !!! i)) <= u32_max ->
  spendable (restricted_mana (players state !!! i)) (restricted_spent plan).
Proof.
  intros Hf Hw Hb. split; [by eapply for_groups|].
  eapply Forall_impl; [by eapply for_spent|]. intros [g a] [Ha Hle]. cbn [fst snd] in *.
  split; [done|]. intros s Hs. rewrite <- available_in_group_spec by done. by apply Hle.
Qed.

Lemma player_entries_wf p : player_ok p -> Forall wf_entry (restricted_mana p).
Proof. intros Hok. eapply Forall_impl; [by eapply ok_entries|]. by intros ? [? _]. Qed.

Lemma player_mana_parts p :
  player_ok p -> 0 <= zsum (pool_vec (mana_pool p)) /\ 0 <= restricted_total (restricted_mana p).
Proof.
  intros Hok. split; [apply zsum_nonneg; by destruct (ok_pools _ Hok) as [[_ ?] _]|].
  by apply zsum_entries_nonneg, player_entries_wf.
Qed.

Lemma pool_u32 p :
  wf_pool (pool_vec (mana_pool p)) -> zsum (pool_vec (mana_pool p)) <= u32_max ->
  Forall u32_range (pool_vec (mana_pool p)).
Proof.
  intros [Hl Hn] Hb. apply Forall_lookup_2. intros j v Hj.
  pose proof (lookup_lt_Some _ _ _ Hj) as Hlt.
  pose proof (zsum_lookup_le _ j Hlt Hn) as Hle. pose proof (nonneg_lookup_total _ j Hn).
  rewrite (list_lookup_total_correct _ _ _ Hj) in *. mlia.
Qed.

Lemma committed_player_ok state i plan p :
  plan_for state i plan -> players state !! i = Some p -> player_ok p ->
  player_mana p <= u32_max -> player_ok (committed_player plan p).
Proof.
  intros Hf Hp Hok Hb. destruct (player_mana_parts p Hok) as [Hz1 Hz2]. unfold player_mana in Hb.
  pose proof (list_lookup_total_correct _ _ _ Hp) as Ht.
  pose proof (planned_spendable _ _ _ Hf) as Hsp. rewrite Ht in Hsp.
  specialize (Hsp (player_entries_wf p Hok) ltac:(lia)).
  destruct (debit_restricted_spec _ _ Hsp (ok_entries _ Hok) ltac:(lia)) as (He & _ & _).
  pose proof (for_remaining _ _ _ Hf) as Hr. destruct (for_cost _ _ _ Hf) as [Hc Hle].
  pose proof (for_rem_retained _ _ _ Hf) as Hrr. rewrite Ht in *.
  destruct (ok_pools _ Hok) as [_ [Hrl Hrn]]. pose proof (ok_life _ Hok) as Hlf.
  pose proof Hr as [Hrl' Hrn'].
  assert (Hlen : length (remaining_retained_combat plan) = 6%nat)
    by (rewrite Hrr, length_zip_with; lia).
  assert (Hmin : forall j, (j < 6)%nat -> remaining_retained_combat plan !!! j =
    Z.min (pool_vec (retained_combat_mana p) !!! j) (remaining plan !!! j))
    by (intros j Hj; rewrite Hrr; apply zip_with_total; lia).
  split; unfold committed_player, set_life, pay_player; cbn [mana_pool retained_combat_mana
    player_life restricted_mana].
  - unfold wf_player. cbn [mana_pool retained_combat_mana]. rewrite !pool_vec_of_vec by done.
    split; [done|]. apply wf_pool_intro; [done|]. intros j Hj. rewrite Hmin by done.
    pose proof (nonneg_lookup_total _ j Hrn). pose proof (nonneg_lookup_total _ j Hrn'). lia.
  - intros j Hj. rewrite !pool_vec_of_vec by done. rewrite Hmin by done. lia.
  - mlia.
  - done.
Qed.

(** ** Life changes *)

Lemma record_life_change_total delta r :
  0 <= life_gained r -> 0 <= life_lost r -> delta <> 0 ->
  (if 0 <? delta then life_gained r else life_lost r) + Z.abs delta <= u64_max ->
  record_life_change delta r =
    if 0 <? delta
    then {| life_gained := life_gained r + Z.abs delta; life_lost := life_lost r |}
    else {| life_gained := life_gained r; life_lost := life_lost r + Z.abs delta |}.
Proof.
  intros Hg Hl Hd Hb. unfold record_life_change. destruct (0 <? delta); f_equal; lia.
Qed.

(** ** Rebasing *)

Lemma saturating_add_amounts_small a b :
  wf_pool (amount_vec a) -> wf_pool (amount_vec b) ->
  zsum (amount_vec a) + zsum (amount_vec b) <= u32_max ->
  amount_vec (saturating_add_amounts a b) = zip_with Z.add (amount_vec a) (amount_vec b).
Proof.
  intros [_ Ha] [_ Hb] Hs. unfold saturating_add_amounts, amount_vec in *.
  rewrite !Forall_cons in Ha, Hb. cbn [zsum] in Hs. unfold u32_saturating_add. simpl.
  repeat f_equal; lia.
Qed.

Definition total_in (m : gmap Z ManaAmount) (g : Z) : ManaAmount :=
  default zero_amount (m !! g).

(** The totals per group are exact while everything fits in [u32]. *)
Lemma group_totals_fold es m :
  Forall wf_entry es -> (forall g, wf_pool (amount_vec (total_in m g))) ->
  (forall g, zsum (amount_vec (total_in m g)) + restricted_total es <= u32_max) ->
  let m' := fold_left (fun m e =>
      <[restriction_group_id e :=
          saturating_add_amounts (default zero_amount (m !! restriction_group_id e))
            (contribution e)]> m) es m in
  forall g, (is_Some (m' !! g) <-> is_Some (m !! g) \/ g ∈ map restriction_group_id es) /\
    forall s, (s < 6)%nat ->
      amount_vec (total_in m' g) !!! s = amount_vec (total_in m g) !!! s + group_sum g s es.
Proof.
  intros Hw. revert m. induction Hw as [|e es He Hw IH]; intros m Hm Hb m' g; subst m'.
  { cbn [fold_left map]. split; [set_solver|]. intros. unfold group_sum. simpl. lia. }
  cbn [fold_left map]. set (h := restriction_group_id e).
  change (default zero_amount (m !! h)) with (total_in m h).
  set (v := saturating_add_amounts (total_in m h) (contribution e)).
  assert (Hz : zsum (amount_vec (total_in m h)) + zsum (amount_vec (contribution e)) <= u32_max).
  { specialize (Hb h). unfold restricted_total in Hb. cbn [map zsum] in Hb.
    pose proof (zsum_entries_nonneg _ Hw) as H. unfold restricted_total in H. lia. }
  pose proof (saturating_add_amounts_small _ _ (Hm h) He Hz) as Hv. fold v in Hv.
  assert (Hvs : forall s, (s < 6)%nat -> amount_vec v !!! s =
    amount_vec (total_in m h) !!! s + amount_vec (contribution e) !!! s)
    by (intros s Hs; rewrite Hv; apply zip_with_total; [done|simpl; lia]).
  assert (Hins : forall k, total_in (<[h := v]> m) k = if decide (h = k) then v else total_in m k).
  { intros k. unfold total_in. destruct (decide (h = k)) as [->|Hne];
      [by rewrite lookup_insert_eq|by rewrite lookup_insert_ne]. }
  assert (Hvw : wf_pool (amount_vec v)).
  { apply wf_pool_intro; [done|]. intros s Hs. rewrite Hvs by done.
    pose proof (wf_pool_nonneg _ s (Hm h)). pose proof (wf_pool_nonneg _ s He). lia. }
  destruct (IH (<[h := v]> m)) with (g := g) as [H1 H2].
  - intros k. rewrite Hins. by destruct (decide (h = k)).
  - intros k. rewrite Hins. specialize (Hb k). unfold restricted_total in Hb |- *.
    cbn [map zsum] in Hb. pose proof (zsum_nonneg _ (proj2 He)).
    destruct (decide (h = k)) as [<-|]; [|lia].
    enough (zsum (amount_vec v) = zsum (amount_vec (total_in m h)) +
              zsum (amount_vec (contribution e))) by lia.
    rewrite Hv. unfold amount_vec. simpl. lia.
  - split.
    + rewrite H1, lookup_insert_is_Some, elem_of_cons. destruct (decide (h = g)); naive_solver.
    + intros s Hs. rewrite H2, Hins by done. unfold group_sum. cbn [map zsum].
      fold h. destruct (decide (h = g)) as [<-|Hne].
      * rewrite Z.eqb_refl, Hvs by done. lia.
      * rewrite (proj2 (Z.eqb_neq h g)) by done. lia.
Qed.

Lemma group_totals_spec es g :
  Forall wf_entry es -> restricted_total es <= u32_max -> g ∈ map restriction_group_id es ->
  exists a, group_totals es !! g = Some a /\
    forall s, (s < 6)%nat -> amount_vec a !!! s = group_sum g s es.
Proof.
  intros Hw Hb Hg.
  assert (H0 : forall k, total_in ∅ k = zero_amount) by (intros; unfold total_in; by rewrite lookup_empty).
  destruct (group_totals_fold es ∅ Hw) with (g := g) as [H1 H2].
  - intros k. rewrite H0. apply wf_pool_intro; [done|]. intros i Hi.
    do 6 (destruct i as [|i]; [done|]). lia.
  - intros k. rewrite H0. exact Hb.
  - destruct (proj2 H1 (or_intror Hg)) as [a Ha]. exists a. split; [exact Ha|].
    intros s Hs. specialize (H2 s Hs). unfold total_in in H2. rewrite Ha, lookup_empty in H2.
    change (amount_vec a !!! s = amount_vec zero_amount !!! s + group_sum g s es) in H2.
    rewrite H2. do 6 (destruct s as [|s]; [done|]). lia.
Qed.

Lemma debit_groups_ok totals spent :
  NoDup (map fst spent) ->
  Forall (fun ga : Z * ManaAmount => exists av, totals !! ga.1 = Some av /\
    forall s, (s < 6)%nat -> amount_vec ga.2 !!! s <= amount_vec av !!! s) spent ->
  exists t, debit_groups totals spent = Ok t.
Proof.
  revert totals. induction spent as [|[g a] spent IH]; intros totals Hnd Hall;
    cbn [debit_groups]; [by eexists|].
  apply NoDup_cons in Hnd as [Hni Hnd]. apply Forall_cons in Hall as [(av & Hav & Hle) Hall].
  cbn [fst snd] in *. rewrite Hav. rewrite (proj2 (exceeds_false a av)) by done.
  apply IH; [done|]. rewrite !Forall_forall in *. intros [h b] Hin.
  destruct (Hall _ Hin) as (bv & Hbv & Hb). cbn [fst snd] in *. exists bv. split; [|done].
  rewrite lookup_insert_ne; [done|]. intros ->. apply Hni, list_elem_of_fmap. by exists (h, b).
Qed.

Lemma group_sum_pos g s es : group_sum g s es <> 0 -> g ∈ map restriction_group_id es.
Proof.
  unfold group_sum. induction es as [|e es IH]; cbn [map zsum]; [done|].
  destruct (Z.eqb_spec (restriction_group_id e) g) as [->|Hne]; [by left|].
  intros. right. apply IH. lia.
Qed.

(** The six-slot comparison that guards a rebase. *)
Lemma short_false (f : nat -> bool) :
  existsb f (seq 0 6) = false <-> forall j, (j < 6)%nat -> f j = false.
Proof.
  rewrite <- not_true_iff_false, existsb_exists. split.
  - intros Hn j Hj. destruct (f j) eqn:He; [|done]. exfalso. apply Hn. exists j.
    split; [apply in_seq; lia|done].
  - intros Hf (j & Hj%in_seq & He). rewrite Hf in He by lia. done.
Qed.

Lemma seq_total (f : nat -> Z) j : (j < 6)%nat -> map f (seq 0 6) !!! j = f j.
Proof. intros Hj. by do 6 (destruct j as [|j]; [done|]); lia. Qed.

Lemma pool_ext (a b : list Z) :
  length a = 6%nat -> length b = 6%nat -> (forall j, (j < 6)%nat -> a !!! j = b !!! j) -> a = b.
Proof.
  intros Ha Hb He. apply list_eq. intros j. destruct (decide (j < 6)%nat) as [Hj|Hj].
  - rewrite !list_lookup_lookup_total_lt by lia. by rewrite He.
  - by rewrite !lookup_ge_None_2 by lia.
Qed.

Lemma sub_saturating (pool a b : list Z) j :
  (j < 6)%nat -> length pool = 6%nat -> a !!! j <= b !!! j ->
  zip_with Z.sub pool (map (fun i => u32_saturating_sub (b !!! i) (a !!! i)) (seq 0 6)) !!! j =
    pool !!! j - (b !!! j - a !!! j).
Proof.
  intros Hj Hl Hab. rewrite zip_with_total, seq_total by (done || simpl; lia).
  unfold u32_saturating_sub. lia.
Qed.

(** The planned remainder of the retained mana, slot by slot. *)
Lemma retained_min state i plan :
  plan_for state i plan -> wf_player (players state !!! i) ->
  length (remaining_retained_combat plan) = 6%nat /\
  forall j, (j < 6)%nat -> remaining_retained_combat plan !!! j =
    Z.min (expected_retained_combat plan !!! j) (remaining plan !!! j).
Proof.
  intros Hf [_ [Hl _]]. rewrite (for_rem_retained _ _ _ Hf), (for_retained _ _ _ Hf).
  destruct (for_remaining _ _ _ Hf) as [Hr _].
  split; [rewrite length_zip_with; lia|]. intros j Hj. apply zip_with_total; lia.
Qed.

(** The groups of a plan are still there to debit on its own state. *)
Lemma planned_debit state i plan :
  plan_for state i plan -> Forall wf_entry (restricted_mana (players state !!! i)) ->
  restricted_total (restricted_mana (players state !!! i)) <= u32_max ->
  exists t, debit_groups (group_totals (restricted_mana (players state !!! i)))
              (restricted_spent plan) = Ok t.
Proof.
  intros Hf Hw Hb. destruct (planned_spendable _ _ _ Hf Hw Hb) as [Hnd Hsp].
  apply debit_groups_ok; [done|]. pose proof (for_nonempty _ _ _ Hf) as Hne.
  rewrite Forall_forall in Hsp, Hne. apply Forall_forall. intros [g a] Hin.
  destruct (Hsp _ Hin) as [Ha Hle]. destruct (Hne _ Hin) as (s & Hs & Hs0). cbn [fst snd] in *.
  destruct (group_totals_spec _ g Hw Hb) as (av & Hav & Heq).
  { apply (group_sum_pos g s). pose proof (wf_pool_nonneg _ s Ha). specialize (Hle s Hs). lia. }
  exists av. split; [done|]. intros t Ht. rewrite Heq by done. by apply Hle.
Qed.

(** ** Properties *)

(** C24. Committing a plan that was made on any earlier state and is still valid
    spends exactly what the plan says: the pool becomes the planned remainder,
    the life total drops by the life cost, each restriction group loses what
    was selected from it, the player's mana drops by the mana spent in total,
    and no other player changes. *)
Theorem commit_spends_exactly s1 s2 i cost x inc red lp sels eligible any plan p :
  wf_player (players s1 !!! i) -> nonneg_selections sels -> in_range cost x inc -> 0 <= red ->
  plan_mana_payment_with_any_color s1 i cost x inc red lp sels eligible any = Ok plan ->
  mana_payment_still_valid s2 i plan = true ->
  players s2 !! i = Some p -> player_ok p -> player_mana p <= u32_max ->
  exists p', players (commit_mana_payment s2 i plan) !! i = Some p' /\
    pool_vec (mana_pool p') = remaining plan /\
    player_life p' = player_life p - life_cost plan /\
    player_mana p' = player_mana p - mana_spent plan /\
    (forall g s, (s < 6)%nat -> group_sum g s (restricted_mana p') =
       group_sum g s (restricted_mana p) - spent_in (restricted_spent plan) g s) /\
    forall j, j <> i -> players (commit_mana_payment s2 i plan) !! j = players s2 !! j.
Proof.
  intros Hw Hnn Hr Hred Hplan Hv Hp Hok Hb.
  pose proof (plan_for_transfer _ _ _ _ (planned _ _ _ _ _ _ _ _ _ _ _ Hw Hnn Hr Hred Hplan) Hv) as Hf.
  destruct (player_mana_parts p Hok) as [Hz1 Hz2]. unfold player_mana in Hb.
  pose proof (list_lookup_total_correct _ _ _ Hp) as Ht.
  pose proof (planned_spendable _ _ _ Hf) as Hsp. rewrite Ht in Hsp.
  specialize (Hsp (player_entries_wf p Hok) ltac:(lia)).
  destruct (debit_restricted_spec _ _ Hsp (ok_entries _ Hok) ltac:(lia)) as (_ & Ht' & Hg).
  pose proof (for_remaining _ _ _ Hf) as Hrm. pose proof Hrm as [Hrl _].
  rewrite (commit_player _ _ _ _ Hf Hp (ok_life _ Hok)).
  exists (committed_player plan p). split_and!.
  - apply list_lookup_insert_eq. by eapply lookup_lt_Some.
  - by apply pool_vec_of_vec.
  - done.
  - unfold player_mana, mana_spent, committed_player, set_life, pay_player.
    cbn [mana_pool restricted_mana]. rewrite pool_vec_of_vec, Ht' by done.
    pose proof (for_capped _ _ _ Hf) as Hc. rewrite (for_pool _ _ _ Hf).
    unfold pool_of in *. rewrite Ht in *. destruct (ok_pools _ Hok) as [Hpw _].
    rewrite zsum_u32_sub by (done || by apply pool_u32; [|lia]). lia.
  - exact Hg.
  - intros j Hj. by apply list_lookup_insert_ne.
Qed.

(** Committing preserves the invariant of the paying player: no negative
    mana, retained combat mana still part of the pool, a life total in range
    and no empty restricted contribution. *)
Theorem commit_preserves_player_ok s1 s2 i cost x inc red lp sels eligible any plan p p' :
  wf_player (players s1 !!! i) -> nonneg_selections sels -> in_range cost x inc -> 0 <= red ->
  plan_mana_payment_with_any_color s1 i cost x inc red lp sels eligible any = Ok plan ->
  mana_payment_still_valid s2 i plan = true ->
  players s2 !! i = Some p -> player_ok p -> player_mana p <= u32_max ->
  players (commit_mana_payment s2 i plan) !! i = Some p' -> player_ok p'.
Proof.
  intros Hw Hnn Hr Hred Hplan Hv Hp Hok Hb.
  pose proof (plan_for_transfer _ _ _ _ (planned _ _ _ _ _ _ _ _ _ _ _ Hw Hnn Hr Hred Hplan) Hv) as Hf.
  rewrite (commit_player _ _ _ _ Hf Hp (ok_life _ Hok)).
  rewrite list_lookup_insert_eq by (by eapply lookup_lt_Some). intros [= <-].
  by eapply committed_player_ok.
Qed.

(** A plan is valid on the state it was made for, and on any other state
    it is valid exactly when the payer's pool, life, retained and restricted
    mana are those it was made for. *)
Theorem plan_still_valid_iff s1 s2 i cost x inc red lp sels eligible any plan p :
  wf_player (players s1 !!! i) -> nonneg_selections sels -> in_range cost x inc -> 0 <= red ->
  plan_mana_payment_with_any_color s1 i cost x inc red lp sels eligible any = Ok plan ->
  players s1 !! i = Some p ->
  mana_payment_still_valid s1 i plan = true /\
  (mana_payment_still_valid s2 i plan = true <->
   exists q, players s2 !! i = Some q /\ pool_vec (mana_pool q) = pool_vec (mana_pool p) /\
     player_life q = player_life p /\
     pool_vec (retained_combat_mana q) = pool_vec (retained_combat_mana p) /\
     restricted_mana q = restricted_mana p).
Proof.
  intros Hw Hnn Hr Hred Hplan Hp.
  pose proof (planned _ _ _ _ _ _ _ _ _ _ _ Hw Hnn Hr Hred Hplan) as Hf.
  pose proof (list_lookup_total_correct _ _ _ Hp) as Ht.
  pose proof (for_pool _ _ _ Hf) as H1. pose proof (for_life _ _ _ Hf) as H2.
  pose proof (for_retained _ _ _ Hf) as H3. pose proof (for_restricted _ _ _ Hf) as H4.
  unfold pool_of in H1. rewrite Ht in *. rewrite !still_valid_iff, H1, H2, H3, H4. split.
  - exists p. by split_and!.
  - split; intros (q & ? & ? & ? & ? & ?); exists q; by split_and!.
Qed.

(** Rebasing an accepted receipt on the state it was planned for changes
    nothing: the debit of every restriction group succeeds and the plan comes
    back field by field. *)
Theorem rebase_same_state s i cost x inc red lp sels eligible any plan p :
  nonneg_selections sels -> in_range cost x inc -> 0 <= red ->
  plan_mana_payment_with_any_color s i cost x inc red lp sels eligible any = Ok plan ->
  players s !! i = Some p -> player_ok p -> player_mana p <= u32_max ->
  rebase_for_attack_receipt plan s i = Ok plan.
Proof.
  intros Hnn Hr Hred Hplan Hp Hok Hb. pose proof (list_lookup_total_correct _ _ _ Hp) as Ht.
  pose proof (ok_pools _ Hok) as Hw. rewrite <- Ht in Hw.
  pose proof (planned _ _ _ _ _ _ _ _ _ _ _ Hw Hnn Hr Hred Hplan) as Hf.
  destruct (player_mana_parts p Hok) as [Hz1 Hz2]. unfold player_mana in Hb.
  destruct (planned_debit _ _ _ Hf) as [t Hd]; rewrite ?Ht;
    [by apply player_entries_wf|lia|]. rewrite Ht in Hd.
  destruct (retained_min _ _ _ Hf Hw) as [Hrl Hrm].
  pose proof (for_pool _ _ _ Hf) as H1. pose proof (for_retained _ _ _ Hf) as H2.
  pose proof (for_life _ _ _ Hf) as H3. pose proof (for_restricted _ _ _ Hf) as H4.
  pose proof (for_capped _ _ _ Hf) as Hc. pose proof (for_remaining _ _ _ Hf) as [Hl Hn].
  unfold pool_of in *. rewrite Ht in *. destruct Hw as [[Hpl Hpn] [Hql Hqn]].
  unfold rebase_for_attack_receipt. rewrite Hp, H1, H2 in *.
  rewrite (proj2 (short_false _)).
  - rewrite Hd. cbn [rbind]. f_equal. rewrite <- H3, <- H4.
    destruct plan as [rem lc ph rs rac ep rr er el err]. cbn [remaining life_cost
      phyrexian_symbols_paid_with_life restricted_spent requires_any_color expected_pool
      remaining_retained_combat expected_retained_combat expected_life expected_restricted] in *.
    subst. f_equal.
    + apply pool_ext; [rewrite length_zip_with; simpl; lia|done|]. intros j Hj.
      rewrite zip_with_total by (simpl; lia). rewrite seq_total by done.
      specialize (Hc j Hj). unfold u32_saturating_sub. lia.
    + apply pool_ext; [rewrite length_zip_with; simpl; lia|done|]. intros j Hj.
      rewrite zip_with_total by (simpl; lia). rewrite seq_total by done.
      rewrite Hrm by done. unfold u32_saturating_sub. lia.
  - intros j Hj. rewrite !seq_total, Hrm by done. unfold u32_saturating_sub.
    pose proof (nonneg_lookup_total _ j Hn). pose proof (nonneg_lookup_total _ j Hpn).
    pose proof (nonneg_lookup_total _ j Hqn). specialize (Hc j Hj).
    apply orb_false_iff. split; apply Z.ltb_ge; lia.
Qed.

(** A receipt rebased on any later state is the same receipt: it is valid
    there, takes the same mana out of every slot of the pool and of the
    retained mana, the same restricted mana and the same life, and leaves no
    slot negative. *)
Theorem rebase_preserves_receipt s1 s2 i cost x inc red lp sels eligible any plan plan' q :
  wf_player (players s1 !!! i) -> nonneg_selections sels -> in_range cost x inc -> 0 <= red ->
  plan_mana_payment_with_any_color s1 i cost x inc red lp sels eligible any = Ok plan ->
  players s2 !! i = Some q -> wf_player q ->
  rebase_for_attack_receipt plan s2 i = Ok plan' ->
  mana_payment_still_valid s2 i plan' = true /\ wf_pool (remaining plan') /\
  (forall j, (j < 6)%nat ->
     expected_pool plan' !!! j - remaining plan' !!! j =
       expected_pool plan !!! j - remaining plan !!! j /\
     expected_retained_combat plan' !!! j - remaining_retained_combat plan' !!! j =
       expected_retained_combat plan !!! j - remaining_retained_combat plan !!! j) /\
  restricted_spent plan' = restricted_spent plan /\ life_cost plan' = life_cost plan.
Proof.
  intros Hw Hnn Hr Hred Hplan Hq [[Hpl Hpn] [Hql Hqn]] Hreb.
  pose proof (planned _ _ _ _ _ _ _ _ _ _ _ Hw Hnn Hr Hred Hplan) as Hf.
  destruct (retained_min _ _ _ Hf Hw) as [_ Hrm].
  pose proof (for_capped _ _ _ Hf) as Hc. rewrite <- (for_pool _ _ _ Hf) in Hc.
  unfold rebase_for_attack_receipt in Hreb. rewrite Hq in Hreb.
  destruct (existsb _ _) eqn:Hs; [done|]. rewrite short_false in Hs.
  apply rbind_Ok in Hreb as (t & _ & [= <-]).
  assert (Hslot : forall j, (j < 6)%nat ->
    expected_pool plan !!! j - remaining plan !!! j <= pool_vec (mana_pool q) !!! j /\
    expected_retained_combat plan !!! j - remaining_retained_combat plan !!! j
      <= pool_vec (retained_combat_mana q) !!! j).
  { intros j Hj. specialize (Hs j Hj). rewrite !seq_total in Hs by done.
    apply orb_false_iff in Hs as [H1%Z.ltb_ge H2%Z.ltb_ge]. unfold u32_saturating_sub in *. lia. }
  split; [|split; [|split; [|done]]].
  - apply still_valid_iff. exists q. by split_and!.
  - apply wf_pool_intro; [done|]. intros j Hj. specialize (Hslot j Hj). specialize (Hc j Hj).
    change (0 <= zip_with Z.sub (pool_vec (mana_pool q)) (map (fun i => u32_saturating_sub
      (expected_pool plan !!! i) (remaining plan !!! i)) (seq 0 6)) !!! j).
    rewrite sub_saturating by done. lia.
  - intros j Hj. specialize (Hc j Hj). cbn [remaining remaining_retained_combat].
    pose proof (Hrm j Hj). split.
    + change (pool_vec (mana_pool q) !!! j - zip_with Z.sub (pool_vec (mana_pool q))
        (map (fun i => u32_saturating_sub (expected_pool plan !!! i) (remaining plan !!! i))
           (seq 0 6)) !!! j = expected_pool plan !!! j - remaining plan !!! j).
      rewrite sub_saturating by done. lia.
    + change (pool_vec (retained_combat_mana q) !!! j - zip_with Z.sub
        (pool_vec (retained_combat_mana q)) (map (fun i => u32_saturating_sub
           (expected_retained_combat plan !!! i) (remaining_retained_combat plan !!! i))
           (seq 0 6)) !!! j =
        expected_retained_combat plan !!! j - remaining_retained_combat plan !!! j).
      rewrite sub_saturating by (done || lia). lia.
Qed.

(** The checked life change is the plain one under a guard: it succeeds
    exactly when the new total is an [i32] and the turn's history does not
    overflow, it then commits the same state as [commit_life_change], and
    otherwise it names the first quantity out of range and commits nothing. *)
Theorem commit_life_change_checked_spec state i delta p :
  players state !! i = Some p ->
  let r := life_record state (player_id p) in
  let prior := if 0 <? delta then life_gained r else life_lost r in
  0 <= life_gained r <= u64_max -> 0 <= life_lost r <= u64_max ->
  commit_life_change_checked state i delta =
    if (delta =? 0) || ((i32_min <=? player_life p + delta) && (player_life p + delta <=? i32_max))
    then if (delta =? 0) || (prior + Z.abs delta <=? u64_max)
         then Ok (commit_life_change state i delta)
         else Err (LifeNumericRange "life history")
    else Err (LifeNumericRange "life total").
Proof.
  intros Hp r prior Hg Hl. pose proof (list_lookup_total_correct _ _ _ Hp) as Ht.
  unfold commit_life_change_checked, commit_life_change. rewrite Ht.
  destruct (Z.eqb_spec delta 0) as [|Hd]; [done|]. cbn [orb]. fold r. fold prior.
  destruct (_ && _) eqn:Hr; cbn [negb]; [|done].
  apply andb_true_iff in Hr as [H1%Z.leb_le H2%Z.leb_le].
  rewrite Z.ltb_antisym. destruct (Z.leb_spec (prior + Z.abs delta) u64_max) as [Hh|Hh]; [|done].
  cbn [negb]. rewrite wrap_i32_small by mlia.
  rewrite record_life_change_total by (done || lia). do 3 f_equal.
  subst prior. by destruct (0 <? delta).
Qed.

(** ** Witnesses *)

Lemma sample_ok : player_ok sample_player.
Proof.
  split; [exact sample_wf| |vm_compute; split; discriminate|].
  - intros i Hi. do 6 (destruct i as [|i]; [vm_compute; discriminate|]). lia.
  - repeat (apply Forall_cons; split; [split; [split; [reflexivity|]|vm_compute; reflexivity]|]);
      try apply Forall_nil_2;
      repeat (apply Forall_cons; split; [vm_compute; discriminate|]); apply Forall_nil_2.
Qed.

Lemma sample_selections : nonneg_selections [sample_selection].
Proof.
  apply Forall_cons; split; [|apply Forall_nil_2]. split; [reflexivity|].
  repeat (apply Forall_cons; split; [vm_compute; discriminate|]). apply Forall_nil_2.
Qed.

(** The hypotheses on a plan at the sample state, with the plan itself. *)
Ltac sample_plan :=
  match goal with
  | |- wf_player _ => exact sample_wf
  | |- nonneg_selections _ => exact sample_selections
  | |- in_range _ _ _ => exact sample_in_range
  | |- player_ok _ => exact sample_ok
  | |- (_ <= _) => vm_compute; discriminate
  | |- _ => vm_compute; reflexivity
  end.

Lemma commit_spends_exactly_witness :
  exists plan p', plan_mana_payment_with_any_color sample_state 0 sample_cost 0 0 0
      [sample_choice] [sample_selection] [7] false = Ok plan /\
    players (commit_mana_payment sample_state 0 plan) !! 0%nat = Some p' /\
    player_life p' = 18 /\ player_mana p' = player_mana sample_player - mana_spent plan.
Proof.
  edestruct (commit_spends_exactly sample_state sample_state 0 sample_cost 0 0 0
    [sample_choice] [sample_selection] [7] false) as (p' & Hp' & _ & Hl & Hm & _);
    [sample_plan..|].
  eexists _, p'. split; [vm_compute; reflexivity|]. split; [exact Hp'|].
  split; [rewrite Hl; vm_compute; reflexivity|exact Hm].
Defined.

Lemma commit_preserves_player_ok_witness :
  exists plan p', plan_mana_payment_with_any_color sample_state 0 sample_cost 0 0 0
      [sample_choice] [sample_selection] [7] true = Ok plan /\
    players (commit_mana_payment sample_state 0 plan) !! 0%nat = Some p' /\ player_ok p'.
Proof.
  eexists _, _. split; [vm_compute; reflexivity|]. split; [vm_compute; reflexivity|].
  eapply (commit_preserves_player_ok sample_state sample_state 0 sample_cost 0 0 0
    [sample_choice] [sample_selection] [7] true); sample_plan.
Defined.

Lemma plan_still_valid_iff_witness :
  exists plan, plan_mana_payment_with_any_color sample_state 0 sample_cost 0 0 0
      [sample_choice] [sample_selection] [7] false = Ok plan /\
    mana_payment_still_valid sample_state 0 plan = true.
Proof.
  eexists. split; [vm_compute; reflexivity|].
  edestruct (plan_still_valid_iff sample_state sample_state 0 sample_cost 0 0 0
    [sample_choice] [sample_selection] [7] false) as [Hv _]; [sample_plan..|exact Hv].
Defined.

Lemma rebase_same_state_witness :
  exists plan, plan_mana_payment_with_any_color sample_state 0 sample_cost 0 0 0
      [sample_choice] [sample_selection] [7] false = Ok plan /\
    rebase_for_attack_receipt plan sample_state 0 = Ok plan.
Proof.
  eexists. split; [vm_compute; reflexivity|].
  eapply (rebase_same_state sample_state 0 sample_cost 0 0 0
    [sample_choice] [sample_selection] [7] false); sample_plan.
Defined.

(** The sample player with two more green mana. *)
Definition richer_state : GameState :=
  {| players := [{| player_id := 3; player_life := 5;
                    mana_pool := pool_of_vec [1; 0; 0; 2; 2; 1];
                    retained_combat_mana := pool_of_vec [0; 0; 0; 1; 0; 0];
                    restricted_mana := restricted_mana sample_player |}];
     turn_history := ∅ |}.

Lemma richer_wf : wf_player (players richer_state !!! 0%nat).
Proof.
  split; (split; [reflexivity|]); apply nonneg_of_lookups; intros i Hi;
    do 6 (destruct i as [|i]; [simpl; lia|]); simpl in Hi; lia.
Qed.

Lemma rebase_preserves_receipt_witness :
  exists plan plan', plan_mana_payment_with_any_color sample_state 0 sample_cost 0 0 0
      [sample_choice] [sample_selection] [7] false = Ok plan /\
    rebase_for_attack_receipt plan richer_state 0 = Ok plan' /\
    mana_payment_still_valid richer_state 0 plan' = true /\
    expected_pool plan' !!! 4%nat = 2.
Proof.
  eexists _, _. split; [vm_compute; reflexivity|]. split; [vm_compute; reflexivity|].
  split; [|vm_compute; reflexivity].
  eapply (rebase_preserves_receipt sample_state richer_state 0 sample_cost 0 0 0
    [sample_choice] [sample_selection] [7] false);
    first [exact richer_wf | sample_plan].
Defined.

Lemma commit_life_change_checked_spec_witness :
  commit_life_change_checked sample_state 0 2147483640 = Err (LifeNumericRange "life total") /\
  commit_life_change_checked sample_state 0 (-3) = Ok (commit_life_change sample_state 0 (-3)).
Proof.
  split; (etransitivity;
    [apply (commit_life_change_checked_spec sample_state 0 _ sample_player)|]);
    first [vm_compute; split; discriminate | vm_compute; reflexivity].
Defined.
