(* ===== verification/Blocking.v ===== *)
(** * Declaring blockers: [tricerules-core/src/engine/combat/blocking.rs]

    Which blocks a defending player may declare: attackers limit how many
    creatures may block them, and as many of the creatures that must block as
    possible have to (CR 509.1b-c). [solve] searches with pruning and a table of
    known results for the greatest number, [analyze] says which single blocks belong
    to such a declaration, [check_blocks] is the check of [set_blockers] in
    [combat.rs] on a complete declaration.

    Attackers and blockers are numbered as in the graph. Indices are in range in
    the graphs the engine builds ([wf_graph]); [None] is a panic. *)
From S2P Require Import Prelude Demand.
Open Scope cockatrice_scope.
Local Open Scope nat_scope.

(** ** The graph *)

Record BlockPair : Type := { attacker_id : Z; blocker_id : Z }.

Record BlockGraph : Type := {
  attackers : list Z;
  blockers : list Z;
  edges : list (list nat);
  minimum : list nat;
  maximum : list (option nat);
  must_block : list bool
}.

Record BlockAnalysis : Type := { pairs : list BlockPair; required : list Z }.

(** [Option::is_none_or] and [Option::is_some_and]. *)
Definition is_none_or {A} (f : A -> bool) (o : option A) : bool :=
  match o with Some x => f x | None => true end.
Definition is_some_and {A} (f : A -> bool) (o : option A) : bool :=
  match o with Some x => f x | None => false end.

(** [filter(..).count()] *)
Definition count {A} (p : A -> bool) (l : list A) : nat := length (List.filter p l).

Definition enumerate {A} (l : list A) : list (nat * A) := zip (seq 0 (length l)) l.

(** [sort_unstable_by_key] with a key that is compared lexicographically. *)
Definition key_le {A} (key : A -> list Z) (x y : A) : Prop := lex_lt (key y) (key x) = false.

#[export] Instance key_le_dec {A} (key : A -> list Z) : RelDecision (key_le key).
Proof. intros x y. unfold key_le. apply _. Defined.

Definition sort_by_key {A} (key : A -> list Z) (l : list A) : list A := merge_sort (key_le key) l.

(** The table of results, by position and normalized counts. *)
Definition Memo : Type := gmap (nat * list nat) (option nat).

Section Graph.
Context (g : BlockGraph).

Definition count_is_legal (attacker number : nat) : bool :=
  (number =? 0) ||
  ((minimum g !!! attacker <=? number)
   && is_none_or (fun max => number <=? max) (maximum g !!! attacker)).

Definition pair (blocker attacker : nat) : BlockPair :=
  {| blocker_id := blockers g !!! blocker; attacker_id := attackers g !!! attacker |}.

(** ** The search *)

Definition order_key (forced : option (nat * nat)) (b : nat) : list Z :=
  [Z.b2z (is_none_or (fun f => negb (f.1 =? b)) forced);
   Z.b2z (negb (must_block g !!! b));
   Z.of_nat (length (edges g !!! b));
   blockers g !!! b].

(** The attackers that blocker [b] may still be given to. *)
Definition add_available (forced : option (nat * nat)) (b : nat) (row : list nat) : list nat :=
  fold_left (fun row a =>
    if is_none_or (fun f => negb (f.1 =? b) || (f.2 =? a)) forced
    then <[a := S (row !!! a)]> row else row) (edges g !!! b) row.

(** [available] from a position on: one row per position, and the one behind the
    last. *)
Fixpoint available_rows (forced : option (nat * nat)) (omitted : option nat) (order : list nat)
    : list (list nat) :=
  match order with
  | [] => [replicate (length (attackers g)) 0]
  | b :: order =>
      let rows := available_rows forced omitted order in
      let row := default [] (head rows) in
      (if bool_decide (omitted = Some b) then row else add_available forced b row) :: rows
  end.

Fixpoint required_rows (omitted : option nat) (order : list nat) : list nat :=
  match order with
  | [] => [0]
  | b :: order =>
      let rows := required_rows omitted order in
      default 0 (head rows)
        + Nat.b2n ((must_block g !!! b) && negb (bool_decide (omitted = Some b))) :: rows
  end.

Record Search : Type := {
  available : list (list nat);
  remaining_required : list nat;
  forced : option (nat * nat);
  omitted : option nat
}.

(** [Option::max] *)
Definition omax (x y : option nat) : option nat :=
  match x, y with
  | Some m, Some n => Some (Nat.max m n)
  | Some m, None => Some m
  | None, _ => y
  end.

(** Some attacker that is blocked can no longer be blocked legally. *)
Definition hopeless (s : Search) (position : nat) (counts : list nat) : bool :=
  existsb (fun '(a, number) =>
    (0 <? number)
    && ((number + (available s !!! position) !!! a <? minimum g !!! a)
        || is_some_and (fun max => max <? minimum g !!! a) (maximum g !!! a)))
    (enumerate counts).

Definition normalized (counts : list nat) : list nat :=
  map (fun '(a, number) =>
    match maximum g !!! a with None => Nat.min number (minimum g !!! a) | Some _ => number end)
    (enumerate counts).

(** The blocks of blocker [b], until one reaches the bound: the best result, and
    the table. [visit_next] visits the next position. *)
Fixpoint visit_edges (visit_next : list nat -> Memo -> option nat * Memo) (s : Search)
    (position b : nat) (counts : list nat) (es : list nat) (best : option nat) (memo : Memo)
    : option nat * Memo :=
  match es with
  | [] => (best, memo)
  | a :: es =>
      if is_some_and (fun f => (f.1 =? b) && negb (f.2 =? a)) (forced s)
         || is_some_and (fun max => max <=? counts !!! a) (maximum g !!! a)
      then visit_edges visit_next s position b counts es best memo
      else
        let '(score, memo) := visit_next (<[a := S (counts !!! a)]> counts) memo in
        let best :=
          match score with
          | Some score => omax best (Some (score + Nat.b2n (must_block g !!! b)))
          | None => best
          end in
        if bool_decide (best = Some (remaining_required s !!! position)) then (best, memo)
        else visit_edges visit_next s position b counts es best memo
  end.

(** [visit]; [order] is what is left of the order from [position] on. *)
Fixpoint visit (s : Search) (order : list nat) (position : nat) (counts : list nat) (memo : Memo)
    : option nat * Memo :=
  if hopeless s position counts then (None, memo)
  else
    match order with
    | [] => (Some 0, memo)
    | b :: order =>
        let key := (position, normalized counts) in
        match memo !! key with
        | Some value => (value, memo)
        | None =>
            let next := visit s order (S position) in
            let '(best, memo) :=
              if bool_decide (omitted s = Some b) then (None, memo)
              else visit_edges next s position b counts (edges g !!! b) None memo in
            let '(best, memo) :=
              if is_none_or (fun f => negb (f.1 =? b)) (forced s)
                 && negb (bool_decide (best = Some (remaining_required s !!! position)))
              then let '(score, memo) := next counts memo in (omax best score, memo)
              else (best, memo) in
            (best, <[key := best]> memo)
        end
    end.

Definition search_order (forced : option (nat * nat)) : list nat :=
  sort_by_key (order_key forced) (seq 0 (length (blockers g))).

Definition solve (forced : option (nat * nat)) (omitted : option nat) : option nat :=
  if negb (existsb id (must_block g)) && bool_decide (forced = None) then Some 0
  else
    let order := search_order forced in
    let s := {| available := available_rows forced omitted order;
                remaining_required := required_rows omitted order;
                forced := forced; omitted := omitted |} in
    (visit s order 0 (replicate (length (attackers g)) 0) ∅).1.

Definition maximum_requirements : option nat := solve None None.

(** ** Which blocks are offered *)

Definition pair_key (p : BlockPair) : list Z := [blocker_id p; attacker_id p].

Definition analyze : option BlockAnalysis :=
  '(ps, rs) ←
    (if negb (existsb id (must_block g)) then
       let neighbors := map (fun a => count (fun es => bool_decide (a ∈ es)) (edges g))
                          (seq 0 (length (attackers g))) in
       Some (concat (map (fun '(b, es) =>
               map (pair b) (List.filter (fun a =>
                 (minimum g !!! a <=? neighbors !!! a)
                 && is_none_or (fun max => minimum g !!! a <=? max) (maximum g !!! a)) es))
               (enumerate (edges g))), [])
     else
       optimum ← maximum_requirements;
       Some (concat (map (fun '(b, es) =>
               map (pair b) (List.filter (fun a =>
                 bool_decide (solve (Some (b, a)) None = Some optimum)) es)) (enumerate (edges g))),
             concat (map (fun '(b, _) =>
               if bool_decide (solve None (Some b) = Some optimum) then []
               else [blockers g !!! b]) (enumerate (edges g)))));
  Some {| pairs := sort_by_key pair_key ps; required := sort_by_key (fun x => [x]) rs |}.

(** ** The check of a complete declaration *)

(** What [set_blockers] asks about the object of a blocker. *)
Record BlockerObject : Type := {
  on_battlefield : bool;
  controller : option Z;
  creature : bool;
  tapped : bool
}.

Definition position (x : Z) (l : list Z) : option nat := fst <$> list_find (eq x) l.

(** The pair is an edge of the graph. *)
Definition legal_pair (p : BlockPair) : bool :=
  match position (blocker_id p) (blockers g), position (attacker_id p) (attackers g) with
  | Some b, Some a => bool_decide (a ∈ edges g !!! b)
  | _, _ => false
  end.

(** The loop over the pairs: the blockers seen, and the blockers of each attacker. *)
Fixpoint check_pairs (attacking : list Z) (objects : gmap Z BlockerObject) (defending_player : Z)
    (ps : list BlockPair) (seen : gset Z) (blocked : gmap Z (list Z))
    : result (gset Z * gmap Z (list Z)) EngineError :=
  match ps with
  | [] => Ok (seen, blocked)
  | p :: ps =>
      if negb (bool_decide (attacker_id p ∈ attacking)) then Err (Illegal "bad attacker")
      else if bool_decide (blocker_id p ∈ seen) then Err (Illegal "blocker assigned more than once")
      else
        match objects !! blocker_id p with
        | None => Err (Illegal "blocker?")
        | Some o =>
            if negb (on_battlefield o) then Err (Illegal "blocker zone")
            else if negb (bool_decide (controller o = Some defending_player))
            then Err (Illegal "not your blocker")
            else if negb (creature o) then Err (Illegal "blocker not creature")
            else if tapped o then Err (Illegal "blocker tapped")
            else if negb (legal_pair p)
            then Err (Illegal "blocker cannot block this attacker (evasion)")
            else
              check_pairs attacking objects defending_player ps ({[blocker_id p]} ∪ seen)
                (<[attacker_id p := default [] (blocked !! attacker_id p) ++ [blocker_id p]]> blocked)
        end
  end.

(** From the pairs to the blockers of each attacker. *)
Definition check_blocks (attacking : list Z) (objects : gmap Z BlockerObject) (defending_player : Z)
    (ps : list BlockPair) : option (result (gmap Z (list Z)) EngineError) :=
  match check_pairs attacking objects defending_player ps ∅ ∅ with
  | Err e => Some (Err e)
  | Ok (seen, blocked) =>
      if forallb (fun '(a, attacker) =>
           count_is_legal a (length (default [] (blocked !! attacker)))) (enumerate (attackers g))
      then
        let satisfied :=
          count (fun '(oid, must) => must && bool_decide (oid ∈ seen)) (zip (blockers g) (must_block g)) in
        optimum ← maximum_requirements;
        if satisfied =? optimum then Some (Ok blocked)
        else
          Some (Err (Illegal
            "block declaration must satisfy the maximum possible blocking requirements"))
      else Some (Err (Illegal "Illegal blocks."))
  end.
End Graph.
