(* ===== verification/BlockingCorrect.v ===== *)
(** * Declaring blockers: the theorems

    The search finds the greatest number of requirements a legal declaration obeys,
    for all its pruning and its table; the blocks offered are exactly those of
    declarations that obey that many, and these are exactly the declarations
    accepted. *)
From S2P Require Import Prelude Demand Blocking.
Open Scope cockatrice_scope.
Local Open Scope nat_scope.

(** ** The greatest value *)

(** [v] is the greatest value of [f] on [P], [None] where [P] is empty. *)
Definition is_best {A} (P : A -> Prop) (f : A -> nat) (v : option nat) : Prop :=
  match v with
  | Some n => (exists x, P x /\ f x = n) /\ forall x, P x -> f x <= n
  | None => forall x, ~ P x
  end.

Lemma is_best_unique {A} (P : A -> Prop) f u v : is_best P f u -> is_best P f v -> u = v.
Proof.
  destruct u as [m|], v as [n|]; cbn; [|by intros [(x & Hx & _) _] Hv; destruct (Hv x)
    |by intros Hu [(x & Hx & _) _]; destruct (Hu x)|done].
  intros [(x & Hx & <-) Hu] [(y & Hy & <-) Hv]. f_equal. apply Nat.le_antisymm; auto.
Qed.

(** The same values are reached. *)
Lemma is_best_sim {A B} (P : A -> Prop) (f : A -> nat) (Q : B -> Prop) (h : B -> nat) v :
  (forall x, P x -> exists y, Q y /\ h y = f x) -> (forall y, Q y -> exists x, P x /\ f x = h y) ->
  is_best P f v -> is_best Q h v.
Proof.
  intros HPQ HQP. destruct v as [n|]; cbn.
  - intros [(x & Hx & <-) Hle]. split; [by apply HPQ|].
    intros y Hy. destruct (HQP y Hy) as (x' & Hx' & <-). auto.
  - intros Hnone y Hy. destruct (HQP y Hy) as (x & Hx & _). by apply (Hnone x).
Qed.

Lemma is_best_iff {A} (P Q : A -> Prop) f v : (forall x, P x <-> Q x) -> is_best P f v -> is_best Q f v.
Proof. intros H. apply is_best_sim; intros x Hx; exists x; (split; [by apply H|done]). Qed.

Lemma is_best_union {A} (P Q : A -> Prop) f u v :
  is_best P f u -> is_best Q f v -> is_best (fun x => P x \/ Q x) f (omax u v).
Proof.
  destruct u as [m|], v as [n|]; cbn.
  - intros [(x & Hx & <-) Hu] [(y & Hy & <-) Hv]. split.
    + destruct (Nat.max_spec (f x) (f y)) as [[_ ->]|[_ ->]]; [by exists y; auto|by exists x; auto].
    + intros z [Hz|Hz]; [specialize (Hu z Hz)|specialize (Hv z Hz)]; lia.
  - intros [(x & Hx & <-) Hu] Hv. split; [by exists x; auto|].
    intros z [Hz|Hz]; [by auto|by destruct (Hv z)].
  - intros Hu [(y & Hy & <-) Hv]. split; [by exists y; auto|].
    intros z [Hz|Hz]; [by destruct (Hu z)|by auto].
  - intros Hu Hv z [Hz|Hz]; [by destruct (Hu z)|by destruct (Hv z)].
Qed.

(** Nothing beyond the bound is missed. *)
Lemma is_best_top {A} (P Q : A -> Prop) f n :
  is_best P f (Some n) -> (forall x, Q x -> f x <= n) -> is_best (fun x => P x \/ Q x) f (Some n).
Proof.
  intros [(x & Hx & Hn) Hu] Hv. split; [by exists x; auto|]. intros z [Hz|Hz]; auto.
Qed.

Lemma is_best_shift {A} (P : A -> Prop) f k v :
  is_best P f v -> is_best P (fun x => f x + k) ((fun n => n + k) <$> v).
Proof.
  destruct v as [n|]; cbn; [|done]. intros [(x & Hx & <-) Hle].
  split; [by exists x|]. intros y Hy. specialize (Hle y Hy). lia.
Qed.

Lemma some_cons {A} (a : A) l (P : Prop) (Q : A -> Prop) :
  (P \/ Q a) \/ (exists e, e ∈ l /\ Q e) <-> P \/ exists e, e ∈ a :: l /\ Q e.
Proof.
  split; [intros [[?|?]|(e & ? & ?)]|intros [?|(e & [->|He]%elem_of_cons & ?)]]; eauto;
    right; eexists; (split; [|done]); [left|by right].
Qed.

(** ** Counting *)

Lemma count_cons {A} (p : A -> bool) x l : count p (x :: l) = Nat.b2n (p x) + count p l.
Proof. unfold count. cbn [List.filter]. by destruct (p x). Qed.

Lemma count_nil {A} (p : A -> bool) : count p [] = 0.
Proof. done. Qed.

Lemma count_perm {A} (p : A -> bool) l k : l ≡ₚ k -> count p l = count p k.
Proof. induction 1; rewrite ?count_cons; lia. Qed.

Lemma count_ext {A} (p q : A -> bool) l : (forall x, x ∈ l -> p x = q x) -> count p l = count q l.
Proof.
  induction l as [|x l IH]; intros H; [done|]. rewrite !count_cons, (H x), IH; [done|set_solver..].
Qed.

Lemma count_le {A} (p q : A -> bool) l :
  (forall x, x ∈ l -> p x = true -> q x = true) -> count p l <= count q l.
Proof.
  induction l as [|x l IH]; intros H; [done|]. rewrite !count_cons.
  assert (p x = true -> q x = true) by (apply H; set_solver). specialize (IH ltac:(set_solver)).
  destruct (p x), (q x); cbn; naive_solver lia.
Qed.

Lemma count_zero {A} (p : A -> bool) l : (forall x, x ∈ l -> p x = false) -> count p l = 0.
Proof.
  induction l as [|x l IH]; intros H; [done|]. rewrite count_cons, H by set_solver.
  rewrite IH by set_solver. done.
Qed.

Lemma filter_map_swap {A B} (p : B -> bool) (f : A -> B) l :
  List.filter p (map f l) = map f (List.filter (fun x => p (f x)) l).
Proof. induction l as [|x l IH]; [done|]. cbn. rewrite IH. by destruct (p (f x)). Qed.

(** ** Numbered lists *)

Lemma elem_of_enumerate {A} (l : list A) i x : (i, x) ∈ enumerate l <-> l !! i = Some x.
Proof.
  unfold enumerate. rewrite list_elem_of_lookup. split.
  - intros (k & Hk). apply lookup_zip_with_Some in Hk as (j & y & [= -> ->] & Hj & Hy).
    apply lookup_seq in Hj as [-> _]. done.
  - intros Hx. exists i. apply lookup_zip_with_Some. exists i, x. split; [done|]. split; [|done].
    apply lookup_seq. split; [done|]. by apply lookup_lt_Some in Hx.
Qed.

Lemma length_enumerate {A} (l : list A) : length (enumerate l) = length l.
Proof. unfold enumerate. rewrite length_zip, length_seq. lia. Qed.

Lemma enumerate_lookup {A} (l : list A) i : enumerate l !! i = (fun x => (i, x)) <$> l !! i.
Proof.
  destruct (l !! i) as [x|] eqn:E; cbn.
  - unfold enumerate. apply lookup_zip_with_Some. exists i, x. split_and!; [done| |done].
    apply lookup_seq. split; [done|]. by apply lookup_lt_Some in E.
  - apply lookup_ge_None_2. rewrite length_enumerate. by apply lookup_ge_None_1.
Qed.

Lemma lookup_total_map_enumerate {A B} `{Inhabited A} `{Inhabited B} (f : nat * A -> B) (l : list A) i :
  i < length l -> map f (enumerate l) !!! i = f (i, l !!! i).
Proof.
  intros Hi. apply list_lookup_total_correct. change (map f (enumerate l)) with (f <$> enumerate l).
  rewrite list_lookup_fmap, enumerate_lookup, (list_lookup_lookup_total_lt l i) by done. done.
Qed.

(** ** Counts *)

Lemma count_is_legal_spec g a n :
  count_is_legal g a n = true <->
  n = 0 \/ (minimum g !!! a <= n /\ forall max, maximum g !!! a = Some max -> n <= max).
Proof.
  unfold count_is_legal. rewrite orb_true_iff, andb_true_iff, Nat.eqb_eq, Nat.leb_le.
  destruct (maximum g !!! a) as [m|]; cbn; [rewrite Nat.leb_le|].
  - split; (intros [?|[? H]]; [auto|right; split; [done|]]); [by intros ? [= <-]|by apply H].
  - naive_solver.
Qed.

Lemma hopeless_spec g s p counts :
  hopeless g s p counts = true <->
  exists a, a < length counts /\ 0 < counts !!! a /\
    (counts !!! a + (available s !!! p) !!! a < minimum g !!! a \/
     exists max, maximum g !!! a = Some max /\ max < minimum g !!! a).
Proof.
  unfold hopeless. rewrite existsb_exists. split.
  - intros ([a n] & Hin%list_elem_of_In & H). apply elem_of_enumerate in Hin as Hn.
    rewrite <- (list_lookup_total_correct _ _ _ Hn) in H.
    exists a. split; [by apply lookup_lt_Some in Hn|].
    rewrite andb_true_iff, orb_true_iff, !Nat.ltb_lt in H. destruct H as [H1 H2]. split; [done|].
    destruct H2 as [H2|H2]; [by left|right].
    destruct (maximum g !!! a) as [m|]; [|done]. exists m. by rewrite <- Nat.ltb_lt.
  - intros (a & Ha & Hpos & H). exists (a, counts !!! a). split.
    { apply list_elem_of_In, elem_of_enumerate. by apply list_lookup_lookup_total_lt. }
    rewrite andb_true_iff, orb_true_iff, !Nat.ltb_lt. split; [done|].
    destruct H as [H|(m & -> & H)]; [by left|right]. by apply Nat.ltb_lt.
Qed.

Lemma normalized_at g counts a :
  a < length counts ->
  normalized g counts !!! a =
    match maximum g !!! a with
    | None => Nat.min (counts !!! a) (minimum g !!! a)
    | Some _ => counts !!! a
    end.
Proof. intros Ha. unfold normalized. by rewrite lookup_total_map_enumerate. Qed.

Lemma length_normalized g counts : length (normalized g counts) = length counts.
Proof. unfold normalized. by rewrite length_map, length_enumerate. Qed.

(** The normalized count is as good as the count. *)
Lemma normalized_legal g counts a k :
  a < length counts -> 
  count_is_legal g a (normalized g counts !!! a + k) = count_is_legal g a (counts !!! a + k).
Proof.
  intros Ha. rewrite normalized_at by done. destruct (maximum g !!! a) as [m|] eqn:Em; [done|].
  apply eq_true_iff_eq. rewrite !count_is_legal_spec, Em.
  destruct (decide (minimum g !!! a = 0)); [|destruct (decide (counts !!! a = 0)) as [->|]].
  - split; intros _; right; (split; [lia|done]).
  - by rewrite Nat.min_0_l.
  - split; (intros [?|[? _]]; [lia|right; split; [lia|done]]).
Qed.

(** ** Choices

    A choice says for every blocker which attacker it blocks, if any. *)

Lemma elem_of_concat_enumerate {A B} (f : nat * A -> list B) (l : list A) y :
  y ∈ concat (map f (enumerate l)) <-> exists i x, l !! i = Some x /\ y ∈ f (i, x).
Proof.
  rewrite list_elem_of_In, in_concat. split.
  - intros (ys & Hys & Hy). apply in_map_iff in Hys as ([i x] & <- & Hin).
    apply list_elem_of_In, elem_of_enumerate in Hin. exists i, x. by rewrite list_elem_of_In.
  - intros (i & x & Hx & Hy). exists (f (i, x)). rewrite <- list_elem_of_In. split; [|by apply list_elem_of_In].
    apply list_elem_of_In, in_map, list_elem_of_In, elem_of_enumerate, Hx.
Qed.

Lemma elem_of_filter_bool {A} (p : A -> bool) l x : x ∈ List.filter p l <-> p x = true /\ x ∈ l.
Proof. rewrite !list_elem_of_In, filter_In. tauto. Qed.

#[export] Instance key_le_trans {A} (key : A -> list Z) : Transitive (key_le key).
Proof.
  intros x y z Hxy Hyz. unfold key_le in *. destruct (lex_lt (key z) (key x)) eqn:E; [|done].
  destruct (lex_lt (key x) (key y)) eqn:Exy.
  - by rewrite (lex_lt_trans _ _ _ E Exy) in Hyz.
  - by rewrite (lex_lt_antisym _ _ Exy Hxy), Hyz in E.
Qed.

#[export] Instance key_le_total {A} (key : A -> list Z) : Total (key_le key).
Proof.
  intros x y. unfold key_le. destruct (lex_lt (key y) (key x)) eqn:E; [right|by left].
  destruct (lex_lt (key x) (key y)) eqn:E'; [|done].
  by rewrite <- (lex_lt_irrefl (key x)), (lex_lt_trans _ _ _ E' E).
Qed.

Lemma sort_by_key_spec {A} (key : A -> list Z) l :
  StronglySorted (key_le key) (sort_by_key key l) /\ forall x, x ∈ sort_by_key key l <-> x ∈ l.
Proof.
  split; [apply (StronglySorted_merge_sort (key_le key))|].
  intros x. unfold sort_by_key. by rewrite merge_sort_Permutation.
Qed.

Section Search.
Context (g : BlockGraph).

(** The graphs of the engine: one entry per creature, edges to attackers. *)
Record wf_graph : Prop := {
  wf_edges : length (edges g) = length (blockers g);
  wf_must : length (must_block g) = length (blockers g);
  wf_minimum : length (minimum g) = length (attackers g);
  wf_maximum : length (maximum g) = length (attackers g);
  wf_edge a b : a ∈ edges g !!! b -> a < length (attackers g);
  wf_positive a : a < length (attackers g) -> 1 <= minimum g !!! a
}.

Section Constraints.
Context (frc : option (nat * nat)) (omt : option nat).

Definition allowed (b : nat) (o : option nat) : Prop :=
  match o with
  | Some a => a ∈ edges g !!! b /\ omt <> Some b /\ (forall fa, frc = Some (b, fa) -> fa = a)
  | None => forall fa, frc <> Some (b, fa)
  end.

Definition occupied (rest : list nat) (c : nat -> option nat) (a : nat) : nat :=
  count (fun b => bool_decide (c b = Some a)) rest.

(** With these counts already, the choice makes a legal declaration. *)
Definition completes (rest counts : list nat) (c : nat -> option nat) : Prop :=
  (forall b, b ∈ rest -> allowed b (c b)) /\
  (forall a, a < length (attackers g) ->
     count_is_legal g a (counts !!! a + occupied rest c a) = true).

Definition gain (rest : list nat) (c : nat -> option nat) : nat :=
  count (fun b => (must_block g !!! b) && bool_decide (is_Some (c b))) rest.

(** The first row and the first bound of the tables. *)
Definition slots (rest : list nat) : list nat := default [] (head (available_rows g frc omt rest)).
Definition bound (rest : list nat) : nat := default 0 (head (required_rows g omt rest)).

Lemma available_rows_at order p :
  p <= length order -> available_rows g frc omt order !!! p = slots (drop p order).
Proof.
  revert p. induction order as [|b order IH]; intros [|p] Hp; cbn in *; [done|lia|done|].
  apply (IH p). lia.
Qed.

Lemma required_rows_at order p :
  p <= length order -> required_rows g omt order !!! p = bound (drop p order).
Proof.
  revert p. induction order as [|b order IH]; intros [|p] Hp; cbn in *; [done|lia|done|].
  apply (IH p). lia.
Qed.

Lemma add_available_spec b row a :
  length row = length (attackers g) -> a < length (attackers g) ->
  length (add_available g frc b row) = length row /\ row !!! a <= add_available g frc b row !!! a /\
  (a ∈ edges g !!! b -> (forall fa, frc = Some (b, fa) -> fa = a) ->
   S (row !!! a) <= add_available g frc b row !!! a).
Proof.
  intros Hl Ha. unfold add_available. generalize (edges g !!! b) as es.
  intros es. revert row Hl. induction es as [|e es IH]; intros row Hl; cbn [fold_left].
  { split_and!; [done|lia|]. intros H. by apply not_elem_of_nil in H. }
  destruct (is_none_or _ frc) eqn:Ef.
  - destruct (IH (<[e := S (row !!! e)]> row)) as (H1 & H2 & H3); [by rewrite length_insert|].
    rewrite length_insert in H1. destruct (decide (e = a)) as [->|Hne].
    + rewrite list_lookup_total_insert_eq in H2, H3 by lia. split_and!; [done|lia|]. intros _ _. lia.
    + rewrite list_lookup_total_insert_ne in H2, H3 by done. split_and!; [done|lia|].
      intros [->|He]%elem_of_cons Hf; [done|]. by apply H3.
  - destruct (IH row Hl) as (H1 & H2 & H3). split_and!; [done|done|].
    intros [->|He]%elem_of_cons Hf; [|by apply H3]. exfalso.
    destruct frc as [[fb fa]|]; cbn in Ef; [|done].
    apply orb_false_iff in Ef as [E1 E2]. apply negb_false_iff, Nat.eqb_eq in E1 as ->.
    rewrite (Hf fa eq_refl), Nat.eqb_refl in E2. done.
Qed.

Lemma length_slots rest : length (slots rest) = length (attackers g).
Proof.
  induction rest as [|b rest IH]; [apply length_replicate|]. unfold slots. cbn.
  fold (slots rest). case_bool_decide; [done|].
  destruct (decide (0 < length (attackers g))).
  - destruct (add_available_spec b (slots rest) 0 IH) as [-> _]; done.
  - unfold add_available. generalize (edges g !!! b) as es. intros es. revert IH.
    generalize (slots rest) as row. induction es as [|e es IHe]; intros row Hl; cbn; [done|].
    apply IHe. destruct (is_none_or _ frc); [by rewrite length_insert|done].
Qed.

Lemma occupied_cons b rest c a :
  occupied (b :: rest) c a = Nat.b2n (bool_decide (c b = Some a)) + occupied rest c a.
Proof. unfold occupied. by rewrite count_cons. Qed.

(** A choice gives no attacker more blockers than the table has for it. *)
Lemma occupied_slots rest c a :
  (forall b, b ∈ rest -> allowed b (c b)) -> a < length (attackers g) ->
  occupied rest c a <= slots rest !!! a.
Proof.
  intros Hc Ha. induction rest as [|b rest IH]; [cbn; lia|]. rewrite occupied_cons.
  specialize (IH ltac:(set_solver)). assert (Hb := Hc b ltac:(set_solver)).
  unfold slots. cbn. fold (slots rest).
  destruct (add_available_spec b (slots rest) a (length_slots rest) Ha) as (_ & H2 & H3).
  destruct (bool_decide_reflect (c b = Some a)) as [E|]; cbn.
  - rewrite E in Hb. destruct Hb as (He & Ho & Hf). rewrite bool_decide_false by done.
    specialize (H3 He Hf). lia.
  - case_bool_decide; lia.
Qed.

Lemma gain_cons b rest c :
  gain (b :: rest) c = Nat.b2n ((must_block g !!! b) && bool_decide (is_Some (c b))) + gain rest c.
Proof. unfold gain. by rewrite count_cons. Qed.

(** Nor does it obey more requirements than the bound. *)
Lemma gain_bound rest c : (forall b, b ∈ rest -> allowed b (c b)) -> gain rest c <= bound rest.
Proof.
  intros Hc. induction rest as [|b rest IH]; [done|]. rewrite gain_cons.
  unfold bound. cbn. fold (bound rest). specialize (IH ltac:(set_solver)).
  assert (Hb := Hc b ltac:(set_solver)).
  destruct (must_block g !!! b); cbn [andb Nat.b2n]; [|lia]. destruct (c b) as [a|]; [|cbn; lia].
  destruct Hb as (_ & Ho & _). rewrite (bool_decide_false _ Ho). cbn. lia.
Qed.

(** ** The search *)

(** No attacker is blocked by more than it may. *)
Definition counts_ok (counts : list nat) : Prop :=
  length counts = length (attackers g) /\
  forall a max, a < length (attackers g) -> maximum g !!! a = Some max -> counts !!! a <= max.

Lemma completes_normalized rest counts counts' c :
  length counts = length (attackers g) -> length counts' = length (attackers g) ->
  normalized g counts = normalized g counts' ->
  completes rest counts c -> completes rest counts' c.
Proof.
  intros Hl Hl' He [Hc Ha]. split; [done|]. intros a Hlt.
  rewrite <- normalized_legal, <- He, normalized_legal by lia. by apply Ha.
Qed.

Lemma hopeless_none s p order counts c :
  available s = available_rows g frc omt order -> p <= length order ->
  length counts = length (attackers g) -> hopeless g s p counts = true ->
  ~ completes (drop p order) counts c.
Proof.
  intros Hs Hp Hl (a & Hlt & Hpos & Hh)%hopeless_spec [Hc Hleg]. rewrite Hl in Hlt.
  specialize (Hleg a Hlt). apply count_is_legal_spec in Hleg as [Hleg|[Hmin Hmax]]; [lia|].
  destruct Hh as [Hh|(m & Hm & Hh)].
  - rewrite Hs, available_rows_at in Hh by done.
    pose proof (occupied_slots (drop p order) c a Hc Hlt). lia.
  - specialize (Hmax m Hm). lia.
Qed.

(** At the end of the order what is not hopeless is legal. *)
Lemma end_completes s order counts c :
  available s = available_rows g frc omt order -> counts_ok counts ->
  hopeless g s (length order) counts = false -> completes [] counts c.
Proof.
  intros Hs [Hl Hmax] Hh. split; [intros b Hb; by apply not_elem_of_nil in Hb|].
  intros a Ha. change (occupied [] c a) with 0. rewrite Nat.add_0_r. apply count_is_legal_spec.
  destruct (decide (counts !!! a = 0)) as [|Hne]; [by left|right].
  split; [|intros m; by apply Hmax]. apply Nat.nlt_ge. intros Hlt.
  assert (hopeless g s (length order) counts = true) as E; [|by rewrite E in Hh].
  apply hopeless_spec. exists a. split; [lia|]. split; [lia|]. left.
  rewrite Hs, available_rows_at, drop_all by done. change (slots []) with (replicate (length (attackers g)) 0).
  rewrite lookup_total_replicate_2 by done. lia.
Qed.

Definition set_choice (c : nat -> option nat) (b : nat) (o : option nat) (x : nat) : option nat :=
  if x =? b then o else c x.

Lemma occupied_set rest c b o a : b ∉ rest -> occupied rest (set_choice c b o) a = occupied rest c a.
Proof.
  intros Hb. apply count_ext. intros x Hx. unfold set_choice.
  destruct (Nat.eqb_spec x b) as [->|]; done.
Qed.

Lemma gain_set rest c b o : b ∉ rest -> gain rest (set_choice c b o) = gain rest c.
Proof.
  intros Hb. apply count_ext. intros x Hx. unfold set_choice.
  destruct (Nat.eqb_spec x b) as [->|]; done.
Qed.

Lemma set_choice_at c b o : set_choice c b o b = o.
Proof. unfold set_choice. by rewrite Nat.eqb_refl. Qed.

(** Counts after a block. *)
Definition with_block (o : option nat) (counts : list nat) : list nat :=
  match o with Some a => <[a := S (counts !!! a)]> counts | None => counts end.

Lemma with_block_at o counts a :
  length counts = length (attackers g) -> a < length (attackers g) ->
  with_block o counts !!! a = Nat.b2n (bool_decide (o = Some a)) + counts !!! a.
Proof.
  intros Hl Ha. destruct o as [e|]; [|done]. cbn [with_block].
  destruct (decide (e = a)) as [->|Hne].
  - rewrite list_lookup_total_insert_eq, bool_decide_true by (done || lia). done.
  - rewrite list_lookup_total_insert_ne, bool_decide_false by congruence. done.
Qed.

(** Completing the counts after the block of [b] is completing from [b] on. *)
Lemma completes_head b rest counts o c :
  length counts = length (attackers g) -> c b = o ->
  completes (b :: rest) counts c <-> allowed b o /\ completes rest (with_block o counts) c.
Proof.
  intros Hl Hb. unfold completes. split.
  - intros [Hc Ha]. split; [rewrite <- Hb; apply Hc; left|]. split; [intros x Hx; apply Hc; by right|].
    intros a Hlt. specialize (Ha a Hlt). rewrite occupied_cons, Hb in Ha.
    rewrite with_block_at by done. by rewrite <- Nat.add_assoc, Nat.add_shuffle3.
  - intros (Hb' & Hc & Ha). split; [intros x [->|Hx]%elem_of_cons; [by rewrite Hb|by apply Hc]|].
    intros a Hlt. specialize (Ha a Hlt). rewrite with_block_at in Ha by done.
    rewrite occupied_cons, Hb. by rewrite <- Nat.add_assoc, Nat.add_shuffle3 in Ha.
Qed.

Definition head_value (b : nat) (o : option nat) : nat :=
  Nat.b2n ((must_block g !!! b) && bool_decide (is_Some o)).

Lemma best_head b rest counts o v :
  b ∉ rest -> length counts = length (attackers g) -> allowed b o ->
  is_best (completes rest (with_block o counts)) (gain rest) v ->
  is_best (fun c => completes (b :: rest) counts c /\ c b = o) (gain (b :: rest))
    ((fun n => n + head_value b o) <$> v).
Proof.
  intros Hb Hl Ho Hv%(is_best_shift _ _ (head_value b o)). revert Hv. apply is_best_sim.
  - intros c Hc. exists (set_choice c b o). rewrite gain_cons, gain_set, set_choice_at by done.
    split; [|unfold head_value; lia]. split; [|done].
    apply (completes_head b rest counts o); [done|by rewrite set_choice_at|]. split; [done|].
    destruct Hc as [Hc Ha]. split.
    + intros x Hx. unfold set_choice. destruct (Nat.eqb_spec x b) as [->|]; [done|by apply Hc].
    + intros a Hlt. rewrite occupied_set by done. by apply Ha.
  - intros c [Hc Hcb]. exists c. rewrite gain_cons, Hcb. split; [|unfold head_value; lia].
    rewrite (completes_head b rest counts o) in Hc by done. by destruct Hc.
Qed.

(** The table holds results. *)
Definition memo_ok (order : list nat) (memo : Memo) : Prop :=
  forall p counts v, memo !! (p, normalized g counts) = Some v ->
    length counts = length (attackers g) ->
    is_best (completes (drop p order) counts) (gain (drop p order)) v.

Lemma memo_insert order p counts (v : option nat) (memo : Memo) :
  memo_ok order memo -> length counts = length (attackers g) ->
  is_best (completes (drop p order) counts) (gain (drop p order)) v ->
  memo_ok order (<[(p, normalized g counts) := v]> memo).
Proof.
  intros Hm Hl Hv q counts' v' Hq Hl'. apply lookup_insert_Some in Hq as [[[= -> He] ->]|[_ Hq]].
  - revert Hv. apply is_best_iff. intros c. split; by apply completes_normalized.
  - by apply Hm.
Qed.

(** What a visit of the next position promises. *)
Definition visits (order : list nat) (p : nat)
    (visit_next : list nat -> Memo -> option nat * Memo) : Prop :=
  forall counts memo, memo_ok order memo -> counts_ok counts ->
    is_best (completes (drop p order) counts) (gain (drop p order)) (visit_next counts memo).1 /\
    memo_ok order (visit_next counts memo).2.

Lemma with_block_ok a counts :
  counts_ok counts -> a < length (attackers g) ->
  (forall max, maximum g !!! a = Some max -> counts !!! a < max) ->
  counts_ok (with_block (Some a) counts).
Proof.
  intros [Hl Hok] Ha Hmax. split; [by cbn; rewrite length_insert|].
  intros e max He Hm. rewrite with_block_at by done.
  destruct (bool_decide_reflect (Some a = Some e)) as [[= ->]|]; cbn.
  - specialize (Hmax max Hm). lia.
  - by apply Hok.
Qed.

(** A block that is skipped makes no legal declaration. *)
Lemma skipped_block b rest counts a c :
  counts_ok counts -> a < length (attackers g) ->
  is_some_and (fun f => (f.1 =? b) && negb (f.2 =? a)) frc
    || is_some_and (fun max => max <=? counts !!! a) (maximum g !!! a) = true ->
  completes (b :: rest) counts c -> c b <> Some a.
Proof.
  intros [Hl Hok] Ha Hskip Hc Hb.
  rewrite (completes_head b rest counts (Some a)) in Hc by done. destruct Hc as [Hall Hc].
  apply orb_true_iff in Hskip as [Hs|Hs].
  - destruct frc as [[fb fa]|] eqn:Ef; [|done]. cbn in Hs. apply andb_true_iff in Hs as [E1 E2].
    apply Nat.eqb_eq in E1 as ->. apply negb_true_iff, Nat.eqb_neq in E2.
    destruct Hall as (_ & _ & Hf). by apply E2, Hf.
  - destruct (maximum g !!! a) as [m|] eqn:Em; [|done]. cbn in Hs. apply Nat.leb_le in Hs.
    destruct Hc as [_ Hc]. specialize (Hc a Ha). apply count_is_legal_spec in Hc.
    rewrite with_block_at, bool_decide_true in Hc by done. cbn in Hc.
    destruct Hc as [|[_ Hc]]; [lia|]. specialize (Hc m Em). lia.
Qed.

Lemma visit_edges_spec (wf : wf_graph) order p b rest next s :
  drop p order = b :: rest -> drop (S p) order = rest -> b ∉ rest -> p <= length order ->
  forced s = frc -> remaining_required s = required_rows g omt order -> omt <> Some b ->
  visits order (S p) next ->
  forall es counts best memo (P : (nat -> option nat) -> Prop),
  (forall a, a ∈ es -> a ∈ edges g !!! b) -> counts_ok counts -> memo_ok order memo ->
  is_best P (gain (b :: rest)) best ->
  let '(best', memo') := visit_edges g next s p b counts es best memo in
  memo_ok order memo' /\
  is_best (fun c => P c \/ exists a, a ∈ es /\ completes (b :: rest) counts c /\ c b = Some a)
    (gain (b :: rest)) best'.
Proof.
  intros Hd Hd' Hb Hp Hf Hr Ho Hnext es. induction es as [|a es IH]; intros counts best memo P Hes Hok Hm HP.
  { cbn. split; [done|]. revert HP. apply is_best_iff. intros c. split; [by left|].
    intros [?|(a & Ha & _)]; [done|]. by apply not_elem_of_nil in Ha. }
  assert (Ha : a ∈ edges g !!! b) by (apply Hes; left). assert (Hlt := wf_edge wf a b Ha).
  assert (Hes' : forall a, a ∈ es -> a ∈ edges g !!! b) by (intros; apply Hes; by right).
  cbn [visit_edges]. rewrite Hf. destruct (_ || _) eqn:Hskip.
  - specialize (IH counts best memo P Hes' Hok Hm HP).
    destruct (visit_edges _ _ _ _ _ _ _ _ _) as [best' memo']. destruct IH as [Hm' IH]. split; [done|].
    revert IH. apply is_best_iff. intros c.
    rewrite <- (some_cons a es (P c) (fun e => completes (b :: rest) counts c /\ c b = Some e)).
    assert (Hno := skipped_block b rest counts a c Hok Hlt Hskip). tauto.
  - apply orb_false_iff in Hskip as [Hs1 Hs2].
    assert (Hall : allowed b (Some a)).
    { split_and!; [done..|]. intros fa E. rewrite E in Hs1. cbn in Hs1.
      rewrite Nat.eqb_refl in Hs1. cbn in Hs1. by apply negb_false_iff, Nat.eqb_eq in Hs1. }
    assert (Hok' : counts_ok (with_block (Some a) counts)).
    { apply with_block_ok; [done..|]. intros m Em. rewrite Em in Hs2. cbn in Hs2. by apply Nat.leb_gt. }
    destruct (Hnext (with_block (Some a) counts) memo Hm Hok') as [Hv Hm']. cbn [with_block] in Hv, Hm'.
    destruct (next _ memo) as [score memo']. cbn [fst snd] in Hv, Hm'. rewrite Hd' in Hv.
    apply (best_head b rest counts (Some a)) in Hv; [|done|by destruct Hok|done].
    set (best2 := match score with Some _ => _ | None => _ end).
    assert (HP2 : is_best (fun c => P c \/ (completes (b :: rest) counts c /\ c b = Some a))
              (gain (b :: rest)) best2).
    { assert (best2 = omax best ((fun n => n + head_value b (Some a)) <$> score)) as ->;
        [|by apply is_best_union].
      unfold best2, head_value. destruct score as [n|]; cbn.
      - by destruct (must_block g !!! b).
      - by destruct best. }
    clearbody best2. case_bool_decide as Htop.
    + split; [done|]. subst best2. eapply is_best_iff; [|apply (is_best_top _ (fun c =>
        exists a, a ∈ es /\ completes (b :: rest) counts c /\ c b = Some a) _ _ HP2)].
      * intros c. apply (some_cons a es (P c) (fun e => completes (b :: rest) counts c /\ c b = Some e)).
      * intros c (e & _ & [Hc _] & _). rewrite Hr, required_rows_at, Hd by done. by apply gain_bound.
    + specialize (IH counts best2 memo' _ Hes' Hok Hm' HP2).
      destruct (visit_edges _ _ _ _ _ _ _ _ _) as [best' memo2]. destruct IH as [Hm2 IH]. split; [done|].
      revert IH. apply is_best_iff. intros c. apply (some_cons a es (P c) (fun e => completes (b :: rest) counts c /\ c b = Some e)).
Qed.

(** From [b] on, a choice gives it one of its edges or nothing. *)
Lemma completes_cases b rest counts c :
  length counts = length (attackers g) ->
  (completes (b :: rest) counts c /\ c b = None) \/
    (exists a, a ∈ edges g !!! b /\ completes (b :: rest) counts c /\ c b = Some a) <->
  completes (b :: rest) counts c.
Proof.
  intros Hl. split; [naive_solver|]. intros Hc. destruct (c b) as [a|] eqn:Hb; [|by left].
  right. exists a. split; [|done]. assert (Hc' := Hc).
  rewrite (completes_head b rest counts (Some a)) in Hc' by done. by destruct Hc' as [[? _] _].
Qed.

Section Step.
Context (wf : wf_graph) (order : list nat) (p b : nat) (rest : list nat).
Context (next : list nat -> Memo -> option nat * Memo) (s : Search).
Hypothesis Hd : drop p order = b :: rest.
Hypothesis Hd' : drop (S p) order = rest.
Hypothesis Hb : b ∉ rest.
Hypothesis Hp : p <= length order.
Hypothesis Hf : forced s = frc.
Hypothesis Ho : omitted s = omt.
Hypothesis Hr : remaining_required s = required_rows g omt order.
Hypothesis Hnext : visits order (S p) next.

(** The blocks of [b]. *)
Lemma blocks_spec counts memo :
  counts_ok counts -> memo_ok order memo ->
  let '(best, memo') :=
    if bool_decide (omitted s = Some b) then (None, memo)
    else visit_edges g next s p b counts (edges g !!! b) None memo in
  memo_ok order memo' /\
  is_best (fun c => exists a, a ∈ edges g !!! b /\ completes (b :: rest) counts c /\ c b = Some a)
    (gain (b :: rest)) best.
Proof.
  intros Hok Hm. rewrite Ho. case_bool_decide as Hob.
  - split; [done|]. intros c (a & _ & Hc & Hca).
    rewrite (completes_head b rest counts (Some a)) in Hc by (done || by destruct Hok).
    by destruct Hc as [(_ & Hno & _) _].
  - assert (H := visit_edges_spec wf order p b rest next s Hd Hd' Hb Hp Hf Hr Hob Hnext (edges g !!! b)
      counts None memo (fun _ => False) (fun _ h => h) Hok Hm (fun _ h => h)).
    destruct (visit_edges _ _ _ _ _ _ _ _ _) as [best memo']. destruct H as [Hm' H]. split; [done|].
    revert H. apply is_best_iff. naive_solver.
Qed.

(** And leaving [b] out. *)
Lemma leave_spec counts best memo :
  counts_ok counts -> memo_ok order memo ->
  is_best (fun c => exists a, a ∈ edges g !!! b /\ completes (b :: rest) counts c /\ c b = Some a)
    (gain (b :: rest)) best ->
  let '(best', memo') :=
    if is_none_or (fun f => negb (f.1 =? b)) (forced s)
       && negb (bool_decide (best = Some (remaining_required s !!! p)))
    then let '(score, memo) := next counts memo in (omax best score, memo)
    else (best, memo) in
  memo_ok order memo' /\ is_best (completes (b :: rest) counts) (gain (b :: rest)) best'.
Proof.
  intros Hok Hm Hbest. assert (Hl : length counts = length (attackers g)) by by destruct Hok.
  rewrite Hf. destruct (is_none_or _ frc) eqn:Ef; cbn [andb].
  - assert (Hall : allowed b None).
    { intros fa E. rewrite E in Ef. cbn in Ef. by rewrite Nat.eqb_refl in Ef. }
    case_bool_decide as Htop; cbn [negb].
    + split; [done|]. subst best. eapply is_best_iff; [|apply (is_best_top _ (fun c =>
        completes (b :: rest) counts c /\ c b = None) _ _ Hbest)].
      * intros c. assert (Hc := completes_cases b rest counts c Hl). tauto.
      * intros c [[Hc _] _]. rewrite Hr, required_rows_at, Hd by done. by apply gain_bound.
    + destruct (Hnext counts memo Hm Hok) as [Hv Hm']. destruct (next counts memo) as [score memo'].
      cbn [fst snd] in Hv, Hm'. rewrite Hd' in Hv. split; [done|].
      apply (best_head b rest counts None) in Hv; [|done..].
      assert ((fun n => n + head_value b None) <$> score = score) as E.
      { destruct score as [n|]; cbn; [|done]. unfold head_value. by rewrite andb_false_r, Nat.add_0_r. }
      rewrite E in Hv. eapply is_best_iff; [|apply (is_best_union _ _ _ _ _ Hbest Hv)].
      intros c. assert (Hc := completes_cases b rest counts c Hl). tauto.
  - split; [done|]. revert Hbest. apply is_best_iff. intros c. rewrite <- completes_cases by done.
    split; [by right|]. intros [[Hc Hcb]|?]; [|done]. exfalso.
    rewrite (completes_head b rest counts None) in Hc by done. destruct Hc as [Hno _].
    destruct frc as [[fb fa]|] eqn:E; [|done]. cbn in Ef.
    apply negb_false_iff, Nat.eqb_eq in Ef as ->. by apply (Hno fa).
Qed.
End Step.

Lemma visit_spec (wf : wf_graph) order s :
  NoDup order -> forced s = frc -> omitted s = omt ->
  available s = available_rows g frc omt order -> remaining_required s = required_rows g omt order ->
  forall rest p, drop p order = rest -> p <= length order -> visits order p (visit g s rest p).
Proof.
  intros Hnd Hf Ho Ha Hr. induction rest as [|b rest IH]; intros p Hd Hp counts memo Hm Hok.
  - assert (p = length order) as -> by (apply (f_equal length) in Hd; rewrite length_drop in Hd; cbn in Hd; lia).
    cbn [visit]. destruct (hopeless _ _ _ _) eqn:Hh; cbn [fst snd]; (split; [|done]).
    + intros c. apply (hopeless_none s); [done..|by destruct Hok|done].
    + rewrite Hd. split; [exists (fun _ => None); split; [by eapply end_completes|done]|].
      intros c _. apply Nat.le_refl.
  - assert (Hlt := lookup_lt_Some order p b). rewrite <- (Nat.add_0_r p), <- lookup_drop, Hd in Hlt at 1.
    specialize (Hlt eq_refl).
    assert (Hd' : drop (S p) order = rest) by (by rewrite <- Nat.add_1_r, <- drop_drop, Hd).
    specialize (IH (S p) Hd' ltac:(lia)).
    assert (Hb : b ∉ rest).
    { assert (Hnd' := Hnd). rewrite <- (take_drop p order), Hd in Hnd'.
      apply NoDup_app in Hnd' as (_ & _ & Hnd'). by apply NoDup_cons in Hnd' as [? _]. }
    cbn [visit]. destruct (hopeless _ _ _ _) eqn:Hh; cbn [fst snd].
    { split; [|done]. intros c. apply (hopeless_none s); [done..|by destruct Hok|done]. }
    destruct (memo !! _) as [v|] eqn:Hmemo; cbn [fst snd].
    { split; [|done]. apply Hm; [done|by destruct Hok]. }
    assert (H1 := blocks_spec wf order p b rest (visit g s rest (S p)) s Hd Hd' Hb Hp Hf Ho Hr IH counts memo Hok Hm).
    destruct (if bool_decide _ then _ else _) as [best memo1]. destruct H1 as [Hm1 H1].
    assert (H2 := leave_spec order p b rest (visit g s rest (S p)) s Hd Hd' Hb Hp Hf Hr IH counts best memo1 Hok Hm1 H1).
    destruct (if _ && _ then _ else _) as [best' memo2]. destruct H2 as [Hm2 H2]. cbn [fst snd].
    rewrite Hd. split; [done|]. apply memo_insert; [done|by destruct Hok|by rewrite Hd].
Qed.
End Constraints.

(** ** Declarations

    One entry per blocker: the attacker it blocks, if any. *)

Definition blockers_of (d : list (option nat)) (a : nat) : nat :=
  count (fun b => bool_decide (d !!! b = Some a)) (seq 0 (length (blockers g))).

(** The restrictions (CR 509.1b). *)
Definition legal_declaration (d : list (option nat)) : Prop :=
  length d = length (blockers g) /\
  (forall b a, d !! b = Some (Some a) -> a ∈ edges g !!! b) /\
  (forall a, a < length (attackers g) -> count_is_legal g a (blockers_of d a) = true).

(** The requirements obeyed. *)
Definition obeyed (d : list (option nat)) : nat :=
  count (fun b => (must_block g !!! b) && bool_decide (is_Some (d !!! b)))
    (seq 0 (length (blockers g))).

(** No legal declaration obeys more (CR 509.1c). *)
Definition best_declaration (d : list (option nat)) : Prop :=
  legal_declaration d /\ forall d', legal_declaration d' -> obeyed d' <= obeyed d.

(** One edge is given, one blocker is left out. *)
Definition follows (frc : option (nat * nat)) (omt : option nat) (d : list (option nat)) : Prop :=
  (forall b a, frc = Some (b, a) -> d !!! b = Some a) /\ (forall b, omt = Some b -> d !!! b = None).

Lemma seq_order frc : search_order g frc ≡ₚ seq 0 (length (blockers g)).
Proof. apply merge_sort_Permutation. Qed.

(** The declaration of a choice, and back. *)
Definition declaration (c : nat -> option nat) : list (option nat) :=
  map c (seq 0 (length (blockers g))).

Lemma declaration_at c b : b < length (blockers g) -> declaration c !! b = Some (c b).
Proof.
  intros Hb. unfold declaration. change (map c) with (fmap c : list nat -> list (option nat)).
  rewrite list_lookup_fmap, lookup_seq_lt by done. done.
Qed.

Lemma declaration_total c b : b ∈ seq 0 (length (blockers g)) -> declaration c !!! b = c b.
Proof. intros Hb%elem_of_seq. apply list_lookup_total_correct, declaration_at. lia. Qed.

Lemma choice_declares frc omt c :
  (forall b a, frc = Some (b, a) -> b < length (blockers g)) ->
  (forall b, omt = Some b -> b < length (blockers g)) ->
  completes frc omt (search_order g frc) (replicate (length (attackers g)) 0) c ->
  legal_declaration (declaration c) /\ follows frc omt (declaration c) /\
  obeyed (declaration c) = gain (search_order g frc) c.
Proof.
  intros Hf Ho [Hc Ha].
  assert (Hc' : forall b, b < length (blockers g) -> allowed frc omt b (c b)).
  { intros b Hb. apply Hc. rewrite seq_order. apply elem_of_seq. lia. }
  split; [|split].
  - split; [by unfold declaration; rewrite length_map, length_seq|]. split.
    + intros b a Hd. assert (Hb := lookup_lt_Some _ _ _ Hd). unfold declaration in Hb.
      rewrite length_map, length_seq in Hb. rewrite declaration_at in Hd by done.
      injection Hd as Hd. specialize (Hc' b Hb). rewrite Hd in Hc'. by destruct Hc' as [? _].
    + intros a Hlt. specialize (Ha a Hlt). rewrite lookup_total_replicate_2 in Ha by done. cbn in Ha.
      unfold blockers_of. rewrite <- Ha. f_equal. unfold occupied. rewrite (count_perm _ _ _ (seq_order frc)).
      apply count_ext. intros b Hb. by rewrite declaration_total.
  - split.
    + intros b a E. assert (Hb := Hf b a E). rewrite declaration_total by (apply elem_of_seq; lia).
      specialize (Hc' b Hb). destruct (c b) as [e|]; cbn in Hc'; [|by destruct (Hc' a)].
      destruct Hc' as (_ & _ & Hc'). by rewrite (Hc' a E).
    + intros b E. assert (Hb := Ho b E). rewrite declaration_total by (apply elem_of_seq; lia).
      specialize (Hc' b Hb). destruct (c b) as [e|]; [|done]. by destruct Hc' as (_ & Hc' & _).
  - unfold obeyed, gain. rewrite (count_perm _ _ _ (seq_order frc)).
    apply count_ext. intros b Hb. by rewrite declaration_total.
Qed.

Lemma declaration_chooses frc omt d :
  legal_declaration d -> follows frc omt d ->
  completes frc omt (search_order g frc) (replicate (length (attackers g)) 0) (fun b => d !!! b) /\
  gain (search_order g frc) (fun b => d !!! b) = obeyed d.
Proof.
  intros (Hl & He & Ha) [Hf Ho]. split; [split|].
  - intros b Hb. rewrite seq_order in Hb. apply elem_of_seq in Hb.
    destruct (d !!! b) as [a|] eqn:Hd; cbn.
    + split_and!.
      * apply He. apply list_lookup_alt. split; [lia|done].
      * intros E. specialize (Ho b E). congruence.
      * intros fa E. specialize (Hf b fa E). congruence.
    + intros fa E. specialize (Hf b fa E). congruence.
  - intros a Hlt. rewrite lookup_total_replicate_2 by done. cbn [Nat.add].
    unfold occupied. rewrite (count_perm _ _ _ (seq_order frc)). by apply Ha.
  - unfold obeyed, gain. by rewrite (count_perm _ _ _ (seq_order frc)).
Qed.

(** Nobody blocks. *)
Definition no_blocks : list (option nat) := replicate (length (blockers g)) None.

Lemma no_blocks_at b : no_blocks !!! b = None.
Proof.
  unfold no_blocks. rewrite list_lookup_total_alt.
  destruct (replicate _ _ !! b) as [o|] eqn:E; [|done].
  by apply lookup_replicate in E as [-> _].
Qed.

Lemma no_blocks_legal : legal_declaration no_blocks.
Proof.
  split; [apply length_replicate|]. split; [intros b a [[=] _]%lookup_replicate|].
  intros a _. apply count_is_legal_spec. left. apply count_zero. intros b _. by rewrite no_blocks_at.
Qed.

Lemma nothing_required (wf : wf_graph) d :
  existsb id (must_block g) = false -> obeyed d = 0.
Proof.
  intros Hno. apply count_zero. intros b Hb%elem_of_seq. apply andb_false_iff. left.
  assert (Hm := list_lookup_lookup_total_lt (must_block g) b). rewrite (wf_must wf) in Hm.
  specialize (Hm ltac:(lia)). destruct (must_block g !!! b); [|done].
  rewrite <- Hno. symmetry. apply existsb_exists. exists true. split; [|done].
  apply list_elem_of_In. by eapply list_elem_of_lookup_2.
Qed.

(** The search is exact. *)
Lemma solve_spec (wf : wf_graph) frc omt :
  (forall b a, frc = Some (b, a) -> b < length (blockers g)) ->
  (forall b, omt = Some b -> b < length (blockers g)) ->
  is_best (fun d => legal_declaration d /\ follows frc omt d) obeyed (solve g frc omt).
Proof.
  intros Hf Ho. unfold solve. destruct (negb _ && _) eqn:E.
  - apply andb_true_iff in E as [E1%negb_true_iff E2%bool_decide_eq_true]. split.
    + exists no_blocks. split; [|by apply nothing_required]. split; [apply no_blocks_legal|].
      split; [by intros b a E; rewrite E in E2|]. intros b _. apply no_blocks_at.
    + intros d _. by rewrite nothing_required.
  - set (order := search_order g frc). set (s := {| available := _ |}).
    assert (Hnd : NoDup order) by (unfold order; rewrite seq_order; apply NoDup_seq).
    destruct (visit_spec frc omt wf order s Hnd eq_refl eq_refl eq_refl eq_refl order 0 eq_refl
                ltac:(lia) (replicate (length (attackers g)) 0) ∅) as [H _].
    + intros p counts v Hm. by apply (lookup_empty_Some (M := gmap _)) in Hm.
    + split; [apply length_replicate|]. intros a m Ha _. rewrite lookup_total_replicate_2 by done. lia.
    + revert H. cbn [drop]. apply is_best_sim.
      * intros c Hc. exists (declaration c).
        by destruct (choice_declares frc omt c Hf Ho Hc) as (? & ? & ?).
      * intros d [Hd Hfo]. exists (fun b => d !!! b). by apply declaration_chooses.
Qed.

(** ** What is offered *)

Lemma maximum_spec (wf : wf_graph) :
  exists n, maximum_requirements g = Some n /\ (exists d, legal_declaration d /\ obeyed d = n) /\
    forall d, legal_declaration d -> obeyed d <= n.
Proof.
  assert (Hall : forall d, follows None None d) by done.
  assert (H := solve_spec wf None None ltac:(done) ltac:(done)). fold maximum_requirements in H.
  unfold maximum_requirements. destruct (solve g None None) as [n|].
  - destruct H as [(d & [Hd _] & Hn) Hle]. exists n. split_and!; [done|by exists d|]. intros d' Hd'. by apply Hle.
  - destruct (H no_blocks). split; [apply no_blocks_legal|done].
Qed.

Lemma best_declaration_iff n d :
  (exists d, legal_declaration d /\ obeyed d = n) ->
  (forall d, legal_declaration d -> obeyed d <= n) ->
  best_declaration d <-> legal_declaration d /\ obeyed d = n.
Proof.
  intros (e & He & Hn) Hle. split.
  - intros [Hd Hb]. split; [done|]. apply Nat.le_antisymm; [by apply Hle|]. rewrite <- Hn. by apply Hb.
  - intros [Hd <-]. by split.
Qed.

Lemma legal_at d b : legal_declaration d -> b < length (blockers g) -> d !! b = Some (d !!! b).
Proof. intros [Hl _] Hb. apply list_lookup_lookup_total_lt. lia. Qed.

(** A constrained search that reaches the greatest number. *)
Lemma solve_reaches (wf : wf_graph) frc omt n :
  (forall b a, frc = Some (b, a) -> b < length (blockers g)) ->
  (forall b, omt = Some b -> b < length (blockers g)) ->
  maximum_requirements g = Some n ->
  solve g frc omt = Some n <-> exists d, best_declaration d /\ follows frc omt d.
Proof.
  intros Hf Ho Hn. destruct (maximum_spec wf) as (n' & Hn' & He & Hle).
  rewrite Hn in Hn'. injection Hn' as <-. assert (H := solve_spec wf frc omt Hf Ho). split.
  - intros E. rewrite E in H. destruct H as [(d & [Hd Hfo] & Hdn) _]. exists d.
    by rewrite (best_declaration_iff n d He Hle).
  - intros (d & Hd & Hfo). apply (best_declaration_iff n d He Hle) in Hd as [Hd Hdn].
    apply (is_best_unique _ _ _ _ H). split; [by exists d|]. intros d' [Hd' _]. by apply Hle.
Qed.

Lemma count_filter_subset (l k : list nat) :
  NoDup l -> NoDup k -> k ⊆ l -> count (fun x => bool_decide (x ∈ k)) l = length k.
Proof.
  intros Hl Hk Hs. unfold count. apply Permutation_length, NoDup_Permutation.
  - apply NoDup_ListNoDup, List.NoDup_filter. by apply NoDup_ListNoDup.
  - done.
  - intros x. rewrite list_elem_of_In, filter_In, <- list_elem_of_In, bool_decide_eq_true. set_solver.
Qed.

Definition neighbors (a : nat) : list nat :=
  List.filter (fun b => bool_decide (a ∈ edges g !!! b)) (seq 0 (length (blockers g))).

Lemma elem_of_neighbors a b : b ∈ neighbors a <-> b < length (blockers g) /\ a ∈ edges g !!! b.
Proof.
  unfold neighbors. rewrite list_elem_of_In, filter_In, <- list_elem_of_In, bool_decide_eq_true, elem_of_seq.
  naive_solver lia.
Qed.

Lemma neighbors_nodup a : NoDup (neighbors a).
Proof. apply NoDup_ListNoDup, List.NoDup_filter, NoDup_ListNoDup, NoDup_seq. Qed.

(** Some blockers of [a], and nobody else blocks. *)
Lemma only_blockers (wf : wf_graph) a k :
  a < length (attackers g) -> NoDup k -> k ⊆ neighbors a -> minimum g !!! a <= length k ->
  (forall max, maximum g !!! a = Some max -> length k <= max) ->
  legal_declaration (declaration (fun b => if bool_decide (b ∈ k) then Some a else None)).
Proof.
  intros Ha Hnd Hk Hmin Hmax. set (c := fun b => _). split; [by unfold declaration; rewrite length_map, length_seq|].
  split.
  - intros b e Hd. assert (Hb := lookup_lt_Some _ _ _ Hd). unfold declaration in Hb.
    rewrite length_map, length_seq in Hb. rewrite declaration_at in Hd by done. injection Hd as Hd.
    unfold c in Hd. case_bool_decide as Hin; [|done]. injection Hd as ->.
    by apply Hk, elem_of_neighbors in Hin as [_ ?].
  - intros e He. apply count_is_legal_spec. destruct (decide (e = a)) as [->|Hne].
    + assert (blockers_of (declaration c) a = length k) as ->; [|by right].
      rewrite <- (count_filter_subset (seq 0 (length (blockers g))) k); [|apply NoDup_seq|done|].
      * apply count_ext. intros b Hb. rewrite declaration_total by done. unfold c.
        case_bool_decide as E; case_bool_decide as E'; done.
      * intros b Hb%Hk%elem_of_neighbors. apply elem_of_seq. lia.
    + left. apply count_zero. intros b Hb. rewrite declaration_total by done. unfold c.
      apply bool_decide_eq_false. case_bool_decide; congruence.
Qed.

(** Without requirements, an edge is part of a legal declaration when its attacker
    has enough neighbours. *)
Lemma edge_declarable (wf : wf_graph) a b :
  b < length (blockers g) -> a ∈ edges g !!! b ->
  minimum g !!! a <= length (neighbors a) /\
    (forall max, maximum g !!! a = Some max -> minimum g !!! a <= max) <->
  exists d, legal_declaration d /\ d !! b = Some (Some a).
Proof.
  intros Hb He. assert (Ha := wf_edge wf a b He). assert (Hpos := wf_positive wf a Ha). split.
  - intros [Hn Hmax].
    assert (Hin : b ∈ neighbors a) by by apply elem_of_neighbors.
    apply elem_of_Permutation in Hin as [l Hl]. set (k := take (minimum g !!! a) (b :: l)).
    assert (Hlen : length k = minimum g !!! a).
    { unfold k. rewrite length_take, <- Hl. lia. }
    assert (Hk : b ∈ k) by (unfold k; destruct (minimum g !!! a); [lia|left]).
    eexists. split; [apply (only_blockers wf a k)|].
    + done.
    + apply (sublist_NoDup _ (b :: l)); [|apply sublist_take]. rewrite <- Hl. apply neighbors_nodup.
    + intros x Hx. rewrite Hl. apply elem_of_take in Hx as (i & Hx & _). by eapply list_elem_of_lookup_2.
    + lia.
    + intros m Em. rewrite Hlen. by apply Hmax.
    + rewrite declaration_at by done. by rewrite bool_decide_true.
  - intros (d & Hd & Hdb). assert (Hl := proj1 Hd). destruct Hd as (_ & Hes & Hc).
    specialize (Hc a Ha). apply count_is_legal_spec in Hc.
    assert (Hle : blockers_of d a <= length (neighbors a)).
    { unfold neighbors. apply count_le. intros x Hx. rewrite !bool_decide_eq_true. intros Hxa.
      apply Hes. apply list_lookup_alt. apply elem_of_seq in Hx. split; [lia|done]. }
    assert (0 < blockers_of d a).
    { unfold blockers_of. assert (Hin : b ∈ seq 0 (length (blockers g))) by (apply elem_of_seq; lia).
      apply elem_of_Permutation in Hin as [l Hin]. rewrite (count_perm _ _ _ Hin), count_cons.
      rewrite bool_decide_true by by apply list_lookup_total_correct. cbn. lia. }
    destruct Hc as [|[Hmin Hmax]]; [lia|]. split; [lia|]. intros m Em. specialize (Hmax m Em). lia.
Qed.

Lemma edges_lookup (wf : wf_graph) b es :
  edges g !! b = Some es <-> b < length (blockers g) /\ es = edges g !!! b.
Proof.
  split.
  - intros E. split; [rewrite <- (wf_edges wf); by apply lookup_lt_Some in E|].
    symmetry. by apply list_lookup_total_correct.
  - intros [Hb ->]. apply list_lookup_lookup_total_lt. by rewrite (wf_edges wf).
Qed.

Lemma count_neighbors (wf : wf_graph) a :
  count (fun es => bool_decide (a ∈ es)) (edges g) = length (neighbors a).
Proof.
  unfold neighbors. rewrite <- (wf_edges wf). clear wf.
  change (length (List.filter ?p ?l)) with (count p l). induction (edges g) as [|es l IH]; [done|].
  cbn [length seq]. rewrite !count_cons. cbn. f_equal. rewrite IH, <- fmap_S_seq. unfold count.
  change (S <$> ?l) with (map S l). clear IH. induction (seq 0 (length l)) as [|x k IHk]; [done|].
  cbn. destruct (bool_decide _); cbn; by rewrite IHk.
Qed.

(** What an offered pair stands for. *)
Definition in_best (p : BlockPair) : Prop :=
  exists d b a, best_declaration d /\ d !! b = Some (Some a) /\ p = pair g b a.

Definition always_blocks (x : Z) : Prop :=
  exists b, blockers g !! b = Some x /\ forall d, best_declaration d -> is_Some (d !!! b).

Lemma declared_edge d b a :
  legal_declaration d -> d !! b = Some (Some a) -> b < length (blockers g) /\ a ∈ edges g !!! b.
Proof.
  intros (Hl & He & _) Hd. split; [rewrite <- Hl; by apply lookup_lt_Some in Hd|by apply He].
Qed.

(** The pairs that a test on edges keeps. *)
Lemma kept_pairs (wf : wf_graph) (test : nat -> nat -> bool) :
  (forall b a, b < length (blockers g) -> a ∈ edges g !!! b ->
     test b a = true <-> exists d, best_declaration d /\ d !! b = Some (Some a)) ->
  forall p, p ∈ concat (map (fun '(b, es) => map (pair g b) (List.filter (test b) es)) (enumerate (edges g)))
    <-> in_best p.
Proof.
  intros Ht p. rewrite elem_of_concat_enumerate. split.
  - intros (b & es & Hes & Hp). apply (edges_lookup wf) in Hes as [Hb ->].
    apply list_elem_of_In, in_map_iff in Hp as (a & <- & Hin).
    apply list_elem_of_In, elem_of_filter_bool in Hin as [Hta Ha].
    apply (Ht b a Hb Ha) in Hta as (d & Hd & Hdb). by exists d, b, a.
  - intros (d & b & a & Hd & Hdb & ->).
    destruct (declared_edge d b a (proj1 Hd) Hdb) as [Hb Ha]. exists b, (edges g !!! b).
    split; [by apply (edges_lookup wf)|]. apply list_elem_of_In, in_map, list_elem_of_In, elem_of_filter_bool.
    split; [|done]. apply (Ht b a Hb Ha). by exists d.
Qed.

Lemma best_at d b o : best_declaration d -> b < length (blockers g) -> d !!! b = o <-> d !! b = Some o.
Proof.
  intros [Hd _] Hb. rewrite (legal_at d b Hd Hb). split; [by intros ->|by intros [= ->]].
Qed.

Lemma edge_kept (wf : wf_graph) n b a :
  maximum_requirements g = Some n -> b < length (blockers g) ->
  bool_decide (solve g (Some (b, a)) None = Some n) = true <->
  exists d, best_declaration d /\ d !! b = Some (Some a).
Proof.
  intros Hn Hb. rewrite bool_decide_eq_true, (solve_reaches wf _ _ n); [|by intros ? ? [= <- <-]|done|done].
  split; intros (d & Hd & H); exists d; (split; [done|]).
  - apply best_at; [done..|]. by apply (proj1 H).
  - split; [|done]. intros b' a' [= <- <-]. by apply best_at.
Qed.

Lemma kept_required (wf : wf_graph) n x :
  maximum_requirements g = Some n ->
  x ∈ concat (map (fun '(b, _) =>
        if bool_decide (solve g None (Some b) = Some n) then [] else [blockers g !!! b]) (enumerate (edges g)))
  <-> always_blocks x.
Proof.
  intros Hn. rewrite elem_of_concat_enumerate. split.
  - intros (b & es & [Hb _]%(edges_lookup wf) & Hx). case_bool_decide as Hs; [by apply not_elem_of_nil in Hx|].
    apply list_elem_of_singleton in Hx as ->. exists b. split; [by apply list_lookup_lookup_total_lt|].
    intros d Hd. destruct (d !!! b) as [a|] eqn:Hdb; [done|]. exfalso. apply Hs.
    apply (solve_reaches wf); [done|by intros ? [= <-]|done|]. exists d. split; [done|]. split; [done|].
    by intros b' [= <-].
  - intros (b & Hb & Hall). assert (Hlt := lookup_lt_Some _ _ _ Hb). exists b, (edges g !!! b).
    split; [by apply (edges_lookup wf)|]. rewrite bool_decide_false.
    + apply list_elem_of_singleton. symmetry. by apply list_lookup_total_correct.
    + intros Hs. apply (solve_reaches wf) in Hs as (d & Hd & _ & Hno); [|done|by intros ? [= <-]|done].
      specialize (Hall d Hd). by rewrite (Hno b eq_refl), is_Some_alt in Hall.
Qed.

(** Without requirements every legal declaration is best. *)
Lemma free_best (wf : wf_graph) d :
  existsb id (must_block g) = false -> best_declaration d <-> legal_declaration d.
Proof.
  intros Hno. split; [by intros [? _]|]. intros Hd. split; [done|]. intros d' _.
  by rewrite !nothing_required.
Qed.

Lemma free_kept (wf : wf_graph) b a :
  existsb id (must_block g) = false -> b < length (blockers g) -> a ∈ edges g !!! b ->
  (minimum g !!! a <=? map (fun a => count (fun es => bool_decide (a ∈ es)) (edges g))
                         (seq 0 (length (attackers g))) !!! a)
    && is_none_or (fun max => minimum g !!! a <=? max) (maximum g !!! a) = true <->
  exists d, best_declaration d /\ d !! b = Some (Some a).
Proof.
  intros Hno Hb Ha. assert (Hlt := wf_edge wf a b Ha).
  assert (map (fun a => count (fun es => bool_decide (a ∈ es)) (edges g))
            (seq 0 (length (attackers g))) !!! a = length (neighbors a)) as ->.
  { apply list_lookup_total_correct. change (map ?f ?l) with (f <$> l).
    rewrite list_lookup_fmap, lookup_seq_lt by done. cbn. f_equal. by apply count_neighbors. }
  rewrite andb_true_iff, Nat.leb_le. transitivity (exists d, legal_declaration d /\ d !! b = Some (Some a)).
  - rewrite <- (edge_declarable wf a b Hb Ha). apply and_iff_compat_l.
    destruct (maximum g !!! a) as [m|]; cbn; [rewrite Nat.leb_le|].
    + split; [by intros ? ? [= <-]|by auto].
    + by split.
  - split; intros (d & Hd & Hdb); exists d; (split; [|done]).
    + by apply (free_best wf d Hno).
    + by destruct Hd.
Qed.

(** ** Complete declarations *)

(** The pairs of a declaration. *)
Definition declared (d : list (option nat)) : list BlockPair :=
  omap (fun b => pair g b <$> d !!! b) (seq 0 (length (blockers g))).

(** The board the graph was made from: attackers attack, blockers may block. *)
Record board_ok (attacking : list Z) (objects : gmap Z BlockerObject) (player : Z) : Prop := {
  ok_attackers : NoDup (attackers g);
  ok_blockers : NoDup (blockers g);
  ok_attacking x : x ∈ attackers g -> x ∈ attacking;
  ok_object x : x ∈ blockers g ->
    objects !! x = Some {| on_battlefield := true; controller := Some player; creature := true;
                           tapped := false |}
}.

Lemma position_at (l : list Z) i : NoDup l -> i < length l -> position (l !!! i) l = Some i.
Proof.
  intros Hnd Hi. unfold position. assert (Hl := list_lookup_lookup_total_lt l i Hi).
  destruct (list_find _ l) as [[j y]|] eqn:E; cbn.
  - apply list_find_Some in E as (Hj & Hy & _). f_equal. rewrite <- Hy in Hj. by eapply NoDup_lookup.
  - exfalso. apply list_find_None in E. rewrite Forall_lookup in E. by apply (E i _ Hl).
Qed.

Lemma position_Some (l : list Z) x i : position x l = Some i -> l !! i = Some x.
Proof.
  unfold position. destruct (list_find _ l) as [[j y]|] eqn:E; [|done]. intros [= <-].
  by apply list_find_Some in E as (Hj & -> & _).
Qed.

Lemma legal_pair_spec (wf : wf_graph) p :
  NoDup (attackers g) -> NoDup (blockers g) ->
  legal_pair g p = true <->
  exists b a, b < length (blockers g) /\ a ∈ edges g !!! b /\ p = pair g b a.
Proof.
  intros Ha Hb. unfold legal_pair. split.
  - destruct (position _ (blockers g)) as [b|] eqn:Eb; [|done].
    destruct (position _ (attackers g)) as [a|] eqn:Ea; [|done]. intros He%bool_decide_eq_true.
    apply position_Some in Ea, Eb. exists b, a. split; [by apply lookup_lt_Some in Eb|]. split; [done|].
    unfold pair. rewrite (list_lookup_total_correct _ _ _ Ea), (list_lookup_total_correct _ _ _ Eb). by destruct p.
  - intros (b & a & Hlt & He & ->). unfold pair. cbn [blocker_id attacker_id].
    rewrite !position_at; [by apply bool_decide_eq_true|done| |done|done]. by apply (wf_edge wf a b).
Qed.

Lemma pair_inj (wf : wf_graph) b a b' a' :
  NoDup (attackers g) -> NoDup (blockers g) ->
  b < length (blockers g) -> a < length (attackers g) ->
  b' < length (blockers g) -> a' < length (attackers g) ->
  blocker_id (pair g b a) = blocker_id (pair g b' a') -> b = b'.
Proof.
  intros Ha Hb ? ? ? ? E. cbn in E. apply (NoDup_lookup (blockers g) _ _ (blockers g !!! b)); [done| |].
  - by apply list_lookup_lookup_total_lt.
  - rewrite E. by apply list_lookup_lookup_total_lt.
Qed.

Definition add_block (m : gmap Z (list Z)) (p : BlockPair) : gmap Z (list Z) :=
  <[attacker_id p := default [] (m !! attacker_id p) ++ [blocker_id p]]> m.

Lemma add_blocks_at ps m x :
  default [] (foldl add_block m ps !! x) =
  default [] (m !! x) ++ map blocker_id (List.filter (fun p => (attacker_id p =? x)%Z) ps).
Proof.
  revert m. induction ps as [|p ps IH]; intros m; cbn [foldl List.filter map]; [by rewrite app_nil_r|].
  rewrite IH. unfold add_block at 1. destruct (Z.eqb_spec (attacker_id p) x) as [<-|Hne].
  - rewrite lookup_insert_eq. cbn. by rewrite <- app_assoc.
  - by rewrite lookup_insert_ne.
Qed.

Lemma check_pairs_spec (wf : wf_graph) attacking objects player ps seen m :
  board_ok attacking objects player ->
  (forall r, check_pairs g attacking objects player ps seen m = Ok r <->
    Forall (fun p => legal_pair g p = true) ps /\ NoDup (map blocker_id ps) /\
    (forall x, x ∈ map blocker_id ps -> x ∉ seen) /\
    r = (list_to_set (map blocker_id ps) ∪ seen, foldl add_block m ps)).
Proof.
  intros Hok. revert seen m. induction ps as [|p ps IH]; intros seen m r.
  { cbn. rewrite (left_id_L ∅ (∪)). split; [intros [= <-]|by intros (_ & _ & _ & ->)].
    split_and!; [done|constructor|intros x Hx; by apply not_elem_of_nil in Hx|done]. }
  assert (Hlegal : legal_pair g p = true ->
    attacker_id p ∈ attacking /\ objects !! blocker_id p =
      Some {| on_battlefield := true; controller := Some player; creature := true; tapped := false |}).
  { intros (b & a & Hb & Ha & ->)%(legal_pair_spec wf); [|apply Hok..]. split.
    - apply (ok_attacking _ _ _ Hok), list_elem_of_lookup_total_2. by apply (wf_edge wf a b).
    - apply (ok_object _ _ _ Hok), list_elem_of_lookup_total_2, Hb. }
  cbn [check_pairs map foldl]. rewrite Forall_cons, NoDup_cons. split.
  - intros H. case_bool_decide; [cbn [negb] in H|done]. case_bool_decide as Hseen; [done|].
    destruct (objects !! blocker_id p) as [o|]; [|done].
    destruct (on_battlefield o); [cbn [negb] in H|done]. case_bool_decide; [cbn [negb] in H|done].
    destruct (creature o); [cbn [negb] in H|done]. destruct (tapped o); [done|].
    destruct (legal_pair g p); [|done]. cbn [negb] in H. apply IH in H as (Hps & Hnd & Hout & ->).
    split_and!; [done|done| |done| |].
    + intros Hin. apply Hout in Hin. set_solver.
    + intros x [->|Hx]%elem_of_cons; [done|]. apply Hout in Hx. set_solver.
    + f_equal. cbn. set_solver.
  - intros ([Hp H1] & [Hnew H2] & H3 & ->). destruct (Hlegal Hp) as [Ha Ho]. rewrite Ho, Hp.
    rewrite bool_decide_true by done. cbn [negb].
    rewrite bool_decide_false by (apply H3; left). cbn [on_battlefield controller creature tapped negb].
    rewrite bool_decide_true by done. cbn [negb]. apply IH. split_and!; [done..| |].
    + intros x Hx. assert (x ∉ seen) by (apply H3; by right). set_solver.
    + f_equal. cbn. set_solver.
Qed.

(** Edges only, the counts left open. *)
Definition on_edges (d : list (option nat)) : Prop :=
  length d = length (blockers g) /\ forall b a, d !! b = Some (Some a) -> a ∈ edges g !!! b.

Lemma on_edges_at d b a :
  on_edges d -> b < length (blockers g) -> d !!! b = Some a -> a ∈ edges g !!! b.
Proof. intros [Hl He] Hb Hd. apply He. apply list_lookup_alt. split; [lia|done]. Qed.

Lemma elem_of_declared d p :
  p ∈ declared d <-> exists b a, b < length (blockers g) /\ d !!! b = Some a /\ p = pair g b a.
Proof.
  unfold declared. rewrite list_elem_of_omap. split.
  - intros (b & Hb%elem_of_seq & Hp). destruct (d !!! b) as [a|] eqn:Hd; [|done]. injection Hp as <-.
    exists b, a. split_and!; [lia|done..].
  - intros (b & a & Hb & Hd & ->). exists b. rewrite Hd. split; [apply elem_of_seq; lia|done].
Qed.

Lemma count_declared (q : BlockPair -> bool) d :
  count q (declared d) =
  count (fun b => match d !!! b with Some a => q (pair g b a) | None => false end)
    (seq 0 (length (blockers g))).
Proof.
  unfold declared. induction (seq 0 (length (blockers g))) as [|b l IH]; [done|]. cbn [omap list_omap].
  rewrite count_cons. destruct (d !!! b) as [a|]; cbn [fmap option_fmap option_map]; [rewrite count_cons|]; by rewrite <- IH.
Qed.

Lemma declared_nodup d : NoDup (blockers g) -> NoDup (map blocker_id (declared d)).
Proof.
  intros Hnd.
  assert (map blocker_id (declared d) = (fun b => blockers g !!! b) <$>
            List.filter (fun b => bool_decide (is_Some (d !!! b))) (seq 0 (length (blockers g)))) as ->.
  { unfold declared. induction (seq 0 (length (blockers g))) as [|b l IH]; [done|].
    cbn. destruct (d !!! b) as [a|]; cbn; by rewrite IH. }
  apply NoDup_fmap_2_strong; [|apply NoDup_ListNoDup, List.NoDup_filter, NoDup_ListNoDup, NoDup_seq].
  intros b b' [_ Hb%elem_of_seq]%elem_of_filter_bool [_ Hb'%elem_of_seq]%elem_of_filter_bool E.
  apply (NoDup_lookup (blockers g) _ _ (blockers g !!! b)); [done|apply list_lookup_lookup_total_lt; lia|].
  rewrite E. apply list_lookup_lookup_total_lt. lia.
Qed.

(** The attacker a blocker is paired with. *)
Definition chosen (ps : list BlockPair) (b : nat) : option nat :=
  match list_find (fun p => blocker_id p = blockers g !!! b) ps with
  | Some (_, p) => position (attacker_id p) (attackers g)
  | None => None
  end.

Lemma chosen_spec (wf : wf_graph) ps b a :
  NoDup (attackers g) -> NoDup (blockers g) ->
  Forall (fun p => legal_pair g p = true) ps -> NoDup (map blocker_id ps) -> b < length (blockers g) ->
  chosen ps b = Some a <-> a ∈ edges g !!! b /\ pair g b a ∈ ps.
Proof.
  intros Ha Hb Hps Hnd Hlt. unfold chosen. split.
  - destruct (list_find _ ps) as [[i p]|] eqn:E; [|done]. intros Hp.
    apply list_find_Some in E as (Hi & Hpb & _). apply list_elem_of_lookup_2 in Hi.
    assert (Hl := proj1 (Forall_forall _ _) Hps p Hi).
    apply (legal_pair_spec wf) in Hl as (b' & a' & Hb' & Ha' & ->); [|done..].
    assert (Hlt' := wf_edge wf a' b' Ha'). cbn in Hp. rewrite position_at in Hp by done. injection Hp as ->.
    assert (b' = b) as -> by (by apply (pair_inj wf b' a b a)). done.
  - intros [He Hin]. assert (Hlt' := wf_edge wf a b He).
    destruct (list_find _ ps) as [[i p]|] eqn:E.
    + apply list_find_Some in E as (Hi & Hpb & _). apply list_elem_of_lookup in Hin as [j Hj].
      assert (i = j) as ->; [|by rewrite Hi in Hj; injection Hj as ->; apply position_at].
      apply (NoDup_lookup (map blocker_id ps) _ _ (blockers g !!! b)); [done| |];
        change (map blocker_id ps) with (blocker_id <$> ps); rewrite list_lookup_fmap, ?Hi, ?Hj; cbn; congruence.
    + apply list_find_None in E. by destruct (proj1 (Forall_forall _ _) E _ Hin).
Qed.

(** Legal pairs with different blockers are those of one declaration. *)
Lemma pairs_declare (wf : wf_graph) ps :
  NoDup (attackers g) -> NoDup (blockers g) ->
  Forall (fun p => legal_pair g p = true) ps -> NoDup (map blocker_id ps) ->
  exists d, on_edges d /\ ps ≡ₚ declared d.
Proof.
  intros Ha Hb Hps Hnd. exists (declaration (chosen ps)). split; [split|].
  - unfold declaration. by rewrite length_map, length_seq.
  - intros b a Hd. assert (Hlt := lookup_lt_Some _ _ _ Hd). unfold declaration in Hlt.
    rewrite length_map, length_seq in Hlt. rewrite declaration_at in Hd by done. injection Hd as Hd.
    by apply (chosen_spec wf) in Hd as [? _].
  - apply NoDup_Permutation; [by eapply NoDup_fmap_1|eapply NoDup_fmap_1; by apply declared_nodup|].
    intros p. rewrite elem_of_declared. split.
    + intros Hp. assert (Hl := proj1 (Forall_forall _ _) Hps p Hp).
      apply (legal_pair_spec wf) in Hl as (b & a & Hlt & He & ->); [|done..]. exists b, a.
      rewrite declaration_total by (apply elem_of_seq; lia).
      split_and!; [done|by apply (chosen_spec wf)|done].
    + intros (b & a & Hlt & Hd & ->). rewrite declaration_total in Hd by (apply elem_of_seq; lia).
      by apply (chosen_spec wf) in Hd as [_ ?].
Qed.

(** Back: the pairs of a declaration are legal, and counted as the declaration counts. *)
Lemma declared_legal (wf : wf_graph) d ps :
  NoDup (attackers g) -> NoDup (blockers g) -> on_edges d -> ps ≡ₚ declared d ->
  Forall (fun p => legal_pair g p = true) ps /\ NoDup (map blocker_id ps).
Proof.
  intros Ha Hb Hd Hps. split.
  - rewrite Hps. apply Forall_forall. intros p (b & a & Hlt & Hda & ->)%elem_of_declared.
    apply (legal_pair_spec wf); [done..|]. exists b, a. split_and!; [done|by eapply on_edges_at|done].
  - change (map blocker_id ps) with (blocker_id <$> ps). rewrite Hps. by apply declared_nodup.
Qed.

Lemma count_attacker (wf : wf_graph) d ps a :
  NoDup (attackers g) -> on_edges d -> ps ≡ₚ declared d -> a < length (attackers g) ->
  length (map blocker_id (List.filter (fun p => (attacker_id p =? attackers g !!! a)%Z) ps)) = blockers_of d a.
Proof.
  intros Hnd Hd Hps Ha. rewrite length_map. change (length (List.filter ?q ?l)) with (count q l).
  rewrite (count_perm _ _ _ Hps), count_declared. apply count_ext. intros b Hb%elem_of_seq.
  destruct (d !!! b) as [e|] eqn:Hdb; [|done]. cbn.
  assert (He := on_edges_at d b e Hd ltac:(lia) Hdb). assert (Hlt := wf_edge wf e b He).
  apply eq_true_iff_eq. rewrite Z.eqb_eq, bool_decide_eq_true. split; [|by intros [= ->]].
  intros E. f_equal. apply (NoDup_lookup (attackers g) _ _ (attackers g !!! e)); [done| |].
  - by apply list_lookup_lookup_total_lt.
  - rewrite E. by apply list_lookup_lookup_total_lt.
Qed.

Lemma count_seen (wf : wf_graph) d ps :
  NoDup (blockers g) -> ps ≡ₚ declared d ->
  count (fun '(oid, must) => must && bool_decide (oid ∈ (list_to_set (map blocker_id ps) ∪ ∅ : gset Z)))
    (zip (blockers g) (must_block g)) = obeyed d.
Proof.
  intros Hnd Hps.
  assert (zip (blockers g) (must_block g) =
    map (fun b => (blockers g !!! b, must_block g !!! b)) (seq 0 (length (blockers g)))) as ->.
  { apply list_eq. intros i. change (map ?f ?l) with (f <$> l). rewrite list_lookup_fmap.
    destruct (decide (i < length (blockers g))) as [Hi|Hi].
    - rewrite lookup_seq_lt by done. cbn. apply lookup_zip_with_Some.
      do 2 eexists. split_and!; [done|apply list_lookup_lookup_total_lt; lia|].
      apply list_lookup_lookup_total_lt. rewrite (wf_must wf). lia.
    - rewrite lookup_seq_ge by lia. apply lookup_ge_None_2. rewrite length_zip. lia. }
  unfold obeyed, count. rewrite filter_map_swap, length_map.
  change (length (List.filter ?q ?l)) with (count q l). apply count_ext. intros b Hb%elem_of_seq. cbn.
  f_equal. apply bool_decide_ext. rewrite elem_of_union, elem_of_list_to_set.
  change (map blocker_id ps) with (blocker_id <$> ps). rewrite Hps, list_elem_of_fmap. split.
  - intros [(p & Hp & Hin)|Hin]; [|set_solver]. apply elem_of_declared in Hin as (b' & a & Hb' & Hda & ->).
    assert (b = b') as ->; [|by rewrite Hda].
    apply (NoDup_lookup (blockers g) _ _ (blockers g !!! b)); [done|apply list_lookup_lookup_total_lt; lia|].
    rewrite Hp. by apply list_lookup_lookup_total_lt.
  - intros [a Hda]. left. exists (pair g b a). split; [done|]. apply elem_of_declared.
    exists b, a. split_and!; [lia|done..].
Qed.

Lemma counts_checked (m : gmap Z (list Z)) :
  forallb (fun '(a, attacker) => count_is_legal g a (length (default [] (m !! attacker))))
    (enumerate (attackers g)) = true <->
  forall a, a < length (attackers g) ->
    count_is_legal g a (length (default [] (m !! (attackers g !!! a)))) = true.
Proof.
  rewrite forallb_forall. split.
  - intros H a Ha. apply (H (a, attackers g !!! a)), list_elem_of_In, elem_of_enumerate.
    by apply list_lookup_lookup_total_lt.
  - intros H [a x] Hin%list_elem_of_In%elem_of_enumerate.
    rewrite <- (list_lookup_total_correct _ _ _ Hin). apply H. by apply lookup_lt_Some in Hin.
Qed.

Definition accepts (attacking : list Z) (objects : gmap Z BlockerObject) (player : Z)
    (ps : list BlockPair) : Prop :=
  exists m, check_blocks g attacking objects player ps = Some (Ok m).

(** Pairs that pass the loop are judged as their declaration. *)
Lemma check_declared (wf : wf_graph) attacking objects player d ps :
  board_ok attacking objects player -> on_edges d -> ps ≡ₚ declared d ->
  exists r, check_blocks g attacking objects player ps = Some r /\
    (is_ok r = true <-> best_declaration d) /\ forall m, r = Ok m -> m = foldl add_block ∅ ps.
Proof.
  intros Hok Hd Hps. assert (Ha := ok_attackers _ _ _ Hok). assert (Hb := ok_blockers _ _ _ Hok).
  destruct (declared_legal wf d ps Ha Hb Hd Hps) as [Hl Hnd].
  assert (Hc : check_pairs g attacking objects player ps ∅ ∅ =
            Ok (list_to_set (map blocker_id ps) ∪ ∅, foldl add_block ∅ ps)).
  { apply (check_pairs_spec wf _ _ _ _ _ _ Hok). split_and!; [done..| |done]. intros x _. set_solver. }
  unfold check_blocks. rewrite Hc, (count_seen wf d ps Hb Hps).
  destruct (maximum_spec wf) as (n & -> & He & Hle). cbn [mbind option_bind].
  assert (Hbd := best_declaration_iff n d He Hle). assert (Hd' := Hd). destruct Hd' as [Hlen Hes].
  destruct (forallb _ _) eqn:Hcounts.
  - rewrite counts_checked in Hcounts. assert (legal_declaration d) as Hleg.
    { split; [done|]. split; [done|]. intros a Hlt. specialize (Hcounts a Hlt).
      rewrite add_blocks_at, lookup_empty in Hcounts. cbn [default app] in Hcounts.
      by rewrite (count_attacker wf d) in Hcounts. }
    destruct (Nat.eqb_spec (obeyed d) n); eexists; (split; [reflexivity|]); rewrite Hbd; cbn;
      (split; [naive_solver|by intros m [= ->]]).
  - eexists. split; [reflexivity|]. rewrite Hbd. split; [|done]. cbn. split; [done|]. intros [(_ & _ & Hleg) _].
    rewrite (proj2 (counts_checked _)) in Hcounts; [done|]. intros a Hlt.
    rewrite add_blocks_at, lookup_empty. cbn [default app]. rewrite (count_attacker wf d); auto.
Qed.

Lemma check_blocks_spec (wf : wf_graph) attacking objects player ps :
  board_ok attacking objects player ->
  (exists r, check_blocks g attacking objects player ps = Some r) /\
  (accepts attacking objects player ps <-> exists d, best_declaration d /\ ps ≡ₚ declared d).
Proof.
  intros Hok. split.
  - unfold check_blocks. destruct (check_pairs _ _ _ _ _ _ _) as [[seen m]|e]; [|by eexists].
    destruct (maximum_spec wf) as (n & -> & _). cbn [mbind option_bind].
    destruct (forallb _ _); [destruct (_ =? _)|]; by eexists.
  - split.
    + intros [m Hm]. assert (Hm' := Hm). unfold check_blocks in Hm'.
      destruct (check_pairs _ _ _ _ _ _ _) as [[seen m']|e] eqn:Hc; [|done].
      apply (check_pairs_spec wf) in Hc as (Hps & Hnd & _); [|done].
      destruct (pairs_declare wf ps) as (d & Hd & Hdps); [apply Hok..|done|done|].
      exists d. split; [|done].
      destruct (check_declared wf attacking objects player d ps Hok Hd Hdps) as (r & Hr & Hbest & _).
      rewrite Hm in Hr. injection Hr as <-. by apply Hbest.
    + intros (d & Hbest & Hps). assert (Hd : on_edges d) by (destruct Hbest as [(? & ? & _) _]; done).
      destruct (check_declared wf attacking objects player d ps Hok Hd Hps) as (r & Hr & Hiff & _).
      apply Hiff in Hbest. destruct r as [m|]; [|done]. by exists m.
Qed.

Lemma declared_member (wf : wf_graph) attacking objects player d b a :
  board_ok attacking objects player -> best_declaration d -> b < length (blockers g) ->
  a < length (attackers g) -> pair g b a ∈ declared d <-> d !! b = Some (Some a).
Proof.
  intros Hok Hd Hb Ha. rewrite elem_of_declared, <- best_at by done. split.
  - intros (b' & a' & Hb' & Hda & E).
    assert (Hes : on_edges d) by (destruct Hd as [(? & ? & _) _]; done).
    assert (Ha' := wf_edge wf a' b' (on_edges_at d b' a' Hes Hb' Hda)).
    assert (b = b') as -> by (apply (pair_inj wf b a b' a'); [apply Hok..|done|done|done|done|by rewrite E]).
    rewrite Hda. f_equal. injection E as E.
    apply (NoDup_lookup (attackers g) _ _ (attackers g !!! a')); [apply Hok|by apply list_lookup_lookup_total_lt|].
    rewrite <- E. by apply list_lookup_lookup_total_lt.
  - intros Hda. by exists b, a.
Qed.
End Search.

(** ** The theorems *)

Lemma analyze_spec g (wf : wf_graph g) :
  exists r, analyze g = Some r /\
    (forall p, p ∈ pairs r <-> in_best g p) /\ (forall x, x ∈ required r <-> always_blocks g x) /\
    StronglySorted (key_le pair_key) (pairs r) /\ StronglySorted (key_le (fun x => [x])) (required r).
Proof.
  destruct (maximum_spec g wf) as (n & Hn & _).
  unfold analyze. destruct (existsb id (must_block g)) eqn:Hno; cbn [negb]; [rewrite Hn|];
    eexists; (split; [reflexivity|]); cbn [pairs required].
  - split_and!; [| |apply sort_by_key_spec..]; intros x; rewrite (proj2 (sort_by_key_spec _ _)).
    + apply (kept_pairs g wf (fun b a => bool_decide (solve g (Some (b, a)) None = Some n))).
      intros b a Hb _. by apply edge_kept.
    + by apply kept_required.
  - split_and!; [| |apply sort_by_key_spec..]; intros x; rewrite (proj2 (sort_by_key_spec _ _)).
    + apply (kept_pairs g wf (fun b a => _)). intros b a Hb Ha. by apply free_kept.
    + split; [by intros ?%not_elem_of_nil|]. intros (b & _ & Hall). exfalso.
      assert (Hd : best_declaration g (no_blocks g)) by (apply free_best; [done..|apply no_blocks_legal]).
      specialize (Hall _ Hd). rewrite no_blocks_at in Hall. by destruct Hall.
Qed.

(** C14. For every graph of the engine the search, for all its pruning and its table of results,
    finds the greatest number of requirements a legal declaration obeys, with one block given or
    one blocker left out if asked for, and nothing exactly where there is no such declaration. *)
Theorem search_exact g (wf : wf_graph g) forced omitted :
  (forall b a, forced = Some (b, a) -> b < length (blockers g)) ->
  (forall b, omitted = Some b -> b < length (blockers g)) ->
  match solve g forced omitted with
  | Some n =>
      (exists d, legal_declaration g d /\ follows forced omitted d /\ obeyed g d = n) /\
      (forall d, legal_declaration g d -> follows forced omitted d -> obeyed g d <= n)
  | None => forall d, legal_declaration g d -> ~ follows forced omitted d
  end.
Proof.
  intros Hf Ho. assert (H := solve_spec g wf forced omitted Hf Ho). destruct (solve g forced omitted) as [n|].
  - destruct H as [(d & [Hd Hfo] & Hn) Hle]. split; [by exists d|]. intros e He Hfe. by apply Hle.
  - intros d Hd Hfo. by apply (H d).
Qed.

(** C15. What the engine offers and what it accepts agree: a complete declaration is accepted exactly
    when its pairs are those of a legal declaration that obeys as many requirements as any; a pair
    is offered exactly when some accepted declaration contains it, a blocker named as required
    exactly when it blocks in every accepted one; the check never panics. *)
Theorem offered_blocks_accepted g (wf : wf_graph g) attacking objects player :
  board_ok g attacking objects player ->
  exists r, analyze g = Some r /\
    (forall ps, is_Some (check_blocks g attacking objects player ps)) /\
    (forall ps, accepts g attacking objects player ps <->
       exists d, best_declaration g d /\ ps ≡ₚ declared g d) /\
    (forall p, p ∈ pairs r <-> exists ps, accepts g attacking objects player ps /\ p ∈ ps) /\
    (forall x, x ∈ required r <->
       x ∈ blockers g /\ forall ps, accepts g attacking objects player ps -> x ∈ map blocker_id ps).
Proof.
  intros Hok. destruct (analyze_spec g wf) as (r & Hr & Hp & Hx & _). exists r. split; [done|].
  assert (Hacc := fun ps => proj2 (check_blocks_spec g wf attacking objects player ps Hok)).
  split_and!; [|done| |].
  - intros ps. destruct (check_blocks_spec g wf attacking objects player ps Hok) as [[o ->] _]. done.
  - intros p. rewrite Hp. split.
    + intros (d & b & a & Hd & Hda & ->). exists (declared g d).
      destruct (declared_edge g d b a (proj1 Hd) Hda) as [Hb Ha]. apply (wf_edge g wf) in Ha.
      split; [apply Hacc; by exists d|]. by apply (declared_member g wf attacking objects player d b a).
    + intros (ps & (d & Hd & Hps)%Hacc & Hin). rewrite Hps in Hin.
      apply elem_of_declared in Hin as (b & a & Hb & Hda & ->). exists d, b, a. by rewrite <- best_at.
  - intros x. rewrite Hx. split.
    + intros (b & Hb & Hall). split; [by eapply list_elem_of_lookup_2|].
      intros ps (d & Hd & Hps)%Hacc. change (map blocker_id ps) with (blocker_id <$> ps). rewrite Hps.
      destruct (Hall d Hd) as [a Ha]. apply list_elem_of_fmap. exists (pair g b a).
      split; [cbn; symmetry; by apply list_lookup_total_correct|].
      apply elem_of_declared. exists b, a. by apply lookup_lt_Some in Hb.
    + intros [[b Hb]%list_elem_of_lookup Hall]. exists b. split; [done|]. intros d Hd.
      assert (Hin : x ∈ blocker_id <$> declared g d) by (apply Hall, Hacc; by exists d).
      apply list_elem_of_fmap in Hin as (p & -> & (b' & a & Hb' & Hda & ->)%elem_of_declared).
      assert (b = b') as ->; [|by rewrite Hda].
      apply (NoDup_lookup (blockers g) _ _ _ (ok_blockers _ _ _ _ Hok) Hb).
      by apply list_lookup_lookup_total_lt.
Qed.

(** ** Examples *)

(** Two attackers, the first may only be blocked by two; the first blocker must
    block and can only block it: both have to. *)
Definition sample_graph : BlockGraph :=
  {| attackers := [10; 20]%Z; blockers := [30; 40]%Z; edges := [[0]; [0; 1]]; minimum := [2; 1];
     maximum := [None; None]; must_block := [true; false] |}.

Definition sample_objects : gmap Z BlockerObject :=
  list_to_map (map (fun x =>
    (x, {| on_battlefield := true; controller := Some 1%Z; creature := true; tapped := false |})) [30; 40]%Z).

Lemma sample_graph_wf : wf_graph sample_graph.
Proof.
  constructor; [done..| |].
  - intros a [|[|b]] H; cbn in *; [set_solver by lia..|].
    by apply not_elem_of_nil in H.
  - intros [|[|a]] H; cbn in *; lia.
Qed.

Lemma sample_board : board_ok sample_graph [10; 20]%Z sample_objects 1.
Proof.
  constructor; [by apply (bool_decide_unpack _)..|done|].
  intros x Hx. cbn in Hx. repeat (apply elem_of_cons in Hx as [->|Hx]; [reflexivity|]).
  by apply not_elem_of_nil in Hx.
Qed.

Lemma search_exact_witness :
  solve sample_graph (Some (1, 1)) None = Some 0 /\
  exists d, legal_declaration sample_graph d /\ follows (Some (1, 1)) None d.
Proof.
  assert (H := search_exact sample_graph sample_graph_wf (Some (1, 1)) None ltac:(intros b a [= <- <-]; cbn; lia)
    ltac:(done)).
  change (solve sample_graph (Some (1, 1)) None) with (Some 0) in H. split; [reflexivity|].
  destruct H as [(d & Hd & Hfo & _) _]. by exists d.
Defined.

Lemma offered_blocks_accepted_witness :
  accepts sample_graph [10; 20]%Z sample_objects 1
    [{| attacker_id := 10; blocker_id := 40 |}; {| attacker_id := 10; blocker_id := 30 |}]%Z /\
  forall ps, accepts sample_graph [10; 20]%Z sample_objects 1 ps -> 40%Z ∈ map blocker_id ps.
Proof.
  split; [by eexists|].
  destruct (offered_blocks_accepted sample_graph sample_graph_wf [10; 20]%Z sample_objects 1 sample_board)
    as (r & Hr & _ & _ & _ & Hx).
  assert (E : required r = [30; 40]%Z).
  { change (analyze sample_graph) with (Some {| pairs := [{| attacker_id := 10; blocker_id := 30 |};
      {| attacker_id := 10; blocker_id := 40 |}]%Z; required := [30; 40]%Z |}) in Hr. by injection Hr as <-. }
  apply Hx. rewrite E. set_solver.
Defined.
