(* ===== verification/Attacking.v ===== *)
(** * Declaring attackers: [tricerules-core/src/engine/combat/attacking.rs]

    Limits on how many creatures may attack, altogether or one player, and the
    number of creatures that must attack although limits and taxes may keep some
    of them at home (CR 508.1c-d): [maximum_requirements], with the part of
    [set_attackers] in [combat.rs] that asks for them. A [usize] counts creatures
    and is a [nat]. *)
From S2P Require Import Prelude Demand Blocking BlockingCorrect.
Open Scope cockatrice_scope.
Local Open Scope nat_scope.

(** ** Data *)

Record TriggerObjectRef : Type := {
  object_id : Z;
  zone_change_generation : Z;
  controller_at_event : Z
}.

Inductive CombatDefenderTarget : Type :=
| Player (player : Z)
| Permanent (permanent : TriggerObjectRef).

#[export] Instance TriggerObjectRef_eq_dec : EqDecision TriggerObjectRef.
Proof. solve_decision. Defined.

#[export] Instance CombatDefenderTarget_eq_dec : EqDecision CombatDefenderTarget.
Proof. solve_decision. Defined.

Record CombatAttackAssignment : Type := {
  attacker : TriggerObjectRef;
  defender : CombatDefenderTarget;
  defending_player : Z
}.

Record AttackLimits : Type := { global : option nat; players : gmap Z nat }.

Inductive AttackLimitAffected : Type := All | AttackingController.

(** [StaticAbilityDef::LimitAttackers] of an object, with [controller_of] of the
    object. *)
Record LimitAttackers : Type := {
  limit_maximum : Z;
  affected : AttackLimitAffected;
  limit_controller : option Z
}.

(** ** Limits *)

(** One ability in the loops of [attack_limits]. *)
Definition add_limit (limits : AttackLimits) (ability : LimitAttackers) : AttackLimits :=
  let maximum := Z.to_nat (limit_maximum ability) in
  match affected ability with
  | All =>
      {| global := Some (Nat.min (default maximum (global limits)) maximum); players := players limits |}
  | AttackingController =>
      match limit_controller ability with
      | Some controller =>
          let cap := default maximum (players limits !! controller) in
          {| global := global limits; players := <[controller := Nat.min cap maximum]> (players limits) |}
      | None => limits
      end
  end.

Definition attack_limits (abilities : list LimitAttackers) : AttackLimits :=
  foldl add_limit {| global := None; players := ∅ |} abilities.

Section Limits.
Context (l : AttackLimits).

Definition allows_defender (d : CombatDefenderTarget) : bool :=
  negb (bool_decide (global l = Some 0))
  && match d with
     | Player player => negb (bool_decide (players l !! player = Some 0))
     | Permanent _ => true
     end.

(** The loop of [declaration_allowed]: [index] assignments are behind. *)
Fixpoint allowed_from (index : nat) (counts : gmap Z nat) (assignments : list CombatAttackAssignment)
    : bool :=
  match assignments with
  | [] => true
  | assignment :: assignments =>
      if is_some_and (fun maximum => maximum <? index + 1) (global l) then false
      else
        match defender assignment with
        | Player player =>
            let count := default 0 (counts !! player) + 1 in
            if is_some_and (fun maximum => maximum <? count) (players l !! player) then false
            else allowed_from (S index) (<[player := count]> counts) assignments
        | Permanent _ => allowed_from (S index) counts assignments
        end
  end.

Definition declaration_allowed (assignments : list CombatAttackAssignment) : bool :=
  allowed_from 0 ∅ assignments.

(** The loop of [maximum_requirements]; the addition, which saturates at the width,
    is cut off at the size of the pool. *)
Fixpoint capacity_from (pool_size capacity : nat) (defenders : list (CombatDefenderTarget * Z)) : nat :=
  match defenders with
  | [] => capacity
  | (d, _) :: defenders =>
      match d with
      | Player player =>
          match players l !! player with
          | None => pool_size
          | Some maximum => capacity_from pool_size (Nat.min (capacity + maximum) pool_size) defenders
          end
      | Permanent _ => pool_size
      end
  end.

Definition maximum_requirements (pool_size : nat) (defenders : list (CombatDefenderTarget * Z)) : nat :=
  Nat.min (Nat.min (capacity_from pool_size 0 defenders) pool_size) (default pool_size (global l)).

(** [attack_tax] is [attack_tax_per_attacker], [defenders] are the
    [attack_defenders]. *)
Definition untaxed_defenders (attack_tax : CombatDefenderTarget -> Z)
    (defenders : list (CombatDefenderTarget * Z)) : list (CombatDefenderTarget * Z) :=
  List.filter (fun d => allows_defender d.1 && (attack_tax d.1 =? 0)%Z) defenders.

Definition minimum_attack_requirement_count (attack_tax : CombatDefenderTarget -> Z)
    (defenders : list (CombatDefenderTarget * Z)) (requirements : list Z) : nat :=
  maximum_requirements (length requirements) (untaxed_defenders attack_tax defenders).

(** The check of [set_attackers] on the parsed declaration, by attacker. *)
Definition check_attackers (attack_tax : CombatDefenderTarget -> Z)
    (defenders : list (CombatDefenderTarget * Z)) (requirements : list Z)
    (declared : list (Z * CombatAttackAssignment)) : result unit EngineError :=
  if negb (declaration_allowed (map snd declared))
  then Err (Illegal "attack declaration exceeds maximum")
  else
    let satisfied := count (fun oid => bool_decide (oid ∈ requirements)) (map fst declared) in
    if satisfied <? minimum_attack_requirement_count attack_tax defenders requirements
    then Err (Illegal "attack declaration satisfies too few requirements")
    else Ok tt.
End Limits.

(** ** What is allowed *)

Definition against (player : Z) (assignments : list CombatAttackAssignment) : nat :=
  count (fun a => bool_decide (defender a = Player player)) assignments.

Definition within_limits (l : AttackLimits) (assignments : list CombatAttackAssignment) : Prop :=
  (forall maximum, global l = Some maximum -> length assignments <= maximum) /\
  (forall player maximum, players l !! player = Some maximum -> against player assignments <= maximum).

Lemma is_some_and_ltb n o : is_some_and (fun m => m <? n) o = false <-> forall m, o = Some m -> n <= m.
Proof.
  destruct o as [m|]; unfold is_some_and; [rewrite Nat.ltb_ge|]; (split; [|by auto]); [|done].
  by intros ? ? [= <-].
Qed.

Lemma against_cons player a l :
  against player (a :: l) = Nat.b2n (bool_decide (defender a = Player player)) + against player l.
Proof. unfold against. by rewrite count_cons. Qed.

Lemma allowed_from_spec l assignments index counts :
  allowed_from l index counts assignments = true <->
  (assignments <> [] -> forall maximum, global l = Some maximum -> index + length assignments <= maximum) /\
  (forall player maximum, players l !! player = Some maximum -> 0 < against player assignments ->
     default 0 (counts !! player) + against player assignments <= maximum).
Proof.
  revert index counts. induction assignments as [|a rest IH]; intros index counts.
  { cbn. split; [intros _; split; [done|intros; cbn in *; lia]|done]. }
  cbn [allowed_from length]. destruct (is_some_and (fun maximum => maximum <? index + 1) (global l)) eqn:Eg.
  { split; [done|]. intros [Hg _]. rewrite (proj2 (is_some_and_ltb _ _)) in Eg; [done|].
    intros m Em. specialize (Hg ltac:(done) m Em). lia. }
  rewrite is_some_and_ltb in Eg.
  assert (Hglobal : (rest <> [] -> forall maximum, global l = Some maximum -> S index + length rest <= maximum) <->
    (a :: rest <> [] -> forall maximum, global l = Some maximum -> index + S (length rest) <= maximum)).
  { split; [|intros H _ m Em; specialize (H ltac:(done) m Em); lia].
    intros H _ m Em. specialize (Eg m Em). destruct rest; [cbn; lia|]. specialize (H ltac:(done) m Em). lia. }
  destruct (defender a) as [p|perm] eqn:Ed; setoid_rewrite against_cons; rewrite Ed.
  - destruct (is_some_and _ (players l !! p)) eqn:Ep.
    + split; [done|]. intros [_ H]. rewrite (proj2 (is_some_and_ltb _ _)) in Ep; [done|].
      intros m Em. specialize (H p m Em). rewrite bool_decide_true in H by done. cbn in H. lia.
    + rewrite is_some_and_ltb in Ep. rewrite IH, Hglobal. apply and_iff_compat_l.
      split; intros H q m Em; specialize (H q m Em); destruct (decide (p = q)) as [<-|Hne].
      * rewrite bool_decide_true by done. cbn. rewrite lookup_insert_eq in H. cbn in H.
        specialize (Ep m Em). destruct (decide (against p rest = 0)) as [->|]; lia.
      * rewrite bool_decide_false by congruence. rewrite lookup_insert_ne in H by done. done.
      * rewrite lookup_insert_eq. rewrite bool_decide_true in H by done. cbn in *. lia.
      * rewrite lookup_insert_ne by done. rewrite bool_decide_false in H by congruence. done.
  - rewrite IH, Hglobal. apply and_iff_compat_l.
    split; intros H q m Em; specialize (H q m Em); by rewrite bool_decide_false in * by done.
Qed.

Lemma declaration_allowed_spec l assignments :
  declaration_allowed l assignments = true <-> within_limits l assignments.
Proof.
  unfold declaration_allowed. rewrite allowed_from_spec. unfold within_limits. split; intros [Hg Hp]; split.
  - intros m Em. destruct assignments; [cbn; lia|]. by apply Hg.
  - intros q m Em. specialize (Hp q m Em). rewrite lookup_empty in Hp. cbn in Hp.
    destruct (decide (against q assignments = 0)); lia.
  - intros _ m Em. by apply Hg.
  - intros q m Em _. rewrite lookup_empty. by apply Hp.
Qed.

(** The limits do not depend on the order in which the objects of the board are
    visited. *)
Lemma add_limit_comm l a b : add_limit (add_limit l a) b = add_limit (add_limit l b) a.
Proof.
  unfold add_limit. destruct (affected a), (affected b); cbn.
  - do 2 f_equal. destruct (global l); cbn; lia.
  - by destruct (limit_controller b).
  - by destruct (limit_controller a).
  - destruct (limit_controller a) as [p|], (limit_controller b) as [q|]; cbn; try done.
    f_equal. destruct (decide (p = q)) as [->|Hne].
    + rewrite !lookup_insert_eq, !insert_insert_eq. cbn. f_equal. destruct (players l !! q); cbn; lia.
    + rewrite !lookup_insert_ne by done. by apply insert_insert_ne.
Qed.

Lemma attack_limits_perm as' bs : as' ≡ₚ bs -> attack_limits as' = attack_limits bs.
Proof.
  unfold attack_limits. generalize {| global := None; players := ∅ |} as l. intros l Hp. revert l.
  induction Hp as [| |a b k|]; intros limits; cbn; [done|done| |congruence]. by rewrite add_limit_comm.
Qed.

(** ** How many may attack *)

Lemma against_split player assignments :
  length assignments = against player assignments
    + length (List.filter (fun a => negb (bool_decide (defender a = Player player))) assignments).
Proof.
  induction assignments as [|a rest IH]; [done|]. rewrite against_cons. cbn [length List.filter].
  destruct (bool_decide _); cbn; lia.
Qed.

Lemma against_filter (p : CombatAttackAssignment -> bool) player assignments :
  against player (List.filter p assignments) <= against player assignments.
Proof.
  induction assignments as [|a rest IH]; [done|]. cbn [List.filter].
  destruct (p a); rewrite !against_cons; lia.
Qed.

(** No declaration against the defenders has more attackers than the capacity. *)
Lemma capacity_upper l pool defenders capacity assignments :
  (forall player maximum, players l !! player = Some maximum -> against player assignments <= maximum) ->
  (forall a, a ∈ assignments -> defender a ∈ map fst defenders) -> capacity <= pool ->
  Nat.min (capacity + length assignments) pool <= capacity_from l pool capacity defenders.
Proof.
  revert capacity assignments. induction defenders as [|[d p] defenders IH]; intros capacity assignments Hl Hd Hc.
  - destruct assignments as [|a rest]; cbn; [lia|].
    assert (Hin := Hd a ltac:(left)). by apply not_elem_of_nil in Hin.
  - cbn [capacity_from]. destruct d as [player|perm]; [|lia].
    destruct (players l !! player) as [m|] eqn:Em; [|lia].
    set (rest := List.filter (fun a => negb (bool_decide (defender a = Player player))) assignments).
    assert (Hrest := IH (Nat.min (capacity + m) pool) rest). specialize (Hl player m Em) as Hm.
    assert (Hlen := against_split player assignments). fold rest in Hlen.
    etransitivity; [|apply Hrest]; [lia| | |lia].
    + intros q k Eq. etransitivity; [apply against_filter|by apply (Hl q k)].
    + intros a Ha. unfold rest in Ha. apply elem_of_filter_bool in Ha as [Hne Ha]. apply negb_true_iff, bool_decide_eq_false in Hne.
      specialize (Hd a Ha). cbn in Hd. apply elem_of_cons in Hd as [?|?]; done.
Qed.

(** As many places as each defender has. *)
Definition places (l : AttackLimits) (pool : nat) (d : CombatDefenderTarget) : nat :=
  match d with Player player => default pool (players l !! player) | Permanent _ => pool end.

Definition slots_of (l : AttackLimits) (pool : nat) (defenders : list (CombatDefenderTarget * Z))
    : list (CombatDefenderTarget * Z) :=
  concat (map (fun d => replicate (places l pool d.1) d) defenders).

Lemma capacity_lower l pool capacity defenders :
  capacity_from l pool capacity defenders <= capacity + length (slots_of l pool defenders).
Proof.
  unfold slots_of. revert capacity. induction defenders as [|[d p] defenders IH]; intros capacity; cbn; [lia|].
  rewrite length_app, length_replicate. destruct d as [player|perm]; cbn; [|lia].
  destruct (players l !! player) as [m|]; cbn; [|lia].
  specialize (IH (Nat.min (capacity + m) pool)). lia.
Qed.

Lemma elem_of_slots l pool defenders d : d ∈ slots_of l pool defenders -> d ∈ defenders.
Proof.
  unfold slots_of. rewrite list_elem_of_In, in_concat. intros (ds & Hds & Hd).
  apply in_map_iff in Hds as (e & <- & He). apply list_elem_of_In, elem_of_replicate in Hd as [-> _].
  by apply list_elem_of_In.
Qed.

Definition to_player (player : Z) (d : CombatDefenderTarget * Z) : bool := bool_decide (d.1 = Player player).

Lemma count_app {A} (p : A -> bool) l k : count p (l ++ k) = count p l + count p k.
Proof. induction l as [|x l IH]; [done|]. cbn [app]. rewrite !count_cons. lia. Qed.

Lemma count_all_same {A} (p : A -> bool) n x : count p (replicate n x) = if p x then n else 0.
Proof.
  induction n as [|n IH]; cbn [replicate]; [by destruct (p x)|]. rewrite count_cons, IH. by destruct (p x).
Qed.

Lemma slots_of_player l pool defenders player maximum :
  NoDup (map fst defenders) -> players l !! player = Some maximum ->
  count (to_player player) (slots_of l pool defenders) <= maximum.
Proof.
  intros Hnd Hm. unfold slots_of. induction defenders as [|[d p] defenders IH]; [cbn; lia|].
  cbn [map concat fst] in *. apply NoDup_cons in Hnd as [Hnew Hnd]. specialize (IH Hnd). rewrite count_app, count_all_same.
  unfold to_player at 1. cbn [fst]. destruct (bool_decide_reflect (d = Player player)) as [->|_]; [|lia].
  cbn [places]. rewrite Hm. cbn. fold (slots_of l pool defenders) in *. rewrite count_zero; [lia|].
  intros e He. apply bool_decide_eq_false. intros E. apply Hnew. cbn. rewrite <- E.
  apply list_elem_of_In, in_map, list_elem_of_In. by eapply elem_of_slots.
Qed.

(** ** Attacks nobody pays for *)

(** Different creatures of the pool attack defenders that cost nothing, within the
    limits. *)
Definition free_attack (l : AttackLimits) (attack_tax : CombatDefenderTarget -> Z)
    (defenders : list (CombatDefenderTarget * Z)) (requirements : list Z)
    (declared : list (Z * CombatAttackAssignment)) : Prop :=
  NoDup (map fst declared) /\
  (forall x a, (x, a) ∈ declared ->
     x ∈ requirements /\ defender a ∈ map fst defenders /\ attack_tax (defender a) = 0%Z) /\
  within_limits l (map snd declared).

Lemma within_allows l assignments a :
  within_limits l assignments -> a ∈ assignments -> allows_defender l (defender a) = true.
Proof.
  intros [Hg Hp] Ha. unfold allows_defender. apply andb_true_iff. split.
  - apply negb_true_iff, bool_decide_eq_false. intros E. specialize (Hg 0 E).
    destruct assignments; [by apply not_elem_of_nil in Ha|cbn in Hg; lia].
  - destruct (defender a) as [player|] eqn:Ed; [|done]. apply negb_true_iff, bool_decide_eq_false.
    intros E. specialize (Hp player 0 E). apply elem_of_Permutation in Ha as [k Hk].
    unfold against in Hp. rewrite (count_perm _ _ _ Hk), count_cons, bool_decide_true in Hp by done.
    cbn in Hp. lia.
Qed.

Lemma elem_of_untaxed l attack_tax defenders d :
  d ∈ map fst (untaxed_defenders l attack_tax defenders) <->
  d ∈ map fst defenders /\ allows_defender l d = true /\ attack_tax d = 0%Z.
Proof.
  unfold untaxed_defenders. rewrite !list_elem_of_In, !in_map_iff. split.
  - intros ([e p] & <- & Hin). apply filter_In in Hin as [Hin H]. cbn in *.
    rewrite andb_true_iff, Z.eqb_eq in H. split; [|tauto]. by exists (e, p).
  - intros (([e p] & <- & Hin) & Ha & Ht). exists (e, p). split; [done|]. apply filter_In.
    split; [done|]. cbn in *. by rewrite Ha, Ht.
Qed.

Lemma free_attack_bounded l attack_tax defenders requirements declared :
  free_attack l attack_tax defenders requirements declared ->
  length declared <= minimum_attack_requirement_count l attack_tax defenders requirements.
Proof.
  intros (Hnd & Hin & Hw). assert (Hlen : length (map snd declared) = length declared) by apply length_map.
  assert (Hpool : length declared <= length requirements).
  { rewrite <- (length_map fst). apply submseteq_length, NoDup_submseteq; [done|].
    intros x Hx. apply list_elem_of_In, in_map_iff in Hx as ([y a] & <- & Hy).
    by apply list_elem_of_In, Hin in Hy as [? _]. }
  unfold minimum_attack_requirement_count, maximum_requirements.
  assert (Hup := capacity_upper l (length requirements) (untaxed_defenders l attack_tax defenders) 0
    (map snd declared) (proj2 Hw)).
  assert (Hg := proj1 Hw). rewrite Hlen in Hup, Hg. cbn [Nat.add] in Hup.
  assert (Nat.min (length declared) (length requirements) <= capacity_from l (length requirements) 0
    (untaxed_defenders l attack_tax defenders)).
  { apply Hup; [|lia]. intros a Ha. apply elem_of_untaxed.
    split_and!; [| |]; [|by eapply within_allows|]; apply list_elem_of_In, in_map_iff in Ha as ([x b] & <- & Hx);
      apply list_elem_of_In, Hin in Hx; tauto. }
  destruct (global l) as [m|]; cbn [from_option id]; [specialize (Hg m eq_refl)|]; lia.
Qed.

Definition assign (x : Z) (d : CombatDefenderTarget * Z) : Z * CombatAttackAssignment :=
  (x, {| attacker := {| object_id := x; zone_change_generation := 0; controller_at_event := 0 |};
         defender := d.1; defending_player := d.2 |}).

Lemma against_assigned player xs ds :
  length ds <= length xs -> against player (map snd (zip_with assign xs ds)) = count (to_player player) ds.
Proof.
  revert xs. induction ds as [|d ds IH]; intros [|x xs] Hl; [done..|cbn in Hl; lia|].
  cbn [zip_with map]. rewrite against_cons, count_cons, IH by (cbn in Hl; lia). done.
Qed.

Lemma count_take {A} (p : A -> bool) n l : count p (take n l) <= count p l.
Proof. rewrite <- (take_drop n l) at 2. rewrite count_app. lia. Qed.

Lemma untaxed_nodup l attack_tax defenders :
  NoDup (map fst defenders) -> NoDup (map fst (untaxed_defenders l attack_tax defenders)).
Proof.
  intros Hnd. apply (sublist_NoDup _ (map fst defenders)); [done|]. unfold untaxed_defenders.
  induction defenders as [|d defenders IH]; [constructor|]. apply NoDup_cons in Hnd as [_ Hnd].
  specialize (IH Hnd). cbn. destruct (_ && _); cbn; by constructor.
Qed.

Lemma free_attack_exists l attack_tax defenders requirements :
  NoDup (map fst defenders) -> NoDup requirements ->
  exists declared, free_attack l attack_tax defenders requirements declared /\
    length declared = minimum_attack_requirement_count l attack_tax defenders requirements.
Proof.
  intros Hnd Hr. set (n := minimum_attack_requirement_count _ _ _ _).
  set (free := untaxed_defenders l attack_tax defenders).
  set (slots := slots_of l (length requirements) free).
  assert (Hn : n <= length requirements /\ n <= length slots /\ forall m, global l = Some m -> n <= m).
  { unfold n, minimum_attack_requirement_count, maximum_requirements. fold free.
    assert (H := capacity_lower l (length requirements) 0 free). fold slots in H.
    split_and!; [lia|lia|]. intros m ->. cbn. lia. }
  destruct Hn as (Hn1 & Hn2 & Hn3).
  assert (Hl1 : length (take n requirements) = n) by (rewrite length_take; lia).
  assert (Hl2 : length (take n slots) = n) by (rewrite length_take; lia).
  exists (zip_with assign (take n requirements) (take n slots)).
  assert (Hfst : map fst (zip_with assign (take n requirements) (take n slots)) = take n requirements).
  { change (map fst ?k) with (fst <$> k). rewrite fmap_zip_with_l; [done|done|lia]. }
  split; [split; [|split]|].
  - rewrite Hfst. by apply (sublist_NoDup _ requirements), sublist_take.
  - intros x a Hxa. apply elem_of_lookup_zip_with in Hxa as (i & y & d & [= -> ->] & Hy & Hd).
    cbn [assign defender]. apply list_elem_of_lookup_2, elem_of_take in Hy as (j & Hy & _).
    apply list_elem_of_lookup_2, elem_of_take in Hd as (k & Hd & _). apply list_elem_of_lookup_2 in Hd, Hy.
    apply elem_of_slots in Hd. assert (Hfree : d.1 ∈ map fst free) by by apply list_elem_of_In, in_map, list_elem_of_In.
    apply elem_of_untaxed in Hfree as (? & _ & ?). done.
  - split.
    + intros m Em. rewrite length_map, length_zip_with. specialize (Hn3 m Em). lia.
    + intros player m Em. rewrite against_assigned by lia. etransitivity; [apply count_take|].
      apply slots_of_player; [by apply untaxed_nodup|done].
  - rewrite length_zip_with. lia.
Qed.

(** C27. The number of creatures that [set_attackers] demands is the greatest number of creatures of
    the requirement pool that can attack without anyone paying a tax and within the limits, and a
    declaration is accepted exactly when it is within the limits, whatever the order of its
    attackers, and at least that many of its attackers are of the pool. *)
Theorem attack_requirements_exact l attack_tax defenders requirements :
  NoDup (map fst defenders) -> NoDup requirements ->
  let n := minimum_attack_requirement_count l attack_tax defenders requirements in
  (forall declared, check_attackers l attack_tax defenders requirements declared = Ok tt <->
     within_limits l (map snd declared) /\
     n <= count (fun oid => bool_decide (oid ∈ requirements)) (map fst declared)) /\
  (exists declared, free_attack l attack_tax defenders requirements declared /\ length declared = n) /\
  (forall declared, free_attack l attack_tax defenders requirements declared -> length declared <= n).
Proof.
  intros Hnd Hr n. split; [|split; [by apply free_attack_exists|apply free_attack_bounded]].
  intros declared. unfold check_attackers. rewrite <- declaration_allowed_spec.
  destruct (declaration_allowed l (map snd declared)); cbn [negb]; [|naive_solver].
  fold n. destruct (Nat.ltb_spec (count (fun oid => bool_decide (oid ∈ requirements)) (map fst declared)) n);
    (split; [done || (intros _; by split)|]); [intros [_ Hle]; lia|done].
Qed.

(** Two limits on a player, one altogether; duplicates count by their minimum. *)
Definition sample_limits : AttackLimits :=
  attack_limits
    [ {| limit_maximum := 3; affected := AttackingController; limit_controller := Some 2%Z |};
      {| limit_maximum := 5; affected := All; limit_controller := Some 3%Z |};
      {| limit_maximum := 2; affected := AttackingController; limit_controller := Some 2%Z |} ].

Lemma attack_requirements_exact_witness :
  minimum_attack_requirement_count sample_limits (fun _ => 0%Z) [(Player 2, 2%Z)] [7; 8; 9]%Z = 2 /\
  exists declared, free_attack sample_limits (fun _ => 0%Z) [(Player 2, 2%Z)] [7; 8; 9]%Z declared /\
    length declared = 2.
Proof.
  split; [reflexivity|].
  destruct (attack_requirements_exact sample_limits (fun _ => 0%Z) [(Player 2, 2%Z)] [7; 8; 9]%Z)
    as (_ & H & _); [by apply (bool_decide_unpack _)..|]. exact H.
Defined.
