(* ===== verification/CombatDamage.v ===== *)
(** * Combat damage: the assignment of [tricerules-core/src/engine/combat.rs]

    Once blocks are declared, the attacking player splits the damage of every
    attacker with several blockers, or with trample and a blocker
    ([assign_combat_damage]); passing priority opens the assignment and, when
    nothing is left to split, starts the damage step ([pass_declare_blockers], from
    [priority.rs]); creatures may leave combat at any time
    ([remove_combat_participants]); creatures with first strike deal their damage
    in a step of their own ([begin_damage_step], [object_participates_in_pass]).

    The characteristics the code asks the engine for are a map from creatures to
    [Creature]. A [HashMap] is a [gmap]; the loops over one ask for all or any of
    its entries, whatever the order. *)
From S2P Require Import Prelude Demand Attacking.
Open Scope cockatrice_scope.
Local Open Scope Z_scope.

(** ** State *)

(** Characteristics of a creature, and the damage marked on it. *)
Record Creature : Type := {
  trample : bool;
  deathtouch : bool;
  first_strike : bool;
  double_strike : bool;
  power : option Z;
  toughness : option Z;
  damage : Z
}.

(** [CombatState], the part combat damage is about. *)
Record Combat : Type := {
  attacking : list Z;
  attack_assignments : gmap Z CombatAttackAssignment;
  blockers : gmap Z (list Z);
  damage_assignments : gmap Z (list (Z * Z));
  trample_player_damage : gmap Z Z;
  damage_assignment_needed : bool;
  blockers_declared_by : list Z;
  blockers_declared : bool;
  assign_combat_damage_phase : bool;
  first_strike_attackers : list Z;
  first_strike_blockers : gmap Z (list Z);
  first_strike_damage_done : bool
}.

Inductive DamagePass : Type := FirstStrike | Normal.

Section Engine.
Context (creatures : gmap Z Creature).

(** [effective_has_keyword] *)
Definition has (keyword : Creature -> bool) (oid : Z) : bool :=
  match creatures !! oid with Some k => keyword k | None => false end.

Definition effective_power (oid : Z) : option Z := creatures !! oid ≫= power.
Definition effective_toughness (oid : Z) : option Z := creatures !! oid ≫= toughness.

Definition attacker_needs_explicit_damage_assignment (attacker_id : Z) (blocker_count : nat) : bool :=
  (1 <? blocker_count)%nat || ((blocker_count =? 1)%nat && has trample attacker_id).

(** Some attacker needs an assignment and has none. *)
Definition assignment_missing (c : Combat) : bool :=
  existsb (fun '(id, bs) =>
    bool_decide (damage_assignments c !! id = None)
    && attacker_needs_explicit_damage_assignment id (length bs)) (map_to_list (blockers c)).

(** ** Blocks *)

(** The combat after the blocks of one player were accepted by [set_blockers];
    [last] says that nobody else has to declare. *)
Definition record_blocks (defending_player : Z) (attacker_to_blockers : gmap Z (list Z)) (last : bool)
    (c : Combat) : Combat :=
  {| attacking := attacking c; attack_assignments := attack_assignments c;
     blockers := attacker_to_blockers ∪ blockers c;
     damage_assignments := ∅; trample_player_damage := ∅;
     damage_assignment_needed := damage_assignment_needed c
       || existsb (fun '(id, bs) => attacker_needs_explicit_damage_assignment id (length bs))
            (map_to_list attacker_to_blockers);
     blockers_declared_by := blockers_declared_by c ++ [defending_player];
     blockers_declared := last || blockers_declared c;
     assign_combat_damage_phase := false;
     first_strike_attackers := first_strike_attackers c; first_strike_blockers := first_strike_blockers c;
     first_strike_damage_done := first_strike_damage_done c |}.

(** ** The assignment *)

(** The least damage that is lethal for a blocker. *)
Definition lethal (attacker_id blk : Z) : Z :=
  let blk_toughness := default 1 (effective_toughness blk) in
  let marked := default 0 (damage <$> creatures !! blk) in
  if has deathtouch attacker_id then 1 else Z.max (u32_saturating_sub blk_toughness marked) 1.

Definition assigned (assignments : list (Z * Z)) (blk : Z) : Z :=
  match find (fun a => a.1 =? blk) assignments with Some a => a.2 | None => 0 end.

(** [iter().map(|(_, d)| d).sum()], which wraps. *)
Definition damage_sum (assignments : list (Z * Z)) : Z := fold_left u32_add (map snd assignments) 0.

(** The amounts (phase 4). *)
Definition check_amounts (attacker_id : Z) (expected_blockers : list Z) (assignments : list (Z * Z))
    (player_damage att_power : Z) : result unit EngineError :=
  if has trample attacker_id then
    if forallb (fun blk => lethal attacker_id blk <=? assigned assignments blk) expected_blockers then
      if u32_add (damage_sum assignments) player_damage =? att_power then Ok tt
      else Err (Illegal "trample: total damage (blockers + player) must equal attacker power")
    else
      Err (Illegal
        "trample: must assign lethal damage to each blocker before assigning to player")
  else if negb (player_damage =? 0) then Err (Illegal "cannot assign player damage without trample")
  else if damage_sum assignments =? att_power then Ok tt
  else Err (Illegal "assigned damage must equal attacker power").

(** The assignment stored (phase 5). *)
Definition store_assignment (attacker_id : Z) (assignments : list (Z * Z)) (player_damage : Z) (c : Combat)
    : Combat :=
  let stored := <[attacker_id := assignments]> (damage_assignments c) in
  let all_done :=
    forallb (fun '(id, bs) =>
      negb (attacker_needs_explicit_damage_assignment id (length bs))
      || negb (bool_decide (stored !! id = None))) (map_to_list (blockers c)) in
  {| attacking := attacking c; attack_assignments := attack_assignments c; blockers := blockers c;
     damage_assignments := stored;
     trample_player_damage :=
       if has trample attacker_id && (0 <? player_damage)
       then <[attacker_id := player_damage]> (trample_player_damage c) else trample_player_damage c;
     damage_assignment_needed := if all_done then false else damage_assignment_needed c;
     blockers_declared_by := blockers_declared_by c; blockers_declared := blockers_declared c;
     assign_combat_damage_phase := assign_combat_damage_phase c;
     first_strike_attackers := first_strike_attackers c; first_strike_blockers := first_strike_blockers c;
     first_strike_damage_done := first_strike_damage_done c |}.

(** The new combat, and whether the damage step follows. *)
Definition assign_combat_damage (attacker_id : Z) (assignments : list (Z * Z)) (player_damage : Z)
    (combat : option Combat) : result (Combat * bool) EngineError :=
  let? c := ok_or combat (Illegal "not in combat") in
  if negb (blockers_declared c) || negb (damage_assignment_needed c) || negb (assign_combat_damage_phase c)
  then Err (Illegal "combat damage assignment not open")
  else
    let? expected_blockers := ok_or (blockers c !! attacker_id) (Illegal "attacker not blocked") in
    if (length expected_blockers <? 2)%nat && negb (has trample attacker_id)
    then Err (Illegal "attacker not multiply-blocked")
    else if bool_decide (expected_blockers = [])
    then Err (Illegal "cannot assign damage for unblocked attacker")
    else if negb (bool_decide (NoDup (map fst assignments)))
    then Err (Illegal "duplicate blocker in assignments")
    else if negb (bool_decide
      (list_to_set (map fst assignments) =@{gset Z} list_to_set expected_blockers))
    then Err (Illegal "assignments must list each blocker exactly once")
    else
      let? att_power := ok_or (effective_power attacker_id) (Illegal "attacker missing") in
      let? _ := check_amounts attacker_id expected_blockers assignments player_damage att_power in
      let c := store_assignment attacker_id assignments player_damage c in
      Ok (c, negb (damage_assignment_needed c)).

(** ** Passing priority in the declare blockers step *)

Definition open_assignment (c : Combat) : Combat :=
  {| attacking := attacking c; attack_assignments := attack_assignments c; blockers := blockers c;
     damage_assignments := damage_assignments c; trample_player_damage := trample_player_damage c;
     damage_assignment_needed := damage_assignment_needed c;
     blockers_declared_by := blockers_declared_by c; blockers_declared := blockers_declared c;
     assign_combat_damage_phase := true;
     first_strike_attackers := first_strike_attackers c; first_strike_blockers := first_strike_blockers c;
     first_strike_damage_done := first_strike_damage_done c |}.

Definition pass_declare_blockers (combat : option Combat) : result (Combat * bool) EngineError :=
  let? c := ok_or combat (Illegal "combat?") in
  if assignment_missing c then
    if negb (assign_combat_damage_phase c) then Ok (open_assignment c, false)
    else Err (Illegal "must assign combat damage before combat damage resolves")
  else if damage_assignment_needed c
  then Err (Illegal "must assign combat damage before combat damage resolves")
  else Ok (c, true).

(** ** Leaving combat *)

Definition without (ids : list Z) (l : list Z) : list Z :=
  List.filter (fun id => negb (bool_decide (id ∈ ids))) l.

(** [retain] on the entries of a map whose key is not listed. *)
Definition retain {A} (ids : list Z) (m : gmap Z A) : gmap Z A :=
  filter (fun e => e.1 ∉ ids) m.

Definition remove_combat_participants (ids : list Z) (c : Combat) : Combat :=
  let removed := List.filter (fun id =>
    bool_decide (id ∈ attacking c)
    || existsb (fun '(_, bs) => bool_decide (id ∈@{list Z} bs)) (map_to_list (blockers c))) ids in
  if bool_decide (removed = []) then c
  else
    let kept := retain removed (blockers c) in
    let invalidated := removed ++
      map fst (List.filter (fun '(_, bs) => negb (length (without removed bs) =? length bs)%nat)
        (map_to_list kept)) in
    let c :=
      {| attacking := without removed (attacking c);
         attack_assignments := retain removed (attack_assignments c);
         blockers := without removed <$> kept;
         damage_assignments := retain invalidated (damage_assignments c);
         trample_player_damage := retain invalidated (trample_player_damage c);
         damage_assignment_needed := damage_assignment_needed c;
         blockers_declared_by := blockers_declared_by c; blockers_declared := blockers_declared c;
         assign_combat_damage_phase := assign_combat_damage_phase c;
         first_strike_attackers := without removed (first_strike_attackers c);
         first_strike_blockers := without removed <$> retain removed (first_strike_blockers c);
         first_strike_damage_done := first_strike_damage_done c |} in
    {| attacking := attacking c; attack_assignments := attack_assignments c; blockers := blockers c;
       damage_assignments := damage_assignments c; trample_player_damage := trample_player_damage c;
       damage_assignment_needed := blockers_declared c && assignment_missing c;
       blockers_declared_by := blockers_declared_by c; blockers_declared := blockers_declared c;
       assign_combat_damage_phase := assign_combat_damage_phase c;
       first_strike_attackers := first_strike_attackers c; first_strike_blockers := first_strike_blockers c;
       first_strike_damage_done := first_strike_damage_done c |}.

(** ** The damage steps *)

Definition has_fs_or_ds (id : Z) : bool := has first_strike id || has double_strike id.

Definition combat_needs_first_strike_step (c : Combat) : bool :=
  existsb has_fs_or_ds (attacking c)
  || existsb (fun '(_, bs) => existsb has_fs_or_ds bs) (map_to_list (blockers c)).

(** The snapshot of [resolve_combat_damage_step], and the pass that is resolved. *)
Definition begin_damage_step (c : Combat) : Combat * DamagePass :=
  if negb (first_strike_damage_done c) && combat_needs_first_strike_step c
  then
    ({| attacking := attacking c; attack_assignments := attack_assignments c; blockers := blockers c;
        damage_assignments := damage_assignments c; trample_player_damage := trample_player_damage c;
        damage_assignment_needed := damage_assignment_needed c;
        blockers_declared_by := blockers_declared_by c; blockers_declared := blockers_declared c;
        assign_combat_damage_phase := assign_combat_damage_phase c;
        first_strike_attackers := List.filter has_fs_or_ds (attacking c);
        first_strike_blockers := List.filter has_fs_or_ds <$> blockers c;
        first_strike_damage_done := true |}, FirstStrike)
  else (c, Normal).

Definition object_participates_in_pass (c : Combat) (pass : DamagePass) (obj_id : Z) (is_attacker : bool)
    : bool :=
  match pass with
  | FirstStrike => has first_strike obj_id || has double_strike obj_id
  | Normal =>
      let was_in_first_strike :=
        if is_attacker then bool_decide (obj_id ∈ first_strike_attackers c)
        else existsb (fun '(_, bs) => bool_decide (obj_id ∈@{list Z} bs)) (map_to_list (first_strike_blockers c)) in
      negb was_in_first_strike || has double_strike obj_id
  end.
End Engine.
