(* ===== verification/CombatDamageCorrect.v ===== *)
(** * Combat damage: the theorems

    What is recorded for an attacker splits exactly its power, the damage step
    starts when nothing is left to split and can always be reached when every
    attacker can be split; and where that goes wrong. *)
From stdpp Require Import relations.
From S2P Require Import Prelude Demand Attacking CombatDamage.
Open Scope cockatrice_scope.
Local Open Scope Z_scope.

Section Combat.
Context (cs : gmap Z Creature).

(** ** Attackers without an assignment *)

Definition needs (att : Z) (bs : list Z) : bool :=
  attacker_needs_explicit_damage_assignment cs att (length bs).

Lemma existsb_map (f : Z * list Z -> bool) (m : gmap Z (list Z)) :
  existsb f (map_to_list m) = true <-> exists i x, m !! i = Some x /\ f (i, x) = true.
Proof.
  rewrite existsb_exists. split.
  - intros ([i x] & Hin%list_elem_of_In%elem_of_map_to_list & H). by exists i, x.
  - intros (i & x & Hi & H). exists (i, x). split; [|done]. by apply list_elem_of_In, elem_of_map_to_list.
Qed.

Lemma forallb_map (f : Z * list Z -> bool) (m : gmap Z (list Z)) :
  forallb f (map_to_list m) = true <-> forall i x, m !! i = Some x -> f (i, x) = true.
Proof.
  rewrite forallb_forall. split.
  - intros H i x Hi. apply H. by apply list_elem_of_In, elem_of_map_to_list.
  - intros H [i x] Hin%list_elem_of_In%elem_of_map_to_list. by apply H.
Qed.

(** The attackers that still have to be split. *)
Definition missing (c : Combat) : gmap Z (list Z) :=
  filter (fun e => damage_assignments c !! e.1 = None /\ needs e.1 e.2 = true) (blockers c).

Lemma missing_Some c att bs :
  missing c !! att = Some bs <->
  blockers c !! att = Some bs /\ damage_assignments c !! att = None /\ needs att bs = true.
Proof. unfold missing. by rewrite map_lookup_filter_Some. Qed.

Lemma assignment_missing_iff c : assignment_missing cs c = true <-> missing c <> ∅.
Proof.
  unfold assignment_missing. rewrite existsb_map. split.
  - intros (i & x & Hi & H) E. rewrite andb_true_iff, bool_decide_eq_true in H.
    assert (Hm : missing c !! i = Some x) by by apply missing_Some. by rewrite E, lookup_empty in Hm.
  - intros (i & x & Hm)%map_choose. apply missing_Some in Hm as (Hi & Hn & Hd).
    exists i, x. split; [done|]. by rewrite andb_true_iff, bool_decide_eq_true.
Qed.

Lemma none_missing c : assignment_missing cs c = false <-> missing c = ∅.
Proof. rewrite <- not_true_iff_false, assignment_missing_iff. destruct (decide (missing c = ∅)); tauto. Qed.

(** ** The invariant *)

(** What is checked of every assignment, as it was recorded: every blocker is listed
    once, with enough damage if the attacker tramples, and some damage for the attacked
    player, none without trample, makes the wrapping sum the power of the attacker; it is
    recorded unless it is zero. *)
Definition split_recorded (c : Combat) (att : Z) (l : list (Z * Z)) : Prop :=
  exists bs p player_damage, blockers c !! att = Some bs /\ effective_power cs att = Some p /\
    NoDup (map fst l) /\ (forall x, x ∈ map fst l <-> x ∈ bs) /\
    (has cs trample att = true -> forall x n, (x, n) ∈ l -> lethal cs att x <= n) /\
    u32_add (damage_sum l) player_damage = p /\
    (has cs trample att = false -> player_damage = 0) /\
    (0 < player_damage -> trample_player_damage c !! att = Some player_damage).

(** The assignment splits the power of the attacker: every blocker once, with enough
    damage if the attacker tramples, and the rest for the attacked. *)
Definition split_ok (c : Combat) (att : Z) (l : list (Z * Z)) : Prop :=
  exists bs p, blockers c !! att = Some bs /\ effective_power cs att = Some p /\
    NoDup (map fst l) /\ (forall x, x ∈ map fst l <-> x ∈ bs) /\
    (forall x n, (x, n) ∈ l -> 0 <= n /\ (has cs trample att = true -> lethal cs att x <= n)) /\
    zsum (map snd l) + default 0 (trample_player_damage c !! att) = p.

(** [again] holds the attackers that were last split while they already had a split, or
    with amounts whose sum overflows. *)
Record combat_ok (again : gset Z) (c : Combat) : Prop := {
  ok_declared : blockers_declared c = true;
  ok_needed : damage_assignment_needed c = assignment_missing cs c;
  ok_recorded att l : damage_assignments c !! att = Some l -> split_recorded c att l;
  ok_split att l : damage_assignments c !! att = Some l -> att ∉ again -> split_ok c att l;
  ok_extra att n : trample_player_damage c !! att = Some n ->
    is_Some (damage_assignments c !! att) /\ has cs trample att = true
}.

(** Right after the last blocks were declared. *)
Definition blocks_done (c : Combat) : Prop :=
  blockers_declared c = true /\ damage_assignment_needed c = assignment_missing cs c /\
  damage_assignments c = ∅ /\ trample_player_damage c = ∅.

Lemma blocks_done_ok c : blocks_done c -> combat_ok ∅ c.
Proof.
  intros (Hd & Hn & Ha & Ht). constructor; [done|done| | |]; intros att x Hx.
  - by rewrite Ha, lookup_empty in Hx.
  - by rewrite Ha, lookup_empty in Hx.
  - by rewrite Ht, lookup_empty in Hx.
Qed.

(** The blocks of the last player complete the declaration. *)
Lemma record_blocks_done player blocks c :
  blocks ##ₘ blockers c ->
  (damage_assignment_needed c = true <-> exists att bs, blockers c !! att = Some bs /\ needs att bs = true) ->
  blocks_done (record_blocks cs player blocks true c).
Proof.
  intros Hdisj Hc. split_and!; [done| |done|done]. apply eq_true_iff_eq.
  unfold record_blocks, assignment_missing. cbn [damage_assignment_needed blockers damage_assignments].
  rewrite orb_true_iff, Hc, !existsb_map. split.
  - intros [(i & x & Hi & H)|(i & x & Hi & H)]; exists i, x.
    + split; [by apply lookup_union_Some_r|done].
    + split; [by apply lookup_union_Some_l|done].
  - intros (i & x & Hi & H). apply lookup_union_Some in Hi as [Hi|Hi]; [right|left|done]; exists i, x; done.
Qed.

(** ** Sums *)

Lemma damage_sum_exact l :
  Forall (fun a => 0 <= a.2) l -> zsum (map snd l) <= u32_max -> damage_sum l = zsum (map snd l).
Proof.
  intros Hl Hs. unfold damage_sum. rewrite fold_u32_add; [lia| |lia|lia].
  apply Forall_forall. intros x Hx. apply list_elem_of_In, in_map_iff in Hx as (a & <- & Ha).
  by apply (proj1 (Forall_forall _ _) Hl), list_elem_of_In.
Qed.

Lemma zsum_snd_nonneg l : Forall (fun a : Z * Z => 0 <= a.2) l -> 0 <= zsum (map snd l).
Proof. induction 1; cbn; lia. Qed.

Lemma assigned_member l x n : NoDup (map fst l) -> (x, n) ∈ l -> assigned l x = n.
Proof.
  unfold assigned. induction l as [|[y m] l IH]; intros Hnd Hin; [by apply not_elem_of_nil in Hin|].
  cbn in Hnd. apply NoDup_cons in Hnd as [Hy Hnd]. cbn. destruct (Z.eqb_spec y x) as [->|Hne].
  - apply elem_of_cons in Hin as [[= ->]|Hin]; [done|]. exfalso. apply Hy.
    apply list_elem_of_In, in_map_iff. exists (x, n). by rewrite <- list_elem_of_In.
  - apply IH; [done|]. by apply elem_of_cons in Hin as [[= -> ->]|Hin].
Qed.

(** ** The assignment *)

(** Amounts that mean what they say. *)
Definition amounts_ok (l : list (Z * Z)) (player_damage : Z) : Prop :=
  Forall (fun a => 0 <= a.2) l /\ 0 <= player_damage /\ zsum (map snd l) + player_damage <= u32_max.

Definition assignment_open (c : Combat) : Prop :=
  blockers_declared c = true /\ damage_assignment_needed c = true /\ assign_combat_damage_phase c = true.

(** When the amounts are accepted, for amounts that do not overflow. *)
Definition amounts_accepted (att : Z) (bs : list Z) (l : list (Z * Z)) (player_damage p : Z) : Prop :=
  zsum (map snd l) + player_damage = p /\
  (if has cs trample att then forall x, x ∈ bs -> lethal cs att x <= assigned l x else player_damage = 0).

Lemma damage_sum_range l : u32_range (damage_sum l).
Proof.
  unfold damage_sum. assert (H : u32_range 0) by mlia. revert H. generalize 0.
  induction (map snd l) as [|x xs IH]; [done|]. intros a _. apply IH, wrap_u32_range.
Qed.

(** When the amounts are accepted, whatever they are. *)
Lemma check_amounts_wraps att bs l player_damage p :
  check_amounts cs att bs l player_damage p = Ok tt <->
  u32_add (damage_sum l) player_damage = p /\
  (if has cs trample att then forall x, x ∈ bs -> lethal cs att x <= assigned l x else player_damage = 0).
Proof.
  unfold check_amounts. assert (Hr := damage_sum_range l). destruct (has cs trample att).
  - destruct (forallb _ bs) eqn:Ef.
    + rewrite forallb_forall in Ef. assert (Hall : forall x, x ∈ bs -> lethal cs att x <= assigned l x).
      { intros x Hx. apply Z.leb_le, Ef. by apply list_elem_of_In. }
      destruct (Z.eqb_spec (u32_add (damage_sum l) player_damage) p); naive_solver.
    + split; [done|]. intros [_ Hall]. rewrite <- not_true_iff_false, forallb_forall in Ef.
      destruct Ef. intros x Hx%list_elem_of_In. apply Z.leb_le. by apply Hall.
  - destruct (Z.eqb_spec player_damage 0) as [->|]; cbn [negb]; [|naive_solver].
    rewrite u32_add_small by mlia. rewrite Z.add_0_r.
    destruct (Z.eqb_spec (damage_sum l) p); naive_solver.
Qed.

Lemma check_amounts_iff att bs l player_damage p :
  amounts_ok l player_damage ->
  check_amounts cs att bs l player_damage p = Ok tt <-> amounts_accepted att bs l player_damage p.
Proof.
  intros (Hl & Hpd & Hs). assert (Hnn := zsum_snd_nonneg l Hl).
  rewrite check_amounts_wraps. unfold amounts_accepted.
  rewrite damage_sum_exact, u32_add_small by (done || lia). done.
Qed.

Lemma assign_iff c att l player_damage c' b :
  assign_combat_damage cs att l player_damage (Some c) = Ok (c', b) <->
  assignment_open c /\
  (exists bs p, blockers c !! att = Some bs /\ needs att bs = true /\
    NoDup (map fst l) /\ (forall x, x ∈ map fst l <-> x ∈ bs) /\
    effective_power cs att = Some p /\ check_amounts cs att bs l player_damage p = Ok tt) /\
  c' = store_assignment cs att l player_damage c /\ b = negb (damage_assignment_needed c').
Proof.
  unfold assign_combat_damage, assignment_open. cbn [ok_or rbind].
  destruct (blockers_declared c), (damage_assignment_needed c), (assign_combat_damage_phase c);
    cbn [negb orb]; try (split; [done|naive_solver]).
  destruct (blockers c !! att) as [bs|] eqn:Hbs; cbn [ok_or rbind]; [|naive_solver].
  unfold needs, attacker_needs_explicit_damage_assignment.
  destruct bs as [|b1 bs].
  { split; [by cbn; destruct (has cs trample att)|]. by intros (_ & (? & ? & [= <-] & ? & _) & _). }
  rewrite (bool_decide_false (b1 :: bs = [])) by done.
  assert (((length (b1 :: bs) <? 2)%nat && negb (has cs trample att)) =
    negb ((1 <? length (b1 :: bs))%nat || ((length (b1 :: bs) =? 1)%nat && has cs trample att))) as ->.
  { destruct bs; cbn; destruct (has cs trample att); done. }
  destruct ((1 <? length (b1 :: bs))%nat || _) eqn:En; cbn [negb];
    [|split; [done|]; intros (_ & (bs' & p' & [= <-] & Hne & _) & _); congruence].
  destruct (bool_decide_reflect (NoDup (map fst l))); cbn [negb];
    [|split; [done|]; by intros (_ & (? & ? & _ & _ & ? & _) & _)].
  destruct (bool_decide_reflect (list_to_set (map fst l) =@{gset Z} list_to_set (b1 :: bs))) as [E|E];
    cbn [negb].
  - assert (Hm : forall x, x ∈ map fst l <-> x ∈ b1 :: bs).
    { intros x. by rewrite <- !(elem_of_list_to_set (C := gset Z)), E. }
    destruct (effective_power cs att) as [p|]; cbn [ok_or rbind];
      [|split; [done|]; by intros (_ & (? & ? & _ & _ & _ & _ & ? & _) & _)].
    destruct (check_amounts cs att (b1 :: bs) l player_damage p) as [[]|e] eqn:Ec; cbn [rbind].
    + split.
      * intros [= <- <-]. split_and!; [done..| |done|done]. by exists (b1 :: bs), p.
      * by intros (_ & _ & -> & ->).
    + split; [done|]. intros (_ & (bs' & p' & [= <-] & _ & _ & _ & [= <-] & Ha) & _).
      by rewrite Ec in Ha.
  - split; [done|]. intros (_ & (bs' & p' & [= <-] & _ & _ & Hm & _) & _). destruct E.
    apply leibniz_equiv. intros x. rewrite !elem_of_list_to_set. apply Hm.
Qed.

Lemma store_needed c att l player_damage :
  damage_assignment_needed c = true ->
  let c' := store_assignment cs att l player_damage c in
  damage_assignment_needed c' = assignment_missing cs c' /\ missing c' = delete att (missing c).
Proof.
  intros Hneed c'. split.
  - unfold c' at 1, store_assignment. cbn [damage_assignment_needed]. destruct (forallb _ _) eqn:Ef.
    + symmetry. apply none_missing. rewrite forallb_map in Ef. apply map_empty. intros x.
      destruct (missing c' !! x) as [bs|] eqn:E; [|done]. apply missing_Some in E as (Hb & Hd & Hne).
      specialize (Ef x bs Hb). cbn [c' store_assignment damage_assignments] in Hd. cbn in Ef.
      unfold needs in Hne. rewrite Hne, Hd in Ef. done.
    + rewrite Hneed. symmetry. apply assignment_missing_iff. intros E.
      rewrite <- not_true_iff_false, forallb_map in Ef. destruct Ef. intros x bs Hb.
      destruct (attacker_needs_explicit_damage_assignment cs x (length bs)) eqn:Hne; [|done]. cbn.
      apply negb_true_iff, bool_decide_eq_false. intros Hd.
      assert (Hx : missing c' !! x = Some bs) by by apply missing_Some.
      by rewrite E, lookup_empty in Hx.
  - apply map_eq. intros x. apply option_eq. intros bs. rewrite lookup_delete_Some, !missing_Some.
    cbn [c' store_assignment blockers damage_assignments]. destruct (decide (att = x)) as [->|Hne].
    + rewrite lookup_insert_eq. naive_solver.
    + rewrite lookup_insert_ne by done. naive_solver.
Qed.

(** What was checked, for amounts that fit the wire. *)
Definition wire (l : list (Z * Z)) (player_damage : Z) : Prop :=
  Forall (fun a => u32_range a.2) l /\ u32_range player_damage.

Definition checked (c : Combat) (att : Z) (l : list (Z * Z)) (player_damage : Z) : Prop :=
  exists bs p, blockers c !! att = Some bs /\ needs att bs = true /\
    NoDup (map fst l) /\ (forall x, x ∈ map fst l <-> x ∈ bs) /\
    effective_power cs att = Some p /\ check_amounts cs att bs l player_damage p = Ok tt.

(** The damage for the attacked player after an assignment. *)
Lemma stored_extra c att l player_damage x :
  trample_player_damage (store_assignment cs att l player_damage c) !! x =
  if decide (x = att /\ has cs trample att = true /\ 0 < player_damage) then Some player_damage
  else trample_player_damage c !! x.
Proof.
  cbn [store_assignment trample_player_damage].
  destruct (has cs trample att); cbn [andb]; [|by rewrite decide_False by naive_solver].
  destruct (Z.ltb_spec 0 player_damage); [|rewrite decide_False by lia; done].
  destruct (decide (x = att)) as [->|Hne].
  - by rewrite lookup_insert_eq, decide_True.
  - by rewrite lookup_insert_ne, decide_False by naive_solver.
Qed.

Lemma store_recorded c att l player_damage :
  checked c att l player_damage -> split_recorded (store_assignment cs att l player_damage c) att l.
Proof.
  intros (bs & p & Hbs & Hneeds & Hnd & Hm & Hp & [Hsum Hleth]%check_amounts_wraps).
  exists bs, p, player_damage. split_and!; [done..| |done| |].
  - intros Ht x n Hin. rewrite Ht in Hleth. rewrite <- (assigned_member l x n Hnd Hin). apply Hleth, Hm.
    apply list_elem_of_In, in_map_iff. exists (x, n). by rewrite <- list_elem_of_In.
  - intros Ht. by rewrite Ht in Hleth.
  - intros Hpd. rewrite stored_extra. destruct (has cs trample att); [by rewrite decide_True|lia].
Qed.

Lemma store_exact c att l player_damage :
  checked c att l player_damage -> amounts_ok l player_damage -> trample_player_damage c !! att = None ->
  split_ok (store_assignment cs att l player_damage c) att l.
Proof.
  intros (bs & p & Hbs & Hneeds & Hnd & Hm & Hp & Hacc) Ha Hno.
  assert (Hl := proj1 Ha). apply check_amounts_iff in Hacc as [Hsum Hleth]; [|done].
  exists bs, p. split_and!; [done..| |].
  - intros x n Hin. split; [by apply (proj1 (Forall_forall _ _) Hl (x, n))|]. intros Ht.
    rewrite Ht in Hleth. rewrite <- (assigned_member l x n Hnd Hin). apply Hleth, Hm.
    apply list_elem_of_In, in_map_iff. exists (x, n). by rewrite <- list_elem_of_In.
  - rewrite <- Hsum. f_equal. rewrite stored_extra, Hno. destruct Ha as (_ & Hpd & _).
    destruct (decide _) as [_|Hn]; [done|]. cbn. destruct (has cs trample att); [|lia].
    destruct (decide (0 < player_damage)); [naive_solver|lia].
Qed.

Lemma store_ok again again' c att l player_damage :
  combat_ok again c -> damage_assignment_needed c = true -> checked c att l player_damage ->
  (forall x, x <> att -> x ∉ again' -> x ∉ again) ->
  (att ∉ again' -> amounts_ok l player_damage /\ damage_assignments c !! att = None) ->
  combat_ok again' (store_assignment cs att l player_damage c).
Proof.
  intros [Hd Hn Hr Hs He] Hneed Hc Hagain Hfresh.
  assert (Hother : forall x, x <> att ->
    trample_player_damage (store_assignment cs att l player_damage c) !! x = trample_player_damage c !! x).
  { intros x Hne. rewrite stored_extra. by rewrite decide_False by naive_solver. }
  constructor; [done|by apply store_needed| | |]; intros x y;
    cbn [store_assignment damage_assignments]; (destruct (decide (att = x)) as [<-|Hne];
      [rewrite lookup_insert_eq|rewrite lookup_insert_ne by done]).
  - intros [= <-]. by apply store_recorded.
  - intros Hx. destruct (Hr x y Hx) as (bs & p & pd & ? & ? & ? & ? & ? & ? & ? & ?).
    exists bs, p, pd. split_and!; [done..|]. by rewrite Hother.
  - intros [= <-] [Ha Hnone]%Hfresh. apply store_exact; [done..|].
    destruct (trample_player_damage c !! att) as [n|] eqn:E; [|done].
    destruct (He att n E) as [[l' Hl'] _]. by rewrite Hnone in Hl'.
  - intros Hx Hin. destruct (Hs x y Hx) as (bs & p & ? & ? & ? & ? & ? & ?); [by apply Hagain|].
    exists bs, p. split_and!; [done..|]. by rewrite Hother.
  - rewrite stored_extra. destruct (decide _) as [(_ & Ht & _)|_]; [done|]. intros Hx.
    split; [done|]. by apply (He att y).
  - rewrite Hother by done. apply He.
Qed.

(** ** Leaving combat *)

Lemma without_all removed l : length (without removed l) = length l -> without removed l = l.
Proof.
  unfold without. induction l as [|x l IH]; [done|]. cbn. destruct (negb _); cbn.
  - intros [= E]. by rewrite IH.
  - intros E. assert (H := filter_length (fun id => negb (bool_decide (id ∈ removed))) l).
    assert (length (List.filter (fun id => negb (bool_decide (id ∈ removed))) l) <= length l)%nat by apply filter_length_le.
    lia.
Qed.

Lemma retain_Some {A} ids (m : gmap Z A) x y : retain ids m !! x = Some y <-> m !! x = Some y /\ x ∉ ids.
Proof. unfold retain. by rewrite map_lookup_filter_Some. Qed.

Lemma remove_ok again ids c :
  combat_ok again c -> combat_ok again (remove_combat_participants cs ids c).
Proof.
  intros [Hd Hn Hrec Hs He]. unfold remove_combat_participants.
  set (removed := List.filter _ ids). case_bool_decide; [by constructor|].
  set (kept := retain removed (blockers c)). set (invalidated := removed ++ _).
  assert (Hkeep : forall att, att ∉ invalidated -> forall bs, blockers c !! att = Some bs ->
    (without removed <$> kept) !! att = Some bs).
  { intros att Hatt bs Hbs. apply not_elem_of_app in Hatt as [Hr Hi].
    assert (Hk : kept !! att = Some bs) by by apply retain_Some. rewrite lookup_fmap, Hk. cbn. f_equal.
    apply without_all. apply Nat.eqb_eq. apply not_false_iff_true. intros E. apply Hi.
    apply list_elem_of_In, in_map_iff. exists (att, bs). split; [done|]. apply filter_In.
    split; [by apply list_elem_of_In, elem_of_map_to_list|]. by rewrite E. }
  constructor; cbn [blockers_declared damage_assignment_needed damage_assignments trample_player_damage].
  - done.
  - by rewrite Hd.
  - intros att l [Hl Hi]%retain_Some.
    destruct (Hrec att l Hl) as (bs & p & pd & Hbs & ? & ? & ? & ? & ? & ? & Hpd).
    exists bs, p, pd. split_and!; [by apply Hkeep|done..|]. intros Hpos. apply retain_Some. auto.
  - intros att l [Hl Hi]%retain_Some Hin. destruct (Hs att l Hl Hin) as (bs & p & Hbs & ? & ? & ? & ? & Hsum).
    exists bs, p. split_and!; [by apply Hkeep|done..|]. rewrite <- Hsum. do 2 f_equal.
    cbn [trample_player_damage]. apply option_eq. intros n. rewrite retain_Some. tauto.
  - intros att n [Hx Hi]%retain_Some. destruct (He att n Hx) as [[l Hl] Ht]. split; [|done].
    exists l. by apply retain_Some.
Qed.

(** ** Runs

    From the end of the block declaration on players pass, the attacking player
    splits the damage of attackers, once or again, with any amounts the wire can carry,
    and creatures leave combat. The set [again] is kept for the statements: an
    attacker enters it with a split that replaces another or whose amounts overflow,
    and leaves it with a first split of amounts that do not. *)
Inductive run : gset Z -> Combat -> Prop :=
| run_start c : blocks_done c -> run ∅ c
| run_pass again c c' b :
    run again c -> pass_declare_blockers cs (Some c) = Ok (c', b) -> run again c'
| run_split again c att l player_damage c' b :
    run again c -> wire l player_damage ->
    assign_combat_damage cs att l player_damage (Some c) = Ok (c', b) ->
    damage_assignments c !! att = None -> amounts_ok l player_damage ->
    run (again ∖ {[att]}) c'
| run_split_again again c att l player_damage c' b :
    run again c -> wire l player_damage ->
    assign_combat_damage cs att l player_damage (Some c) = Ok (c', b) ->
    run ({[att]} ∪ again) c'
| run_remove again c ids : run again c -> run again (remove_combat_participants cs ids c).

(** What the attacking player does: pass, or split the damage of an attacker that has
    no split yet, with amounts that do not overflow. *)
Inductive command (c : Combat) : Combat -> Prop :=
| command_pass c' : pass_declare_blockers cs (Some c) = Ok (c', false) -> command c c'
| command_split att l player_damage c' b :
    wire l player_damage -> damage_assignments c !! att = None -> amounts_ok l player_damage ->
    assign_combat_damage cs att l player_damage (Some c) = Ok (c', b) -> command c c'.

Lemma pass_iff c c' b :
  pass_declare_blockers cs (Some c) = Ok (c', b) <->
  (missing c <> ∅ /\ assign_combat_damage_phase c = false /\ c' = open_assignment c /\ b = false) \/
  (missing c = ∅ /\ damage_assignment_needed c = false /\ c' = c /\ b = true).
Proof.
  unfold pass_declare_blockers. cbn [ok_or rbind]. destruct (assignment_missing cs c) eqn:Em.
  - apply assignment_missing_iff in Em. destruct (assign_combat_damage_phase c); cbn [negb]; naive_solver.
  - apply none_missing in Em. destruct (damage_assignment_needed c); naive_solver.
Qed.

Lemma pass_ok again c c' b :
  combat_ok again c -> pass_declare_blockers cs (Some c) = Ok (c', b) -> combat_ok again c'.
Proof.
  intros Hok [(_ & _ & -> & _)|(_ & _ & -> & _)]%pass_iff; [|done].
  destruct Hok as [Hd Hn Hr Hs He]. constructor; done.
Qed.

Lemma run_ok again c : run again c -> combat_ok again c.
Proof.
  induction 1 as [c H|again c c' b _ IH H|again c att l pd c' b _ IH _ H Hnone Ha
                  |again c att l pd c' b _ IH _ H|again c ids _ IH].
  - by apply blocks_done_ok.
  - by eapply pass_ok.
  - apply assign_iff in H as ((_ & Hneed & _) & Hc & -> & _).
    eapply store_ok; [done|done|done|set_solver|done].
  - apply assign_iff in H as ((_ & Hneed & _) & Hc & -> & _).
    eapply store_ok; [done|done|done|set_solver|set_solver].
  - by apply remove_ok.
Qed.

(** What commands leave, and what they add. *)
Definition splits_added (again : gset Z) (c c' : Combat) : Prop :=
  blockers c' = blockers c /\
  forall att, damage_assignments c' !! att = damage_assignments c !! att \/
              (damage_assignments c !! att = None /\ att ∉ again).

Lemma command_run again c c' :
  run again c -> command c c' ->
  exists again', again' ⊆ again /\ run again' c' /\ splits_added again' c c'.
Proof.
  intros Hr [c1 H|att l pd c1 b Hw Hnone Ha H].
  - exists again. split_and!; [done|by eapply run_pass|].
    apply pass_iff in H as [(_ & _ & -> & _)|(_ & _ & -> & _)]; split; auto.
  - exists (again ∖ {[att]}). split_and!; [set_solver|by eapply run_split|].
    apply assign_iff in H as (_ & _ & -> & _). split; [done|]. intros x.
    cbn [store_assignment damage_assignments].
    destruct (decide (att = x)) as [<-|Hne]; [right; set_solver|left; by rewrite lookup_insert_ne].
Qed.

Lemma commands_run k again c c' :
  run again c -> nsteps command k c c' ->
  exists again', again' ⊆ again /\ run again' c' /\ splits_added again' c c'.
Proof.
  intros Hr Hn. revert again Hr. induction Hn as [c|k c c1 c2 Hc _ IH]; intros again Hr.
  { exists again. split_and!; [done..|split; auto]. }
  destruct (command_run again c c1 Hr Hc) as (a1 & Ha1 & Hr1 & Hb1 & H1).
  destruct (IH a1 Hr1) as (a2 & Ha2 & Hr2 & Hb2 & H2). exists a2.
  split_and!; [set_solver|done|split; [congruence|]]. intros att.
  destruct (H1 att) as [E1|[E1 Hn1]], (H2 att) as [E2|[E2 Hn2]].
  - left. congruence.
  - right. split; [congruence|done].
  - right. split; [done|set_solver].
  - right. split; [done|set_solver].
Qed.

(** ** Getting on *)

(** The power of the attacker suffices for a split. *)
Definition assignable (att : Z) (bs : list Z) : Prop :=
  NoDup bs /\ exists p, effective_power cs att = Some p /\ 0 <= p <= u32_max /\
    (has cs trample att = true -> zsum (map (lethal cs att) bs) <= p).

Lemma lethal_positive att x : 1 <= lethal cs att x.
Proof. unfold lethal. destruct (has cs deathtouch att); lia. Qed.

Lemma map_fst_with {A} (f : A -> Z) l : map fst (map (fun x => (x, f x)) l) = l.
Proof. rewrite map_map. cbn. apply map_id. Qed.

Lemma map_snd_with {A} (f : A -> Z) l : map snd (map (fun x => (x, f x)) l) = map f l.
Proof. by rewrite map_map. Qed.

Lemma zsum_zeros {A} (l : list A) : zsum (map (fun _ => 0) l) = 0.
Proof. induction l; cbn; lia. Qed.

Lemma split_exists att bs :
  needs att bs = true -> assignable att bs ->
  exists l player_damage p, amounts_ok l player_damage /\ NoDup (map fst l) /\
    (forall x, x ∈ map fst l <-> x ∈ bs) /\ effective_power cs att = Some p /\
    amounts_accepted att bs l player_damage p.
Proof.
  intros Hn (Hnd & p & Hp & Hr & Ht). destruct (has cs trample att) eqn:E.
  - specialize (Ht eq_refl). set (l := map (fun x => (x, lethal cs att x)) bs).
    assert (Hf : map fst l = bs) by apply map_fst_with.
    assert (Hs : map snd l = map (lethal cs att) bs) by apply map_snd_with.
    exists l, (p - zsum (map (lethal cs att) bs)), p. rewrite Hf. split_and!; [|done|done|done|].
    + unfold amounts_ok. rewrite Hs. split; [|mlia]. apply Forall_forall. intros x Hx.
      unfold l in Hx. apply list_elem_of_In, in_map_iff in Hx as (y & <- & _). cbn.
      assert (H := lethal_positive att y). lia.
    + unfold amounts_accepted. rewrite E, Hs. split; [lia|]. intros x Hx.
      rewrite (assigned_member l x (lethal cs att x)); [lia|by rewrite Hf|].
      apply list_elem_of_In, in_map_iff. exists x. by rewrite <- list_elem_of_In.
  - destruct bs as [|b1 bs]; [done|]. set (l := (b1, p) :: map (fun x => (x, 0)) bs).
    assert (Hf : map fst l = b1 :: bs) by (cbn; f_equal; apply (map_fst_with (fun _ => 0))).
    assert (Hs : zsum (map snd l) = p).
    { cbn. rewrite (map_snd_with (fun _ => 0)), zsum_zeros. lia. }
    exists l, 0, p. rewrite Hf. split_and!; [|done|done|done|].
    + unfold amounts_ok. rewrite Hs. split; [|mlia]. constructor; [cbn; lia|].
      apply Forall_forall. intros x Hx. apply list_elem_of_In, in_map_iff in Hx as (y & <- & _). done.
    + unfold amounts_accepted. rewrite E, Hs. split; [lia|done].
Qed.

Definition can_split (c : Combat) : Prop := forall att bs, missing c !! att = Some bs -> assignable att bs.

Lemma wire_ok l player_damage : amounts_ok l player_damage -> wire l player_damage.
Proof.
  intros (Hl & Hpd & Hs). assert (Hnn := zsum_snd_nonneg l Hl). split; [|mlia].
  assert (Hle : zsum (map snd l) <= u32_max) by lia. clear Hs Hpd Hnn.
  induction Hl as [|a l Ha Hl IH]; constructor; cbn in Hle; assert (Hnn := zsum_snd_nonneg l Hl).
  - mlia.
  - apply IH. lia.
Qed.

(** Once the assignment is open it can be finished, one command per attacker. *)
Lemma assign_all n again c :
  (size (missing c) <= n)%nat -> combat_ok again c -> can_split c -> missing c <> ∅ ->
  assign_combat_damage_phase c = true ->
  exists k c', (k <= n)%nat /\ nsteps command k c c' /\
    pass_declare_blockers cs (Some c') = Ok (c', true).
Proof.
  revert again c. induction n as [|n IH]; intros again c Hsize Hok Hcan Hne Hphase.
  { apply Nat.le_0_r, map_size_empty_iff in Hsize. done. }
  destruct (map_choose _ Hne) as (att & bs & Hm). assert (Hm' := Hm).
  apply missing_Some in Hm' as (Hbs & Hfresh & Hneeds).
  destruct (split_exists att bs Hneeds (Hcan att bs Hm)) as (l & pd & p & Ha & Hnd & Hmem & Hp & Hacc).
  set (c' := store_assignment cs att l pd c).
  assert (Hneed : damage_assignment_needed c = true).
  { rewrite (ok_needed again c Hok). by apply assignment_missing_iff. }
  destruct (store_needed c att l pd Hneed) as [Hn' Hmiss']. fold c' in Hn', Hmiss'.
  assert (Hc : checked c att l pd).
  { exists bs, p. split_and!; [done..|]. by apply check_amounts_iff. }
  assert (Hstep : command c c').
  { apply (command_split c att l pd c' (negb (damage_assignment_needed c'))); [by apply wire_ok|done..|].
    apply assign_iff. split_and!; [|done..]. by split_and!; [apply (ok_declared again c Hok)|..]. }
  assert (Hok' : combat_ok again c') by (eapply store_ok; [done|done|done|set_solver|done]).
  destruct (decide (missing c' = ∅)) as [He|He].
  - exists 1%nat, c'. split_and!; [lia|by apply nsteps_once|]. apply pass_iff. right.
    split_and!; [done| |done|done]. rewrite (ok_needed again c' Hok'). by apply none_missing.
  - destruct (IH again c') as (k & c2 & Hk & Hrun & Hpass); [|done| |done|done|].
    + rewrite Hmiss', map_size_delete, Hm. lia.
    + intros x y Hx. apply Hcan. rewrite Hmiss' in Hx. by apply lookup_delete_Some in Hx as [_ ?].
    + exists (S k), c2. split_and!; [lia| |done]. by eapply nsteps_l.
Qed.

Lemma damage_step_reachable again c :
  combat_ok again c -> can_split c ->
  exists k c', (k <= S (size (missing c)))%nat /\ nsteps command k c c' /\
    pass_declare_blockers cs (Some c') = Ok (c', true).
Proof.
  intros Hok Hcan. destruct (decide (missing c = ∅)) as [He|He].
  - exists O, c. split_and!; [lia|constructor|]. apply pass_iff. right. split_and!; [done| |done|done].
    rewrite (ok_needed again c Hok). by apply none_missing.
  - destruct (assign_combat_damage_phase c) eqn:Hphase.
    + destruct (assign_all (size (missing c)) again c) as (k & c' & Hk & ?); [done..|].
      exists k, c'. split; [lia|done].
    + assert (Hp : pass_declare_blockers cs (Some c) = Ok (open_assignment c, false)).
      { apply pass_iff. left. done. }
      destruct (assign_all (size (missing c)) again (open_assignment c)) as (k & c' & Hk & Hrun & Hpass);
        [done|by eapply pass_ok|done|done|done|].
      exists (S k), c'. split_and!; [lia| |done]. eapply nsteps_l; [by apply command_pass|done].
Qed.

(** ** Weak tramplers *)

(** An attacker with trample whose power is less than what is lethal for its blockers
    together has no split without an overflow. *)
Lemma weak_trampler_refused c att bs p l player_damage :
  blockers c !! att = Some bs -> NoDup bs -> has cs trample att = true ->
  effective_power cs att = Some p -> p < zsum (map (lethal cs att) bs) ->
  amounts_ok l player_damage ->
  is_ok (assign_combat_damage cs att l player_damage (Some c)) = false.
Proof.
  intros Hbs Hnd Ht Hp Hlt Ha.
  destruct (assign_combat_damage cs att l player_damage (Some c)) as [[c' b]|e] eqn:E; [|done]. exfalso.
  apply assign_iff in E as (_ & (bs' & p' & Hbs' & _ & Hndl & Hm & Hp' & Hacc) & _).
  apply check_amounts_iff in Hacc as [Hsum Hle]; [|done]. simplify_eq. rewrite Ht in Hle. destruct Ha as (Hnn & Hpd & _).
  assert (Hperm : bs ≡ₚ map fst l) by (apply NoDup_Permutation; [done..|]; intros x; by rewrite Hm).
  assert (map snd l = map (assigned l) (map fst l)) as Es.
  { rewrite map_map. apply map_ext_in. intros [x n] Hin%list_elem_of_In. cbn. symmetry. by apply assigned_member. }
  assert (zsum (map (lethal cs att) bs) <= zsum (map (assigned l) bs)) by by apply zsum_map_le.
  rewrite Es, <- (zsum_perm _ _ (Permutation_map (assigned l) Hperm)) in Hlt. lia.
Qed.

(** ** First strike *)

(** The passes in which a creature deals its damage, from the first damage step on. *)
Definition passes (c : Combat) (id : Z) (is_attacker : bool) : list DamagePass :=
  let '(c', pass) := begin_damage_step cs c in
  List.filter (fun pass => object_participates_in_pass cs c' pass id is_attacker)
    (match pass with FirstStrike => [FirstStrike; Normal] | Normal => [Normal] end).

(** The creature is in combat. *)
Definition in_combat (c : Combat) (id : Z) (is_attacker : bool) : Prop :=
  if is_attacker then id ∈ attacking c else exists att bs, blockers c !! att = Some bs /\ id ∈ bs.

Lemma existsb_in (f : Z -> bool) l id : id ∈ l -> f id = true -> existsb f l = true.
Proof. intros Hin Hf. apply existsb_exists. exists id. by rewrite <- list_elem_of_In. Qed.

Lemma striker_needs_step c id is_attacker :
  in_combat c id is_attacker -> has_fs_or_ds cs id = true -> combat_needs_first_strike_step cs c = true.
Proof.
  unfold combat_needs_first_strike_step. intros Hin Hf. apply orb_true_iff.
  destruct is_attacker; [left; by eapply existsb_in|right]. destruct Hin as (att & bs & Hb & Hin).
  apply existsb_map. exists att, bs. split; [done|]. by eapply existsb_in.
Qed.

Lemma filter_in (f : Z -> bool) l id : id ∈ l -> bool_decide (id ∈ List.filter f l) = f id.
Proof.
  intros Hin. apply eq_true_iff_eq. rewrite bool_decide_eq_true, list_elem_of_In, filter_In, <- list_elem_of_In.
  tauto.
Qed.

(** The snapshot holds the strikers of the combat. *)
Lemma snapshot_attacker c id :
  id ∈ attacking c -> bool_decide (id ∈ List.filter (has_fs_or_ds cs) (attacking c)) = has_fs_or_ds cs id.
Proof. apply filter_in. Qed.

Lemma snapshot_blocker c id :
  (exists att bs, blockers c !! att = Some bs /\ id ∈ bs) ->
  existsb (fun '(_, bs) => bool_decide (id ∈@{list Z} bs))
    (map_to_list (List.filter (has_fs_or_ds cs) <$> blockers c)) = has_fs_or_ds cs id.
Proof.
  intros (att & bs & Hb & Hin). apply eq_true_iff_eq. rewrite existsb_map. split.
  - intros (a & k & Hk & Hid). apply bool_decide_eq_true in Hid. apply lookup_fmap_Some in Hk as (k' & <- & _).
    rewrite list_elem_of_In, filter_In in Hid. tauto.
  - intros Hf. exists att, (List.filter (has_fs_or_ds cs) bs). rewrite lookup_fmap, Hb. split; [done|].
    by rewrite filter_in.
Qed.
End Combat.

(** ** The theorems *)



(** C29. Every creature of a combat deals its damage in the passes its keywords say: with double
    strike in both, with first strike in the first one, otherwise in the regular one. *)
Theorem damage_passes (cs : gmap Z Creature) (c : Combat) id is_attacker :
  first_strike_damage_done c = false -> first_strike_attackers c = [] -> first_strike_blockers c = ∅ ->
  in_combat c id is_attacker ->
  passes cs c id is_attacker =
    if has cs double_strike id then [FirstStrike; Normal]
    else if has cs first_strike id then [FirstStrike] else [Normal].
Proof.
  intros Hdone Hfa Hfb Hin. unfold passes, begin_damage_step. rewrite Hdone. cbn [negb andb].
  assert (Hstep := striker_needs_step cs c id is_attacker Hin).
  destruct (combat_needs_first_strike_step cs c).
  - assert (Hwas : (if is_attacker then bool_decide (id ∈ List.filter (has_fs_or_ds cs) (attacking c))
        else existsb (fun '(_, bs) => bool_decide (id ∈@{list Z} bs))
          (map_to_list (List.filter (has_fs_or_ds cs) <$> blockers c))) = has_fs_or_ds cs id).
    { destruct is_attacker; [by apply snapshot_attacker|by apply snapshot_blocker]. }
    cbn [List.filter object_participates_in_pass first_strike_attackers first_strike_blockers].
    rewrite Hwas. unfold has_fs_or_ds. by destruct (has cs first_strike id), (has cs double_strike id).
  - cbn [List.filter object_participates_in_pass].
    assert (Hwas : (if is_attacker then bool_decide (id ∈ first_strike_attackers c)
        else existsb (fun '(_, bs) => bool_decide (id ∈@{list Z} bs)) (map_to_list (first_strike_blockers c))) = false).
    { rewrite Hfa, Hfb. by destruct is_attacker. }
    rewrite Hwas. cbn. unfold has_fs_or_ds in Hstep.
    destruct (has cs first_strike id), (has cs double_strike id); cbn in *; (done || by specialize (Hstep eq_refl)).
Qed.

(** ** Examples *)

Definition creature (tramples : bool) (p t : Z) : Creature :=
  {| trample := tramples; deathtouch := false; first_strike := false; double_strike := false;
     power := Some p; toughness := Some t; damage := 0 |}.

(** Two tramplers 1 and 2 of power 6, small blockers 3 and 4, a weak trampler 5, a
    big blocker 6, and 7 without trample. *)
Definition sample_creatures : gmap Z Creature :=
  list_to_map [(1, creature true 6 6); (2, creature true 6 6); (3, creature false 2 2); (4, creature false 2 2);
               (5, creature true 2 2); (6, creature false 5 5); (7, creature false 2 2)].

Definition sample_combat (blocks : list (Z * list Z)) : Combat :=
  record_blocks sample_creatures 9 (list_to_map blocks) true
    {| attacking := map fst blocks; attack_assignments := ∅; blockers := ∅; damage_assignments := ∅;
       trample_player_damage := ∅; damage_assignment_needed := false; blockers_declared_by := [];
       blockers_declared := false; assign_combat_damage_phase := false; first_strike_attackers := [];
       first_strike_blockers := ∅; first_strike_damage_done := false |}.

Lemma sample_done blocks : blocks_done sample_creatures (sample_combat blocks).
Proof.
  apply record_blocks_done; [apply map_disjoint_empty_r|]. split; [done|].
  intros (att & bs & Hb & _). cbn [blockers] in Hb. by apply lookup_empty_Some in Hb.
Qed.

(** One command of the attacking player, ignored when refused. *)
Definition obey (command : option Combat -> result (Combat * bool) EngineError) (c : Combat) : Combat :=
  match command (Some c) with Ok (c', _) => c' | Err _ => c end.

(** An attacker that is split a second time keeps the damage for the player of the
    first time: power 6, ten damage. *)
Lemma stale_trample_damage :
  let c := obey (pass_declare_blockers sample_creatures) (sample_combat [(1, [3]); (2, [4])]) in
  let c := obey (assign_combat_damage sample_creatures 1 [(3, 2)] 4) c in
  let c := obey (assign_combat_damage sample_creatures 1 [(3, 6)] 0) c in
  let c := obey (assign_combat_damage sample_creatures 2 [(4, 2)] 4) c in
  pass_declare_blockers sample_creatures (Some c) = Ok (c, true) /\
  damage_assignments c !! 1 = Some [(3, 6)] /\ trample_player_damage c !! 1 = Some 4.
Proof. split_and!; reflexivity. Qed.

(** The sum wraps: power 2 deals 4294967295 damage to one blocker and 3 to the other. *)
Lemma split_sum_wraps :
  let c := obey (pass_declare_blockers sample_creatures) (sample_combat [(7, [3; 4])]) in
  is_ok (assign_combat_damage sample_creatures 7 [(3, 4294967295); (4, 3)] 0 (Some c)) = true.
Proof. reflexivity. Qed.

(** A trampler of power 2 is blocked by a creature of toughness 5: nobody can pass, and no
    split without an overflow is accepted. *)
Lemma weak_trampler_stuck :
  let c := obey (pass_declare_blockers sample_creatures) (sample_combat [(5, [6])]) in
  is_ok (pass_declare_blockers sample_creatures (Some c)) = false /\
  forall att l player_damage, amounts_ok l player_damage ->
    is_ok (assign_combat_damage sample_creatures att l player_damage (Some c)) = false.
Proof.
  split; [reflexivity|]. intros att l pd Ha. destruct (decide (att = 5)) as [->|Hne].
  - apply (weak_trampler_refused _ _ _ [6] 2); [reflexivity|by apply (bool_decide_unpack _)|reflexivity..|done].
  - unfold assign_combat_damage. cbn [ok_or rbind].
    match goal with |- context [blockers ?c !! att] => assert (blockers c !! att = None) as -> end; [|done].
    change (blockers _) with ({[5 := [6]]} : gmap Z (list Z)). by rewrite lookup_singleton_ne.
Qed.



Lemma damage_passes_witness :
  passes (<[8 := {| trample := false; deathtouch := false; first_strike := false; double_strike := true;
                    power := Some 1; toughness := Some 1; damage := 0 |}]> sample_creatures)
    (sample_combat [(8, [3])]) 8 true = [FirstStrike; Normal].
Proof. rewrite damage_passes; [reflexivity..|]. left. Defined.
