(* ===== verification/Automation.v ===== *)
(** * Preferences of automation: [tricerules-core/src/engine/automation.rs]

    What a player has the engine do without being asked: the preferences, and what an
    update of them and an accepted command make of them before the first turn. Then no
    priority can be yielded and nothing is on the stack, so a [Policy] has no [yielding]
    and no [rules], and of the actions that would add to these only the refusals are
    left. *)
From S2P Require Import Prelude Demand.
Open Scope cockatrice_scope.
Local Open Scope Z_scope.

(** A phase, by its number on the wire, of the own turns or of those of the others. *)
Record AutomationPhaseStop : Type := { phase : Z; on_own_turn : bool }.

Record Policy : Type := {
  revision : Z;
  full_control : bool;
  auto_pass : bool;
  paused : bool;
  stop_once : option AutomationPhaseStop
}.

Definition default_policy : Policy :=
  {| revision := 0; full_control := false; auto_pass := false; paused := false; stop_once := None |}.

(** The action of an update; a mode of yielding is the number on the wire, an item of the
    stack an object with its zone change generation. *)
Inductive Action : Type :=
| ClearAll (enabled : bool)
| AutoPass (enabled : bool)
| FullControl (enabled : bool)
| YieldTo (mode : Z)
| TriggerRule (stack_ref : option (Z * option Z))
| RemoveRule (id : Z)
| StopOnce (stop : AutomationPhaseStop)
| Pause (enabled : bool).

(** ** Updates *)

Definition PHASE_ID_UPKEEP : Z := 4.
Definition PHASE_ID_CLEANUP : Z := 16.

(** From the upkeep to the end step, but for the pause inside the combat damage step. *)
Definition stoppable_phases : list Z := [4; 5; 6; 7; 8; 9; 11; 12; 13; 14; 15].

Definition validate_automation_phase (stop : AutomationPhaseStop) : result unit EngineError :=
  if negb ((0 <=? phase stop) && (phase stop <=? PHASE_ID_CLEANUP))
  then Err (Illegal "auto-pass policy has invalid phase")
  else if negb (bool_decide (phase stop ∈ stoppable_phases))
  then Err (Illegal "auto-pass policy has non-stoppable phase")
  else Ok tt.

(** The modes of yielding are numbered from 0 to 7. *)
Definition AUTOMATION_YIELD_MODE_PHASE : Z := 7.

Definition take_action (p : Policy) (action : Action) : result Policy EngineError :=
  match action with
  | ClearAll true =>
      Ok {| revision := revision p; full_control := true; auto_pass := false; paused := false; stop_once := None |}
  | AutoPass enabled =>
      Ok {| revision := revision p; full_control := if enabled then false else full_control p;
            auto_pass := enabled; paused := false; stop_once := stop_once p |}
  | FullControl enabled =>
      Ok {| revision := revision p; full_control := enabled; auto_pass := auto_pass p; paused := false;
            stop_once := stop_once p |}
  | Pause true =>
      Ok {| revision := revision p; full_control := full_control p; auto_pass := auto_pass p; paused := true;
            stop_once := stop_once p |}
  | YieldTo mode =>
      if negb ((0 <=? mode) && (mode <=? AUTOMATION_YIELD_MODE_PHASE)) then Err (Illegal "unknown yield mode")
      else Err (Illegal "yield requires an ordinary priority window")
  | StopOnce stop =>
      let? _ := validate_automation_phase stop in
      Ok {| revision := revision p; full_control := full_control p; auto_pass := auto_pass p; paused := paused p;
            stop_once := Some stop |}
  | TriggerRule None => Err (Illegal "missing trigger")
  | TriggerRule (Some _) => Err (Illegal "stale trigger")
  | RemoveRule _ => Err (Illegal "unknown automation rule")
  | ClearAll false | Pause false => Err (Illegal "automation action must be enabled")
  end.

Definition with_revision (r : Z) (p : Policy) : Policy :=
  {| revision := r; full_control := full_control p; auto_pass := auto_pass p; paused := paused p;
     stop_once := stop_once p |}.

(** The policy after an update. *)
Definition update_policy (p : Policy) (action : option Action) : result Policy EngineError :=
  let? action := ok_or action (Illegal "empty automation update") in
  let? p := take_action p action in
  if revision p =? u64_max then Err (Illegal "automation revision exhausted")
  else Ok (with_revision (revision p + 1) p).

(** ** After an accepted command *)

(** Is this the upkeep of a turn the stop is for? Before the first turn it is an upkeep. *)
Definition automation_phase_matches (own_turn : bool) (stop : AutomationPhaseStop) : bool :=
  (phase stop =? PHASE_ID_UPKEEP) && Bool.eqb (on_own_turn stop) own_turn.

(** The policy of a player, who gave the command by hand or did not, and whose turn it is or
    is not. *)
Definition reconcile_policy (by_hand own_turn : bool) (p : Policy) : Policy :=
  let stays_paused := by_hand && paused p in
  let stops := match stop_once p with Some stop => automation_phase_matches own_turn stop | None => false end in
  let p :=
    if stops
    then {| revision := revision p; full_control := full_control p; auto_pass := auto_pass p; paused := true;
            stop_once := None |}
    else p in
  if stays_paused || stops then with_revision (Z.min (revision p + 1) u64_max) p else p.

(** ** What they keep *)

(** An update that is not refused has a number of its own. *)
Lemma update_policy_revision p action p' :
  update_policy p action = Ok p' -> revision p' = revision p + 1 /\ revision p <> u64_max.
Proof.
  intros (a & _ & (q & Hq & H)%rbind_Ok)%rbind_Ok.
  assert (E : revision q = revision p).
  { destruct a as [[]| | | |[]| |stop|[]]; cbn in Hq; try (by injection Hq as <-); try done.
    - by destruct (negb _).
    - by apply rbind_Ok in Hq as (? & _ & [= <-]). }
  destruct (Z.eqb_spec (revision q) u64_max); [done|]. injection H as <-. cbn. rewrite E in *. by split.
Qed.

(** Who paused stays paused, until an update of the own preferences. *)
Lemma reconcile_paused by_hand own_turn p : paused p = true -> paused (reconcile_policy by_hand own_turn p) = true.
Proof. intros H. unfold reconcile_policy. destruct (stop_once p) as [s|], by_hand; repeat case_match; done. Qed.

(** A stop happens once: after the command that meets it, it is gone and the player pauses. *)
Lemma reconcile_stops by_hand own_turn p stop :
  stop_once p = Some stop -> automation_phase_matches own_turn stop = true ->
  stop_once (reconcile_policy by_hand own_turn p) = None /\ paused (reconcile_policy by_hand own_turn p) = true.
Proof. intros Hs Hm. unfold reconcile_policy. rewrite Hs, Hm, orb_true_r. done. Qed.
