(* ===== verification/Opening.v ===== *)
(** * The opening of a game: [tricerules-core/src/engine/opening.rs]

    A player chosen at random says who starts, everybody is dealt seven cards, then
    the players in turn order keep their hand or take a mulligan; who keeps after
    mulligans puts cards on the bottom of the library. At last some cards may begin
    the game on the battlefield, and the first turn starts. Anybody may concede at
    any time.

    A command may fail half way, and the engine then stays as it is at that point:
    a command is a function from the state to an answer and the state it leaves.
    What [rand] does with a list is the argument [shuffle], what the card registry
    says of a card the argument [registry]. *)
From S2P Require Import Prelude Demand Automation.
Open Scope cockatrice_scope.
Local Open Scope Z_scope.

(** ** State *)

Inductive Zone : Type := Library | Hand | Battlefield | Graveyard | Stack | Exile | Command.

#[export] Instance zone_eq_dec : EqDecision Zone.
Proof. solve_decision. Defined.

Record GameObject : Type := { owner : Z; card_id : string; zone : Zone }.

(** What the opening asks the registry about a card. *)
Record CardDefinition : Type := { commander_setup_only : bool; gemstone_caverns_opening : bool }.

(** [PlayerState], the part the opening uses. *)
Record OpeningPlayer : Type := {
  player_id : Z;
  library : list Z;
  hand : list Z;
  battlefield : list Z;
  graveyard : list Z;
  exile : list Z;
  command_zone : list Z;
  has_lost : bool
}.

Record OpeningHandWindow : Type := { actor : Z; finished : list bool }.

Record OpeningSequence : Type := {
  chooser : Z;
  starting_player : option Z;
  original_starting_player : option Z;
  mulligan_actor : option Z;
  bottom : option (Z * Z);
  mulligans_taken : list Z;
  resolved : list bool;
  hand_window : option OpeningHandWindow
}.

Inductive GameOutcome : Type := Winner (player : Z) | Draw.

(** [GameState], the part the opening uses. *)
Record Game : Type := {
  seed : Z;
  command_index : Z;
  players : list OpeningPlayer;
  objects : gmap Z GameObject;
  zone_change_generation : gmap Z Z;
  priority_idx : nat;
  active_player_idx : nat;
  starting_player_idx : nat;
  opening : option OpeningSequence;
  outcome : option GameOutcome;
  automation : gmap Z Policy
}.

(** ** Assignments to fields *)

Definition with_players (ps : list OpeningPlayer) (g : Game) : Game :=
  {| seed := seed g; command_index := command_index g; players := ps; objects := objects g;
     zone_change_generation := zone_change_generation g; priority_idx := priority_idx g;
     active_player_idx := active_player_idx g; starting_player_idx := starting_player_idx g;
     opening := opening g; outcome := outcome g;
     automation := automation g |}.

Definition with_objects (os : gmap Z GameObject) (generations : gmap Z Z) (g : Game) : Game :=
  {| seed := seed g; command_index := command_index g; players := players g; objects := os;
     zone_change_generation := generations; priority_idx := priority_idx g;
     active_player_idx := active_player_idx g; starting_player_idx := starting_player_idx g;
     opening := opening g; outcome := outcome g;
     automation := automation g |}.

Definition with_indices (priority active starting : nat) (g : Game) : Game :=
  {| seed := seed g; command_index := command_index g; players := players g; objects := objects g;
     zone_change_generation := zone_change_generation g; priority_idx := priority;
     active_player_idx := active; starting_player_idx := starting;
     opening := opening g; outcome := outcome g;
     automation := automation g |}.

Definition with_priority (priority : nat) (g : Game) : Game :=
  with_indices priority (active_player_idx g) (starting_player_idx g) g.

Definition with_opening (op : option OpeningSequence) (g : Game) : Game :=
  {| seed := seed g; command_index := command_index g; players := players g; objects := objects g;
     zone_change_generation := zone_change_generation g; priority_idx := priority_idx g;
     active_player_idx := active_player_idx g; starting_player_idx := starting_player_idx g;
     opening := op; outcome := outcome g; automation := automation g |}.

Definition with_outcome (o : option GameOutcome) (g : Game) : Game :=
  {| seed := seed g; command_index := command_index g; players := players g; objects := objects g;
     zone_change_generation := zone_change_generation g; priority_idx := priority_idx g;
     active_player_idx := active_player_idx g; starting_player_idx := starting_player_idx g;
     opening := opening g; outcome := o; automation := automation g |}.

Definition with_automation (policies : gmap Z Policy) (g : Game) : Game :=
  {| seed := seed g; command_index := command_index g; players := players g; objects := objects g;
     zone_change_generation := zone_change_generation g; priority_idx := priority_idx g;
     active_player_idx := active_player_idx g; starting_player_idx := starting_player_idx g;
     opening := opening g; outcome := outcome g; automation := policies |}.

Definition next_command (g : Game) : Game :=
  {| seed := seed g; command_index := wrap_u64 (command_index g + 1); players := players g;
     objects := objects g; zone_change_generation := zone_change_generation g;
     priority_idx := priority_idx g; active_player_idx := active_player_idx g;
     starting_player_idx := starting_player_idx g; opening := opening g; outcome := outcome g;
     automation := automation g |}.

Definition with_cards (lib h : list Z) (p : OpeningPlayer) : OpeningPlayer :=
  {| player_id := player_id p; library := lib; hand := h; battlefield := battlefield p;
     graveyard := graveyard p; exile := exile p; command_zone := command_zone p; has_lost := has_lost p |}.

Definition lose (p : OpeningPlayer) : OpeningPlayer :=
  {| player_id := player_id p; library := library p; hand := hand p; battlefield := battlefield p;
     graveyard := graveyard p; exile := exile p; command_zone := command_zone p; has_lost := true |}.

Definition with_chooser (c : Z) (op : OpeningSequence) : OpeningSequence :=
  {| chooser := c; starting_player := starting_player op;
     original_starting_player := original_starting_player op; mulligan_actor := mulligan_actor op;
     bottom := bottom op; mulligans_taken := mulligans_taken op; resolved := resolved op;
     hand_window := hand_window op |}.

Definition with_starting (starting original : option Z) (op : OpeningSequence) : OpeningSequence :=
  {| chooser := chooser op; starting_player := starting; original_starting_player := original;
     mulligan_actor := mulligan_actor op; bottom := bottom op; mulligans_taken := mulligans_taken op;
     resolved := resolved op; hand_window := hand_window op |}.

Definition with_actor (a : option Z) (b : option (Z * Z)) (op : OpeningSequence) : OpeningSequence :=
  {| chooser := chooser op; starting_player := starting_player op;
     original_starting_player := original_starting_player op; mulligan_actor := a; bottom := b;
     mulligans_taken := mulligans_taken op; resolved := resolved op; hand_window := hand_window op |}.

Definition with_taken (taken : list Z) (op : OpeningSequence) : OpeningSequence :=
  {| chooser := chooser op; starting_player := starting_player op;
     original_starting_player := original_starting_player op; mulligan_actor := mulligan_actor op;
     bottom := bottom op; mulligans_taken := taken; resolved := resolved op;
     hand_window := hand_window op |}.

Definition with_resolved (r : list bool) (op : OpeningSequence) : OpeningSequence :=
  {| chooser := chooser op; starting_player := starting_player op;
     original_starting_player := original_starting_player op; mulligan_actor := mulligan_actor op;
     bottom := bottom op; mulligans_taken := mulligans_taken op; resolved := r;
     hand_window := hand_window op |}.

Definition with_window (w : option OpeningHandWindow) (op : OpeningSequence) : OpeningSequence :=
  {| chooser := chooser op; starting_player := starting_player op;
     original_starting_player := original_starting_player op; mulligan_actor := mulligan_actor op;
     bottom := bottom op; mulligans_taken := mulligans_taken op; resolved := resolved op;
     hand_window := w |}.

(** ** Commands that may fail half way *)

Inductive answer (A : Type) : Type :=
| Done (a : A)
| Refused (e : EngineError)
| Panicked.
Arguments Done {A} a.
Arguments Refused {A} e.
Arguments Panicked {A}.

Definition M (A : Type) : Type := Game -> answer A * Game.

Definition ret {A} (a : A) : M A := fun g => (Done a, g).
Definition refuse {A} (e : EngineError) : M A := fun g => (Refused e, g).
Definition illegal {A} (msg : string) : M A := refuse (Illegal msg).
Definition panic {A} : M A := fun g => (Panicked, g).

Definition bind {A B} (m : M A) (k : A -> M B) : M B := fun g =>
  match m g with
  | (Done a, g) => k a g
  | (Refused e, g) => (Refused e, g)
  | (Panicked, g) => (Panicked, g)
  end.

(** Reading and writing the state; [ok_or(..)?]; [unwrap()]. *)
Definition get {A} (f : Game -> A) : M A := fun g => (Done (f g), g).
Definition modify (f : Game -> Game) : M unit := fun g => (Done tt, f g).
Definition or_refuse {A} (o : option A) (e : EngineError) : M A :=
  match o with Some a => ret a | None => refuse e end.
Definition unwrap {A} (o : option A) : M A :=
  match o with Some a => ret a | None => panic end.

Notation "'do' x <- m ; k" := (bind m (fun x => k))
  (at level 200, x name, m at level 100, k at level 200) : cockatrice_scope.
Notation "m ;; k" := (bind m (fun _ => k)) (at level 100, right associativity) : cockatrice_scope.

Fixpoint for_each {A} (f : A -> M unit) (l : list A) : M unit :=
  match l with
  | [] => ret tt
  | x :: l => f x ;; for_each f l
  end.

(** The opening, which the source unwraps. *)
Definition the_opening : M OpeningSequence := do op <- get opening; unwrap op.
Definition opening_or_refuse : M OpeningSequence :=
  do op <- get opening; or_refuse op (Illegal "opening").
Definition modify_opening (f : OpeningSequence -> OpeningSequence) : M unit :=
  do op <- the_opening; modify (with_opening (Some (f op))).

Section Engine.
Context (registry : string -> option CardDefinition) (shuffle : Z -> list Z -> list Z).

(** ** Players and their cards *)

Definition player_idx (g : Game) (player : Z) : option nat :=
  fst <$> list_find (fun p => player_id p = player) (players g).

(** The indices from a seat on, around the table. *)
Definition around (start count : nat) : list nat :=
  map (fun offset => (start + offset) mod count)%nat (seq 0 count).

Definition next_in_game_player_idx (g : Game) (from : nat) : option nat :=
  find (fun i => match players g !! i with Some p => negb (has_lost p) | None => false end)
    (around (S from) (length (players g))).

Definition next_unresolved_from (done : list bool) (start : nat) : option nat :=
  find (fun i => negb (default true (done !! i))) (around start (length done)).

Definition set_zone (z : Zone) (o : GameObject) : GameObject :=
  {| owner := owner o; card_id := card_id o; zone := z |}.

Definition deal_opening_card (i : nat) : M unit :=
  do p <- get (fun g => players g !! i); do p <- unwrap p;
  match library p with
  | [] => illegal "library empty"
  | oid :: lib =>
      modify (fun g => with_objects (alter (set_zone Hand) oid (objects g)) (zone_change_generation g)
        (with_players (<[i := with_cards lib (hand p ++ [oid]) p]> (players g)) g))
  end.

Definition deal_seven (i : nat) : M unit := for_each (fun _ => deal_opening_card i) (seq 0 7).

Definition without (oid : Z) : list Z -> list Z := List.filter (fun x => negb (x =? oid)).

(** The card out of every list of a player. *)
Definition take_out (oid : Z) (p : OpeningPlayer) : OpeningPlayer :=
  {| player_id := player_id p; library := without oid (library p); hand := without oid (hand p);
     battlefield := without oid (battlefield p); graveyard := without oid (graveyard p);
     exile := without oid (exile p); command_zone := without oid (command_zone p);
     has_lost := has_lost p |}.

(** The card at the end of a list; the library's end is its bottom. *)
Definition put_into (z : Zone) (oid : Z) (p : OpeningPlayer) : OpeningPlayer :=
  let at_end (zone : Zone) (l : list Z) := if bool_decide (z = zone) then l ++ [oid] else l in
  {| player_id := player_id p; library := at_end Library (library p); hand := at_end Hand (hand p);
     battlefield := at_end Battlefield (battlefield p); graveyard := at_end Graveyard (graveyard p);
     exile := at_end Exile (exile p); command_zone := at_end Command (command_zone p);
     has_lost := has_lost p |}.

(** A card, not on the battlefield, moved by or for its owner. *)
Definition move_object_to_zone (oid : Z) (z : Zone) : M unit :=
  do o <- get (fun g => objects g !! oid); do o <- or_refuse o (Illegal "no object");
  do i <- get (fun g => player_idx g (owner o)); do i <- or_refuse i (Illegal "no such player");
  modify (fun g =>
    with_objects (<[oid := set_zone z o]> (objects g))
      (<[oid := default 0 (zone_change_generation g !! oid) + 1]> (zone_change_generation g))
      (with_players (alter (put_into z oid) i (map (take_out oid) (players g))) g)).

(** ** Mulligans *)

Definition shuffle_player_library (i : nat) (mix : Z) : M unit :=
  do p <- get (fun g => players g !! i); do p <- unwrap p;
  modify (fun g => with_players (<[i := with_cards (shuffle mix (library p)) (hand p) p]> (players g)) g).

Definition mulligan_redraw (player : Z) : M unit :=
  do i <- get (fun g => player_idx g player); do i <- or_refuse i (UnknownPlayer player);
  do p <- get (fun g => players g !! i); do p <- unwrap p;
  modify (fun g => with_players (<[i := with_cards (library p) [] p]> (players g)) g) ;;
  for_each (fun oid => move_object_to_zone oid Library) (hand p) ;;
  do mix <- get (fun g => wrap_u64 (wrap_u64 (seed g + command_index g) + wrap_u64 player));
  shuffle_player_library i mix ;;
  deal_seven i.

(** ** The cards that may begin on the battlefield *)

(** Object and zone change generation of the cards in the hand of a player. *)
Definition opening_hand_cards (g : Game) (player : Z) : list (Z * Z) :=
  match player_idx g player ≫= fun i => players g !! i with
  | None => []
  | Some p =>
      if has_lost p then []
      else
        omap (fun oid =>
          match objects g !! oid with
          | Some o =>
              if bool_decide (zone o = Hand) && (owner o =? player)
              then Some (oid, default 0 (zone_change_generation g !! oid)) else None
          | None => None
          end) (hand p)
  end.

Definition is_gemstone (g : Game) (oid : Z) : bool :=
  match objects g !! oid with
  | Some o => match registry (card_id o) with Some d => gemstone_caverns_opening d | None => false end
  | None => false
  end.

Definition opening_gemstone_cards (g : Game) (player : Z) : list (Z * Z) :=
  match opening g with
  | None => []
  | Some op =>
      if bool_decide (original_starting_player op = None)
         || bool_decide (original_starting_player op = Some player) then []
      else List.filter (fun card => is_gemstone g card.1) (opening_hand_cards g player)
  end.

Definition set_finished (i : nat) (op : OpeningSequence) : OpeningSequence :=
  with_window
    ((fun w => {| actor := actor w; finished := <[i := true]> (finished w) |}) <$> hand_window op) op.

Definition set_window_actor (player : Z) (op : OpeningSequence) : OpeningSequence :=
  with_window ((fun w => {| actor := player; finished := finished w |}) <$> hand_window op) op.

(** The opening is over, the first turn starts. *)
Definition begin_first_turn : M unit :=
  do op <- the_opening;
  modify (with_opening None) ;;
  do starting <- or_refuse (starting_player op) (Illegal "opening has no first live player");
  do i <- get (fun g => player_idx g starting); do i <- unwrap i;
  modify (with_indices i i i).

Fixpoint advance_from (indices : list nat) : M unit :=
  match indices with
  | [] => begin_first_turn
  | i :: indices =>
      do p <- get (fun g => players g !! i); do p <- unwrap p;
      do w <- get (fun g => opening g ≫= hand_window);
      do w <- or_refuse w (Illegal "no opening-hand window");
      do done <- unwrap (finished w !! i);
      if (done : bool) then advance_from indices
      else
        do cards <- get (fun g => opening_gemstone_cards g (player_id p));
        if bool_decide (cards = []) then modify_opening (set_finished i) ;; advance_from indices
        else modify_opening (set_window_actor (player_id p)) ;; modify (with_priority i)
  end.

Definition opening_advance_hand_window (start_index : nat) : M unit :=
  do count <- get (fun g => length (players g));
  advance_from (around start_index count).

(** ** Whose turn it is *)

Definition opening_set_next_actor_after_mulligan (mulliganed_idx : nat) : M unit :=
  do seats <- get (fun g => length (players g));
  do op <- opening_or_refuse;
  let next_idx := default mulliganed_idx
    (next_unresolved_from (resolved op) ((mulliganed_idx + 1) mod seats)%nat) in
  do p <- get (fun g => players g !! next_idx); do p <- unwrap p;
  modify_opening (fun op => with_actor (Some (player_id p)) (bottom op) op) ;;
  modify (with_priority next_idx).

Definition opening_pick_next_or_finish (previous_idx : nat) : M unit :=
  do op <- the_opening;
  if forallb id (resolved op) then
    do original <- or_refuse (original_starting_player op) (Illegal "missing original starting player");
    do i <- get (fun g => player_idx g original); do i <- unwrap i;
    do count <- get (fun g => length (players g));
    modify_opening (with_window (Some {| actor := original; finished := replicate count false |})) ;;
    opening_advance_hand_window i
  else
    do count <- get (fun g => length (players g));
    match next_unresolved_from (resolved op) ((previous_idx + 1) mod count)%nat with
    | None => ret tt
    | Some i =>
        do p <- get (fun g => players g !! i); do p <- unwrap p;
        modify_opening (fun op => with_actor (Some (player_id p)) (bottom op) op) ;;
        modify (with_priority i)
    end.

(** ** Commands *)

Inductive Cmd : Type :=
| ChooseStartingPlayer (starting_player_id : Z)
| Mulligan (keep : bool)
| PutOpeningHandOnBottom (hand_card_index : Z)
| FinishOpeningHandActions
| BeginWithGemstoneCaverns (source exiled : option (Z * Z))
| Concede
| UpdateAutomation (action : option Action)
| ContinueAutomation (expected_command_index expected_revision : Z)
| OtherCommand.

Definition choose_starting_player (player sp : Z) : M unit :=
  do op <- opening_or_refuse;
  if negb (bool_decide (starting_player op = None)) then illegal "starting player already chosen"
  else if negb (player =? chooser op) then illegal "not your choice"
  else
    do i <- get (fun g => player_idx g sp); do i <- or_refuse i (UnknownPlayer sp);
    do p <- get (fun g => players g !! i); do p <- unwrap p;
    if has_lost p then illegal "starting player has left the game"
    else
      modify_opening (fun op => with_actor (Some sp) (bottom op) (with_starting (Some sp) (Some sp) op)) ;;
      modify (with_indices i i i) ;;
      do count <- get (fun g => length (players g));
      for_each (fun pi =>
        do p <- get (fun g => players g !! pi); do p <- unwrap p;
        if has_lost p then ret tt else deal_seven pi) (seq 0 count).

(** Cards to put on the bottom after a number of mulligans: with more than two
    players the first one is free. *)
Definition bottom_count_of (g : Game) (taken : Z) : Z :=
  u32_saturating_sub taken (Z.b2z (2 <? length (players g))%nat).

Definition resolve (i : nat) (op : OpeningSequence) : OpeningSequence :=
  with_actor None (bottom op) (with_resolved (<[i := true]> (resolved op)) op).

Definition start_bottoming (player count : Z) : M unit :=
  modify_opening (with_actor (Some player) (Some (player, count))).

Definition MAX_HAND_SIZE : Z := 7.

Definition mulligan (player : Z) (keep : bool) : M unit :=
  do op <- opening_or_refuse;
  if negb (bool_decide (bottom op = None)) then illegal "finish bottoming first"
  else
    do the_actor <- or_refuse (mulligan_actor op) (Illegal "no mulligan actor");
    if negb (player =? the_actor) then illegal "not your mulligan decision"
    else
      do i <- get (fun g => player_idx g player); do i <- unwrap i;
      do taken <- unwrap (mulligans_taken op !! i);
      if keep then
        do bottom_count <- get (fun g => bottom_count_of g taken);
        if bottom_count =? 0 then modify_opening (resolve i) ;; opening_pick_next_or_finish i
        else start_bottoming player bottom_count
      else
        let taken := u32_add taken 1 in
        modify_opening (fun op => with_taken (<[i := taken]> (mulligans_taken op)) op) ;;
        do bottom_count <- get (fun g => bottom_count_of g taken);
        mulligan_redraw player ;;
        if MAX_HAND_SIZE <=? bottom_count then start_bottoming player bottom_count
        else opening_set_next_actor_after_mulligan i.

Definition put_opening_hand_on_bottom (player hand_card_index : Z) : M unit :=
  do i <- get (fun g => player_idx g player); do i <- unwrap i;
  do op <- opening_or_refuse;
  do b <- or_refuse (bottom op) (Illegal "not bottoming");
  if negb (b.1 =? player) then illegal "not your bottom step"
  else
    do p <- get (fun g => players g !! i); do p <- unwrap p;
    do oid <- or_refuse (hand p !! Z.to_nat hand_card_index) (Illegal "bad hand index");
    move_object_to_zone oid Library ;;
    let rem_after := u32_sub b.2 1 in
    if 0 <? rem_after
    then modify_opening (fun op => with_actor (mulligan_actor op) (Some (player, rem_after)) op)
    else modify_opening (fun op => resolve i (with_actor (mulligan_actor op) None op)) ;;
         opening_pick_next_or_finish i.

Definition finish_opening_hand_actions (player : Z) : M unit :=
  do i <- get (fun g => player_idx g player); do i <- unwrap i;
  do w <- get (fun g => opening g ≫= hand_window);
  do w <- or_refuse w (Illegal "not taking opening-hand actions");
  if negb (actor w =? player) then illegal "not your opening-hand actions"
  else
    modify_opening (set_finished i) ;;
    do count <- get (fun g => length (players g));
    opening_advance_hand_window ((i + 1) mod count)%nat.

(** May this card, with the other one exiled, begin on the battlefield? *)
Definition validate_opening_hand_entry (player : Z) (source : Z * Z) (exiled : option (Z * Z)) : M unit :=
  do w <- get (fun g => opening g ≫= hand_window);
  do w <- or_refuse w (Illegal "not taking opening-hand actions");
  do p <- get (fun g => player_idx g player ≫= fun i => players g !! i);
  if negb (actor w =? player) || match p with Some p => has_lost p | None => true end
  then illegal "not your opening-hand actions"
  else
    do cards <- get (fun g => opening_hand_cards g player);
    do gemstones <- get (fun g => opening_gemstone_cards g player);
    if negb (bool_decide (source ∈ cards)) || negb (existsb (fun card => card.1 =? source.1) gemstones)
    then illegal "opening source is stale or ineligible"
    else
      let has_other := existsb (fun card => negb (card.1 =? source.1)) cards in
      let wrong_exile :=
        match exiled with
        | Some e => (e.1 =? source.1) || negb (bool_decide (e ∈ cards))
        | None => false
        end in
      if negb (Bool.eqb has_other (negb (bool_decide (exiled = None)))) || wrong_exile
      then illegal "choose an exact other hand card to exile if available"
      else ret tt.

(** The card enters, the other one is exiled, the window goes on. *)
Definition commit_opening_hand_entry (player : Z) (source : Z * Z) (exiled : option (Z * Z)) : M unit :=
  validate_opening_hand_entry player source exiled ;;
  move_object_to_zone source.1 Battlefield ;;
  match exiled with Some e => move_object_to_zone e.1 Exile | None => ret tt end ;;
  do i <- get (fun g => player_idx g player); do i <- or_refuse i (UnknownPlayer player);
  opening_advance_hand_window i.

(** An entry that nothing replaces: it is committed at once. *)
Definition begin_with_gemstone_caverns (player : Z) (source exiled : option (Z * Z)) : M unit :=
  do source <- or_refuse source (Illegal "missing opening source");
  validate_opening_hand_entry player source exiled ;;
  commit_opening_hand_entry player source exiled.

(** ** Conceding *)

Definition reconcile_opening_departure (player : Z) : M unit :=
  do i <- get (fun g => player_idx g player);
  match i with
  | None => ret tt
  | Some i =>
      do next <- get (fun g => next_in_game_player_idx g i);
      do next <- or_refuse next (Illegal "no player in game");
      do next_player <- get (fun g => players g !! next); do next_player <- unwrap next_player;
      do op <- get opening;
      match op with
      | None => ret tt
      | Some op =>
          let op := with_resolved (<[i := true]> (resolved op)) op in
          modify (with_opening (Some op)) ;;
          if (chooser op =? player) && bool_decide (starting_player op = None) then
            modify_opening (with_chooser (player_id next_player)) ;; modify (with_priority next)
          else
            (if bool_decide (starting_player op = Some player) then
               modify_opening
                 (fun op => with_starting (Some (player_id next_player)) (original_starting_player op) op) ;;
               modify (fun g => with_indices (priority_idx g) next next g)
             else ret tt) ;;
            match hand_window op with
            | Some w =>
                modify_opening (set_finished i) ;;
                if actor w =? player then opening_advance_hand_window next else ret tt
            | None =>
                if bool_decide (mulligan_actor op = Some player)
                   || match bottom op with Some b => b.1 =? player | None => false end
                then modify_opening (with_actor None None) ;; opening_pick_next_or_finish i
                else ret tt
            end
      end
  end.

(** The cards of a player who left are removed from the game. *)
Definition remove_departing_player_objects (player : Z) : M unit := modify (fun g =>
  let owned (oid : Z) := match objects g !! oid with Some o => owner o =? player | None => false end in
  let rest := List.filter (fun oid => negb (owned oid)) in
  with_objects (filter (fun e => owner e.2 <> player) (objects g)) (zone_change_generation g)
    (with_players (map (fun p =>
       {| player_id := player_id p; library := rest (library p); hand := rest (hand p);
          battlefield := rest (battlefield p); graveyard := rest (graveyard p); exile := rest (exile p);
          command_zone := command_zone p; has_lost := has_lost p |}) (players g)) g)).

Definition departed (g : Game) : list Z := map player_id (List.filter has_lost (players g)).

Definition concede_batch (player : Z) : M unit :=
  modify (fun g => with_players (map (fun p => if player_id p =? player then lose p else p) (players g)) g) ;;
  modify (fun g => with_outcome
    (match List.filter (fun p => negb (has_lost p)) (players g) with
     | [] => Some Draw
     | [winner] => Some (Winner (player_id winner))
     | _ => None
     end) g) ;;
  do o <- get outcome;
  if negb (bool_decide (o = None)) then ret tt
  else
    reconcile_opening_departure player ;;
    do gone <- get departed; for_each remove_departing_player_objects gone.

(** ** A command of a player *)

Definition apply_opening_command (player : Z) (cmd : Cmd) : M unit :=
  match cmd with
  | ChooseStartingPlayer sp => choose_starting_player player sp
  | Mulligan keep => mulligan player keep
  | PutOpeningHandOnBottom index => put_opening_hand_on_bottom player index
  | FinishOpeningHandActions => finish_opening_hand_actions player
  | BeginWithGemstoneCaverns source exiled => begin_with_gemstone_caverns player source exiled
  | Concede | UpdateAutomation _ | ContinueAutomation _ _ | OtherCommand =>
      illegal "illegal command during opening"
  end.

(** ** Automation *)

(** Any player in the game may change the own preferences at any time. *)
Definition update_automation (player : Z) (action : option Action) : M unit :=
  do policies <- get automation;
  match update_policy (default default_policy (policies !! player)) action with
  | Ok policy => modify (with_automation (<[player := policy]> policies))
  | Err e => refuse e
  end.

(** Before the first turn nothing is authorized, whatever the preferences are. *)
Definition continue_automation (player expected_command_index expected_revision : Z) : M unit :=
  do index <- get command_index;
  do policy <- get (fun g => automation g !! player);
  if negb (expected_command_index =? index)
     || match policy with Some policy => negb (revision policy =? expected_revision) | None => true end
  then illegal "stale automation continuation"
  else illegal "no automatic action is authorized".

(** A command of the players of the game by hand, not one of automation? *)
Definition by_hand (cmd : Cmd) : bool :=
  match cmd with UpdateAutomation _ | ContinueAutomation _ _ => false | _ => true end.

Definition active_player_id (g : Game) : option Z := player_id <$> players g !! active_player_idx g.

Definition reconcile_automation (actor : Z) (cmd : Cmd) (g : Game) : Game :=
  with_automation
    (map_imap (fun player policy =>
       Some (reconcile_policy (by_hand cmd && (player =? actor))
               (bool_decide (active_player_id g = Some player)) policy)) (automation g)) g.

(** ** Any command of a player *)

Definition dispatch_command (player : Z) (cmd : Cmd) : M unit :=
  match cmd with
  | Concede => concede_batch player
  | _ => apply_opening_command player cmd
  end.

(** A command, out of its wrapping with the stops for automatic passes; those change
    nothing while the opening lasts. *)
Definition apply_gameplay_command (player : Z) (cmd : Cmd) : M unit :=
  (match cmd with
   | UpdateAutomation action => update_automation player action
   | ContinueAutomation expected_command_index expected_revision =>
       continue_automation player expected_command_index expected_revision
   | _ => dispatch_command player cmd
   end) ;;
  modify (reconcile_automation player cmd) ;;
  modify next_command.

(** A command of the game while the opening lasts. *)
Definition apply_command (player : Z) (cmd : Cmd) : M unit :=
  do o <- get outcome;
  if negb (bool_decide (o = None)) then illegal "game over"
  else
    do i <- get (fun g => player_idx g player); do i <- or_refuse i (UnknownPlayer player);
    do p <- get (fun g => players g !! i); do p <- unwrap p;
    if has_lost p then illegal "player has left the game"
    else apply_gameplay_command player cmd.

(** ** A new game *)

Definition GOLDEN : Z := 11400714819323198485.

(** The cards of a deck as objects, from the next free id on. *)
Fixpoint load_deck (pid : Z) (deck : list string) (next_object_id : Z) (os : gmap Z GameObject)
    : result (list Z * Z * gmap Z GameObject) EngineError :=
  match deck with
  | [] => Ok ([], next_object_id, os)
  | card :: deck =>
      let? def := ok_or (registry card) (MissingCard card) in
      if commander_setup_only def
      then Err (Illegal "Commander setup-only card cannot be used in a mainboard")
      else
        let o := {| owner := pid; card_id := card; zone := Library |} in
        let? r := load_deck pid deck (u32_add next_object_id 1) (<[next_object_id := o]> os) in
        Ok (next_object_id :: r.1.1, r.1.2, r.2)
  end.

Definition new_player (pid : Z) (lib : list Z) : OpeningPlayer :=
  {| player_id := pid; library := lib; hand := []; battlefield := []; graveyard := []; exile := [];
     command_zone := []; has_lost := false |}.

(** The mainboard of the player on seat [i] when none is submitted. *)
Definition default_deck_list (i : Z) : list string :=
  if i =? 0
  then replicate 20 "mountain"%string ++ replicate 20 "lightning_bolt"%string ++ replicate 20 "grizzly_bears"%string
  else replicate 20 "forest"%string ++ replicate 20 "giant_growth"%string ++ replicate 20 "counterspell"%string.

(** The cards a player begins with. *)
Definition mainboard (i : Z) (deck : list string) : list string :=
  match deck with [] => default_deck_list i | _ => deck end.

(** The players in order, each with a shuffled library; without commanders. *)
Fixpoint load_players (game_seed : Z) (i : Z) (decks : list (Z * list string)) (next_object_id : Z)
    (os : gmap Z GameObject) : result (list OpeningPlayer * gmap Z GameObject) EngineError :=
  match decks with
  | [] => Ok ([], os)
  | (pid, deck) :: decks =>
      let? r := load_deck pid (mainboard i deck) next_object_id os in
      let lib := shuffle (wrap_u64 (wrap_u64 (game_seed + i) * GOLDEN)) r.1.1 in
      let? rest := load_players game_seed (i + 1) decks r.1.2 r.2 in
      Ok (new_player pid lib :: rest.1, rest.2)
  end.

Definition new_opening (chooser_id : Z) (count : nat) : OpeningSequence :=
  {| chooser := chooser_id; starting_player := None; original_starting_player := None;
     mulligan_actor := None; bottom := None; mulligans_taken := replicate count 0;
     resolved := replicate count false; hand_window := None |}.

(** [new_with_registry], with the opening; a seat and its mainboard for each player. *)
Definition new_with_registry (game_seed : Z) (decks : list (Z * list string)) : result Game EngineError :=
  let player_ids := map fst decks in
  let count := length player_ids in
  if negb ((2 <=? count)%nat && (count <=? 4)%nat)
  then Err (Illegal "free-for-all requires 2 to 4 players")
  else
    let max_pid := fold_left Z.max player_ids 0 in
    let? r := load_players game_seed 0 decks (u32_saturating_add (Z.max max_pid 0) 1) ∅ in
    let chooser_idx := (Z.to_nat (game_seed mod Z.of_nat count))%nat in
    let chooser_id := player_ids !!! chooser_idx in
    let chooser_idx := default 0%nat (fst <$> list_find (fun id => id = chooser_id) player_ids) in
    Ok {| seed := game_seed; command_index := 0; players := r.1; objects := r.2;
          zone_change_generation := ∅; priority_idx := chooser_idx; active_player_idx := chooser_idx;
          starting_player_idx := 0; opening := Some (new_opening chooser_id count); outcome := None;
          automation := ∅ |}.
End Engine.
