(* ===== verification/OpeningCards.v ===== *)
(** * The opening of a game: commands and cards

    Rules for what a command of [Opening] leads to, and what the operations on
    cards leave: which player they change, and how. *)
From S2P Require Import Prelude Demand Opening.
Open Scope cockatrice_scope.
Local Open Scope Z_scope.

(** ** Commands and what they leave *)

(** [m] does not panic, ends in [Q], or is refused in a state of [R]. *)
Definition wp {A} (R : Game -> Prop) (m : M A) (Q : A -> Game -> Prop) (g : Game) : Prop :=
  match m g with
  | (Done a, g) => Q a g
  | (Refused _, g) => R g
  | (Panicked, _) => False
  end.

Section Rules.
Context (R : Game -> Prop) (g : Game).

Lemma wp_bind {A B} (m : M A) (k : A -> M B) Q :
  wp R m (fun a g => wp R (k a) Q g) g -> wp R (bind m k) Q g.
Proof. unfold wp, bind. by destruct (m g) as [[] ?]. Qed.

Lemma wp_ret {A} (a : A) Q : Q a g -> wp R (ret a) Q g.
Proof. done. Qed.

Lemma wp_get {A} (f : Game -> A) Q : Q (f g) g -> wp R (get f) Q g.
Proof. done. Qed.

Lemma wp_modify f Q : Q tt (f g) -> wp R (modify f) Q g.
Proof. done. Qed.

Lemma wp_unwrap {A} (o : option A) a Q : o = Some a -> Q a g -> wp R (unwrap o) Q g.
Proof. by intros ->. Qed.

Lemma wp_or_refuse_some {A} (o : option A) a e Q : o = Some a -> Q a g -> wp R (or_refuse o e) Q g.
Proof. by intros ->. Qed.

Lemma wp_or_refuse {A} (o : option A) e Q :
  R g -> (forall a, o = Some a -> Q a g) -> wp R (or_refuse o e) Q g.
Proof. intros ? HQ. destruct o; [by apply HQ|done]. Qed.

Lemma wp_illegal {A} msg (Q : A -> Game -> Prop) : R g -> wp R (illegal msg) Q g.
Proof. done. Qed.

Lemma wp_opening op Q : opening g = Some op -> Q op g -> wp R the_opening Q g.
Proof. intros Ho HQ. apply wp_bind, wp_get. by eapply wp_unwrap. Qed.

Lemma wp_opening_or_refuse op Q : opening g = Some op -> Q op g -> wp R opening_or_refuse Q g.
Proof. intros Ho HQ. apply wp_bind, wp_get. by eapply wp_or_refuse_some. Qed.

Lemma wp_modify_opening f op Q :
  opening g = Some op -> Q tt (with_opening (Some (f op)) g) -> wp R (modify_opening f) Q g.
Proof. intros Ho HQ. apply wp_bind. eapply wp_opening; [done|]. by apply wp_modify. Qed.

Lemma wp_mono {A} (m : M A) (P Q : A -> Game -> Prop) :
  (forall a g', P a g' -> Q a g') -> wp R m P g -> wp R m Q g.
Proof. unfold wp. intros H. destruct (m g) as [[] ?]; auto. Qed.
End Rules.

(** One step through a command whose next instruction cannot fail. *)
Ltac wp_step :=
  lazymatch goal with
  | |- wp _ (bind _ _) _ _ => apply wp_bind
  | |- wp _ (get _) _ _ => apply wp_get
  | |- wp _ (modify _) _ _ => apply wp_modify
  | |- wp _ (ret _) _ _ => apply wp_ret
  | |- wp _ the_opening _ _ => eapply wp_opening; [eassumption|]
  | |- wp _ opening_or_refuse _ _ => eapply wp_opening_or_refuse; [eassumption|]
  | |- wp _ (modify_opening _) _ _ => eapply wp_modify_opening; [eassumption|]
  | |- wp _ (unwrap _) _ _ => eapply wp_unwrap; [eassumption|]
  end; cbv beta.
Ltac wp_steps := repeat wp_step.

(** ** Frames *)

(** The objects are the same and belong to the same players. *)
Definition kin (os os' : gmap Z GameObject) : Prop :=
  forall oid, owner <$> os' !! oid = owner <$> os !! oid.

(** [g'] is [g] with other players, and cards in other zones. *)
Record changes (g : Game) (ps : list OpeningPlayer) (g' : Game) : Prop := {
  ch_players : players g' = ps;
  ch_kin : kin (objects g) (objects g');
  ch_priority : priority_idx g' = priority_idx g;
  ch_active : active_player_idx g' = active_player_idx g;
  ch_starting : starting_player_idx g' = starting_player_idx g;
  ch_opening : opening g' = opening g;
  ch_outcome : outcome g' = outcome g
}.

Lemma changes_refl g : changes g (players g) g.
Proof. by split. Qed.

Lemma changes_trans g1 ps g2 ps' g3 : changes g1 ps g2 -> changes g2 ps' g3 -> changes g1 ps' g3.
Proof.
  intros [] []. split; congruence.
Qed.

Lemma changes_with_players g ps : changes g ps (with_players ps g).
Proof. by split. Qed.

(** ** Cards *)

Definition cards (p : OpeningPlayer) : list Z := hand p ++ library p ++ battlefield p ++ exile p.
Definition all_cards (p : OpeningPlayer) : list Z := cards p ++ graveyard p ++ command_zone p.

(** [p'] is [p] with the cards somewhere else. *)
Record redistributed (p p' : OpeningPlayer) : Prop := {
  re_id : player_id p' = player_id p;
  re_lost : has_lost p' = has_lost p;
  re_cards : cards p' ≡ₚ cards p;
  re_graveyard : graveyard p' = graveyard p;
  re_command : command_zone p' = command_zone p
}.

Lemma redistributed_refl p : redistributed p p.
Proof. by split. Qed.

Lemma redistributed_trans p q r : redistributed p q -> redistributed q r -> redistributed p r.
Proof. intros [] []. split; try congruence. by etrans. Qed.

Lemma deal_spec R n : forall i g p Q,
  players g !! i = Some p -> (n <= length (library p))%nat ->
  (forall g', changes g
     (<[i := with_cards (drop n (library p)) (hand p ++ take n (library p)) p]> (players g)) g' -> Q tt g') ->
  forall k, wp R (for_each (fun _ => deal_opening_card i) (seq k n)) Q g.
Proof.
  induction n as [|n IH]; intros i g p Q Hp Hn HQ k; cbn [seq for_each].
  - apply wp_ret, HQ. rewrite drop_0, take_0, app_nil_r.
    assert (with_cards (library p) (hand p) p = p) as -> by by destruct p.
    rewrite list_insert_id by done. apply changes_refl.
  - apply wp_bind. unfold deal_opening_card. apply wp_bind, wp_get, wp_bind. eapply wp_unwrap; [done|].
    destruct (library p) as [|oid lib] eqn:El; [cbn in Hn; lia|]. apply wp_modify.
    set (p1 := with_cards lib (hand p ++ [oid]) p).
    match goal with |- wp _ _ _ ?g1 => assert (H1 : changes g (<[i:=p1]> (players g)) g1) end.
    { split; try done. intros x. cbn. destruct (decide (x = oid)) as [->|].
      - rewrite lookup_alter_eq. by destruct (objects g !! oid).
      - by rewrite lookup_alter_ne. }
    apply (IH i _ p1).
    + rewrite (ch_players _ _ _ H1), list_lookup_insert_eq; [done|by eapply lookup_lt_Some].
    + cbn in *. lia.
    + intros g' Hg'. apply HQ. eapply changes_trans in Hg'; [|done].
      rewrite (ch_players _ _ _ H1), list_insert_insert_eq in Hg'. cbn in Hg'.
      by rewrite <- app_assoc in Hg'.
Qed.

Lemma without_notin oid l : oid ∉ l -> without oid l = l.
Proof.
  unfold without. induction l as [|x l IH]; intros Hn; [done|]. cbn.
  apply not_elem_of_cons in Hn as [Hx Hl]. destruct (Z.eqb_spec x oid); [done|]. cbn. by rewrite IH.
Qed.

Lemma without_app oid l k : without oid (l ++ k) = without oid l ++ without oid k.
Proof. apply List.filter_app. Qed.

Lemma take_out_notin oid p : oid ∉ all_cards p -> take_out oid p = p.
Proof.
  unfold all_cards, cards, take_out. rewrite !not_elem_of_app. intros ((Hh & Hl & Hb & He) & Hg & Hc).
  rewrite !without_notin by done. by destruct p.
Qed.

Lemma without_perm oid l : NoDup l -> oid ∈ l -> l ≡ₚ oid :: without oid l.
Proof.
  intros Hnd (l1 & l2 & ->)%list_elem_of_split. apply NoDup_app in Hnd as (H1 & Hd & H2).
  apply NoDup_cons in H2 as [Hn2 H2]. assert (Hn1 : oid ∉ l1) by (intros Hi; apply (Hd oid Hi); left).
  rewrite without_app, (without_notin _ l1) by done. cbn. rewrite Z.eqb_refl. cbn.
  rewrite without_notin by done. by rewrite <- Permutation_middle.
Qed.

Definition ids (g : Game) : list Z := map player_id (players g).

Lemma ids_lookup g i p : players g !! i = Some p -> ids g !! i = Some (player_id p).
Proof. intros Hp. unfold ids. by rewrite list_lookup_fmap, Hp. Qed.

Lemma player_idx_lookup g i p :
  NoDup (ids g) -> players g !! i = Some p -> player_idx g (player_id p) = Some i.
Proof.
  intros Hids Hp. unfold player_idx.
  destruct (list_find_elem_of (fun q => player_id q = player_id p) (players g) p) as [[j q] Hf];
    [by eapply list_elem_of_lookup_2|done|]. rewrite Hf. cbn. f_equal.
  apply list_find_Some in Hf as (Hj & Hid & _). apply ids_lookup in Hj, Hp.
  eapply NoDup_lookup; [done..|congruence].
Qed.

Lemma player_idx_seat g player i :
  player_idx g player = Some i -> exists p, players g !! i = Some p /\ player_id p = player.
Proof.
  unfold player_idx. intros H. apply fmap_Some in H as ([j p] & Hf & ->).
  apply list_find_Some in Hf as (Hj & Hid & _). by exists p.
Qed.

Lemma move_spec R i oid z o p g Q :
  NoDup (ids g) -> players g !! i = Some p ->
  objects g !! oid = Some o -> owner o = player_id p ->
  (forall j q, players g !! j = Some q -> j <> i -> oid ∉ all_cards q) ->
  (forall g', changes g (<[i := put_into z oid (take_out oid p)]> (players g)) g' -> Q tt g') ->
  wp R (move_object_to_zone oid z) Q g.
Proof.
  intros Hids Hp Ho How Hothers HQ. unfold move_object_to_zone.
  apply wp_bind, wp_get, wp_bind. eapply wp_or_refuse_some; [done|]. apply wp_bind, wp_get, wp_bind.
  eapply (wp_or_refuse_some _ _ _ i).
  { rewrite How. by apply player_idx_lookup. }
  apply wp_modify, HQ. split; try done; cbn.
  - apply list_eq. intros j. destruct (decide (j = i)) as [->|Hne].
    + rewrite list_lookup_alter_eq, list_lookup_insert_eq by (by eapply lookup_lt_Some).
      by rewrite list_lookup_fmap, Hp.
    + rewrite list_lookup_alter_ne, list_lookup_insert_ne, list_lookup_fmap by done.
      destruct (players g !! j) as [q|] eqn:Hq; [|done]. cbn. by rewrite take_out_notin by by eapply Hothers.
  - intros x. destruct (decide (x = oid)) as [->|Hx]; [by rewrite lookup_insert_eq, Ho|by rewrite lookup_insert_ne].
Qed.

(** ** Mulligans *)

Lemma return_hand_spec R i h : forall g p Q,
  NoDup (ids g) -> players g !! i = Some p -> NoDup h ->
  (forall oid, oid ∈ h -> oid ∉ all_cards p /\ owner <$> objects g !! oid = Some (player_id p)) ->
  (forall j q oid, players g !! j = Some q -> j <> i -> oid ∈ h -> oid ∉ all_cards q) ->
  (forall g', changes g (<[i := with_cards (library p ++ h) (hand p) p]> (players g)) g' -> Q tt g') ->
  wp R (for_each (fun oid => move_object_to_zone oid Library) h) Q g.
Proof.
  induction h as [|oid h IH]; intros g p Q Hids Hp Hnd Hh Hothers HQ; cbn [for_each].
  - apply wp_ret, HQ. rewrite app_nil_r. assert (with_cards (library p) (hand p) p = p) as -> by by destruct p.
    rewrite list_insert_id by done. apply changes_refl.
  - apply NoDup_cons in Hnd as [Hn Hnd]. destruct (Hh oid) as [Hout (o & Ho & How)%fmap_Some]; [by left|].
    apply wp_bind, (move_spec R i oid Library o p); try done.
    { intros j q Hq Hne. apply (Hothers j); [done..|by left]. }
    intros g1 H1. rewrite take_out_notin in H1 by done.
    set (p1 := put_into Library oid p) in H1.
    assert (Ep1 : p1 = with_cards (library p ++ [oid]) (hand p) p) by reflexivity.
    assert (Hi : (i < length (players g))%nat) by by eapply lookup_lt_Some.
    assert (Hids1 : ids g1 = ids g).
    { unfold ids. rewrite (ch_players _ _ _ H1), list_fmap_insert, list_insert_id; [done|].
      exact (ids_lookup g i p Hp). }
    apply (IH g1 p1).
    + by rewrite Hids1.
    + by rewrite (ch_players _ _ _ H1), list_lookup_insert_eq.
    + done.
    + intros x Hx. destruct (Hh x) as [Hxo Hxw]; [by right|]. split.
      * rewrite Ep1. unfold all_cards, cards in *. cbn. set_solver.
      * rewrite (ch_kin _ _ _ H1), Hxw. by rewrite Ep1.
    + intros j q x Hq Hne Hx. rewrite (ch_players _ _ _ H1), list_lookup_insert_ne in Hq by done.
      apply (Hothers j); [done..|by right].
    + intros g' Hg'. apply HQ. eapply changes_trans in Hg'; [|done].
      rewrite (ch_players _ _ _ H1), list_insert_insert_eq, Ep1 in Hg'. cbn in Hg'.
      by rewrite <- app_assoc in Hg'.
Qed.

Section Engine.
Context (registry : string -> option CardDefinition) (shuffle : Z -> list Z -> list Z).
Hypothesis shuffle_perm : forall mix l, shuffle mix l ≡ₚ l.

(** A player with a new hand of seven. *)
Record redrawn (p p' : OpeningPlayer) : Prop := {
  rd_redistributed : redistributed p p';
  rd_hand : length (hand p') = 7%nat;
  rd_battlefield : battlefield p' = battlefield p;
  rd_exile : exile p' = exile p
}.

Lemma redraw_spec R g i p Q :
  NoDup (ids g) -> players g !! i = Some p -> NoDup (all_cards p) ->
  (forall oid, oid ∈ hand p -> owner <$> objects g !! oid = Some (player_id p)) ->
  (forall j q oid, players g !! j = Some q -> j <> i -> oid ∈ hand p -> oid ∉ all_cards q) ->
  (7 <= length (hand p) + length (library p))%nat ->
  (forall g' p', changes g (<[i := p']> (players g)) g' -> redrawn p p' -> Q tt g') ->
  wp R (mulligan_redraw shuffle (player_id p)) Q g.
Proof.
  intros Hids Hp Hnd Hown Hothers Hlen HQ. unfold mulligan_redraw.
  assert (Hi : (i < length (players g))%nat) by by eapply lookup_lt_Some.
  apply wp_bind, wp_get, wp_bind. eapply wp_or_refuse_some; [by apply player_idx_lookup|].
  apply wp_bind, wp_get, wp_bind. eapply wp_unwrap; [done|]. apply wp_bind, wp_modify, wp_bind.
  set (p1 := with_cards (library p) [] p). set (g1 := with_players _ g).
  assert (H1 : changes g (<[i := p1]> (players g)) g1) by apply changes_with_players.
  assert (Hids1 : ids g1 = ids g).
  { unfold ids. rewrite (ch_players _ _ _ H1), list_fmap_insert, list_insert_id; [done|].
    exact (ids_lookup g i p Hp). }
  unfold all_cards, cards in Hnd. rewrite <- app_assoc in Hnd. apply NoDup_app in Hnd as (Hndh & Hdisj & _).
  eapply (return_hand_spec R i (hand p) g1 p1).
  - by rewrite Hids1.
  - by rewrite (ch_players _ _ _ H1), list_lookup_insert_eq.
  - done.
  - intros oid Ho. split; [|by apply Hown]. specialize (Hdisj oid Ho).
    unfold all_cards, cards, p1. cbn. set_solver.
  - intros j q oid Hq Hne Ho. rewrite (ch_players _ _ _ H1), list_lookup_insert_ne in Hq by done.
    by apply (Hothers j).
  - intros g2 H2. eapply changes_trans in H2; [|done].
    rewrite (ch_players _ _ _ H1), list_insert_insert_eq in H2. cbn in H2.
    apply wp_bind, wp_get, wp_bind. unfold shuffle_player_library.
    apply wp_bind, wp_get, wp_bind. eapply wp_unwrap.
    { by rewrite (ch_players _ _ _ H2), list_lookup_insert_eq. }
    apply wp_modify. cbn [library hand with_cards].
    match goal with |- context [shuffle ?mix ?l] => set (lib := shuffle mix l); assert (Hlib : lib ≡ₚ l) by apply shuffle_perm end.
    match goal with |- wp _ _ _ ?g => set (g3 := g) end.
    assert (H3 : changes g2 (<[i := with_cards lib [] p]> (players g2)) g3).
    { unfold g3. rewrite (ch_players _ _ _ H2). apply changes_with_players. }
    eapply changes_trans in H3; [|done]. rewrite (ch_players _ _ _ H2), list_insert_insert_eq in H3.
    apply (deal_spec R 7 i _ (with_cards lib [] p)).
    + by rewrite (ch_players _ _ _ H3), list_lookup_insert_eq.
    + cbn. rewrite Hlib, length_app. lia.
    + intros g4 H4. eapply changes_trans in H4; [|done].
      rewrite (ch_players _ _ _ H3), list_insert_insert_eq in H4. eapply HQ; [exact H4|].
      cbn. split; [split; try done| |done|done]; cbn.
      * unfold cards. cbn. rewrite app_assoc, (take_drop 7), Hlib. rewrite !app_assoc. f_equiv. f_equiv.
        apply Permutation_app_comm.
      * rewrite length_take, Hlib, length_app. lia.
Qed.
End Engine.
