(* ===== verification/OpeningCorrect.v ===== *)
(** * The opening of a game: the invariant

    What holds at every stage of the opening ([opening_ok]), what is left to do
    ([to_do]), and that every command of [Opening] that is accepted keeps the one
    and lessens the other ([command_spec]), and somebody has one ([can_go_on]). *)
From S2P Require Import Prelude Demand Automation Opening OpeningCards.
Open Scope cockatrice_scope.
Local Open Scope Z_scope.

Section Opening.
Context (registry : string -> option CardDefinition) (shuffle : Z -> list Z -> list Z).
Hypothesis shuffle_perm : forall mix l, shuffle mix l ≡ₚ l.
Context (decks : list (list Z)).

(** ** The invariant *)

(** Everybody has the cards of a deck of their own, of at least seven cards. *)
Record table (g : Game) : Prop := {
  t_ids : NoDup (ids g);
  t_len : length (players g) = length decks;
  t_decks : NoDup (concat decks);
  t_big d : d ∈ decks -> (7 <= length d)%nat;
  t_sub i p d : players g !! i = Some p -> decks !! i = Some d -> forall oid, oid ∈ all_cards p -> oid ∈ d;
  t_live i p d : players g !! i = Some p -> decks !! i = Some d -> has_lost p = false ->
    cards p ≡ₚ d /\ graveyard p = [] /\ command_zone p = [];
  t_owner i p d : players g !! i = Some p -> decks !! i = Some d -> has_lost p = false ->
    forall oid, oid ∈ d -> owner <$> objects g !! oid = Some (player_id p)
}.

(** The cards a player holds. *)
Definition out (p : OpeningPlayer) : Z :=
  Z.of_nat (length (hand p) + length (battlefield p) + length (exile p)).

(** How many cards this player still has to put on the bottom. *)
Definition bottoming (op : OpeningSequence) (p : OpeningPlayer) : option Z :=
  match bottom op with
  | Some b => if b.1 =? player_id p then Some b.2 else None
  | None => None
  end.

(** A player in the game: mulligans taken, whether the hand is kept, and the cards held. *)
Definition seat_ok (g : Game) (op : OpeningSequence) (p : OpeningPlayer) (t : Z) (kept : bool) : Prop :=
  0 <= t /\ (hand_window op = None -> battlefield p = [] /\ exile p = []) /\
  if bool_decide (starting_player op = None) then t = 0 /\ kept = false /\ out p = 0
  else if kept then bottom_count_of g t <= 7 /\ out p = 7 - bottom_count_of g t
  else
    match bottoming op p with
    | Some r => bottom_count_of g t <= 7 /\ 1 <= r <= bottom_count_of g t /\
        out p = 7 - bottom_count_of g t + r
    | None => bottom_count_of g t <= 6 /\ out p = 7
    end.

Record seats_ok (g : Game) (op : OpeningSequence) : Prop := {
  s_taken : length (mulligans_taken op) = length (players g);
  s_resolved : length (resolved op) = length (players g);
  s_lost i p : players g !! i = Some p -> has_lost p = true -> resolved op !! i = Some true;
  s_live i p t kept : players g !! i = Some p -> has_lost p = false ->
    mulligans_taken op !! i = Some t -> resolved op !! i = Some kept -> seat_ok g op p t kept
}.

(** Seat [i] is in the game, and this is its player. *)
Definition live (g : Game) (i : nat) (player : Z) : Prop :=
  exists p, players g !! i = Some p /\ has_lost p = false /\ player_id p = player.

(** The first turn will be or is that of a player in the game. *)
Definition first_player (g : Game) (starting : option Z) : Prop :=
  exists player, starting = Some player /\
    live g (active_player_idx g) player /\ starting_player_idx g = active_player_idx g.

(** Who decides next: at every stage the player with priority. *)
Inductive stage (g : Game) (op : OpeningSequence) : Prop :=
| choosing :
    starting_player op = None -> original_starting_player op = None -> mulligan_actor op = None ->
    bottom op = None -> hand_window op = None -> live g (priority_idx g) (chooser op) -> stage g op
| deciding player :
    first_player g (starting_player op) ->
    (exists o, original_starting_player op = Some o /\ o ∈ ids g) -> hand_window op = None ->
    live g (priority_idx g) player -> mulligan_actor op = Some player ->
    resolved op !! priority_idx g = Some false ->
    (forall b, bottom op = Some b -> b.1 = player) -> stage g op
| entering w :
    first_player g (starting_player op) -> hand_window op = Some w -> mulligan_actor op = None ->
    bottom op = None -> forallb id (resolved op) = true -> length (finished w) = length (players g) ->
    live g (priority_idx g) (actor w) -> finished w !! priority_idx g = Some false -> stage g op.

(** The first turn has begun: the players hold what their mulligans left them. *)
Definition begun (g : Game) (taken : list Z) : Prop :=
  (exists player, live g (priority_idx g) player) /\ active_player_idx g = priority_idx g /\
  starting_player_idx g = priority_idx g /\
  forall i p t, players g !! i = Some p -> has_lost p = false -> taken !! i = Some t ->
    0 <= bottom_count_of g t <= 7 /\ out p = 7 - bottom_count_of g t.

Definition opening_ok (taken : list Z) (g : Game) : Prop :=
  table g /\ outcome g = None /\
  match opening g with
  | Some op => mulligans_taken op = taken /\ seats_ok g op /\ stage g op
  | None => begun g taken
  end.

(** ** What is left to do *)

Definition weight (op : OpeningSequence) (i : nat) (p : OpeningPlayer) : Z :=
  if (resolved op !!! i : bool) then 0
  else match bottoming op p with Some r => r | None => 16 - mulligans_taken op !!! i end.

Definition weights (op : OpeningSequence) (ps : list OpeningPlayer) : Z :=
  zsum (imap (fun i p => weight op i p) ps).

Definition unfinished (w : OpeningHandWindow) : Z := zsum (map (fun done => Z.b2z (negb done)) (finished w)).

(** The cards in the hands of the players in the game. *)
Definition hands (ps : list OpeningPlayer) : Z :=
  zsum (map (fun p => if has_lost p then 0 else Z.of_nat (length (hand p))) ps).

Definition seats (g : Game) : Z := Z.of_nat (length (players g)).

Definition to_do (g : Game) : Z :=
  match opening g with
  | None => 0
  | Some op =>
      match hand_window op with
      | Some w => 1 + unfinished w + hands (players g)
      | None =>
          if bool_decide (starting_player op = None) then 24 * seats g + 3
          else 8 * seats g + 2 + weights op (players g)
      end
  end.

(** The players still in the game. *)
Definition in_game (g : Game) : Z := zsum (map (fun p => Z.b2z (negb (has_lost p))) (players g)).

(** ** Around the table *)

Lemma in_around start n j : (j < n)%nat -> j ∈ around start n.
Proof.
  intros Hj. unfold around. apply list_elem_of_In, in_map_iff.
  exists ((j + n - start mod n) mod n)%nat. split.
  - pose proof (Nat.mod_upper_bound start n). rewrite Nat.Div0.add_mod_idemp_r.
    rewrite (Nat.div_mod start n) at 1 by lia.
    replace (n * (start / n) + start mod n + (j + n - start mod n))%nat with (j + (1 + start / n) * n)%nat by lia.
    rewrite Nat.Div0.mod_add. by apply Nat.mod_small.
  - apply in_seq. pose proof (Nat.mod_upper_bound (j + n - start mod n) n). lia.
Qed.

Lemma around_lt start n j : j ∈ around start n -> (j < n)%nat.
Proof.
  unfold around. intros (k & <- & Hk%in_seq)%list_elem_of_In%in_map_iff. apply Nat.mod_upper_bound. lia.
Qed.

Lemma find_around f start n j :
  (j < n)%nat -> f j = true -> exists k, find f (around start n) = Some k /\ f k = true /\ (k < n)%nat.
Proof.
  intros Hj Hf. destruct (find f (around start n)) as [k|] eqn:E.
  - exists k. apply find_some in E as [Hin Hk]. split_and!; [done..|]. by eapply around_lt, list_elem_of_In.
  - eapply find_none in E; [|by apply list_elem_of_In, in_around]. congruence.
Qed.

Lemma next_unresolved_spec done start j :
  done !! j = Some false -> exists k, next_unresolved_from done start = Some k /\ done !! k = Some false.
Proof.
  intros Hj. unfold next_unresolved_from.
  destruct (find_around (fun i => negb (default true (done !! i))) start (length done) j)
    as (k & -> & Hk & Hlt); [by eapply lookup_lt_Some|by rewrite Hj|].
  exists k. split; [done|]. by destruct (done !! k) as [[]|].
Qed.

Lemma not_all_resolved l : forallb id l = false -> exists j, l !! j = Some false.
Proof.
  intros H. destruct (decide (false ∈ l)) as [Hin|Hn]; [by apply list_elem_of_lookup_1|].
  exfalso. apply not_true_iff_false in H. apply H, forallb_forall.
  intros [] Hin%list_elem_of_In; [done|]. by destruct Hn.
Qed.

Lemma all_resolved l i x : forallb id l = true -> l !! i = Some x -> x = true.
Proof.
  intros H Hi. rewrite forallb_forall in H. apply (H x), list_elem_of_In. by eapply list_elem_of_lookup_2.
Qed.

(** ** The table *)

Lemma deck_of g i p : table g -> players g !! i = Some p -> exists d, decks !! i = Some d.
Proof. intros Ht Hp. apply lookup_lt_is_Some. rewrite <- (t_len g Ht). by eapply lookup_lt_Some. Qed.

Lemma decks_disjoint g i j d e oid :
  table g -> decks !! i = Some d -> decks !! j = Some e -> i <> j -> oid ∈ d -> oid ∉ e.
Proof.
  intros Ht Hi Hj Hne Hd He. pose proof (t_decks g Ht) as Hnd. revert i j Hi Hj Hne. clear Ht.
  induction decks as [|c cs IH]; intros [|i] [|j] Hi Hj Hne; simplify_eq/=;
    apply NoDup_app in Hnd as (_ & Hdis & Hnd).
  - apply (Hdis oid Hd). apply list_elem_of_In, in_concat. exists e.
    split; apply list_elem_of_In; [by eapply list_elem_of_lookup_2|done].
  - apply (Hdis oid He). apply list_elem_of_In, in_concat. exists d.
    split; apply list_elem_of_In; [by eapply list_elem_of_lookup_2|done].
  - apply (IH Hnd i j); [done..|]. by intros ->.
Qed.

Lemma nodup_deck g i d : table g -> decks !! i = Some d -> NoDup d.
Proof.
  intros Ht. pose proof (t_decks g Ht) as Hnd. clear Ht. revert i.
  induction decks as [|c cs IH]; intros [|i] Hi; simplify_eq/=; apply NoDup_app in Hnd as (? & _ & ?);
    [done|by eapply IH].
Qed.

(** The cards of a player in the game. *)
Lemma live_cards g i p :
  table g -> players g !! i = Some p -> has_lost p = false ->
  exists d, decks !! i = Some d /\ NoDup (all_cards p) /\ all_cards p ≡ₚ d /\
    (7 <= length (cards p))%nat /\
    (forall oid, oid ∈ all_cards p -> owner <$> objects g !! oid = Some (player_id p)) /\
    (forall j q oid, players g !! j = Some q -> j <> i -> oid ∈ all_cards p -> oid ∉ all_cards q).
Proof.
  intros Ht Hp Hl. destruct (deck_of g i p Ht Hp) as [d Hd].
  destruct (t_live g Ht i p d Hp Hd Hl) as (Hc & Hg & Hcz).
  assert (Hall : all_cards p ≡ₚ d) by (unfold all_cards; by rewrite Hg, Hcz, !app_nil_r).
  exists d. split_and!; [done| |done| | |].
  - rewrite Hall. by eapply nodup_deck.
  - rewrite Hc. apply (t_big g Ht). by eapply list_elem_of_lookup_2.
  - intros oid Hin. rewrite Hall in Hin. by eapply (t_owner g Ht).
  - intros j q oid Hq Hne Hin Hin'. rewrite Hall in Hin. destruct (deck_of g j q Ht Hq) as [e He].
    apply (decks_disjoint g i j d e oid Ht Hd He); [done..|]. by eapply (t_sub g Ht).
Qed.

Lemma redistributed_all p p' : redistributed p p' -> all_cards p' ≡ₚ all_cards p.
Proof. intros []. unfold all_cards. by rewrite re_cards, re_graveyard, re_command. Qed.

(** The players after one of them was replaced. *)
Lemma changes_lookup g i p p' g' j q :
  players g !! i = Some p -> changes g (<[i := p']> (players g)) g' -> players g' !! j = Some q ->
  (j = i /\ q = p') \/ (j <> i /\ players g !! j = Some q).
Proof.
  intros Hp Hch Hq. rewrite (ch_players _ _ _ Hch) in Hq. apply list_lookup_insert_Some in Hq. naive_solver.
Qed.

Lemma changes_ids g i p p' g' :
  players g !! i = Some p -> player_id p' = player_id p -> changes g (<[i := p']> (players g)) g' ->
  ids g' = ids g.
Proof.
  intros Hp Hid Hch. unfold ids. rewrite (ch_players _ _ _ Hch), list_fmap_insert, list_insert_id; [done|].
  rewrite Hid. exact (ids_lookup g i p Hp).
Qed.

Lemma changes_length g i p' g' :
  changes g (<[i := p']> (players g)) g' -> length (players g') = length (players g).
Proof. intros Hch. by rewrite (ch_players _ _ _ Hch), length_insert. Qed.

Lemma table_changes g i p p' g' :
  table g -> players g !! i = Some p -> redistributed p p' ->
  changes g (<[i := p']> (players g)) g' -> table g'.
Proof.
  intros Ht Hp Hre Hch. split.
  - rewrite (changes_ids g i p p') by (done || apply Hre). apply Ht.
  - rewrite (changes_length _ _ _ _ Hch). apply Ht.
  - apply Ht.
  - apply Ht.
  - intros j q d Hq Hd oid. destruct (changes_lookup g i p p' g' j q Hp Hch Hq) as [[-> ->]|[_ Hq']].
    + rewrite (redistributed_all p p' Hre). by apply (t_sub g Ht i p d).
    + by apply (t_sub g Ht j q d).
  - intros j q d Hq Hd Hl. destruct (changes_lookup g i p p' g' j q Hp Hch Hq) as [[-> ->]|[_ Hq']].
    + rewrite (re_lost _ _ Hre) in Hl. destruct (t_live g Ht i p d Hp Hd Hl) as (Hc & Hg & Hcz).
      rewrite (re_cards _ _ Hre), (re_graveyard _ _ Hre), (re_command _ _ Hre). done.
    + by apply (t_live g Ht j q d).
  - intros j q d Hq Hd Hl oid Hin. rewrite (ch_kin _ _ _ Hch).
    destruct (changes_lookup g i p p' g' j q Hp Hch Hq) as [[-> ->]|[_ Hq']].
    + rewrite (re_lost _ _ Hre) in Hl. rewrite (re_id _ _ Hre). by apply (t_owner g Ht i p d).
    + by apply (t_owner g Ht j q d).
Qed.

Lemma table_same g g' : players g' = players g -> objects g' = objects g -> table g -> table g'.
Proof. intros Hp Ho []. unfold ids in *. split; unfold ids; rewrite ?Hp, ?Ho; done. Qed.

Lemma bottom_count_same g g' t :
  length (players g') = length (players g) -> bottom_count_of g' t = bottom_count_of g t.
Proof. unfold bottom_count_of. by intros ->. Qed.

Lemma bottom_count_nonneg g t : 0 <= bottom_count_of g t.
Proof. unfold bottom_count_of, u32_saturating_sub. lia. Qed.

Lemma live_same g g' i player : players g' = players g -> live g i player -> live g' i player.
Proof. unfold live. by intros ->. Qed.

Lemma live_idx g i player : NoDup (ids g) -> live g i player -> player_idx g player = Some i.
Proof. intros Hids (p & Hp & _ & <-). by apply player_idx_lookup. Qed.

Lemma live_inj g i j player : NoDup (ids g) -> live g i player -> live g j player -> i = j.
Proof. intros Hids Hi%live_idx Hj%live_idx; [congruence|done..]. Qed.

Lemma seat_ok_same g g' op p t kept :
  length (players g') = length (players g) -> seat_ok g op p t kept -> seat_ok g' op p t kept.
Proof. unfold seat_ok, bottom_count_of. by intros ->. Qed.

Lemma seats_ok_same g g' op : players g' = players g -> seats_ok g op -> seats_ok g' op.
Proof.
  intros E []. split; rewrite ?E; try done. intros i p t kept Hp Hl Ht Hk.
  apply (seat_ok_same g); [by rewrite E|by eauto].
Qed.

(** ** The window *)

(** The window is open, somebody starts and everybody has kept a hand. *)
Record window_open (taken : list Z) (g : Game) (op : OpeningSequence) (w : OpeningHandWindow) : Prop := {
  w_table : table g;
  w_outcome : outcome g = None;
  w_taken : mulligans_taken op = taken;
  w_seats : seats_ok g op;
  w_first : first_player g (starting_player op);
  w_window : hand_window op = Some w;
  w_actor : mulligan_actor op = None;
  w_bottom : bottom op = None;
  w_resolved : forallb id (resolved op) = true;
  w_finished : length (finished w) = length (players g)
}.

Lemma unfinished_nonneg w : 0 <= unfinished w.
Proof.
  apply zsum_nonneg, List.Forall_forall. intros x (b & <- & _)%in_map_iff. by destruct b.
Qed.

Lemma hands_nonneg ps : 0 <= hands ps.
Proof.
  apply zsum_nonneg, List.Forall_forall. intros x (p & <- & _)%in_map_iff. destruct (has_lost p); lia.
Qed.

Lemma unfinished_insert w i a :
  finished w !! i = Some false ->
  unfinished {| actor := a; finished := <[i := true]> (finished w) |} = unfinished w - 1.
Proof.
  intros Hi. unfold unfinished. cbn.
  change (map (fun done => Z.b2z (negb done)) (<[i:=true]> (finished w)))
    with ((fun done => Z.b2z (negb done)) <$> <[i:=true]> (finished w)).
  rewrite list_fmap_insert. erewrite zsum_insert; [|by rewrite list_lookup_fmap, Hi].
  change (map (fun done => Z.b2z (negb done)) (finished w))
    with ((fun done => Z.b2z (negb done)) <$> finished w). cbn. lia.
Qed.

(** Opened up for another actor, or with one more player finished. *)
Lemma window_open_update taken g op w w' :
  window_open taken g op w -> length (finished w') = length (finished w) ->
  window_open taken (with_opening (Some (with_window (Some w') op)) g) (with_window (Some w') op) w'.
Proof.
  intros [] Hlen. split; try done.
  - by apply (table_same g).
  - destruct w_seats0 as [? ? ? Hlive]. split; try done. intros i p t kept Hp Hl Ht Hk.
    destruct (Hlive i p t kept Hp Hl Ht Hk) as (H0 & He & H). split_and!; [done|done|exact H].
  - cbn. by rewrite Hlen.
Qed.

Lemma gemstone_cards_live g i p :
  NoDup (ids g) -> players g !! i = Some p -> opening_gemstone_cards registry g (player_id p) <> [] ->
  live g i (player_id p).
Proof.
  intros Hids Hp Hne. exists p. split_and!; [done| |done]. unfold opening_gemstone_cards, opening_hand_cards in Hne.
  destruct (opening g) as [op|]; [|done]. rewrite (player_idx_lookup g i p) in Hne by done. cbn in Hne.
  rewrite Hp in Hne. destruct (has_lost p); [|done]. by destruct (_ || _) in Hne.
Qed.

(** What a command that goes on with the opening leaves. *)
Definition leaves (taken : list Z) (ps : list OpeningPlayer) (bound : Z) (Q : unit -> Game -> Prop) : Prop :=
  forall g', opening_ok taken g' -> players g' = ps -> to_do g' <= bound -> Q tt g'.

Lemma begin_first_turn_spec R taken g op w Q :
  window_open taken g op w -> opening g = Some op -> leaves taken (players g) 0 Q ->
  wp R begin_first_turn Q g.
Proof.
  intros Hw Ho HQ. destruct (w_first _ _ _ _ Hw) as (player & Hs & Hl & Hst).
  pose proof (w_table _ _ _ _ Hw) as Ht. unfold begin_first_turn. wp_steps.
  rewrite Hs. cbn [or_refuse]. wp_steps.
  eapply wp_unwrap; [apply (live_idx g); [apply Ht|done]|]. wp_steps. apply HQ; [|done|done].
  split; [by apply (table_same g)|]. split; [apply (w_outcome _ _ _ _ Hw)|]. cbn. split; [by exists player|].
  split_and!; [done..|]. intros i p t Hp Hlost Htk. rewrite <- (w_taken _ _ _ _ Hw) in Htk.
  destruct (w_seats _ _ _ _ Hw) as [_ Hres _ Hok].
  destruct (lookup_lt_is_Some_2 (resolved op) i) as [kept Hk]; [rewrite Hres; by eapply lookup_lt_Some|].
  pose proof (all_resolved _ _ _ (w_resolved _ _ _ _ Hw) Hk). subst kept.
  destruct (Hok i p t true Hp Hlost Htk Hk) as (H0 & _ & H). rewrite Hs in H. cbn in H.
  rewrite (bottom_count_same g) by done. pose proof (bottom_count_nonneg g t). lia.
Qed.

Lemma advance_spec R taken indices : forall g op w Q,
  window_open taken g op w -> opening g = Some op ->
  (forall i, i ∈ indices -> (i < length (players g))%nat) ->
  leaves taken (players g) (1 + unfinished w + hands (players g)) Q ->
  wp R (advance_from registry indices) Q g.
Proof.
  induction indices as [|i indices IH]; intros g op w Q Hw Ho Hin HQ; cbn [advance_from].
  - eapply begin_first_turn_spec; [done..|]. intros g' Hg Hp Hd. apply HQ; [done..|].
    pose proof (unfinished_nonneg w). pose proof (hands_nonneg (players g)). lia.
  - destruct (lookup_lt_is_Some_2 (players g) i) as [p Hp]; [apply Hin; left|].
    destruct (lookup_lt_is_Some_2 (finished w) i) as [done Hf].
    { rewrite (w_finished _ _ _ _ Hw). apply Hin. left. }
    wp_steps. eapply wp_or_refuse_some; [by rewrite Ho; apply (w_window _ _ _ _ Hw)|]. wp_steps.
    destruct done; [eapply IH; [done..| |done]; intros j Hj; apply Hin; by right|]. wp_steps.
    case_bool_decide as Hcards; wp_steps; unfold set_finished, set_window_actor;
      rewrite (w_window _ _ _ _ Hw); cbn [fmap option_fmap option_map].
    + match goal with |- context [with_window (Some ?w') _] => set (w1 := w') end.
      assert (Hw1 := window_open_update taken g op w w1 Hw (length_insert _ _ _)).
      eapply IH; [exact Hw1|done| |].
      * intros j Hj. apply Hin. by right.
      * intros g' Hg Hps Hd. apply HQ; [done..|]. assert (E := unfinished_insert w i (actor w) Hf). fold w1 in E.
        cbn [players with_opening] in Hd. lia.
    + match goal with |- context [with_window (Some ?w') _] => set (w1 := w') end.
      assert (Hw1 := window_open_update taken g op w w1 Hw eq_refl). apply HQ; [|done|exact (Z.le_refl (1 + unfinished w + hands (players g)))].
      destruct Hw1. split; [apply (table_same g); [done..|apply (w_table _ _ _ _ Hw)]|]. split; [done|]. cbn [opening with_priority with_indices with_opening].
      split; [done|]. split; [by apply (seats_ok_same (with_opening (Some (with_window (Some w1) op)) g))|]. apply (entering _ _ w1); try done.
      apply (gemstone_cards_live g i p); [apply (w_table _ _ _ _ Hw)|done..].
Qed.

(** ** The next decision *)

(** Mulligans are being taken. *)
Record between (taken : list Z) (g : Game) (op : OpeningSequence) : Prop := {
  b_table : table g;
  b_outcome : outcome g = None;
  b_taken : mulligans_taken op = taken;
  b_seats : seats_ok g op;
  b_first : first_player g (starting_player op);
  b_original : exists o, original_starting_player op = Some o /\ o ∈ ids g;
  b_window : hand_window op = None
}.

Lemma first_player_some g s : first_player g s -> bool_decide (s = None) = false.
Proof. by intros (player & -> & _). Qed.

Lemma seat_values g op i p :
  seats_ok g op -> players g !! i = Some p ->
  exists t kept, mulligans_taken op !! i = Some t /\ resolved op !! i = Some kept.
Proof.
  intros [Ht Hr _ _] Hp%lookup_lt_Some.
  destruct (lookup_lt_is_Some_2 (mulligans_taken op) i) as [t ?]; [lia|].
  destruct (lookup_lt_is_Some_2 (resolved op) i) as [kept ?]; [lia|]. eauto.
Qed.

Lemma unresolved_live g op i :
  seats_ok g op -> resolved op !! i = Some false ->
  exists p, players g !! i = Some p /\ has_lost p = false.
Proof.
  intros Hs Hi. destruct (lookup_lt_is_Some_2 (players g) i) as [p Hp].
  { rewrite <- (s_resolved g op Hs). by eapply lookup_lt_Some. }
  exists p. split; [done|]. destruct (has_lost p) eqn:El; [|done]. pose proof (s_lost g op Hs i p Hp El). congruence.
Qed.

Lemma bottom_count_taken g t : bottom_count_of g t <= 6 -> t <= 7.
Proof. unfold bottom_count_of, u32_saturating_sub. destruct (2 <? _)%nat; cbn; lia. Qed.

Lemma weight_bounds g op i p :
  seats_ok g op -> starting_player op <> None -> players g !! i = Some p -> 0 <= weight op i p.
Proof.
  intros Hs Hst Hp. destruct (seat_values g op i p Hs Hp) as (t & kept & Ht & Hk). unfold weight.
  rewrite (list_lookup_total_correct _ _ _ Ht), (list_lookup_total_correct _ _ _ Hk).
  destruct kept; [done|]. destruct (unresolved_live g op i Hs Hk) as (p' & Hp' & Hl). simplify_eq.
  destruct (s_live g op Hs i p t false Hp Hl Ht Hk) as (H0 & _ & H). rewrite bool_decide_eq_false_2 in H by done.
  destruct (bottoming op p); [lia|]. pose proof (bottom_count_taken g t). lia.
Qed.

(** Nobody holds more than seven cards. *)
Lemma out_bound g op i p :
  seats_ok g op -> players g !! i = Some p -> has_lost p = false -> 0 <= out p <= 7.
Proof.
  intros Hs Hp Hl. destruct (seat_values g op i p Hs Hp) as (t & kept & Ht & Hk).
  destruct (s_live g op Hs i p t kept Hp Hl Ht Hk) as (_ & _ & H). pose proof (bottom_count_nonneg g t).
  destruct (bool_decide _); [lia|]. destruct kept; [lia|]. destruct (bottoming op p); lia.
Qed.

Lemma hands_bound g op : seats_ok g op -> hands (players g) <= 7 * seats g.
Proof.
  intros Hs. unfold hands, seats.
  assert (H : forall i p, players g !! i = Some p -> has_lost p = false -> Z.of_nat (length (hand p)) <= 7).
  { intros i p Hp Hl. pose proof (out_bound g op i p Hs Hp Hl). unfold out in *. lia. }
  revert H. generalize (players g). intros ps. induction ps as [|p ps IH]; intros H; cbn [map zsum length]; [lia|].
  assert (IHs : zsum (map (fun p => if has_lost p then 0 else Z.of_nat (length (hand p))) ps)
      <= 7 * Z.of_nat (length ps)) by (apply IH; intros i q; apply (H (S i))).
  destruct (has_lost p) eqn:El; [lia|]. specialize (H 0%nat p eq_refl El). lia.
Qed.

Lemma elem_of_imap {A B} (f : nat -> A -> B) l y : y ∈ imap f l -> exists i x, l !! i = Some x /\ y = f i x.
Proof.
  intros (i & Hi)%list_elem_of_lookup_1. rewrite list_lookup_imap in Hi. apply fmap_Some in Hi as (x & Hx & ->). eauto.
Qed.

Lemma weights_nonneg g op : seats_ok g op -> starting_player op <> None -> 0 <= weights op (players g).
Proof.
  intros Hs Hst. apply zsum_nonneg, Forall_forall. intros y (i & p & Hp & ->)%elem_of_imap.
  by eapply weight_bounds.
Qed.

Lemma seats_ok_actor g op a : seats_ok g op -> seats_ok g (with_actor a (bottom op) op).
Proof. intros []. by split. Qed.

Lemma ids_idx g player : player ∈ ids g -> exists i, player_idx g player = Some i.
Proof.
  intros (p & -> & Hp)%list_elem_of_fmap. unfold player_idx.
  destruct (list_find_elem_of (fun q => player_id q = player_id p) (players g) p) as [[i q] ->]; [done..|].
  by exists i.
Qed.

Lemma unfinished_all a n : unfinished {| actor := a; finished := replicate n false |} = Z.of_nat n.
Proof. unfold unfinished. cbn [finished]. induction n; cbn [replicate map zsum Z.b2z negb]; lia. Qed.

(** Seat [k] decides next. *)
Lemma decides_next taken g op k p :
  between taken g op -> resolved op !! k = Some false -> players g !! k = Some p ->
  (forall b, bottom op = Some b -> b.1 = player_id p) ->
  let g' := with_priority k (with_opening (Some (with_actor (Some (player_id p)) (bottom op) op)) g) in
  opening_ok taken g' /\ to_do g' = 8 * seats g + 2 + weights op (players g).
Proof.
  intros [] Hk Hp Hb. cbv zeta. split.
  - split; [by apply (table_same g)|]. split; [done|]. cbn [opening with_priority with_indices with_opening].
    split; [done|]. split; [by apply (seats_ok_same g), seats_ok_actor|].
    eapply deciding; [done..| |done|done|done]. destruct (unresolved_live g op k b_seats0 Hk) as (p' & Hp' & Hl).
    simplify_eq. by exists p.
  - unfold to_do. cbn [opening with_priority with_indices with_opening hand_window with_actor starting_player].
    by rewrite b_window0, (first_player_some _ _ b_first0).
Qed.

Lemma pick_next_spec R taken g op i Q :
  between taken g op -> opening g = Some op -> bottom op = None -> mulligan_actor op = None ->
  leaves taken (players g) (8 * seats g + 2 + weights op (players g)) Q ->
  wp R (opening_pick_next_or_finish registry i) Q g.
Proof.
  intros Hb Ho Hbot Hact HQ. unfold opening_pick_next_or_finish. wp_steps.
  destruct (forallb id (resolved op)) eqn:Hall.
  - destruct (b_original _ _ _ Hb) as (o & Horig & Hin). rewrite Horig. cbn [or_refuse]. wp_steps.
    destruct (ids_idx g o Hin) as [k Hk]. wp_steps. unfold opening_advance_hand_window. wp_steps.
    match goal with |- context [with_window (Some ?w') _] => set (w := w') end.
    cbn [players with_opening]. eapply (advance_spec R taken _ _ (with_window (Some w) op) w); [|done| |].
    + destruct Hb. split; try done; [by apply (table_same g)|..].
      * destruct b_seats0 as [? ? ? Hlive]. split; try done. intros j q t kept Hq Hl Ht Hkk.
        destruct (Hlive j q t kept Hq Hl Ht Hkk) as (H0 & He & H). split_and!; [done|done|exact H].
      * cbn. by rewrite length_replicate.
    + intros j. apply around_lt.
    + intros g' Hg Hps Hd. apply HQ; [done..|]. unfold w in Hd. rewrite unfinished_all in Hd.
      pose proof (weights_nonneg g op (b_seats _ _ _ Hb)). destruct (b_first _ _ _ Hb) as (? & Hs & _).
      unfold seats. rewrite Hs in *. assert (0 <= weights op (players g)) by by apply H.
      pose proof (hands_bound g op (b_seats _ _ _ Hb)). cbn [players with_opening] in Hd. unfold seats in *. lia.
  - destruct (not_all_resolved _ Hall) as [j Hj]. wp_steps.
    destruct (next_unresolved_spec (resolved op) ((i + 1) mod length (players g))%nat j Hj) as (k & -> & Hk).
    destruct (unresolved_live g op k (b_seats _ _ _ Hb) Hk) as (p & Hp & _). wp_steps.
    destruct (decides_next taken g op k p Hb Hk Hp) as [Hok Hd]; [by rewrite Hbot|].
    apply HQ; [done|done|]. by rewrite Hd.
Qed.

Lemma set_next_actor_spec R taken g op i Q :
  between taken g op -> opening g = Some op -> bottom op = None -> resolved op !! i = Some false ->
  leaves taken (players g) (8 * seats g + 2 + weights op (players g)) Q ->
  wp R (opening_set_next_actor_after_mulligan i) Q g.
Proof.
  intros Hb Ho Hbot Hi HQ. unfold opening_set_next_actor_after_mulligan. wp_steps.
  destruct (next_unresolved_spec (resolved op) ((i + 1) mod length (players g))%nat i Hi) as (k & -> & Hk).
  destruct (unresolved_live g op k (b_seats _ _ _ Hb) Hk) as (p & Hp & _). cbn [default from_option id]. wp_steps.
  destruct (decides_next taken g op k p Hb Hk Hp) as [Hok Hd]; [by rewrite Hbot|].
  apply HQ; [done|done|]. by rewrite Hd.
Qed.

(** ** One seat at a time *)

(** From [g] with [op] to [g'] with [op'], where seat [i] alone is another. *)
Record seat_change (g : Game) (op : OpeningSequence) (i : nat) (p : OpeningPlayer)
    (g' : Game) (op' : OpeningSequence) (p' : OpeningPlayer) (t' : Z) (kept' : bool) : Prop := {
  sc_old : players g !! i = Some p;
  sc_players : players g' = <[i := p']> (players g);
  sc_id : player_id p' = player_id p;
  sc_taken : mulligans_taken op' = <[i := t']> (mulligans_taken op);
  sc_resolved : resolved op' = <[i := kept']> (resolved op);
  sc_window : hand_window op' = None <-> hand_window op = None;
  sc_starting : starting_player op' = None <-> starting_player op = None;
  sc_bottom q : player_id q <> player_id p -> bottoming op' q = bottoming op q
}.

(** The same where nobody leaves and the stage stays. *)
Record seat_step (g : Game) (op : OpeningSequence) (i : nat) (p : OpeningPlayer)
    (g' : Game) (op' : OpeningSequence) (p' : OpeningPlayer) (t' : Z) (kept' : bool) : Prop := {
  ss_old : players g !! i = Some p;
  ss_players : players g' = <[i := p']> (players g);
  ss_id : player_id p' = player_id p;
  ss_lost : has_lost p' = has_lost p;
  ss_taken : mulligans_taken op' = <[i := t']> (mulligans_taken op);
  ss_resolved : resolved op' = <[i := kept']> (resolved op);
  ss_window : hand_window op' = hand_window op;
  ss_starting : starting_player op' = starting_player op;
  ss_bottom q : player_id q <> player_id p -> bottoming op' q = bottoming op q
}.

Lemma seat_step_change g op i p g' op' p' t' kept' :
  seat_step g op i p g' op' p' t' kept' -> seat_change g op i p g' op' p' t' kept'.
Proof. intros []. split; try done; [by rewrite ss_window0|by rewrite ss_starting0]. Qed.

Lemma other_id g i j p q :
  NoDup (ids g) -> players g !! i = Some p -> players g !! j = Some q -> j <> i -> player_id q <> player_id p.
Proof.
  intros Hids Hp%ids_lookup Hq%ids_lookup Hne E. rewrite E in Hq. apply Hne. by eapply NoDup_lookup.
Qed.

Lemma seat_change_ok g op i p g' op' p' t' kept' :
  NoDup (ids g) -> seats_ok g op -> seat_change g op i p g' op' p' t' kept' ->
  (has_lost p' = true -> kept' = true) ->
  (has_lost p' = false -> seat_ok g' op' p' t' kept') -> seats_ok g' op'.
Proof.
  intros Hids [Ht Hr Hlost Hlive] [] Hkept Hok.
  assert (Hlen : length (players g') = length (players g)) by by rewrite sc_players0, length_insert.
  assert (Hi : (i < length (players g))%nat) by by eapply lookup_lt_Some.
  split.
  - by rewrite sc_taken0, length_insert, Hlen.
  - by rewrite sc_resolved0, length_insert, Hlen.
  - intros j q Hq Hl. rewrite sc_players0 in Hq. rewrite sc_resolved0.
    apply list_lookup_insert_Some in Hq as [(<- & <- & _)|[Hne Hq]].
    + rewrite list_lookup_insert_eq by lia. f_equal. by apply Hkept.
    + rewrite list_lookup_insert_ne by done. by eapply Hlost.
  - intros j q t kept Hq Hl Htq Hk. rewrite sc_players0 in Hq. rewrite sc_taken0 in Htq. rewrite sc_resolved0 in Hk.
    apply list_lookup_insert_Some in Hq as [(<- & <- & _)|[Hne Hq]].
    + rewrite list_lookup_insert_eq in Htq by lia. rewrite list_lookup_insert_eq in Hk by lia. simplify_eq.
      by apply Hok.
    + rewrite list_lookup_insert_ne in Htq by done. rewrite list_lookup_insert_ne in Hk by done.
      specialize (Hlive j q t kept Hq Hl Htq Hk). unfold seat_ok in *.
      rewrite (bool_decide_ext _ _ sc_starting0), sc_window0, !(bottom_count_same g g') by done.
      rewrite sc_bottom0; [done|]. by eapply (other_id g i j).
Qed.

Lemma zsum_imap_insert {A} (f h : nat -> A -> Z) (l : list A) i x x' :
  l !! i = Some x -> (forall j y, j <> i -> l !! j = Some y -> h j y = f j y) ->
  zsum (imap h (<[i := x']> l)) = zsum (imap f l) - f i x + h i x'.
Proof.
  intros Hi Hext. assert (E : imap h (<[i := x']> l) = <[i := h i x']> (imap f l)).
  { apply list_eq. intros j. rewrite list_lookup_imap. destruct (decide (j = i)) as [->|Hne].
    - assert (Hlt : (i < length l)%nat) by by eapply lookup_lt_Some.
      rewrite !list_lookup_insert_eq; [done|by rewrite length_imap|done].
    - rewrite !list_lookup_insert_ne, list_lookup_imap by done. destruct (l !! j) as [y|] eqn:Hj; [|done].
      cbn. by rewrite Hext. }
  rewrite E. apply zsum_insert. by rewrite list_lookup_imap, Hi.
Qed.

Lemma seat_change_weights g op i p g' op' p' t' kept' :
  NoDup (ids g) -> seats_ok g op -> seat_change g op i p g' op' p' t' kept' ->
  weights op' (players g') = weights op (players g) - weight op i p + weight op' i p' /\
  weight op' i p' = if kept' then 0 else match bottoming op' p' with Some r => r | None => 16 - t' end.
Proof.
  intros Hids Hs []. assert (Hi : (i < length (players g))%nat) by by eapply lookup_lt_Some. split.
  - unfold weights. rewrite sc_players0. apply zsum_imap_insert; [done|]. intros j q Hne Hq.
    unfold weight. rewrite sc_resolved0, sc_taken0, !list_lookup_total_insert_ne by done.
    rewrite sc_bottom0; [done|]. by eapply (other_id g i j).
  - unfold weight. rewrite sc_resolved0, sc_taken0, !list_lookup_total_insert_eq; [done|..].
    + rewrite (s_taken g op Hs). lia.
    + rewrite (s_resolved g op Hs). lia.
Qed.

Lemma seat_step_ok g op i p g' op' p' t' kept' :
  NoDup (ids g) -> seats_ok g op -> seat_step g op i p g' op' p' t' kept' -> has_lost p = false ->
  seat_ok g' op' p' t' kept' -> seats_ok g' op'.
Proof.
  intros Hids Hs Hst Hl Hok. apply (seat_change_ok g op i p g' op' p' t' kept'); try done.
  - by apply seat_step_change.
  - rewrite (ss_lost _ _ _ _ _ _ _ _ _ Hst). congruence.
Qed.

Lemma seat_step_weights g op i p g' op' p' t' kept' :
  NoDup (ids g) -> seats_ok g op -> seat_step g op i p g' op' p' t' kept' ->
  weights op' (players g') = weights op (players g) - weight op i p + weight op' i p' /\
  weight op' i p' = if kept' then 0 else match bottoming op' p' with Some r => r | None => 16 - t' end.
Proof. intros Hids Hs Hst. by apply seat_change_weights, seat_step_change. Qed.

(** ** The commands *)

(** Who sits where, and who is in the game. *)
Definition seating (g : Game) : list (Z * bool) := map (fun p => (player_id p, has_lost p)) (players g).

(** A command of the player with priority leads on to a state that has less to do. *)
Definition goes_on (taken : list Z) (g : Game) (player : Z) (Q : unit -> Game -> Prop) : Prop :=
  forall g', opening_ok taken g' -> to_do g' < to_do g -> seating g' = seating g ->
    live g (priority_idx g) player -> Q tt g'.

Lemma deciding_actor taken g op player :
  opening_ok taken g -> opening g = Some op -> mulligan_actor op = Some player ->
  between taken g op /\ live g (priority_idx g) player /\ resolved op !! priority_idx g = Some false /\
  (forall b, bottom op = Some b -> b.1 = player).
Proof.
  intros (Ht & Hout & H) Ho Ha. rewrite Ho in H. destruct H as (Htk & Hs & [| |]); [congruence| |congruence].
  simplify_eq. by split_and!; [split|..].
Qed.

Lemma deciding_to_do taken g op :
  between taken g op -> opening g = Some op -> to_do g = 8 * seats g + 2 + weights op (players g).
Proof. intros [] Ho. unfold to_do. by rewrite Ho, b_window0, (first_player_some _ _ b_first0). Qed.

(** *** The first player *)

Definition with_seven (p : OpeningPlayer) : OpeningPlayer :=
  with_cards (drop 7 (library p)) (hand p ++ take 7 (library p)) p.

Lemma with_seven_redistributed p : redistributed p (with_seven p).
Proof.
  split; try done. unfold cards. cbn. rewrite app_assoc. rewrite <- (app_assoc (hand p)), (take_drop 7).
  by rewrite <- app_assoc.
Qed.

Definition deal_to (k : nat) (j : nat) (p : OpeningPlayer) : OpeningPlayer :=
  if (k <=? j)%nat && negb (has_lost p) then with_seven p else p.

Lemma deal_all_spec R n : forall k g Q,
  (k + n = length (players g))%nat -> table g ->
  (forall j p, players g !! j = Some p -> has_lost p = false -> (k <= j)%nat -> (7 <= length (library p))%nat) ->
  (forall g', table g' -> changes g (imap (deal_to k) (players g)) g' -> Q tt g') ->
  wp R (for_each (fun pi => do p <- get (fun g => players g !! pi); do p <- unwrap p;
    if has_lost p then ret tt else deal_seven pi) (seq k n)) Q g.
Proof.
  induction n as [|n IH]; intros k g Q Hk Ht Hlib HQ; cbn [seq for_each].
  - apply wp_ret, HQ; [done|].
    replace (imap (deal_to k) (players g)) with (players g); [apply changes_refl|].
    apply list_eq. intros j. rewrite list_lookup_imap. destruct (players g !! j) as [p|] eqn:Hj; [|done]. cbn.
    unfold deal_to. apply lookup_lt_Some in Hj. destruct (Nat.leb_spec k j); [lia|done].
  - destruct (lookup_lt_is_Some_2 (players g) k) as [p Hp]; [lia|]. wp_steps.
    assert (Hstep : forall j q, players g !! j = Some q -> deal_to k j q =
        deal_to (S k) j (if bool_decide (j = k) then deal_to k k q else q)).
    { intros j q Hq. unfold deal_to. case_bool_decide as Hjk; [subst j|].
      - rewrite Nat.leb_refl. destruct (Nat.leb_spec (S k) k); [lia|]. by destruct (has_lost q).
      - destruct (Nat.leb_spec k j), (Nat.leb_spec (S k) j); try done; lia. }
    destruct (has_lost p) eqn:El.
    + apply wp_ret. apply IH; [lia|done| |].
      { intros j q Hq Hl Hj. apply (Hlib j); [done..|lia]. }
      intros g' Ht' Hch. apply HQ; [done|].
      replace (imap (deal_to k) (players g)) with (imap (deal_to (S k)) (players g)); [done|].
      apply list_eq. intros j. rewrite !list_lookup_imap. destruct (players g !! j) as [q|] eqn:Hj; [|done].
      cbn. rewrite (Hstep j q Hj). case_bool_decide; [|done]. subst j. simplify_eq.
      assert (deal_to k k p = p) as -> by (unfold deal_to; by rewrite Nat.leb_refl, El). done.
    + apply (deal_spec R 7 k g p); [done|by apply (Hlib k)|]. fold (with_seven p). intros g1 H1.
      pose proof (table_changes g k p _ g1 Ht Hp (with_seven_redistributed p) H1) as Ht1.
      apply IH; [rewrite (changes_length _ _ _ _ H1); lia|done| |].
      { intros j q Hq Hl Hj. rewrite (ch_players _ _ _ H1), list_lookup_insert_ne in Hq by lia.
        apply (Hlib j); [done..|lia]. }
      intros g' Ht' Hch. apply HQ; [done|]. eapply changes_trans in Hch; [|exact H1].
      replace (imap (deal_to k) (players g)) with (imap (deal_to (S k)) (players g1)); [done|].
      rewrite (ch_players _ _ _ H1). apply list_eq. intros j. rewrite !list_lookup_imap.
      destruct (decide (j = k)) as [->|Hne].
      * rewrite list_lookup_insert_eq by (by eapply lookup_lt_Some). rewrite Hp. cbn. rewrite (Hstep k p Hp).
        rewrite bool_decide_eq_true_2 by done. 
        assert (deal_to k k p = with_seven p) as -> by (unfold deal_to; by rewrite Nat.leb_refl, El). done.
      * rewrite list_lookup_insert_ne by done. destruct (players g !! j) as [q|] eqn:Hj; [|done]. cbn.
        rewrite (Hstep j q Hj). by rewrite bool_decide_eq_false_2.
Qed.

Lemma seating_imap ps f :
  (forall j p, player_id (f j p) = player_id p /\ has_lost (f j p) = has_lost p) ->
  map (fun p => (player_id p, has_lost p)) (imap f ps) = map (fun p => (player_id p, has_lost p)) ps.
Proof.
  intros Hf. revert f Hf. induction ps as [|p ps IH]; intros f Hf; [done|]. cbn.
  destruct (Hf 0%nat p) as [-> ->]. f_equal. apply (IH (fun j => f (S j))). intros j q. apply Hf.
Qed.

Lemma deal_to_same k j p : player_id (deal_to k j p) = player_id p /\ has_lost (deal_to k j p) = has_lost p.
Proof. unfold deal_to. by destruct (_ && _). Qed.

(** Before the first player is chosen nobody holds a card. *)
Lemma choosing_seat g op i p :
  seats_ok g op -> starting_player op = None -> hand_window op = None ->
  players g !! i = Some p -> has_lost p = false ->
  mulligans_taken op !! i = Some 0 /\ resolved op !! i = Some false /\
  hand p = [] /\ battlefield p = [] /\ exile p = [].
Proof.
  intros Hs Hst Hw Hp Hl. destruct (seat_values g op i p Hs Hp) as (t & kept & Ht & Hk).
  destruct (s_live g op Hs i p t kept Hp Hl Ht Hk) as (_ & He & H). rewrite Hst in H. cbn in H.
  destruct H as (-> & -> & Ho). destruct (He Hw). split_and!; [done..| |done|done].
  apply length_zero_iff_nil. unfold out in Ho. lia.
Qed.

Lemma zsum_imap_le {A} (f : nat -> A -> Z) (l : list A) c :
  (forall i x, l !! i = Some x -> f i x <= c) -> zsum (imap f l) <= c * Z.of_nat (length l).
Proof.
  revert f. induction l as [|x l IH]; intros f H; cbn [imap zsum length]; [lia|].
  assert (zsum (imap (f ∘ S) l) <= c * Z.of_nat (length l)) by (apply IH; intros i; apply (H (S i))).
  specialize (H 0%nat x eq_refl). lia.
Qed.

(** Everybody in the game after the deal: seven cards and no mulligan. *)
Lemma dealt_seats g g' op sp :
  seats_ok g op -> starting_player op = None -> bottom op = None -> hand_window op = None ->
  table g -> players g' = imap (deal_to 0) (players g) ->
  seats_ok g' (with_actor (Some sp) (bottom op) (with_starting (Some sp) (Some sp) op)).
Proof.
  intros Hs Hst Hb Hw Ht E. assert (Hlen : length (players g') = length (players g)) by by rewrite E, length_imap.
  split; cbn [mulligans_taken resolved with_actor with_starting].
  - rewrite Hlen. apply Hs.
  - rewrite Hlen. apply Hs.
  - intros i q Hq Hl. rewrite E, list_lookup_imap in Hq. apply fmap_Some in Hq as (p & Hp & ->).
    apply (s_lost g op Hs i p Hp). by destruct (deal_to_same 0 i p) as [_ <-].
  - intros i q t kept Hq Hl Htq Hkq. rewrite E, list_lookup_imap in Hq. apply fmap_Some in Hq as (p & Hp & ->).
    destruct (deal_to_same 0 i p) as [_ El]. rewrite El in Hl.
    destruct (choosing_seat g op i p Hs Hst Hw Hp Hl) as (Ht0 & Hk0 & Hh & Hbf & Hex). simplify_eq.
    unfold deal_to. cbn. rewrite Hl. cbn. split_and!; [done|by cbn; rewrite Hbf, Hex|]. unfold seat_ok, bottoming. cbn.
    rewrite Hb. split; [by unfold bottom_count_of, u32_saturating_sub; destruct (2 <? _)%nat|].
    destruct (live_cards g i p Ht Hp Hl) as (d & _ & _ & _ & H7 & _ & _).
    unfold out, cards in *. cbn [hand library battlefield exile with_seven with_cards].
    rewrite Hh, Hbf, Hex, ?app_nil_r in *. cbn [app length] in *. rewrite length_take. lia.
Qed.

Lemma live_transfer g g' i player : seating g' = seating g -> live g i player -> live g' i player.
Proof.
  intros E (p & Hp & Hl & Hid). assert (H : seating g' !! i = Some (player, false)).
  { rewrite E. unfold seating. rewrite list_lookup_fmap, Hp. cbn. by rewrite Hl, Hid. }
  unfold seating in H. rewrite list_lookup_fmap in H. apply fmap_Some in H as (q & Hq & [= Hid' Hl']). by exists q.
Qed.

Lemma seating_ids g g' : seating g' = seating g -> ids g' = ids g.
Proof.
  intros E. apply (f_equal (map fst)) in E. unfold seating in E. rewrite !map_map in E. exact E.
Qed.

(** Where nobody puts cards back, sixteen commands a seat are enough. *)
Lemma weights_unbottomed g op :
  seats_ok g op -> bottom op = None -> weights op (players g) <= 16 * Z.of_nat (length (players g)).
Proof.
  intros Hs Hbot. apply zsum_imap_le. intros j q Hq. unfold weight, bottoming. rewrite Hbot.
  destruct (seat_values g op j q Hs Hq) as (t & kept & Htj & Hkj).
  rewrite (list_lookup_total_correct _ _ _ Htj), (list_lookup_total_correct _ _ _ Hkj).
  destruct kept; [lia|]. destruct (unresolved_live g op j Hs Hkj) as (q' & Hq' & Hlq). simplify_eq.
  destruct (s_live g op Hs j q t false Hq Hlq Htj Hkj) as [? _]. lia.
Qed.

Lemma choose_spec R taken g op player sp Q :
  opening_ok taken g -> opening g = Some op ->
  (R g \/ starting_player op = None /\ player = chooser op /\ exists i, live g i sp) ->
  goes_on taken g player Q -> wp R (choose_starting_player player sp) Q g.
Proof.
  intros (Ht & Hout & H) Ho HR HQ. rewrite Ho in H. destruct H as (Htk & Hs & Hstage).
  unfold choose_starting_player. wp_steps. case_bool_decide as Hst; cbn [negb].
  2: { apply wp_illegal. by destruct HR as [|[]]. }
  destruct Hstage as [_ Horig Hact Hbot Hwin Hchooser|? (? & Hc & _)|? (? & Hc & _)]; [|congruence..].
  destruct (Z.eqb_spec player (chooser op)) as [->|Hne]; cbn [negb].
  2: { apply wp_illegal. destruct HR as [|(_ & ? & _)]; [done|congruence]. }
  assert (Hsp : R g \/ exists i, live g i sp) by tauto. wp_steps.
  destruct (player_idx g sp) as [i|] eqn:Hi; cbn [or_refuse].
  2: { destruct Hsp as [|[i Hl]]; [done|]. rewrite (live_idx g i sp) in Hi; [done|apply Ht|done]. }
  destruct (player_idx_seat g sp i Hi) as (p & Hp & Hid). wp_steps.
  destruct (has_lost p) eqn:Hl.
  { apply wp_illegal. destruct Hsp as [|[j Hj]]; [done|].
    rewrite (live_idx g j sp) in Hi by (done || apply Ht). simplify_eq. destruct Hj as (? & ? & ? & _). congruence. }
  wp_steps. match goal with |- wp _ _ _ ?x => set (g1 := x) end.
  apply (deal_all_spec R _ 0 g1).
  - done.
  - by apply (table_same g).
  - intros j q Hq Hlq _. destruct (choosing_seat g op j q Hs Hst Hwin Hq Hlq) as (_ & _ & Hh & Hbf & Hex).
    destruct (live_cards g j q Ht Hq Hlq) as (d & _ & _ & _ & H7 & _ & _). unfold cards in H7.
    rewrite Hh, Hbf, Hex, !app_nil_r in H7. done.
  - intros g' Ht' Hch. assert (Hseat : seating g' = seating g).
    { unfold seating. rewrite (ch_players _ _ _ Hch). apply seating_imap, deal_to_same. }
    assert (Hlive : live g' i sp) by (apply (live_transfer g); [done|by exists p]).
    pose proof (dealt_seats g g' op sp Hs Hst Hbot Hwin Ht (ch_players _ _ _ Hch)) as Hs'.
    assert (Hlen : length (players g') = length (players g)) by (rewrite (ch_players _ _ _ Hch); apply length_imap).
    assert (Ho' := ch_opening _ _ _ Hch). assert (Hp1 := ch_priority _ _ _ Hch). assert (Hp2 := ch_active _ _ _ Hch).
    assert (Hp3 := ch_starting _ _ _ Hch). assert (Hp4 := ch_outcome _ _ _ Hch).
    unfold g1 in Ho', Hp1, Hp2, Hp3, Hp4. cbn in Ho', Hp1, Hp2, Hp3, Hp4.
    apply HQ; [| |done|done].
    + split; [done|]. split; [congruence|]. rewrite Ho'. split; [done|]. split; [done|].
      apply (deciding _ _ sp); cbn; rewrite ?Hp1; try done.
      * exists sp. by rewrite Hp2, Hp3.
      * exists sp. split; [done|]. rewrite (seating_ids g g' Hseat). subst sp. by eapply list_elem_of_lookup_2, ids_lookup.
      * apply (choosing_seat g op i p Hs Hst Hwin Hp Hl).
      * intros b. by rewrite Hbot.
    + unfold to_do. rewrite Ho', Ho. cbn [hand_window with_actor with_starting starting_player].
      rewrite Hwin, Hst, bool_decide_eq_false_2, bool_decide_eq_true_2 by done. unfold seats. rewrite Hlen.
      pose proof (weights_unbottomed g' (with_actor (Some sp) (bottom op) (with_starting (Some sp) (Some sp) op)) Hs' Hbot).
      lia.
Qed.

(** *** Mulligans *)

Lemma seat_step_seating g op i p g' op' p' t' kept' :
  seat_step g op i p g' op' p' t' kept' -> seating g' = seating g.
Proof.
  intros []. unfold seating. rewrite ss_players0.
  change (((fun p => (player_id p, has_lost p)) <$> <[i:=p']> (players g)) =
          ((fun p => (player_id p, has_lost p)) <$> players g)).
  rewrite list_fmap_insert, list_insert_id; [done|]. rewrite list_lookup_fmap, ss_old0. cbn. congruence.
Qed.

Lemma seat_step_between taken g op i p g' op' p' t' kept' :
  between taken g op -> seat_step g op i p g' op' p' t' kept' -> has_lost p = false ->
  table g' -> outcome g' = None -> active_player_idx g' = active_player_idx g ->
  starting_player_idx g' = starting_player_idx g ->
  original_starting_player op' = original_starting_player op -> seat_ok g' op' p' t' kept' ->
  between (<[i := t']> taken) g' op'.
Proof.
  intros [] Hst Hl Ht' Hout' Ha Hsi Ho Hok. pose proof (seat_step_seating _ _ _ _ _ _ _ _ _ Hst) as Hseat. split.
  - done.
  - done.
  - rewrite (ss_taken _ _ _ _ _ _ _ _ _ Hst). congruence.
  - by eapply seat_step_ok; [apply b_table0|..].
  - rewrite (ss_starting _ _ _ _ _ _ _ _ _ Hst). destruct b_first0 as (s & -> & Hlive & Hs). exists s.
    split; [done|]. rewrite Hsi, Ha. split; [by apply (live_transfer g)|done].
  - rewrite Ho, (seating_ids g g' Hseat). done.
  - by rewrite (ss_window _ _ _ _ _ _ _ _ _ Hst).
Qed.

(** Seat [i], which decides, changes: what is left to do is less. *)
Lemma deciding_step taken g op i p g' op' p' t t' kept' :
  between taken g op -> opening g = Some op -> seat_step g op i p g' op' p' t' kept' -> has_lost p = false ->
  resolved op !! i = Some false -> mulligans_taken op !! i = Some t ->
  (if kept' then 0 else match bottoming op' p' with Some r => r | None => 16 - t' end) <
    match bottoming op p with Some r => r | None => 16 - t end ->
  8 * seats g' + 2 + weights op' (players g') < to_do g.
Proof.
  intros Hb Ho Hst Hl Hres Htk Hlt. rewrite (deciding_to_do taken g op Hb Ho).
  destruct (seat_step_weights g op i p g' op' p' t' kept') as [E1 E2]; [apply (b_table _ _ _ Hb)|apply Hb|done|].
  rewrite E2 in E1. rewrite E1. unfold weight.
  rewrite (list_lookup_total_correct _ _ _ Hres), (list_lookup_total_correct _ _ _ Htk).
  unfold seats. rewrite (ss_players _ _ _ _ _ _ _ _ _ Hst), length_insert. lia.
Qed.

Lemma bottoming_self op player r p :
  player_id p = player -> bottoming (with_actor (Some player) (Some (player, r)) op) p = Some r.
Proof. intros <-. unfold bottoming. cbn. by rewrite Z.eqb_refl. Qed.

Lemma bottoming_other op a player r q :
  player_id q <> player -> bottoming (with_actor a (Some (player, r)) op) q = None.
Proof. intros Hne. unfold bottoming. cbn. destruct (Z.eqb_spec player (player_id q)); congruence. Qed.

Lemma bottoming_none op p : bottom op = None -> bottoming op p = None.
Proof. unfold bottoming. by intros ->. Qed.

(** A player who decides and is not putting cards back has all seven in hand. *)
Lemma deciding_seat g op i p :
  seats_ok g op -> starting_player op <> None -> hand_window op = None -> players g !! i = Some p ->
  has_lost p = false -> resolved op !! i = Some false ->
  exists t, mulligans_taken op !! i = Some t /\ 0 <= t /\ battlefield p = [] /\ exile p = [] /\
    match bottoming op p with
    | Some r => bottom_count_of g t <= 7 /\ 1 <= r <= bottom_count_of g t /\ out p = 7 - bottom_count_of g t + r
    | None => bottom_count_of g t <= 6 /\ out p = 7
    end.
Proof.
  intros Hs Hst Hw Hp Hl Hk. destruct (seat_values g op i p Hs Hp) as (t & kept & Ht & Hk'). simplify_eq.
  destruct (s_live g op Hs i p t false Hp Hl Ht Hk) as (H0 & He & H). destruct (He Hw).
  rewrite bool_decide_eq_false_2 in H by done. by exists t.
Qed.

(** From [g] with [op] to the current state [g1]: the hand of seat [i] is kept, [r] cards of it
    have to go to the bottom. *)
Lemma bottoming_spec R taken g op i p g1 op1 p1 t1 r f Q :
  between taken g op -> has_lost p = false ->
  (forall q, player_id q <> player_id p -> bottoming op q = None) ->
  f op1 = with_actor (Some (player_id p)) (Some (player_id p, r)) op1 ->
  seat_step g op i p g1 op1 p1 t1 false -> opening g1 = Some op1 -> table g1 -> outcome g1 = None ->
  active_player_idx g1 = active_player_idx g -> starting_player_idx g1 = starting_player_idx g ->
  priority_idx g1 = i -> original_starting_player op1 = original_starting_player op ->
  0 <= t1 -> battlefield p1 = [] -> exile p1 = [] -> bottom_count_of g t1 <= 7 -> 1 <= r <= bottom_count_of g t1 ->
  out p1 = 7 - bottom_count_of g t1 + r ->
  (forall g', opening_ok (<[i := t1]> taken) g' -> seating g' = seating g ->
     to_do g' = 8 * seats g + 2 + (weights op (players g) - weight op i p + r) -> Q tt g') ->
  wp R (modify_opening f) Q g1.
Proof.
  intros Hb Hl Hother Hf Hst1 Ho1 Ht1 Hout1 Ha1 Hs1 Hi1 Horig1 H0 Hbf Hex H7 Hr Hout HQ. wp_steps. rewrite Hf.
  set (op2 := with_actor _ _ op1). set (g2 := with_opening _ g1). pose proof (b_table _ _ _ Hb) as Htab.
  pose proof (first_player_some _ _ (b_first _ _ _ Hb)) as Hsome.
  assert (Hst : seat_step g op i p g2 op2 p1 t1 false).
  { destruct Hst1. split; try done. intros q Hq. rewrite (Hother q Hq).
    exact (bottoming_other op1 None _ _ q Hq). }
  assert (Hlen : length (players g2) = length (players g)).
  { by rewrite (ss_players _ _ _ _ _ _ _ _ _ Hst), length_insert. }
  assert (Hself : bottoming op2 p1 = Some r).
  { apply bottoming_self. apply (ss_id _ _ _ _ _ _ _ _ _ Hst). }
  assert (Hok : seat_ok g2 op2 p1 t1 false).
  { split_and!; [done|done|]. rewrite (ss_starting _ _ _ _ _ _ _ _ _ Hst), Hsome, Hself.
    rewrite (bottom_count_same g g2) by done. lia. }
  pose proof (seat_step_between _ _ _ _ _ _ _ _ _ _ Hb Hst Hl (table_same g1 g2 eq_refl eq_refl Ht1)
    Hout1 Ha1 Hs1 Horig1 Hok) as Hb2.
  apply HQ; [|by eapply seat_step_seating|].
  - pose proof Hb2 as [].
    split; [done|]. split; [done|]. cbn [opening g2 with_opening]. split; [done|]. split; [done|].
    apply (deciding _ _ (player_id p)); try done; cbn; rewrite ?Hi1.
    + exists p1. split_and!; [|by rewrite (ss_lost _ _ _ _ _ _ _ _ _ Hst)|apply (ss_id _ _ _ _ _ _ _ _ _ Hst)].
      cbn. rewrite (ss_players _ _ _ _ _ _ _ _ _ Hst1), list_lookup_insert_eq; [done|].
      eapply lookup_lt_Some, (ss_old _ _ _ _ _ _ _ _ _ Hst).
    + rewrite (ss_resolved _ _ _ _ _ _ _ _ _ Hst1), list_lookup_insert_eq; [done|].
      rewrite (s_resolved g op (b_seats _ _ _ Hb)). eapply lookup_lt_Some, (ss_old _ _ _ _ _ _ _ _ _ Hst).
    + intros b [= <-]. done.
  - destruct (seat_step_weights _ _ _ _ _ _ _ _ _ (t_ids g Htab) (b_seats _ _ _ Hb) Hst) as [E1 E2].
    rewrite Hself in E2. rewrite E2 in E1.
    rewrite (deciding_to_do _ g2 op2 Hb2 eq_refl), E1. unfold seats. by rewrite Hlen.
Qed.

Definition bump (i : nat) (taken : list Z) : list Z := <[i := taken !!! i + 1]> taken.

Lemma first_player_not_none g s : first_player g s -> s <> None.
Proof. by intros (player & -> & _). Qed.

(** Keeping a hand that owes nothing to the library, or putting the last card there. *)
Lemma resolve_spec R taken g op i p g1 op1 p1 t f Q :
  between taken g op -> has_lost p = false ->
  seat_step g op i p g1 (f op1) p1 t true -> opening g1 = Some op1 -> table g1 ->
  outcome g1 = None -> active_player_idx g1 = active_player_idx g ->
  starting_player_idx g1 = starting_player_idx g -> bottom (f op1) = None ->
  mulligan_actor (f op1) = None -> original_starting_player (f op1) = original_starting_player op ->
  0 <= t -> battlefield p1 = [] -> exile p1 = [] -> bottom_count_of g t <= 7 ->
  out p1 = 7 - bottom_count_of g t ->
  (forall g', opening_ok (<[i := t]> taken) g' -> seating g' = seating g ->
     to_do g' <= 8 * seats g + 2 + (weights op (players g) - weight op i p) -> Q tt g') ->
  wp R (modify_opening f ;; opening_pick_next_or_finish registry i) Q g1.
Proof.
  intros Hb Hl Hst Ho1 Ht1 Hout1 Ha1 Hs1 Hbot1 Hact1 Horig1 H0 Hbf Hex Hle Hout HQ. wp_steps.
  set (g2 := with_opening _ g1). pose proof (b_table _ _ _ Hb) as Htab.
  pose proof (first_player_some _ _ (b_first _ _ _ Hb)) as Hsome.
  assert (Hst2 : seat_step g op i p g2 (f op1) p1 t true) by by destruct Hst.
  assert (Hlen : length (players g2) = length (players g)).
  { by rewrite (ss_players _ _ _ _ _ _ _ _ _ Hst2), length_insert. }
  assert (Hok : seat_ok g2 (f op1) p1 t true).
  { split_and!; [done|done|]. rewrite (ss_starting _ _ _ _ _ _ _ _ _ Hst2), Hsome.
    rewrite (bottom_count_same g g2) by done. lia. }
  pose proof (seat_step_between _ _ _ _ _ _ _ _ _ _ Hb Hst2 Hl (table_same g1 g2 eq_refl eq_refl Ht1)
    Hout1 Ha1 Hs1 Horig1 Hok) as Hb2.
  eapply (pick_next_spec R (<[i := t]> taken) g2 (f op1)); [done..|]. intros g' Hg Hps Hd. apply HQ; [done| |].
  - rewrite <- (seat_step_seating _ _ _ _ _ _ _ _ _ Hst2). unfold seating. by rewrite Hps.
  - destruct (seat_step_weights _ _ _ _ _ _ _ _ _ (t_ids g Htab) (b_seats _ _ _ Hb) Hst2) as [E1 E2].
    rewrite E2 in E1. unfold seats in *. rewrite Hlen in Hd. lia.
Qed.

(** The player with priority decides on a hand of seven, after [t] mulligans. *)
Record decides (taken : list Z) (g : Game) (op : OpeningSequence) (p : OpeningPlayer) (t : Z) : Prop := {
  d_between : between taken g op;
  d_opening : opening g = Some op;
  d_player : players g !! priority_idx g = Some p;
  d_live : has_lost p = false;
  d_resolved : resolved op !! priority_idx g = Some false;
  d_bottom : bottom op = None;
  d_taken : mulligans_taken op !! priority_idx g = Some t;
  d_nonneg : 0 <= t;
  d_battlefield : battlefield p = [];
  d_exile : exile p = [];
  d_count : bottom_count_of g t <= 6;
  d_out : out p = 7
}.

Lemma decides_intro taken g op player :
  opening_ok taken g -> opening g = Some op -> mulligan_actor op = Some player -> bottom op = None ->
  exists p t, decides taken g op p t /\ player_id p = player.
Proof.
  intros Hok Ho Ha Hbot. destruct (deciding_actor taken g op player Hok Ho Ha) as (Hb & (p & Hp & Hl & Hid) & Hk & _).
  destruct (deciding_seat g op (priority_idx g) p (b_seats _ _ _ Hb)) as (t & Ht & H0 & Hbf & Hex & Hb6);
    [apply (first_player_not_none g), Hb|apply Hb|done..|].
  rewrite (bottoming_none op) in Hb6 by done. destruct Hb6. by exists p, t.
Qed.

Lemma decides_weight taken g op p t : decides taken g op p t -> weight op (priority_idx g) p = 16 - t.
Proof.
  intros []. unfold weight. rewrite (list_lookup_total_correct _ _ _ d_resolved0), (list_lookup_total_correct _ _ _ d_taken0).
  by rewrite bottoming_none.
Qed.

(** A state that is reached from a decision has less to do. *)
Lemma decides_goes taken taken' g op p t Q :
  decides taken g op p t -> goes_on taken' g (player_id p) Q ->
  forall g', opening_ok taken' g' -> seating g' = seating g ->
    to_do g' < 8 * seats g + 2 + weights op (players g) -> Q tt g'.
Proof.
  intros [] HQ g' Hok Hseat Hd. apply HQ; [done| |done|by exists p]. by rewrite (deciding_to_do taken g op).
Qed.

Lemma keep_spec R taken g op p t Q :
  decides taken g op p t -> goes_on taken g (player_id p) Q ->
  wp R (if bottom_count_of g t =? 0
        then modify_opening (resolve (priority_idx g)) ;; opening_pick_next_or_finish registry (priority_idx g)
        else start_bottoming (player_id p) (bottom_count_of g t)) Q g.
Proof.
  intros Hdec HQ. pose proof (decides_weight _ _ _ _ _ Hdec) as Hw. pose proof (decides_goes _ _ _ _ _ _ _ Hdec HQ) as Hgo.
  clear HQ. destruct Hdec as [Hb Ho Hp Hl Hk Hbot Ht H0 Hbf Hex H6 Hout]. set (i := priority_idx g) in *.
  pose proof (bottom_count_taken g t H6) as H7. pose proof (bottom_count_nonneg g t) as Hbn.
  assert (Hid : <[i:=t]> taken = taken) by (apply list_insert_id; by rewrite <- (b_taken _ _ _ Hb)).
  destruct (Z.eqb_spec (bottom_count_of g t) 0) as [Hz|Hz].
  - eapply (resolve_spec R taken g op i p g op p t (resolve i)); try done; [|apply Hb|(lia || apply Hb)..|].
    + split; try done; cbn; by rewrite ?list_insert_id.
    + rewrite Hid. intros g' Hg Hseat Hd. apply Hgo; [done..|lia].
  - eapply (bottoming_spec R taken g op i p g op p t (bottom_count_of g t)); try done; [| |apply Hb|(lia || apply Hb)..|].
    + intros q _. by apply bottoming_none.
    + split; try done; by rewrite list_insert_id.
    + rewrite Hid. intros g' Hg Hseat Hd. apply Hgo; [done..|lia].
Qed.

(** The hand of seat [i] was drawn anew, after which the mulligan is counted. *)
Record redraws (g : Game) (op : OpeningSequence) (p : OpeningPlayer) (t : Z) (g2 : Game) (op1 : OpeningSequence)
    (p' : OpeningPlayer) : Prop := {
  r_step : seat_step g op (priority_idx g) p g2 op1 p' (t + 1) false;
  r_opening : opening g2 = Some op1;
  r_table : table g2;
  r_outcome : outcome g2 = None;
  r_priority : priority_idx g2 = priority_idx g;
  r_active : active_player_idx g2 = active_player_idx g;
  r_starting : starting_player_idx g2 = starting_player_idx g;
  r_bottom : bottom op1 = None;
  r_resolved : resolved op1 = resolved op;
  r_original : original_starting_player op1 = original_starting_player op;
  r_battlefield : battlefield p' = [];
  r_exile : exile p' = [];
  r_out : out p' = 7
}.

Lemma redraws_intro R taken g op p t Q :
  decides taken g op p t ->
  let op1 := with_taken (<[priority_idx g := t + 1]> (mulligans_taken op)) op in
  (forall g2 p', redraws g op p t g2 op1 p' -> Q tt g2) ->
  wp R (mulligan_redraw shuffle (player_id p)) Q (with_opening (Some op1) g).
Proof.
  intros [Hb Ho Hp Hl Hk Hbot Ht H0 Hbf Hex H6 Hout] op1 HQ. pose proof (b_table _ _ _ Hb) as Htab.
  set (i := priority_idx g) in *. set (g1 := with_opening _ g).
  destruct (live_cards g i p Htab Hp Hl) as (d & _ & Hnd & _ & H7 & Hown & Hothers).
  eapply (redraw_spec shuffle shuffle_perm R g1 i p); try done; [apply Htab|..].
  - intros oid Hin. apply Hown. unfold all_cards, cards. set_solver.
  - intros j q oid Hq Hne Hin. apply (Hothers j q); [done..|]. unfold all_cards, cards. set_solver.
  - unfold cards in H7. rewrite Hbf, Hex, !length_app in H7. cbn in H7. lia.
  - intros g2 p' Hch [Hre Hhand Hbf' Hex']. rewrite Hbf in Hbf'. rewrite Hex in Hex'. apply (HQ g2 p'). split; try done.
    + destruct Hre. split; try done; [apply (ch_players _ _ _ Hch)|]. symmetry. by apply list_insert_id.
    + apply (ch_opening _ _ _ Hch).
    + by apply (table_changes g1 i p p'); [apply (table_same g)|..].
    + rewrite (ch_outcome _ _ _ Hch). apply Hb.
    + apply (ch_priority _ _ _ Hch).
    + apply (ch_active _ _ _ Hch).
    + apply (ch_starting _ _ _ Hch).
    + unfold out. by rewrite Hhand, Hbf', Hex'.
Qed.

(** With a card left to keep the table goes on. *)
Lemma redraws_between taken g op p t g2 op1 p' :
  decides taken g op p t -> redraws g op p t g2 op1 p' -> bottom_count_of g (t + 1) < 7 ->
  between (<[priority_idx g := t + 1]> taken) g2 op1.
Proof.
  intros [Hb Ho Hp Hl Hk Hbot Ht H0 Hbf Hex H6 Hout] [] H7.
  eapply (seat_step_between taken g op); try done.
  split_and!; [lia|done|]. rewrite (ss_starting _ _ _ _ _ _ _ _ _ r_step0).
  rewrite (first_player_some _ _ (b_first _ _ _ Hb)), (bottoming_none op1) by done.
  rewrite (bottom_count_same g g2); [lia|]. by rewrite (ss_players _ _ _ _ _ _ _ _ _ r_step0), length_insert.
Qed.

Lemma take_spec R taken g op p t g2 op1 p' Q :
  decides taken g op p t -> redraws g op p t g2 op1 p' ->
  goes_on (<[priority_idx g := t + 1]> taken) g (player_id p) Q ->
  wp R (if MAX_HAND_SIZE <=? bottom_count_of g (t + 1) then start_bottoming (player_id p) (bottom_count_of g (t + 1))
        else opening_set_next_actor_after_mulligan (priority_idx g)) Q g2.
Proof.
  intros Hdec Hr HQ. pose proof (decides_weight _ _ _ _ _ Hdec) as Hw. pose proof (decides_goes _ _ _ _ _ _ _ Hdec HQ) as Hgo.
  pose proof (redraws_between _ _ _ _ _ _ _ _ Hdec Hr) as Hb2. clear HQ.
  destruct Hdec as [Hb Ho Hp Hl Hk Hbot Ht H0 Hbf Hex H6 Hout], Hr as [Hst Ho2 Ht2 Hout2 Hpr Hac Hsp Hbot2 Hre Hor Hbf2 Hex2 Ho7].
  assert (Hb1 : bottom_count_of g (t + 1) <= bottom_count_of g t + 1) by (unfold bottom_count_of, u32_saturating_sub; lia).
  pose proof (bottom_count_taken g t H6) as H7. unfold MAX_HAND_SIZE.
  destruct (Z.leb_spec 7 (bottom_count_of g (t + 1))).
  - eapply (bottoming_spec R taken g op (priority_idx g) p g2 op1 p' (t + 1) (bottom_count_of g (t + 1))); try done; [|lia..|].
    + intros q _. by apply bottoming_none.
    + intros g' Hg Hseat Hd. apply Hgo; [done..|lia].
  - eapply (set_next_actor_spec R _ g2 op1); [by apply Hb2|done|done|by rewrite Hre|]. intros g' Hg Hps Hd. apply Hgo; [done| |].
    + rewrite <- (seat_step_seating _ _ _ _ _ _ _ _ _ Hst). unfold seating. by rewrite Hps.
    + destruct (seat_step_weights _ _ _ _ _ _ _ _ _ (t_ids g (b_table _ _ _ Hb)) (b_seats _ _ _ Hb) Hst) as [E1 E2].
      rewrite (bottoming_none op1) in E2 by done. rewrite E2 in E1. unfold seats in *.
      rewrite (ss_players _ _ _ _ _ _ _ _ _ Hst), length_insert in Hd.
      rewrite (ss_players _ _ _ _ _ _ _ _ _ Hst) in E1. lia.
Qed.

Lemma mulligan_spec R taken g op player (keep : bool) Q :
  opening_ok taken g -> opening g = Some op -> (exists i, live g i player) ->
  (R g \/ mulligan_actor op = Some player /\ bottom op = None) ->
  goes_on (if keep then taken else bump (priority_idx g) taken) g player Q ->
  wp R (mulligan registry shuffle player keep) Q g.
Proof.
  intros Hok Ho _ HR HQ. unfold mulligan. wp_steps. case_bool_decide as Hbot; cbn [negb].
  2: { apply wp_illegal. by destruct HR as [|[]]. }
  wp_steps. destruct (mulligan_actor op) as [a|] eqn:Ha; cbn [or_refuse].
  2: { by destruct HR as [|[]]. }
  wp_steps. destruct (Z.eqb_spec player a) as [->|Hne]; cbn [negb].
  2: { apply wp_illegal. destruct HR as [|[[= E] _]]; [done|congruence]. }
  destruct (decides_intro taken g op a Hok Ho Ha Hbot) as (p & t & Hdec & <-).
  pose proof (d_between _ _ _ _ _ Hdec) as Hb. pose proof (d_taken _ _ _ _ _ Hdec) as Ht.
  wp_steps. eapply wp_unwrap; [apply player_idx_lookup; [apply (b_table _ _ _ Hb)|apply Hdec]|].
  wp_steps. destruct keep; wp_steps; [by apply (keep_spec R taken g op p t)|].
  assert (Hu : u32_add t 1 = t + 1).
  { pose proof (d_nonneg _ _ _ _ _ Hdec). pose proof (bottom_count_taken g t (d_count _ _ _ _ _ Hdec)). apply u32_add_small; mlia. }
  rewrite Hu. apply (redraws_intro R taken g op p t); [done|]. intros g2 p' Hr.
  eapply (take_spec R taken g op p t); [done..|]. unfold bump in HQ.
  by rewrite <- (b_taken _ _ _ Hb), (list_lookup_total_correct _ _ _ Ht), (b_taken _ _ _ Hb) in HQ.
Qed.

(** *** Cards to the bottom *)

Lemma without_hand oid l : NoDup l -> oid ∈ l -> S (length (without oid l)) = length l.
Proof. intros Hnd Hin. by rewrite (without_perm oid l Hnd Hin) at 2. Qed.

(** A card of the hand moved somewhere else. *)
Lemma put_card p oid z :
  NoDup (all_cards p) -> oid ∈ hand p -> z ∈ [Library; Battlefield; Exile] ->
  let p' := put_into z oid (take_out oid p) in
  redistributed p p' /\ S (length (hand p')) = length (hand p) /\
  (forall x, x <> oid -> x ∈ hand p -> x ∈ hand p') /\
  out p' = out p - Z.b2z (bool_decide (z = Library)).
Proof.
  intros Hnd Hin Hz. unfold all_cards, cards in Hnd. rewrite <- !app_assoc in Hnd.
  apply NoDup_app in Hnd as (Hndh & Hd & Hndr). specialize (Hd oid Hin). rewrite !not_elem_of_app in Hd.
  destruct Hd as (Hl & Hb & He & Hg & Hc). pose proof (without_perm oid (hand p) Hndh Hin) as Hperm.
  assert (Hlen := without_hand oid (hand p) Hndh Hin). cbv zeta. split; [split; try done|split_and!].
  - unfold cards, put_into, take_out. cbn [hand library battlefield exile].
    rewrite !(without_notin oid (library p)), !(without_notin oid (battlefield p)), !(without_notin oid (exile p)) by done.
    transitivity ((oid :: without oid (hand p)) ++ library p ++ battlefield p ++ exile p);
      [|by apply Permutation_app_tail].
    apply elem_of_cons in Hz as [->|[->| ->%list_elem_of_singleton]%elem_of_cons]; cbn; solve_Permutation.
  - unfold put_into, take_out. cbn [graveyard]. rewrite without_notin by done.
    apply elem_of_cons in Hz as [->|[->| ->%list_elem_of_singleton]%elem_of_cons]; done.
  - unfold put_into, take_out. cbn [command_zone]. rewrite without_notin by done.
    apply elem_of_cons in Hz as [->|[->| ->%list_elem_of_singleton]%elem_of_cons]; done.
  - rewrite <- Hlen. unfold put_into, take_out. cbn [hand].
    apply elem_of_cons in Hz as [->|[->| ->%list_elem_of_singleton]%elem_of_cons]; done.
  - intros x Hx Hxin. unfold put_into, take_out. cbn [hand].
    assert (x ∈ without oid (hand p)).
    { rewrite Hperm in Hxin. by apply elem_of_cons in Hxin as [->|]. }
    apply elem_of_cons in Hz as [->|[->| ->%list_elem_of_singleton]%elem_of_cons]; done.
  - unfold out, put_into, take_out. cbn [hand battlefield exile]. rewrite !(without_notin _ (battlefield p)),
      !(without_notin _ (exile p)), <- Hlen by done.
    apply elem_of_cons in Hz as [->|[->| ->%list_elem_of_singleton]%elem_of_cons];
      repeat first [rewrite bool_decide_eq_true_2 by done|rewrite bool_decide_eq_false_2 by done];
      cbn [Z.b2z]; rewrite ?length_app; cbn [length]; lia.
Qed.

(** The player with priority has [r] cards of the hand still to put on the bottom. *)
Record returns (taken : list Z) (g : Game) (op : OpeningSequence) (p : OpeningPlayer) (t r : Z) : Prop := {
  p_between : between taken g op;
  p_opening : opening g = Some op;
  p_actor : mulligan_actor op = Some (player_id p);
  p_bottom : bottom op = Some (player_id p, r);
  p_player : players g !! priority_idx g = Some p;
  p_live : has_lost p = false;
  p_resolved : resolved op !! priority_idx g = Some false;
  p_taken : mulligans_taken op !! priority_idx g = Some t;
  p_nonneg : 0 <= t;
  p_battlefield : battlefield p = [];
  p_exile : exile p = [];
  p_count : bottom_count_of g t <= 7;
  p_range : 1 <= r <= bottom_count_of g t;
  p_out : out p = 7 - bottom_count_of g t + r
}.

Lemma bottoming_actor taken g op player r :
  opening_ok taken g -> opening g = Some op -> bottom op = Some (player, r) -> mulligan_actor op = Some player.
Proof.
  intros (_ & _ & H) Ho Hbot. rewrite Ho in H.
  destruct H as (_ & _ & [|? ? ? ? ? Ha ? Hb|]); [congruence| |congruence].
  rewrite Ha. f_equal. symmetry. by apply (Hb (player, r)).
Qed.

Lemma returns_intro taken g op player r :
  opening_ok taken g -> opening g = Some op -> bottom op = Some (player, r) ->
  exists p t, returns taken g op p t r /\ player_id p = player.
Proof.
  intros Hok Ho Hbot. pose proof (bottoming_actor _ _ _ _ _ Hok Ho Hbot) as Ha.
  destruct (deciding_actor taken g op player Hok Ho Ha) as (Hb & (p & Hp & Hl & Hid) & Hk & _).
  destruct (deciding_seat g op (priority_idx g) p (b_seats _ _ _ Hb)) as (t & Ht & H0 & Hbf & Hex & Hr);
    [apply (first_player_not_none g), Hb|apply Hb|done..|].
  assert (Hself : bottoming op p = Some r) by (unfold bottoming; rewrite Hbot; cbn; by rewrite Hid, Z.eqb_refl).
  rewrite Hself in Hr. destruct Hr as (? & ? & ?). subst player. by exists p, t.
Qed.

Lemma returns_weight taken g op p t r : returns taken g op p t r -> weight op (priority_idx g) p = r.
Proof.
  intros []. unfold weight. rewrite (list_lookup_total_correct _ _ _ p_resolved0).
  unfold bottoming. rewrite p_bottom0. cbn. by rewrite Z.eqb_refl.
Qed.

(** The card is back: another one follows, or the hand is kept. *)
Lemma returned_spec R taken g op p t r g1 p1 Q :
  returns taken g op p t r -> changes g (<[priority_idx g := p1]> (players g)) g1 -> redistributed p p1 ->
  out p1 = out p - 1 -> battlefield p1 = [] -> exile p1 = [] -> table g1 ->
  goes_on taken g (player_id p) Q ->
  wp R (if 0 <? u32_sub r 1
        then modify_opening (fun op => with_actor (mulligan_actor op) (Some (player_id p, u32_sub r 1)) op)
        else modify_opening (fun op => resolve (priority_idx g) (with_actor (mulligan_actor op) None op)) ;;
             opening_pick_next_or_finish registry (priority_idx g)) Q g1.
Proof.
  intros Hret Hch Hre Hout1 Hbf1 Hex1 Ht1 HQ. pose proof (returns_weight _ _ _ _ _ _ Hret) as Hw.
  destruct Hret as [Hb Ho Ha Hbot Hp Hl Hk Ht H0 Hbf Hex Hb7 Hr Hout]. set (i := priority_idx g) in *.
  assert (Hgo : forall g', opening_ok (<[i := t]> taken) g' -> to_do g' < to_do g -> seating g' = seating g -> Q tt g').
  { rewrite list_insert_id by (by rewrite <- (b_taken _ _ _ Hb)). intros g' ? ? ?; apply HQ; [done..|by exists p]. }
  clear HQ. rewrite (deciding_to_do taken g op Hb Ho) in Hgo.
  assert (Ho1 : opening g1 = Some op) by by rewrite (ch_opening _ _ _ Hch).
  assert (Hu : u32_sub r 1 = r - 1) by (apply u32_sub_small; mlia). rewrite Hu.
  pose proof (ch_outcome _ _ _ Hch) as Hout2. rewrite (b_outcome _ _ _ Hb) in Hout2.
  assert (Hst : seat_step g op i p g1 op p1 t false).
  { destruct Hre. split; try done; [apply (ch_players _ _ _ Hch)|symmetry; by apply list_insert_id..]. }
  assert (Hother : forall q, player_id q <> player_id p -> bottoming op q = None).
  { intros q Hq. unfold bottoming. rewrite Hbot. cbn. destruct (Z.eqb_spec (player_id p) (player_id q)); congruence. }
  destruct (Z.ltb_spec 0 (r - 1)).
  - eapply (bottoming_spec R taken g op i p g1 op p1 t (r - 1)); try done; [|apply Hch..|lia|lia|].
    + by rewrite Ha.
    + intros g' Hg Hseat Hd. apply Hgo; [done|lia|done].
  - eapply (resolve_spec R taken g op i p g1 op p1 t
      (fun op => resolve i (with_actor (mulligan_actor op) None op))); try done; [|apply Hch..|lia|].
    + destruct Hst. split; try done. intros q Hq. by rewrite Hother.
    + intros g' Hg Hseat Hd. apply Hgo; [done|lia|done].
Qed.

Lemma put_spec R taken g op player k Q :
  opening_ok taken g -> opening g = Some op -> (exists i, live g i player) ->
  (R g \/ k = 0 /\ exists r, bottom op = Some (player, r)) ->
  goes_on taken g player Q -> wp R (put_opening_hand_on_bottom registry player k) Q g.
Proof.
  intros Hok Ho [i0 Hi0] HR HQ. unfold put_opening_hand_on_bottom. pose proof (proj1 Hok) as Htab.
  wp_steps. eapply wp_unwrap; [by apply (live_idx g); [apply Htab|]|]. wp_steps.
  destruct (bottom op) as [[bp r]|] eqn:Hbot; cbn [or_refuse].
  2: { by destruct HR as [|(_ & r & ?)]. }
  wp_steps. cbn [fst snd]. destruct (Z.eqb_spec bp player) as [->|Hne]; cbn [negb].
  2: { apply wp_illegal. destruct HR as [|(_ & r' & [= ? _])]; [done|congruence]. }
  destruct (returns_intro taken g op player r Hok Ho Hbot) as (p & t & Hret & <-).
  pose proof Hret as [Hb _ _ _ Hp Hl _ _ _ Hbf Hex H7 Hr Hout].
  rewrite (live_inj g i0 (priority_idx g) (player_id p)) by (done || apply Htab || by exists p).
  set (i := priority_idx g) in *. wp_steps.
  assert (Hhand : Z.of_nat (length (hand p)) = out p) by (unfold out; rewrite Hbf, Hex; cbn; lia).
  destruct (hand p !! Z.to_nat k) as [oid|] eqn:Hoid; cbn [or_refuse].
  2: { destruct HR as [|[-> _]]; [done|]. apply lookup_ge_None in Hoid. lia. }
  wp_steps. apply list_elem_of_lookup_2 in Hoid.
  destruct (live_cards g i p Htab Hp Hl) as (d & _ & Hnd & _ & _ & Hown & Hothers).
  assert (Hin : oid ∈ all_cards p) by (unfold all_cards, cards; set_solver).
  destruct (proj1 (fmap_Some _ _ _) (Hown oid Hin)) as (o & Hobj & How).
  eapply (move_spec R i oid Library o p); try done; [apply Htab|by intros j q Hq Hne; apply (Hothers j)|].
  intros g1 Hch. destruct (put_card p oid Library Hnd Hoid) as (Hre & _ & _ & Hout1); [by left|].
  rewrite bool_decide_eq_true_2 in Hout1 by done. cbn [Z.b2z] in Hout1.
  apply (returned_spec R taken g op p t r g1 (put_into Library oid (take_out oid p))); try done.
  - cbn. by rewrite Hbf.
  - cbn. by rewrite Hex.
  - by apply (table_changes g i p (put_into Library oid (take_out oid p))).
Qed.

(** *** Cards that begin on the battlefield *)

Lemma entering_window taken g op w :
  opening_ok taken g -> opening g = Some op -> hand_window op = Some w ->
  window_open taken g op w /\ live g (priority_idx g) (actor w) /\ finished w !! priority_idx g = Some false /\
  to_do g = 1 + unfinished w + hands (players g).
Proof.
  intros (Ht & Hout & H) Ho Hw. rewrite Ho in H. destruct H as (Htk & Hs & [| |w' ? Hw']); [congruence..|].
  rewrite Hw in Hw'. injection Hw' as <-. split_and!; [by split|done|done|]. unfold to_do. by rewrite Ho, Hw.
Qed.

Lemma finish_spec R taken g op player Q :
  opening_ok taken g -> opening g = Some op -> (exists i, live g i player) ->
  (R g \/ exists w, hand_window op = Some w /\ actor w = player) ->
  goes_on taken g player Q -> wp R (finish_opening_hand_actions registry player) Q g.
Proof.
  intros Hok Ho [i0 Hi0] HR HQ. unfold finish_opening_hand_actions. pose proof (proj1 Hok) as Htab.
  wp_steps. eapply wp_unwrap; [by apply (live_idx g); [apply Htab|]|]. wp_steps. rewrite Ho. cbn [mbind option_bind].
  destruct (hand_window op) as [w|] eqn:Hw; cbn [or_refuse].
  2: { by destruct HR as [|(? & ? & _)]. }
  wp_steps. destruct (Z.eqb_spec (actor w) player) as [<-|Hne]; cbn [negb].
  2: { apply wp_illegal. destruct HR as [|(? & ? & ?)]; [done|congruence]. }
  destruct (entering_window taken g op w Hok Ho Hw) as (Hwin & Hlive & Hf & Htd).
  rewrite (live_inj g i0 (priority_idx g) (actor w)) by (done || apply Htab). wp_steps.
  unfold set_finished. rewrite Hw. cbn [fmap option_fmap option_map].
  match goal with |- context [with_window (Some ?w') _] => set (w1 := w') end.
  unfold opening_advance_hand_window. wp_steps.
  eapply (advance_spec R taken); [by apply (window_open_update taken g op w w1 Hwin), length_insert|done|intros j; apply around_lt|].
  intros g' Hg Hps Hd. apply HQ; [done| | |done].
  - assert (E := unfinished_insert w _ (actor w) Hf). fold w1 in E. cbn [players with_opening] in Hd. lia.
  - unfold seating. by rewrite Hps.
Qed.

Lemma hand_card g player oid generation :
  (oid, generation) ∈ opening_hand_cards g player ->
  exists i p, live g i player /\ players g !! i = Some p /\ oid ∈ hand p.
Proof.
  unfold opening_hand_cards. destruct (player_idx g player) as [i|] eqn:Hi; cbn [mbind option_bind];
    [|by intros ?%not_elem_of_nil].
  destruct (player_idx_seat g player i Hi) as (p & Hp & Hid). rewrite Hp.
  destruct (has_lost p) eqn:Hl; [by intros ?%not_elem_of_nil|].
  intros (x & Hx & Hin)%list_elem_of_omap. exists i, p. split_and!; [by exists p|done|].
  destruct (objects g !! x) as [o|]; [|done]. by destruct (_ && _); simplify_eq.
Qed.

Lemma validate_spec (R : Game -> Prop) g player source exiled Q :
  R g ->
  (forall w, opening g ≫= hand_window = Some w -> actor w = player ->
     source ∈ opening_hand_cards g player ->
     (forall e, exiled = Some e -> e.1 <> source.1 /\ e ∈ opening_hand_cards g player) -> Q tt g) ->
  wp R (validate_opening_hand_entry registry player source exiled) Q g.
Proof.
  intros HR HQ. unfold validate_opening_hand_entry. wp_steps.
  destruct (opening g ≫= hand_window) as [w|] eqn:Hw; cbn [or_refuse]; [|done]. wp_steps.
  destruct (Z.eqb_spec (actor w) player) as [Ha|]; cbn [negb orb]; [|done].
  match goal with |- context [if ?b then illegal _ else _] => destruct b end; [done|]. wp_steps.
  case_bool_decide as Hin; cbn [negb orb]; [|done].
  match goal with |- context [if ?b then illegal _ else _] => destruct b end; [done|].
  match goal with |- context [if ?b then illegal _ else _] => destruct b eqn:E end; [done|].
  apply wp_ret, (HQ w); try done. intros e ->. apply orb_false_iff in E as [_ E].
  apply orb_false_iff in E as [E1 E2]. apply Z.eqb_neq in E1. by apply negb_false_iff, bool_decide_eq_true in E2.
Qed.

Lemma hands_insert ps i p p' :
  ps !! i = Some p -> has_lost p = false -> has_lost p' = false ->
  hands (<[i := p']> ps) = hands ps - Z.of_nat (length (hand p)) + Z.of_nat (length (hand p')).
Proof.
  intros Hp Hl Hl'. unfold hands.
  change (zsum ((fun p => if has_lost p then 0 else Z.of_nat (length (hand p))) <$> <[i:=p']> ps) = 
    zsum ((fun p => if has_lost p then 0 else Z.of_nat (length (hand p))) <$> ps)
      - Z.of_nat (length (hand p)) + Z.of_nat (length (hand p'))).
  rewrite list_fmap_insert, Hl'. erewrite zsum_insert; [done|]. by rewrite list_lookup_fmap, Hp; cbn; rewrite Hl.
Qed.

(** A card of the hand of a player to the battlefield or to exile while the window is open. *)
Lemma window_move_spec R taken g op w i p oid z Q :
  window_open taken g op w -> opening g = Some op -> players g !! i = Some p -> has_lost p = false ->
  oid ∈ hand p -> z ∈ [Battlefield; Exile] ->
  (forall g' p', window_open taken g' op w -> opening g' = Some op -> seating g' = seating g ->
     players g' !! i = Some p' -> has_lost p' = false -> hands (players g') = hands (players g) - 1 ->
     (forall x, x <> oid -> x ∈ hand p -> x ∈ hand p') -> Q tt g') ->
  wp R (move_object_to_zone oid z) Q g.
Proof.
  intros Hw Ho Hp Hl Hoid Hz HQ. pose proof (w_table _ _ _ _ Hw) as Htab.
  destruct (live_cards g i p Htab Hp Hl) as (d & _ & Hnd & _ & _ & Hown & Hothers).
  assert (Hin : oid ∈ all_cards p) by (unfold all_cards, cards; set_solver).
  destruct (proj1 (fmap_Some _ _ _) (Hown oid Hin)) as (o & Hobj & How).
  eapply (move_spec R i oid z o p); try done; [apply Htab|by intros j q Hq Hne; apply (Hothers j)|].
  intros g1 Hch. destruct (put_card p oid z Hnd Hoid) as (Hre & Hlen & Hrest & Hout1); [set_solver|].
  rewrite bool_decide_eq_false_2 in Hout1 by set_solver. cbn [Z.b2z] in Hout1.
  set (p1 := put_into z oid (take_out oid p)) in *.
  assert (Ht1 : table g1) by by apply (table_changes g i p p1).
  destruct (seat_values g op i p (w_seats _ _ _ _ Hw) Hp) as (t & kept & Ht & Hk).
  assert (Hst : seat_step g op i p g1 op p1 t kept).
  { destruct Hre. split; try done; [apply (ch_players _ _ _ Hch)|symmetry; by apply list_insert_id..]. }
  pose proof (seat_step_seating _ _ _ _ _ _ _ _ _ Hst) as Hseat.
  assert (Hlp : length (players g1) = length (players g)).
  { by rewrite (ch_players _ _ _ Hch), length_insert. }
  apply (HQ g1 p1); try done.
  - destruct Hw. split; try done.
    + by rewrite (ch_outcome _ _ _ Hch).
    + eapply seat_step_ok; [apply Htab|done..|].
      destruct (s_live g op w_seats0 i p t kept Hp Hl Ht Hk) as (H0 & He & H).
      split_and!; [done|congruence|]. rewrite (bottom_count_same g g1) by done.
      assert (E : out p1 = out p) by lia. rewrite E. unfold bottoming in *. by rewrite w_bottom0 in *.
    + destruct w_first0 as (s & -> & Hls & Hss). exists s.
      rewrite (ch_active _ _ _ Hch), (ch_starting _ _ _ Hch). split_and!; [done|by apply (live_transfer g)|done].
    + by rewrite Hlp.
  - by rewrite (ch_opening _ _ _ Hch).
  - rewrite (ch_players _ _ _ Hch), list_lookup_insert_eq; [done|by eapply lookup_lt_Some].
  - rewrite (ch_players _ _ _ Hch), (hands_insert _ i p p1) by done. lia.
Qed.

Lemma begin_spec (R : Game -> Prop) taken g op player source exiled Q :
  opening_ok taken g -> opening g = Some op -> R g -> goes_on taken g player Q ->
  wp R (begin_with_gemstone_caverns registry player source exiled) Q g.
Proof.
  intros Hok Ho HR HQ. unfold begin_with_gemstone_caverns, commit_opening_hand_entry.
  pose proof (t_ids g (proj1 Hok)) as Hids. wp_step. apply wp_or_refuse; [done|]. intros src ->.
  wp_step. apply validate_spec; [done|]. intros w0 _ _ _ _. wp_step.
  apply validate_spec; [done|]. intros w Hw Ha Hsrc Hex. rewrite Ho in Hw. cbn in Hw.
  destruct (entering_window taken g op w Hok Ho Hw) as (Hwin & Hlive & Hf & Htd). rewrite Ha in Hlive.
  destruct src as [oid generation]. destruct (hand_card g player oid generation Hsrc) as (i & p & Hi & Hp & Hin).
  assert (Hl : has_lost p = false) by (destruct Hi as (p' & Hp' & Hl & _); congruence).
  assert (Hgo : forall g1, seating g1 = seating g -> opening g1 = Some op -> window_open taken g1 op w ->
      hands (players g1) < hands (players g) ->
      wp R (do i <- get (fun g => player_idx g player); do i <- or_refuse i (UnknownPlayer player);
            opening_advance_hand_window registry i) Q g1).
  { intros g1 Hseat Ho1 Hw1 Hless. wp_steps.
    eapply wp_or_refuse_some; [apply (live_idx g1); [by rewrite (seating_ids g g1)|by apply (live_transfer g)]|].
    unfold opening_advance_hand_window. wp_steps.
    eapply (advance_spec R taken); [done..|intros j; apply around_lt|]. intros g' Hg Hps Hd.
    apply HQ; [done|lia| |done]. rewrite <- Hseat. unfold seating. by rewrite Hps. }
  clear HQ. cbn [fst]. wp_steps.
  eapply (window_move_spec R taken g op w i p oid); [done..|set_solver|].
  intros g1 p1 Hw1 Ho1 Hseat1 Hp1 Hl1 Hh1 Hrest. wp_step.
  destruct exiled as [[e ge]|]; [|wp_step; apply Hgo; [done..|lia]].
  destruct (Hex (e, ge) eq_refl) as [Hne He]. cbn [fst] in *.
  destruct (hand_card g player e ge He) as (j & q & Hj & Hq & Hine).
  assert (j = i) as -> by by apply (live_inj g j i player). rewrite Hp in Hq. injection Hq as <-.
  eapply (window_move_spec R taken g1 op w i p1 e); [done..|by apply Hrest|set_solver|].
  intros g2 p2 Hw2 Ho2 Hseat2 Hp2 Hl2 Hh2 _. apply Hgo; [congruence|done..|lia].
Qed.

(** *** Conceding *)

Lemma in_game_seating g : in_game g = zsum (map (fun s : Z * bool => Z.b2z (negb s.2)) (seating g)).
Proof. unfold in_game, seating. by rewrite map_map. Qed.

(** Somebody left: [g'] is [g] but for the cards of those who are out. *)
Record left_alone (g g' : Game) : Prop := {
  la_table : table g -> table g';
  la_seating : seating g' = seating g;
  la_live i p : has_lost p = false -> players g !! i = Some p <-> players g' !! i = Some p;
  la_priority : priority_idx g' = priority_idx g;
  la_active : active_player_idx g' = active_player_idx g;
  la_starting : starting_player_idx g' = starting_player_idx g;
  la_opening : opening g' = opening g;
  la_outcome : outcome g' = outcome g
}.

Lemma left_alone_length g g' : seating g' = seating g -> length (players g') = length (players g).
Proof. intros E. apply (f_equal length) in E. unfold seating in E. by rewrite !length_map in E. Qed.

Lemma left_alone_ok taken g g' : left_alone g g' -> opening_ok taken g -> opening_ok taken g'.
Proof.
  intros [] (Ht & Hout & H). split; [by apply la_table0|]. split; [congruence|]. rewrite la_opening0.
  assert (Hlen := left_alone_length g g' la_seating0).
  assert (Hlive : forall i player, live g i player -> live g' i player) by (intros i player; by apply live_transfer).
  assert (Hids := seating_ids g g' la_seating0).
  destruct (opening g) as [op|].
  - destruct H as (Htk & Hs & Hst). split; [done|]. split.
    + destruct Hs as [Hs1 Hs2 Hs3 Hs4]. split; [by rewrite Hlen..| |].
      * intros i q Hq Hl. assert (Hseat : seating g !! i = Some (player_id q, true)).
        { rewrite <- la_seating0. unfold seating. rewrite list_lookup_fmap, Hq. cbn. by rewrite Hl. }
        unfold seating in Hseat. rewrite list_lookup_fmap in Hseat. apply fmap_Some in Hseat as (p & Hp & [= _ Hlp]).
        by apply (Hs3 i p).
      * intros i q t kept Hq Hl Ht' Hk. apply (seat_ok_same g); [done|]. apply (Hs4 i); [|done..].
        by apply la_live0.
    + assert (Hfirst : forall s, first_player g s -> first_player g' s).
      { intros s (player & -> & Hp & Hss). exists player. rewrite la_active0, la_starting0. auto. }
      destruct Hst as [|player ? (o & ? & ?)|w]; [apply choosing|apply (deciding _ _ player)|apply (entering _ _ w)];
        try done; rewrite ?la_priority0; auto; [exists o; by rewrite Hids|by rewrite Hlen].
  - destruct H as ((player & Hp) & Ha & Hsi & Hall). split; [exists player; rewrite la_priority0; auto|].
    split_and!; [congruence..|]. intros i q t Hq Hl Htk. rewrite (bottom_count_same g g') by done.
    apply (Hall i); [by apply la_live0|done..].
Qed.

Lemma filter_true {A} (f : A -> bool) l : (forall x, x ∈ l -> f x = true) -> List.filter f l = l.
Proof.
  induction l as [|x l IH]; intros H; [done|]. cbn. rewrite H by left. f_equal. apply IH. intros y Hy. apply H. by right.
Qed.

Definition owned (g : Game) (player oid : Z) : bool :=
  match objects g !! oid with Some o => owner o =? player | None => false end.

(** A player without the cards of another. *)
Definition bereft (g : Game) (player : Z) (p : OpeningPlayer) : OpeningPlayer :=
  let rest := List.filter (fun oid => negb (owned g player oid)) in
  {| player_id := player_id p; library := rest (library p); hand := rest (hand p);
     battlefield := rest (battlefield p); graveyard := rest (graveyard p); exile := rest (exile p);
     command_zone := command_zone p; has_lost := has_lost p |}.

Lemma bereft_live g player i p :
  table g -> (forall j q, players g !! j = Some q -> player_id q = player -> has_lost q = true) ->
  players g !! i = Some p -> has_lost p = false -> bereft g player p = p.
Proof.
  intros Ht Hgone Hp Hl. destruct (live_cards g i p Ht Hp Hl) as (d & _ & _ & _ & _ & Hown & _).
  assert (Hne : player_id p <> player) by (intros E; rewrite (Hgone i p Hp E) in Hl; done).
  assert (Hno : forall oid, oid ∈ all_cards p -> negb (owned g player oid) = true).
  { intros oid Hin. unfold owned. destruct (proj1 (fmap_Some _ _ _) (Hown oid Hin)) as (o & -> & <-).
    apply negb_true_iff. by apply Z.eqb_neq. }
  unfold bereft. unfold all_cards, cards in Hno.
  rewrite !filter_true by (intros x Hx; apply Hno; set_solver). by destruct p.
Qed.

Lemma remove_left_alone g player :
  table g -> (forall j q, players g !! j = Some q -> player_id q = player -> has_lost q = true) ->
  left_alone g (with_objects (filter (fun e => owner e.2 <> player) (objects g)) (zone_change_generation g)
                  (with_players (map (bereft g player) (players g)) g)).
Proof.
  intros Ht Hgone. set (g' := with_objects _ _ _).
  assert (Hlook : forall i, players g' !! i = bereft g player <$> players g !! i) by (intros i; apply list_lookup_fmap).
  assert (Hseat : seating g' = seating g).
  { unfold seating. cbn. rewrite map_map. by apply map_ext. }
  assert (Hlive : forall i p, has_lost p = false -> players g !! i = Some p <-> players g' !! i = Some p).
  { intros i p Hl. rewrite Hlook, fmap_Some. split.
    - intros Hp. exists p. split; [done|]. symmetry. by eapply bereft_live.
    - intros (q & Hq & ->). rewrite Hq. f_equal. symmetry. by eapply bereft_live. }
  split; try done. intros _. split.
  - rewrite (seating_ids g g' Hseat). apply Ht.
  - rewrite (left_alone_length g g' Hseat). apply Ht.
  - apply Ht.
  - apply Ht.
  - intros i q d Hq Hd oid Hin. rewrite Hlook in Hq. apply fmap_Some in Hq as (p & Hp & ->).
    apply (t_sub g Ht i p d Hp Hd). unfold all_cards, cards, bereft in *. cbn in Hin.
    rewrite !elem_of_app, !list_elem_of_In, !filter_In in Hin. rewrite !elem_of_app, !list_elem_of_In. tauto.
  - intros i q d Hq Hd Hl. apply (t_live g Ht i q d); [by apply Hlive|done..].
  - intros i q d Hq Hd Hl oid Hin. apply Hlive in Hq; [|done].
    pose proof (t_owner g Ht i q d Hq Hd Hl oid Hin) as How. rewrite <- How. cbn.
    apply fmap_Some in How as (o & Ho & Eo). rewrite Ho. rewrite (map_lookup_filter_Some_2 _ _ _ o); [done|done|].
    cbn. rewrite <- Eo. intros E. rewrite (Hgone i q Hq E) in Hl. done.
Qed.

Lemma left_alone_trans g1 g2 g3 : left_alone g1 g2 -> left_alone g2 g3 -> left_alone g1 g3.
Proof.
  intros [] []. split; try congruence; [auto|]. intros i p Hl. rewrite la_live0 by done. by apply la_live1.
Qed.

Lemma left_alone_refl g : left_alone g g.
Proof. by split. Qed.

Lemma remove_all_spec R gone : forall g Q,
  table g ->
  (forall player, player ∈ gone -> forall j q, players g !! j = Some q -> player_id q = player -> has_lost q = true) ->
  (forall g', left_alone g g' -> Q tt g') -> wp R (for_each remove_departing_player_objects gone) Q g.
Proof.
  induction gone as [|player gone IH]; intros g Q Ht Hgone HQ; cbn [for_each].
  - apply wp_ret, HQ, left_alone_refl.
  - wp_step. unfold remove_departing_player_objects. wp_step.
    pose proof (remove_left_alone g player Ht (Hgone player ltac:(left))) as Hla. apply IH.
    + by apply Hla.
    + intros x Hx j q Hq Hid. cbn in Hq. change (map _ (players g)) with (bereft g player <$> players g) in Hq.
      rewrite list_lookup_fmap in Hq. apply fmap_Some in Hq as (p & Hp & ->).
      apply (Hgone x ltac:(by right) j p Hp Hid).
    + intros g' Hg'. apply HQ. by eapply left_alone_trans.
Qed.

Lemma departed_lost g player :
  NoDup (ids g) -> player ∈ departed g ->
  forall j q, players g !! j = Some q -> player_id q = player -> has_lost q = true.
Proof.
  unfold departed. intros Hids (p & <- & Hp)%list_elem_of_In%in_map_iff j q Hq Hid.
  apply filter_In in Hp as [Hp%list_elem_of_In%list_elem_of_lookup_1 Hl]. destruct Hp as [i Hp].
  destruct (decide (j = i)) as [->|Hne]; [congruence|]. exfalso. by apply (other_id g i j p q Hids Hp Hq Hne).
Qed.

Lemma lose_players g i p :
  NoDup (ids g) -> players g !! i = Some p ->
  map (fun q => if player_id q =? player_id p then lose q else q) (players g) = <[i := lose p]> (players g).
Proof.
  intros Hids Hp. apply list_eq. intros j.
  change ((fun q => if player_id q =? player_id p then lose q else q) <$> players g)
    with ((fun q => if player_id q =? player_id p then lose q else q) <$> players g).
  destruct (decide (j = i)) as [->|Hne].
  - rewrite list_lookup_insert_eq by (by eapply lookup_lt_Some).
    etrans; [apply list_lookup_fmap|]. rewrite Hp. cbn. by rewrite Z.eqb_refl.
  - rewrite list_lookup_insert_ne by done. etrans; [apply list_lookup_fmap|].
    destruct (players g !! j) as [q|] eqn:Hq; [|done]. cbn.
    destruct (Z.eqb_spec (player_id q) (player_id p)) as [E|]; [|done].
    exfalso. by apply (other_id g i j p q Hids Hp Hq Hne).
Qed.

Lemma table_lose g i p g1 :
  table g -> players g !! i = Some p -> changes g (<[i := lose p]> (players g)) g1 -> table g1.
Proof.
  intros Ht Hp Hch. split.
  - rewrite (changes_ids g i p (lose p)) by done. apply Ht.
  - rewrite (changes_length _ _ _ _ Hch). apply Ht.
  - apply Ht.
  - apply Ht.
  - intros j q d Hq Hd. destruct (changes_lookup g i p _ g1 j q Hp Hch Hq) as [[-> ->]|[_ Hq']];
      [exact (t_sub g Ht i p d Hp Hd)|by apply (t_sub g Ht j q d)].
  - intros j q d Hq Hd Hl. destruct (changes_lookup g i p _ g1 j q Hp Hch Hq) as [[-> ->]|[_ Hq']]; [done|].
    by apply (t_live g Ht j q d).
  - intros j q d Hq Hd Hl oid Hin. rewrite (ch_kin _ _ _ Hch).
    destruct (changes_lookup g i p _ g1 j q Hp Hch Hq) as [[-> ->]|[_ Hq']]; [done|].
    by apply (t_owner g Ht j q d).
Qed.

Lemma hands_lose ps i p : ps !! i = Some p -> hands (<[i := lose p]> ps) <= hands ps.
Proof.
  intros Hp. unfold hands. set (f := fun p => if has_lost p then 0 else Z.of_nat (length (hand p))).
  change (zsum (f <$> <[i:=lose p]> ps) <= zsum (f <$> ps)). rewrite list_fmap_insert.
  erewrite zsum_insert; [|by rewrite list_lookup_fmap, Hp]. unfold f. cbn. destruct (has_lost p); lia.
Qed.

(** Those who stay are where they were. *)
Lemma live_stays g i p g1 j player :
  players g !! i = Some p -> changes g (<[i := lose p]> (players g)) g1 -> player <> player_id p ->
  live g j player -> live g1 j player.
Proof.
  intros Hp Hch Hne (q & Hq & Hl & Hid). exists q. split_and!; [|done..].
  rewrite (ch_players _ _ _ Hch), list_lookup_insert_ne; [done|]. intros ->. congruence.
Qed.

(** The opening without the player at seat [i], who has left. *)
Lemma departure_between taken g op i p g1 g2 op2 t :
  between taken g op -> players g !! i = Some p -> mulligans_taken op !! i = Some t ->
  (forall b, bottom op = Some b -> bottom op2 = None -> b.1 = player_id p) ->
  (bottom op2 = None \/ bottom op2 = bottom op) ->
  changes g (<[i := lose p]> (players g)) g1 -> players g2 = players g1 -> objects g2 = objects g1 ->
  outcome g2 = None -> mulligans_taken op2 = mulligans_taken op ->
  resolved op2 = <[i := true]> (resolved op) -> hand_window op2 = None ->
  first_player g2 (starting_player op2) -> original_starting_player op2 = original_starting_player op ->
  between taken g2 op2 /\ weights op2 (players g2) <= weights op (players g).
Proof.
  intros [] Hp Ht Hbot Hor Hch Hps Hobj Hout Htk Hres Hwin Hfirst Horig.
  pose proof (t_ids g b_table0) as Hids. pose proof (table_lose g i p g1 b_table0 Hp Hch) as Ht1.
  assert (Hst : seat_change g op i p g2 op2 (lose p) t true).
  { split; try done.
    - by rewrite Hps, (ch_players _ _ _ Hch).
    - by rewrite Htk, list_insert_id.
    - split; [|by intros E; rewrite E in b_first0; destruct b_first0 as (? & ? & _)].
      intros E. rewrite E in Hfirst. by destruct Hfirst as (? & ? & _).
    - intros q Hq. destruct Hor as [Hn|He]; [|by unfold bottoming; rewrite He].
      rewrite (bottoming_none op2) by done. unfold bottoming. destruct (bottom op) as [b|] eqn:Hb; [|done].
      destruct (Z.eqb_spec b.1 (player_id q)); [|done]. specialize (Hbot b eq_refl Hn). congruence. }
  pose proof (seat_change_ok _ _ _ _ _ _ _ _ _ Hids b_seats0 Hst ltac:(done) ltac:(done)) as Hs2. split.
  - split; try done; [by apply (table_same g1)|congruence|].
    rewrite Horig. destruct b_original0 as (o & ? & ?). exists o. split; [done|]. unfold ids. rewrite Hps.
    change (o ∈ ids g1). by rewrite (changes_ids g i p (lose p) g1).
  - destruct (seat_change_weights _ _ _ _ _ _ _ _ _ Hids b_seats0 Hst) as [E1 E2].
    assert (0 <= weight op i p) by (eapply weight_bounds; [done|by eapply first_player_not_none|done]). lia.
Qed.

Lemma next_in_game_spec g from j player :
  live g j player -> exists k q, next_in_game_player_idx g from = Some k /\ players g !! k = Some q /\ has_lost q = false.
Proof.
  intros (p & Hp & Hl & _). unfold next_in_game_player_idx.
  destruct (find_around (fun i => match players g !! i with Some p => negb (has_lost p) | None => false end)
    (S from) (length (players g)) j) as (k & -> & Hk & _); [by eapply lookup_lt_Some|by rewrite Hp, Hl|].
  destruct (players g !! k) as [q|] eqn:Hq; [|done]. exists k, q. split_and!; [done..|]. by apply negb_true_iff.
Qed.

(** The player at seat [i] left [g]; the state is [g1]. *)
Record departing (taken : list Z) (g : Game) (op : OpeningSequence) (i : nat) (p : OpeningPlayer) (g1 : Game) : Prop := {
  dp_ok : opening_ok taken g;
  dp_opening : opening g = Some op;
  dp_player : players g !! i = Some p;
  dp_changes : changes g (<[i := lose p]> (players g)) g1
}.

Lemma departing_table taken g op i p g1 : departing taken g op i p g1 -> table g1.
Proof. intros []. eapply table_lose; [apply dp_ok0|done..]. Qed.

(** Nobody has been dealt a card: somebody else may choose. *)
Lemma depart_choosing taken g op i p g1 c k :
  departing taken g op i p g1 -> starting_player op = None -> live g1 k c ->
  let op2 := with_chooser c (with_resolved (<[i := true]> (resolved op)) op) in
  let g2 := with_priority k (with_opening (Some op2) g1) in
  opening_ok taken g2 /\ to_do g2 <= to_do g.
Proof.
  intros Hd Hs Hc. cbv zeta. set (op2 := with_chooser _ _). set (g2 := with_priority _ _).
  pose proof (departing_table _ _ _ _ _ _ Hd) as Ht1. destruct Hd as [(Ht & Hout & H) Ho Hp Hch].
  rewrite Ho in H. destruct H as (Htk & Hseats & Hstage).
  destruct Hstage as [_ Horig Hact Hbot Hwin _|? (? & Hc' & _)|? (? & Hc' & _)]; [|congruence..].
  destruct (seat_values g op i p Hseats Hp) as (t & kept & Hti & _).
  assert (Hst : seat_change g op i p g2 op2 (lose p) t true).
  { split; try done; cbn; [by rewrite (ch_players _ _ _ Hch)|by rewrite list_insert_id]. }
  pose proof (seat_change_ok _ _ _ _ _ _ _ _ _ (t_ids g Ht) Hseats Hst ltac:(done) ltac:(done)) as Hs2. split.
  - split; [by apply (table_same g1)|]. split; [by cbn; rewrite (ch_outcome _ _ _ Hch)|].
    cbn [opening g2 with_priority with_indices with_opening]. split; [done|]. split; [done|]. by apply choosing.
  - unfold to_do. rewrite Ho. cbn [opening g2 with_priority with_indices with_opening].
    change (hand_window op2) with (hand_window op). change (starting_player op2) with (starting_player op).
    rewrite Hwin, Hs. unfold seats. cbn [players g2 with_priority with_indices with_opening].
    by rewrite (changes_length _ _ _ _ Hch).
Qed.

(** Who starts after a departure. *)
Lemma depart_first g i p g1 s k n :
  players g !! i = Some p -> changes g (<[i := lose p]> (players g)) g1 -> first_player g s -> live g1 k n ->
  s <> Some (player_id p) -> first_player g1 s.
Proof.
  intros Hp Hch (player & -> & Hl & Hs) Hk Hne. exists player. rewrite (ch_active _ _ _ Hch), (ch_starting _ _ _ Hch).
  split_and!; [done| |done]. apply (live_stays g i p); [done..|congruence|done].
Qed.

(** Mulligans are being taken: perhaps the player who decides has left. *)
Lemma depart_deciding R taken g op i p g1 g2 op2 Q :
  departing taken g op i p g1 -> hand_window op = None -> starting_player op <> None ->
  opening g2 = Some op2 -> players g2 = players g1 -> objects g2 = objects g1 -> outcome g2 = None ->
  priority_idx g2 = priority_idx g -> mulligans_taken op2 = mulligans_taken op ->
  resolved op2 = <[i := true]> (resolved op) -> hand_window op2 = None -> bottom op2 = bottom op ->
  mulligan_actor op2 = mulligan_actor op -> original_starting_player op2 = original_starting_player op ->
  first_player g2 (starting_player op2) ->
  (forall g', opening_ok taken g' -> players g' = players g1 -> to_do g' <= to_do g -> Q tt g') ->
  wp R (if bool_decide (mulligan_actor op = Some (player_id p))
           || match bottom op with Some b => b.1 =? player_id p | None => false end
        then modify_opening (with_actor None None) ;; opening_pick_next_or_finish registry i
        else ret tt) Q g2.
Proof.
  intros [Hok Ho Hp Hch] Hwin Hsome Ho2 Hps Hobj Hout Hpri Htk Hres Hwin2 Hbot Hact Horig Hfirst HQ.
  assert (exists a, mulligan_actor op = Some a) as [a Ha].
  { destruct Hok as (_ & _ & H). rewrite Ho in H. destruct H as (_ & _ & [|a|]); [done|by exists a|congruence]. }
  destruct (deciding_actor taken g op a Hok Ho Ha) as (Hb & Hlive & Hk & Hba).
  destruct (seat_values g op i p (b_seats _ _ _ Hb) Hp) as (t & _ & Ht & _).
  assert (Hlen : seats g2 = seats g) by (unfold seats; by rewrite Hps, (changes_length _ _ _ _ Hch)).
  rewrite (deciding_to_do taken g op Hb Ho) in HQ.
  match goal with |- context [if ?b then _ else _] => destruct b eqn:Hc end.
  - assert (a = player_id p) as ->.
    { apply orb_true_iff in Hc as [Hc|Hc]; [apply bool_decide_eq_true in Hc; congruence|].
      destruct (bottom op) as [b|] eqn:Eb; [|done]. apply Z.eqb_eq in Hc. rewrite <- Hc. symmetry. by apply Hba. }
    wp_steps. set (op3 := with_actor None None op2). set (g3 := with_opening (Some op3) g2).
    destruct (departure_between taken g op i p g1 g3 op3 t) as [Hb3 Hw3]; try done; [by intros b ? _; apply Hba|by left|].
    eapply (pick_next_spec R taken g3 op3); [done..|]. intros g' Hg Hps' Hd. apply HQ; [done|by rewrite Hps'|].
    change (seats g3) with (seats g2) in Hd. lia.
  - apply orb_false_iff in Hc as [Hc _]. apply bool_decide_eq_false in Hc.
    assert (Hne : a <> player_id p) by congruence. apply wp_ret.
    destruct (departure_between taken g op i p g1 g2 op2 t) as [Hb2 Hw2]; try done;
      [intros b Hbb Hbn; congruence|by right|].
    assert (Hlive1 : live g2 (priority_idx g2) a).
    { rewrite Hpri. apply (live_same g1); [done|]. by apply (live_stays g i p). }
    assert (Hi : priority_idx g <> i).
    { intros E. rewrite E in Hlive. destruct Hlive as (q & Hq & _ & Hid). congruence. }
    apply HQ; [|done|].
    + destruct Hb2. split; [done|]. split; [done|]. rewrite Ho2. split; [done|]. split; [done|].
      apply (deciding _ _ a); try done; [by rewrite Hact|by rewrite Hres, Hpri, list_lookup_insert_ne|].
      intros b Hbb. apply Hba. congruence.
    + rewrite (deciding_to_do taken g2 op2 Hb2 Ho2). lia.
Qed.

Lemma unfinished_finish w i a b :
  finished w !! i = Some b -> unfinished {| actor := a; finished := <[i := true]> (finished w) |} <= unfinished w.
Proof.
  intros Hi. destruct b.
  - rewrite list_insert_id by done. done.
  - rewrite unfinished_insert by done. lia.
Qed.

(** The window is open: perhaps it is the turn of the player who left. *)
Lemma depart_entering R taken g op i p g1 g2 op2 w next Q :
  departing taken g op i p g1 -> hand_window op = Some w ->
  opening g2 = Some op2 -> players g2 = players g1 -> objects g2 = objects g1 -> outcome g2 = None ->
  priority_idx g2 = priority_idx g -> mulligans_taken op2 = mulligans_taken op ->
  resolved op2 = <[i := true]> (resolved op) -> hand_window op2 = Some w -> bottom op2 = bottom op ->
  mulligan_actor op2 = mulligan_actor op -> first_player g2 (starting_player op2) ->
  (forall g', opening_ok taken g' -> players g' = players g1 -> to_do g' <= to_do g -> Q tt g') ->
  wp R (modify_opening (set_finished i) ;;
        if actor w =? player_id p then opening_advance_hand_window registry next else ret tt) Q g2.
Proof.
  intros Hdep Hw Ho2 Hps Hobj Hout Hpri Htk Hres Hw2 Hbot Hact Hfirst HQ.
  pose proof (departing_table _ _ _ _ _ _ Hdep) as Ht1. destruct Hdep as [Hok Ho Hp Hch].
  destruct (entering_window taken g op w Hok Ho Hw) as (Hwin & Hlive & Hf & Htd). destruct Hwin.
  destruct (seat_values g op i p w_seats0 Hp) as (t & kept & Hti & Hki).
  pose proof (all_resolved _ _ _ w_resolved0 Hki). subst kept.
  destruct (lookup_lt_is_Some_2 (finished w) i) as [b Hfi].
  { rewrite w_finished0. by eapply lookup_lt_Some. }
  wp_steps. unfold set_finished. rewrite Hw2. cbn [fmap option_fmap option_map].
  match goal with |- context [with_window (Some ?w') _] => set (w1 := w') end.
  set (op3 := with_window (Some w1) op2). set (g3 := with_opening (Some op3) g2).
  assert (Hst : seat_change g op i p g3 op3 (lose p) t true).
  { split; try done; cbn.
    - by rewrite Hps, (ch_players _ _ _ Hch).
    - by rewrite Htk, list_insert_id.
    - by rewrite Hw.
    - split; intros E; [rewrite E in Hfirst|rewrite E in w_first0];
        [by destruct Hfirst as (? & ? & _)|by destruct w_first0 as (? & ? & _)].
    - intros q _. unfold bottoming. cbn. by rewrite Hbot. }
  pose proof (seat_change_ok _ _ _ _ _ _ _ _ _ (t_ids g w_table0) w_seats0 Hst ltac:(done) ltac:(done)) as Hs3.
  assert (Hwin3 : window_open taken g3 op3 w1).
  { split; try done; cbn; [by apply (table_same g1)|congruence..| |].
    - by rewrite Hres, list_insert_id.
    - by rewrite length_insert, Hps, (changes_length _ _ _ _ Hch). }
  assert (Hun : unfinished w1 <= unfinished w) by by eapply unfinished_finish.
  assert (Hh : hands (players g3) <= hands (players g)).
  { cbn. rewrite Hps, (ch_players _ _ _ Hch). by apply hands_lose. }
  destruct (Z.eqb_spec (actor w) (player_id p)) as [Ha|Hne].
  - unfold opening_advance_hand_window. wp_steps.
    eapply (advance_spec R taken); [exact Hwin3|done|intros j; apply around_lt|].
    intros g' Hg Hps' Hd. apply HQ; [done|by rewrite Hps'|lia].
  - apply wp_ret, HQ; [|done|].
    + split; [apply Hwin3|]. split; [done|]. cbn [opening g3 with_opening]. split; [apply Hwin3|]. split; [done|].
      apply (entering _ _ w1); try done; try apply Hwin3;
        change (priority_idx g3) with (priority_idx g2); rewrite Hpri.
      * apply (live_same g1); [done|]. by apply (live_stays g i p).
      * cbn. rewrite list_lookup_insert_ne; [done|]. intros E. rewrite <- E in Hlive. destruct Hlive as (q & Hq & _ & Hid). congruence.
    + rewrite Htd. unfold to_do. cbn [opening g3 with_opening hand_window op3 with_window]. lia.
Qed.

(** Somebody else has yet to choose who starts. *)
Lemma depart_waiting taken g op i p g1 :
  departing taken g op i p g1 -> starting_player op = None -> chooser op <> player_id p ->
  let g2 := with_opening (Some (with_resolved (<[i := true]> (resolved op)) op)) g1 in
  mulligan_actor op = None /\ bottom op = None /\ hand_window op = None /\
  opening_ok taken g2 /\ to_do g2 <= to_do g.
Proof.
  intros Hdep Hst Hc g2. pose proof Hdep as [Hok Ho Hp Hch].
  assert (Hstage : mulligan_actor op = None /\ bottom op = None /\ hand_window op = None /\
    live g (priority_idx g) (chooser op)).
  { destruct Hok as (_ & _ & H). rewrite Ho in H. destruct H as (_ & _ & [|? (? & ? & _)|? (? & ? & _)]);
      [by split_and!|congruence..]. }
  destruct Hstage as (Hact & Hbot & Hwin & Hl).
  destruct (depart_choosing taken g op i p g1 (chooser op) (priority_idx g1) Hdep Hst) as [Hok2 Hd2].
  { rewrite (ch_priority _ _ _ Hch). by apply (live_stays g i p). }
  assert (E : g2 = with_priority (priority_idx g1) (with_opening (Some (with_chooser (chooser op)
    (with_resolved (<[i:=true]> (resolved op)) op))) g1)) by by destruct g1, op.
  rewrite E. by split_and!.
Qed.

Lemma reconcile_spec R taken g op i p g1 j c Q :
  departing taken g op i p g1 -> live g1 j c ->
  (forall g', opening_ok taken g' -> players g' = players g1 -> to_do g' <= to_do g -> Q tt g') ->
  wp R (reconcile_opening_departure registry (player_id p)) Q g1.
Proof.
  intros Hdep Hj HQ. pose proof (departing_table _ _ _ _ _ _ Hdep) as Ht1.
  destruct Hdep as [Hok Ho Hp Hch] eqn:Edep. clear Edep.
  assert (Hi1 : players g1 !! i = Some (lose p)).
  { rewrite (ch_players _ _ _ Hch), list_lookup_insert_eq; [done|by eapply lookup_lt_Some]. }
  assert (Ho1 : opening g1 = Some op) by by rewrite (ch_opening _ _ _ Hch).
  assert (Hout1 : outcome g1 = None) by (rewrite (ch_outcome _ _ _ Hch); apply Hok).
  unfold reconcile_opening_departure. wp_steps.
  assert (Hidx : player_idx g1 (player_id p) = Some i) by exact (player_idx_lookup g1 i (lose p) (t_ids g1 Ht1) Hi1).
  rewrite Hidx. wp_steps.
  destruct (next_in_game_spec g1 i j c Hj) as (k & q & -> & Hq & Hlq). cbn [or_refuse]. wp_steps. rewrite Ho1. wp_steps.
  assert (Hk : live g1 k (player_id q)) by by exists q.
  cbn [chooser starting_player with_resolved hand_window mulligan_actor bottom].
  case_bool_decide as Hst; cbn [andb].
  - destruct (Z.eqb_spec (chooser op) (player_id p)) as [Hc|Hc]; cbn [andb].
    + wp_steps. destruct (depart_choosing taken g op i p g1 (player_id q) k Hdep Hst Hk) as [Hok2 Hd2].
      by apply HQ.
    + destruct (depart_waiting taken g op i p g1 Hdep Hst Hc) as (Hact & Hbot & Hwin & Hok2 & Hd2).
      rewrite Hst, bool_decide_eq_false_2 by done. wp_steps. rewrite Hwin, Hact, Hbot, bool_decide_eq_false_2 by done.
      by apply HQ.
  - rewrite andb_false_r. set (op1 := with_resolved _ op).
    assert (Htail : forall g2 op2, opening g2 = Some op2 -> players g2 = players g1 -> objects g2 = objects g1 ->
      outcome g2 = None -> priority_idx g2 = priority_idx g1 ->
      (exists s, op2 = with_starting s (original_starting_player op) op1 /\ first_player g2 s) ->
      wp R (match hand_window op with
            | Some w => modify_opening (set_finished i) ;;
                if actor w =? player_id p then opening_advance_hand_window registry k else ret tt
            | None =>
                if bool_decide (mulligan_actor op = Some (player_id p))
                   || match bottom op with Some b => b.1 =? player_id p | None => false end
                then modify_opening (with_actor None None) ;; opening_pick_next_or_finish registry i
                else ret tt
            end) Q g2).
    { intros g2 op2 Ho2 Hps Hobj Hout Hpri (s & -> & Hfirst). rewrite (ch_priority _ _ _ Hch) in Hpri.
      destruct (hand_window op) as [w|] eqn:Hw.
      - by eapply (depart_entering R taken g op i p g1 g2).
      - by eapply (depart_deciding R taken g op i p g1 g2). }
    assert (Hfirst : first_player g (starting_player op)).
    { destruct Hok as (_ & _ & H). rewrite Ho in H. by destruct H as (_ & _ & []). }
    wp_step. destruct (decide (starting_player op = Some (player_id p))) as [Hs|Hs];
      [rewrite (bool_decide_eq_true_2 _ Hs)|rewrite (bool_decide_eq_false_2 _ Hs)]; wp_steps.
    + apply (Htail _ (with_starting (Some (player_id q)) (original_starting_player op) op1)); try done.
      exists (Some (player_id q)). split; [done|]. by exists (player_id q).
    + apply (Htail _ op1); try done. exists (starting_player op). split; [by destruct op|].
      by apply (depart_first g i p g1 _ k (player_id q)).
Qed.

Lemma left_alone_lookup g g' i p :
  left_alone g g' -> players g !! i = Some p ->
  exists q, players g' !! i = Some q /\ player_id q = player_id p /\ has_lost q = has_lost p /\
    (has_lost p = false -> q = p).
Proof.
  intros [] Hp. assert (H : seating g' !! i = Some (player_id p, has_lost p)).
  { rewrite la_seating0. unfold seating. by rewrite list_lookup_fmap, Hp. }
  unfold seating in H. rewrite list_lookup_fmap in H. apply fmap_Some in H as (q & Hq & [= -> E]).
  exists q. split_and!; [done..|]. intros Hl. apply la_live0 in Hp; [|done]. congruence.
Qed.

Lemma left_alone_map {A} g g' (f : nat -> OpeningPlayer -> A) :
  left_alone g g' ->
  (forall i p q, player_id q = player_id p -> has_lost q = has_lost p -> (has_lost p = false -> q = p) ->
     f i q = f i p) -> imap f (players g') = imap f (players g).
Proof.
  intros Hla Hf. pose proof (left_alone_length g g' (la_seating _ _ Hla)) as Hlen.
  apply list_eq. intros i. rewrite !list_lookup_imap. destruct (players g !! i) as [p|] eqn:Hp.
  - destruct (left_alone_lookup g g' i p Hla Hp) as (q & -> & Hid & Hl & Hsame). cbn. f_equal. by apply Hf.
  - apply lookup_ge_None in Hp. destruct (players g' !! i) eqn:Hq; [|done]. apply lookup_lt_Some in Hq. lia.
Qed.

Lemma imap_const {A B} (f : A -> B) l : imap (fun _ x => f x) l = map f l.
Proof. induction l as [|x l IH]; [done|]. cbn. f_equal. exact IH. Qed.

Lemma left_alone_to_do g g' : left_alone g g' -> to_do g' = to_do g.
Proof.
  intros Hla. unfold to_do, seats, hands, weights. rewrite (la_opening _ _ Hla).
  destruct (opening g) as [op|]; [|done]. rewrite (left_alone_length g g' (la_seating _ _ Hla)).
  rewrite <- !imap_const, (left_alone_map g g' (fun _ p => if has_lost p then 0 else Z.of_nat (length (hand p))) Hla).
  - rewrite (left_alone_map g g' (fun i p => weight op i p) Hla); [done|].
    intros i p q Hid _ _. unfold weight, bottoming. by rewrite Hid.
  - intros i p q _ Hl Hsame. rewrite Hl. destruct (has_lost p); [done|]. by rewrite Hsame.
Qed.

Lemma in_game_lose g i p g1 :
  players g !! i = Some p -> has_lost p = false -> players g1 = <[i := lose p]> (players g) ->
  in_game g1 = in_game g - 1.
Proof.
  intros Hp Hl E. unfold in_game. rewrite E.
  change (zsum ((fun p => Z.b2z (negb (has_lost p))) <$> <[i:=lose p]> (players g)) =
    zsum ((fun p => Z.b2z (negb (has_lost p))) <$> players g) - 1).
  rewrite list_fmap_insert. erewrite zsum_insert; [|by rewrite list_lookup_fmap, Hp]. cbn. rewrite Hl. cbn. lia.
Qed.

Lemma concede_spec R taken g op i p Q :
  opening_ok taken g -> opening g = Some op -> players g !! i = Some p -> has_lost p = false ->
  (forall g', outcome g' <> None \/
     opening_ok taken g' /\ to_do g' <= to_do g /\ in_game g' < in_game g /\ ids g' = ids g -> Q tt g') ->
  wp R (concede_batch registry (player_id p)) Q g.
Proof.
  intros Hok Ho Hp Hl HQ. pose proof (proj1 Hok) as Ht. unfold concede_batch. wp_steps. cbn [players with_players].
  rewrite (lose_players g i p (t_ids g Ht) Hp). set (g1 := with_players _ g).
  assert (Hch1 : changes g (<[i := lose p]> (players g)) g1) by apply changes_with_players.
  destruct (List.filter (fun p => negb (has_lost p)) (<[i:=lose p]> (players g))) as [|q [|q2 rest]] eqn:Ef.
  - wp_steps. cbn [outcome with_outcome]. rewrite bool_decide_eq_false_2 by done. apply wp_ret, HQ. by left.
  - wp_steps. cbn [outcome with_outcome]. rewrite bool_decide_eq_false_2 by done. apply wp_ret, HQ. by left.
  - wp_steps. cbn [outcome with_outcome]. rewrite bool_decide_eq_true_2 by done. cbn [negb].
    assert (Eg : with_outcome None g1 = g1).
    { assert (Hout : outcome g = None) by apply Hok. unfold g1. clear -Hout. destruct g. cbn in *. by subst. }
    rewrite Eg. assert (Hq : q ∈ <[i:=lose p]> (players g) /\ negb (has_lost q) = true).
    { rewrite list_elem_of_In. apply (filter_In (fun p => negb (has_lost p))). rewrite Ef. by left. }
    destruct Hq as [[j Hj]%list_elem_of_lookup_1 Hlq%negb_true_iff]. wp_step.
    eapply (reconcile_spec R taken g op i p g1 j (player_id q)); [by split|by exists q|].
    intros g2 Hok2 Hps Hd2. wp_steps. apply remove_all_spec; [apply Hok2| |].
    + intros player Hin. apply departed_lost; [apply Hok2|done].
    + intros g3 Hla. apply HQ. right.
      split_and!; [by eapply left_alone_ok|by rewrite (left_alone_to_do g2 g3 Hla)| |].
      2: { rewrite (seating_ids g2 g3 (la_seating _ _ Hla)). unfold ids. rewrite Hps. exact (changes_ids g i p (lose p) g1 Hp eq_refl Hch1). }
      rewrite (in_game_seating g3), (la_seating _ _ Hla), <- in_game_seating.
      rewrite (in_game_lose g i p g2); [lia|done..|]. by rewrite Hps.
Qed.

(** ** Any command *)

Definition taken_after (g : Game) (cmd : Cmd) (taken : list Z) : list Z :=
  match cmd with Mulligan false => bump (priority_idx g) taken | _ => taken end.

Lemma next_command_alone g : left_alone g (next_command g).
Proof. split; try done. by apply table_same. Qed.

Lemma with_automation_alone policies g : left_alone g (with_automation policies g).
Proof. split; try done. by apply table_same. Qed.

(** What every accepted command does at last. *)
Definition accepted (player : Z) (cmd : Cmd) (g : Game) : Game := next_command (reconcile_automation player cmd g).

Lemma accepted_alone player cmd g : left_alone g (accepted player cmd g).
Proof. eapply left_alone_trans; [apply with_automation_alone|apply next_command_alone]. Qed.

(** An update of preferences, no part of the game itself. *)
Definition is_preference (cmd : Cmd) : bool := negb (by_hand cmd).

(** What an accepted command leads to: the end of the game, or less to do; an update of
    preferences leads to nothing but other preferences. *)
Definition leads_on (taken : list Z) (cmd : Cmd) (g g' : Game) : Prop :=
  outcome g' <> None \/
  opening_ok taken g' /\ to_do g' + in_game g' + Z.b2z (by_hand cmd) <= to_do g + in_game g /\ ids g' = ids g.

Lemma leads_on_alone taken cmd g g' g'' : left_alone g' g'' -> leads_on taken cmd g g' -> leads_on taken cmd g g''.
Proof.
  intros Hla [Hout|(Hok & Hd & Hids)]; [left; by rewrite (la_outcome _ _ Hla)|right].
  split; [by apply (left_alone_ok _ g')|]. rewrite (left_alone_to_do _ _ Hla), in_game_seating, (la_seating _ _ Hla).
  rewrite <- in_game_seating, (seating_ids _ _ (la_seating _ _ Hla)). by split.
Qed.

Lemma goes_on_leads taken cmd g player (Q : unit -> Game -> Prop) :
  (forall g', leads_on taken cmd g g' -> live g (priority_idx g) player -> Q tt g') -> goes_on taken g player Q.
Proof.
  intros HQ g' Hok Hd Hseat Hl. apply HQ; [|done]. right. split; [done|].
  split; [|by apply seating_ids]. rewrite !in_game_seating, Hseat. destruct (by_hand cmd); cbn [Z.b2z]; lia.
Qed.

Lemma apply_live R g player cmd Q i :
  NoDup (ids g) -> outcome g = None -> live g i player ->
  wp R (match cmd with
        | UpdateAutomation action => update_automation player action
        | ContinueAutomation index rev => continue_automation player index rev
        | _ => dispatch_command registry shuffle player cmd
        end) (fun _ g' => Q tt (accepted player cmd g')) g ->
  wp R (apply_command registry shuffle player cmd) Q g.
Proof.
  intros Hids Hout Hl H. unfold apply_command. wp_steps. rewrite Hout, bool_decide_eq_true_2 by done. cbn [negb].
  pose proof (live_idx g i player Hids Hl) as Hi. wp_steps. rewrite Hi. cbn [or_refuse].
  destruct Hl as (p & Hp & Hlost & Hid). wp_steps. rewrite Hlost. unfold apply_gameplay_command. wp_step.
  eapply wp_mono; [|exact H]. intros [] g' Hg'. by wp_steps.
Qed.

(** Preferences are updated, or refused, and nothing else happens. *)
Lemma update_spec (R : Game -> Prop) g player action Q :
  R g -> (forall policies, Q tt (with_automation policies g)) -> wp R (update_automation player action) Q g.
Proof.
  intros HR HQ. unfold update_automation. wp_steps. destruct (update_policy _ action); [|done]. apply wp_modify, HQ.
Qed.

Lemma continue_spec (R : Game -> Prop) g player index rev Q : R g -> wp R (continue_automation player index rev) Q g.
Proof. intros HR. unfold continue_automation. wp_steps. by destruct (_ || _). Qed.

(** Whose turn it is to give this command: anybody may concede and update preferences. *)
Definition at_any_time (cmd : Cmd) : bool := match cmd with Concede => true | _ => is_preference cmd end.

Lemma command_spec (R : Game -> Prop) taken g op player cmd Q :
  opening_ok taken g -> opening g = Some op -> R g ->
  (forall g', leads_on (taken_after g cmd taken) cmd g g' ->
     (at_any_time cmd = false -> live g (priority_idx g) player) -> Q tt g') ->
  wp R (apply_command registry shuffle player cmd) Q g.
Proof.
  intros Hok Ho HR HQ. pose proof (t_ids g (proj1 Hok)) as Hids. pose proof (proj1 (proj2 Hok)) as Hout.
  destruct (player_idx g player) as [i|] eqn:Hi.
  2: { unfold apply_command. wp_steps. rewrite Hout. cbn. wp_steps. by rewrite Hi. }
  destruct (player_idx_seat g player i Hi) as (p & Hp & Hid).
  destruct (has_lost p) eqn:Hl.
  { unfold apply_command. wp_steps. rewrite Hout. cbn. wp_steps. rewrite Hi. cbn. wp_steps. by rewrite Hl. }
  assert (Hlive : live g i player) by by exists p. apply (apply_live R g player cmd Q i); [done..|].
  assert (Hgo : goes_on (taken_after g cmd taken) g player (fun _ g' => Q tt (accepted player cmd g'))).
  { apply (goes_on_leads _ cmd). intros g' Hlead Hpr. apply HQ; [|done].
    eapply leads_on_alone; [apply accepted_alone|done]. }
  destruct cmd; cbn [dispatch_command apply_opening_command].
  - eapply (choose_spec R taken g op); [done|done|by left|done].
  - eapply (mulligan_spec R taken g op); [done|done|by exists i|by left|]. by destruct keep.
  - eapply (put_spec R taken g op); [done|done|by exists i|by left|done].
  - eapply (finish_spec R taken g op); [done|done|by exists i|by left|done].
  - by eapply (begin_spec R taken g op).
  - subst player. eapply (concede_spec R taken g op i p); [done..|]. intros g' H. apply HQ; [|done].
    eapply leads_on_alone; [apply accepted_alone|]. destruct H as [|(? & ? & ? & ?)]; [by left|right].
    split_and!; [done|cbn; lia|done].
  - apply update_spec; [done|]. intros policies. apply HQ; [|done].
    eapply leads_on_alone; [apply accepted_alone|]. eapply leads_on_alone; [apply with_automation_alone|].
    right. split_and!; [done|cbn; lia|done].
  - by apply continue_spec.
  - done.
Qed.

Lemma to_do_nonneg taken g : opening_ok taken g -> 0 <= to_do g.
Proof.
  intros (_ & _ & H). unfold to_do, seats. destruct (opening g) as [op|]; [|done]. destruct H as (_ & Hs & _).
  destruct (hand_window op) as [w|].
  - pose proof (unfinished_nonneg w). pose proof (hands_nonneg (players g)). lia.
  - case_bool_decide as Hst; [lia|]. pose proof (weights_nonneg g op Hs Hst). lia.
Qed.

Lemma in_game_pos g i player : live g i player -> 1 <= in_game g.
Proof.
  intros (p & Hp & Hl & _). unfold in_game.
  rewrite <- (list_insert_id (players g) i p Hp). revert i Hp. generalize (players g). intros ps.
  induction ps as [|q ps IH]; intros [|i] Hp; simplify_eq/=; cbn [map zsum].
  - rewrite Hl. cbn. pose proof (zsum_nonneg (map (fun p => Z.b2z (negb (has_lost p))) ps)) as H.
    assert (0 <= zsum (map (fun p => Z.b2z (negb (has_lost p))) ps)); [|lia].
    apply H, List.Forall_forall. intros x (y & <- & _)%in_map_iff. by destruct (has_lost y).
  - specialize (IH i Hp). change (list_insert i p ps) with (<[i:=p]> ps). destruct (has_lost q); cbn; lia.
Qed.

Lemma has_priority taken g op : opening_ok taken g -> opening g = Some op -> exists player, live g (priority_idx g) player.
Proof. intros (_ & _ & H) Ho. rewrite Ho in H. destruct H as (_ & _ & []); eauto. Qed.

(** Whoever has priority can go on. *)
Lemma can_go_on taken g op :
  opening_ok taken g -> opening g = Some op ->
  exists player cmd g', live g (priority_idx g) player /\ at_any_time cmd = false /\
    apply_command registry shuffle player cmd g = (Done tt, g').
Proof.
  intros Hok Ho. pose proof (t_ids g (proj1 Hok)) as Hids. pose proof (proj1 (proj2 Hok)) as Hout.
  assert (Hyes : forall player cmd, live g (priority_idx g) player -> at_any_time cmd = false ->
    (forall Q : unit -> Game -> Prop, (forall g', Q tt g') -> wp (fun _ => False)
       (apply_opening_command registry shuffle player cmd) Q g) ->
    exists player cmd g', live g (priority_idx g) player /\ at_any_time cmd = false /\
      apply_command registry shuffle player cmd g = (Done tt, g')).
  { intros player cmd Hl Hc Hwp. exists player, cmd.
    assert (H : wp (fun _ => False) (apply_command registry shuffle player cmd) (fun _ _ => True) g).
    { eapply apply_live; [done..|]. destruct cmd; try done; by apply Hwp. }
    unfold wp in H. destruct (apply_command registry shuffle player cmd g) as [[[]| |] g']; [by exists g'|done..]. }
  pose proof Hok as (_ & _ & H). rewrite Ho in H. destruct H as (_ & _ & [|player ? ? ? Hl Ha ? Hb|w ? Hw ? ? ? ? Hl]).
  - apply (Hyes (chooser op) (ChooseStartingPlayer (chooser op))); [done..|]. intros Q HQ.
    eapply choose_spec; [done|done| |by intros g' _ _ _ _]. right. split_and!; [done..|]. by exists (priority_idx g).
  - destruct (bottom op) as [[bp r]|] eqn:Hbot.
    + apply (Hyes player (PutOpeningHandOnBottom 0)); [done..|]. intros Q HQ.
      eapply put_spec; [done|done|by exists (priority_idx g)| |by intros g' _ _ _ _]. right. split; [done|].
      exists r. rewrite Hbot. by rewrite <- (Hb (bp, r) eq_refl).
    + apply (Hyes player (Mulligan true)); [done..|]. intros Q HQ.
      eapply mulligan_spec; [done|done|by exists (priority_idx g)|by right|by intros g' _ _ _ _].
  - apply (Hyes (actor w) FinishOpeningHandActions); [done..|]. intros Q HQ.
    eapply finish_spec; [done|done|by exists (priority_idx g)|right; by exists w|by intros g' _ _ _ _].
Qed.
End Opening.
