(* ===== verification/OpeningSpec.v ===== *)
(** * The opening of a game: the theorems

    A new game, the runs of accepted commands from it, and what holds of them: the
    opening ends, the player with priority can go on, hands are what the mulligans
    leave, and a refused command changes nothing. *)
From S2P Require Import Prelude Demand Automation Opening OpeningCards OpeningCorrect.
Open Scope cockatrice_scope.
Local Open Scope Z_scope.

Section Start.
Context (registry : string -> option CardDefinition) (shuffle : Z -> list Z -> list Z).
Hypothesis shuffle_perm : forall mix l, shuffle mix l ≡ₚ l.

(** ** A new game *)

Lemma load_deck_spec pid deck : forall next os lib next' os',
  load_deck registry pid deck next os = Ok (lib, next', os') -> 0 <= next ->
  next + Z.of_nat (length deck) <= u32_max ->
  next' = next + Z.of_nat (length deck) /\ lib = seqZ next (Z.of_nat (length deck)) /\
  (forall oid, next <= oid < next' -> owner <$> os' !! oid = Some pid) /\
  (forall oid, ~ next <= oid < next' -> os' !! oid = os !! oid).
Proof.
  induction deck as [|card deck IH]; intros next os lib next' os' H H0 Hmax; cbn [load_deck] in H.
  - injection H as <- <- <-. cbn. split_and!; [lia|done|lia|done].
  - apply rbind_Ok in H as (def & _ & H). destruct (commander_setup_only def); [done|].
    apply rbind_Ok in H as ([[lib1 next1] os1] & H & [= <- <- <-]). cbn [length] in *.
    rewrite u32_add_small in H by mlia. apply IH in H as (-> & -> & Hin & Hout); [|lia..].
    split_and!; [lia| | |].
    + rewrite (seqZ_cons next) by lia. f_equal. f_equal; lia.
    + intros oid Ho. destruct (decide (oid = next)) as [->|]; [|apply Hin; lia].
      rewrite Hout by lia. by rewrite lookup_insert_eq.
    + intros oid Ho. rewrite Hout by lia. rewrite lookup_insert_ne; [done|lia].
Qed.

(** The libraries of the players loaded from object id [next] on. *)
Record loaded (decks : list (Z * list string)) (next : Z) (ps : list OpeningPlayer)
    (os os' : gmap Z GameObject) : Prop := {
  ld_ids : map player_id ps = map fst decks;
  ld_libs : map (fun p => length (library p)) ps = map (fun d => length d.2) decks;
  ld_fresh p : p ∈ ps -> hand p = [] /\ battlefield p = [] /\ exile p = [] /\ graveyard p = [] /\
    command_zone p = [] /\ has_lost p = false;
  ld_nodup : NoDup (concat (map library ps));
  ld_range oid : oid ∈ concat (map library ps) -> next <= oid;
  ld_owner p oid : p ∈ ps -> oid ∈ library p -> owner <$> os' !! oid = Some (player_id p);
  ld_old oid : oid < next -> os' !! oid = os !! oid
}.

Definition cards_of (decks : list (Z * list string)) : Z := zsum (map (fun d => Z.of_nat (length d.2)) decks).

Lemma cards_of_nonneg decks : 0 <= cards_of decks.
Proof. apply zsum_nonneg, List.Forall_forall. intros x (d & <- & _)%in_map_iff. lia. Qed.

(** What the players from seat [i] on begin with. *)
Fixpoint mainboards (i : Z) (decks : list (Z * list string)) : list (Z * list string) :=
  match decks with
  | [] => []
  | d :: decks => (d.1, mainboard i d.2) :: mainboards (i + 1) decks
  end.

Lemma mainboards_ids decks : forall i, map fst (mainboards i decks) = map fst decks.
Proof. induction decks as [|d decks IH]; intros i; [done|]. cbn. by rewrite IH. Qed.

Lemma load_players_spec game_seed decks : forall i next os ps os',
  load_players registry shuffle game_seed i decks next os = Ok (ps, os') -> 0 <= next ->
  next + cards_of (mainboards i decks) <= u32_max -> loaded (mainboards i decks) next ps os os'.
Proof.
  induction decks as [|[pid deck] decks IH]; intros i next os ps os' H H0 Hmax; cbn [load_players mainboards fst snd] in *.
  - injection H as <- <-. split; try done; [by intros p ?%not_elem_of_nil|constructor|
      by intros oid ?%not_elem_of_nil|by intros p oid ?%not_elem_of_nil].
  - apply rbind_Ok in H as ([[lib next1] os1] & H1 & H). apply rbind_Ok in H as ([ps1 os2] & H2 & [= <- <-]).
    unfold cards_of in Hmax. cbn [map zsum snd] in Hmax. fold (cards_of (mainboards (i + 1) decks)) in Hmax.
    pose proof (cards_of_nonneg (mainboards (i + 1) decks)). set (board := mainboard i deck) in *. cbn [fst snd] in *.
    apply load_deck_spec in H1 as (-> & -> & Hin & Hout); [|lia..].
    apply IH in H2 as []; [|lia..]. set (lib := shuffle _ _).
    assert (Hlib : forall oid, oid ∈ lib <-> next <= oid < next + Z.of_nat (length board)).
    { intros oid. unfold lib. rewrite shuffle_perm. apply elem_of_seqZ. }
    split.
    + cbn. by rewrite ld_ids0.
    + cbn. f_equal; [|done]. unfold lib. rewrite shuffle_perm, length_seqZ. lia.
    + intros p [->|Hp]%elem_of_cons; [by split_and!|by apply ld_fresh0].
    + cbn. apply NoDup_app. split_and!; [|intros x Hx Hy|done].
      * unfold lib. rewrite shuffle_perm. apply NoDup_seqZ.
      * apply Hlib in Hx. apply ld_range0 in Hy. lia.
    + intros oid. cbn. rewrite elem_of_app. intros [?%Hlib|?%ld_range0]; lia.
    + intros p oid [->|Hp]%elem_of_cons Ho; [|by apply ld_owner0]. cbn in Ho. apply Hlib in Ho.
      rewrite ld_old0 by lia. by apply Hin.
    + intros oid Ho. rewrite ld_old0 by lia. apply Hout. lia.
Qed.

(** A game that [new_with_registry] starts: seats with different ids, decks of at least
    seven cards (or none, for the deck of the engine), and no more cards than there are
    object ids. *)
Record fair_decks (decks : list (Z * list string)) : Prop := {
  fd_ids : NoDup (map fst decks);
  fd_range player : player ∈ map fst decks -> player <= i32_max;
  fd_big d : d ∈ mainboards 0 decks -> (7 <= length d.2)%nat;
  fd_total : i32_max + 1 + cards_of (mainboards 0 decks) <= u32_max
}.

Lemma fold_max_bound l a b : a <= b -> (forall x, x ∈ l -> x <= b) -> fold_left Z.max l a <= b.
Proof.
  revert a. induction l as [|x l IH]; intros a Ha Hl; [done|]. cbn. apply IH; [|intros y Hy; apply Hl; by right].
  specialize (Hl x ltac:(left)). lia.
Qed.

Lemma map_lookup_player {A} (f : OpeningPlayer -> A) ps i x :
  map f ps !! i = Some x -> exists p, ps !! i = Some p /\ x = f p.
Proof. intros H. change (map f ps) with (f <$> ps) in H. rewrite list_lookup_fmap in H. apply fmap_Some in H. naive_solver. Qed.

(** The libraries of a new game are the decks of the table. *)
Lemma loaded_table decks next os g :
  fair_decks decks -> loaded (mainboards 0 decks) next (players g) os (objects g) -> table (map library (players g)) g.
Proof.
  intros [Hids _ Hbig _] []. split.
  - unfold ids. by rewrite ld_ids0, mainboards_ids.
  - by rewrite length_map.
  - done.
  - intros d Hd. apply list_elem_of_In, in_map_iff in Hd as (p & <- & Hp%list_elem_of_In).
    apply list_elem_of_lookup_1 in Hp as [i Hp].
    assert (Hl : map (fun p => length (library p)) (players g) !! i = Some (length (library p))).
    { etrans; [apply list_lookup_fmap|]. by rewrite Hp. }
    rewrite ld_libs0 in Hl.
    apply list_elem_of_lookup_2, list_elem_of_In, in_map_iff in Hl as (d & <- & Hd%list_elem_of_In). by apply Hbig.
  - intros i p d Hp Hd oid. apply map_lookup_player in Hd as (q & Hq & ->). rewrite Hp in Hq. injection Hq as <-.
    destruct (ld_fresh0 p) as (Eh & Eb & Ee & Eg & Ec & _); [by eapply list_elem_of_lookup_2|].
    unfold all_cards, cards. rewrite Eh, Eb, Ee, Eg, Ec. by rewrite !app_nil_r.
  - intros i p d Hp Hd _. apply map_lookup_player in Hd as (q & Hq & ->). rewrite Hp in Hq. injection Hq as <-.
    destruct (ld_fresh0 p) as (Eh & Eb & Ee & Eg & Ec & _); [by eapply list_elem_of_lookup_2|].
    unfold cards. rewrite Eh, Eb, Ee, Eg, Ec. by rewrite !app_nil_r.
  - intros i p d Hp Hd _ oid. apply map_lookup_player in Hd as (q & Hq & ->). rewrite Hp in Hq. injection Hq as <-.
    apply ld_owner0. by eapply list_elem_of_lookup_2.
Qed.

Lemma new_game_ok game_seed decks g :
  new_with_registry registry shuffle game_seed decks = Ok g -> fair_decks decks ->
  opening_ok (map library (players g)) (replicate (length decks) 0) g /\
  length (players g) = length decks /\ map player_id (players g) = map fst decks /\ opening g <> None /\
  to_do g + in_game g <= 25 * Z.of_nat (length decks) + 3.
Proof.
  intros H Hfair. unfold new_with_registry in H. rewrite length_map in H.
  match type of H with (if negb ?b then _ else _) = _ => destruct b eqn:Hn end; [|done]. cbn [negb] in H.
  apply andb_true_iff in Hn as [Hn%Nat.leb_le _].
  apply rbind_Ok in H as ([ps os] & Hload & [= <-]). cbn [fst snd] in *.
  set (count := length decks) in *. set (chosen := map fst decks !!! Z.to_nat (game_seed mod Z.of_nat count)).
  apply load_players_spec in Hload.
  2: { unfold u32_saturating_add. mlia. }
  2: { pose proof (fold_max_bound (map fst decks) 0 i32_max) as Hm. destruct Hfair as [_ Hr _ Ht].
       assert (fold_left Z.max (map fst decks) 0 <= i32_max) by (apply Hm; [mlia|done]).
       unfold u32_saturating_add. mlia. }
  match goal with |- opening_ok _ _ ?x /\ _ => set (g := x) end.
  assert (Hlen : length (players g) = count).
  { rewrite <- (length_map player_id). cbn. by rewrite (ld_ids _ _ _ _ _ Hload), mainboards_ids, length_map. }
  assert (Hlost : forall i p, players g !! i = Some p -> hand p = [] /\ battlefield p = [] /\ exile p = [] /\ has_lost p = false).
  { intros i p Hp. destruct (ld_fresh _ _ _ _ _ Hload p) as (? & ? & ? & _ & _ & ?); [by eapply list_elem_of_lookup_2|done]. }
  assert (Hchooser : live g (priority_idx g) chosen).
  { assert (Hmod : (Z.to_nat (game_seed mod Z.of_nat count) < length (map fst decks))%nat).
    { rewrite length_map. pose proof (Z.mod_pos_bound game_seed (Z.of_nat count)). lia. }
    destruct (list_find_elem_of (fun id => id = chosen) (map fst decks) chosen) as [[k id] Hk];
      [by apply list_elem_of_lookup_total_2|done|].
    cbn [priority_idx g]. fold chosen. rewrite Hk. cbn. apply list_find_Some in Hk as (Hk & -> & _).
    rewrite <- (mainboards_ids decks 0), <- (ld_ids _ _ _ _ _ Hload) in Hk. apply map_lookup_player in Hk as (p & Hp & ->).
    exists p. split_and!; [done|by apply (Hlost k)|done]. }
  split_and!.
  - split; [by eapply (loaded_table decks)|]. split; [done|]. cbn [opening g]. split; [done|].
    split; [|by apply choosing]. split; cbn; rewrite ?length_replicate; try done.
    + intros i p Hp Hl. destruct (Hlost i p Hp) as (_ & _ & _ & E). congruence.
    + intros i p t kept Hp Hl Ht Hk. apply lookup_replicate in Ht as [-> _], Hk as [-> _].
      destruct (Hlost i p Hp) as (Eh & Eb & Ee & _). split; [done|]. split; [done|]. cbn. unfold out.
      by rewrite Eh, Eb, Ee.
  - done.
  - rewrite <- (mainboards_ids decks 0). apply (ld_ids _ _ _ _ _ Hload).
  - done.
  - assert (to_do g = 24 * seats g + 3) as -> by done. unfold seats. rewrite Hlen.
    assert (in_game g <= Z.of_nat count); [|lia]. rewrite <- Hlen. unfold in_game.
    generalize (players g). intros l. induction l as [|p l IH]; cbn [map zsum length]; [lia|].
    destruct (has_lost p); cbn; lia.
Qed.

(** ** Runs *)

(** The commands accepted since the start, until the opening or the game is over. *)
Inductive run (g0 : Game) : list (Z * Cmd) -> Game -> Prop :=
| run_start : run g0 [] g0
| run_command l g player cmd g' :
    run g0 l g -> opening g <> None -> apply_command registry shuffle player cmd g = (Done tt, g') ->
    run g0 (l ++ [(player, cmd)]) g'.

Definition is_mulligan (player : Z) (c : Z * Cmd) : bool :=
  (c.1 =? player) && match c.2 with Mulligan keep => negb keep | _ => false end.

(** How many mulligans this player took. *)
Definition mulligans (l : list (Z * Cmd)) (player : Z) : Z := Z.of_nat (length (List.filter (is_mulligan player) l)).

Lemma mulligans_snoc l c player : mulligans (l ++ [c]) player = mulligans l player + Z.b2z (is_mulligan player c).
Proof. unfold mulligans. rewrite List.filter_app, length_app. cbn. destruct (is_mulligan player c); cbn; lia. Qed.

(** The commands that are no updates of preferences. *)
Definition moves (l : list (Z * Cmd)) : list (Z * Cmd) := List.filter (fun c => by_hand c.2) l.

Lemma moves_snoc l c : length (moves (l ++ [c])) = (length (moves l) + if by_hand c.2 then 1 else 0)%nat.
Proof. unfold moves. rewrite List.filter_app, length_app. cbn. by destruct (by_hand c.2). Qed.

Record run_ok (g0 : Game) (bound : Z) (l : list (Z * Cmd)) (g : Game) (taken : list Z) : Prop := {
  rk_ok : opening_ok (map library (players g0)) taken g;
  rk_ids : ids g = ids g0;
  rk_bound : Z.of_nat (length (moves l)) + to_do g + in_game g <= bound;
  rk_taken i player : ids g !! i = Some player -> taken !! i = Some (mulligans l player)
}.

Lemma live_ids g i player : live g i player -> ids g !! i = Some player.
Proof. intros (p & Hp & _ & <-). by apply ids_lookup. Qed.

(** The count of mulligans after one more command. *)
Lemma taken_after_mulligans g0 bound l g taken player cmd i q :
  run_ok g0 bound l g taken -> (at_any_time cmd = false -> live g (priority_idx g) player) -> ids g !! i = Some q ->
  taken_after g cmd taken !! i = Some (mulligans (l ++ [(player, cmd)]) q).
Proof.
  intros [Hok _ _ Htk] Hpri Hq. rewrite mulligans_snoc. specialize (Htk i q Hq) as Hi. unfold is_mulligan. cbn [fst snd].
  destruct cmd as [|[]|?| | | | | |]; cbn [taken_after negb]; rewrite ?andb_false_r; cbn [Z.b2z];
    try (rewrite Hi; f_equal; lia).
  rewrite andb_true_r. pose proof (live_ids _ _ _ (Hpri ltac:(done))) as Hp. unfold bump.
  destruct (decide (i = priority_idx g)) as [->|Hne].
  - assert (q = player) as -> by congruence. rewrite Z.eqb_refl. cbn [Z.b2z].
    rewrite list_lookup_insert_eq by (by eapply lookup_lt_Some). by rewrite (list_lookup_total_correct _ _ _ Hi).
  - rewrite list_lookup_insert_ne by done. rewrite Hi. destruct (Z.eqb_spec player q) as [->|]; cbn [Z.b2z]; [|f_equal; lia].
    exfalso. apply Hne. eapply NoDup_lookup; [apply (t_ids _ _ (proj1 Hok))|done..].
Qed.

Lemma run_keeps_ok game_seed decks g0 l g :
  new_with_registry registry shuffle game_seed decks = Ok g0 -> fair_decks decks -> run g0 l g ->
  let bound := 25 * Z.of_nat (length decks) + 3 in
  Z.of_nat (length (moves l)) <= bound /\ (outcome g = None -> exists taken, run_ok g0 bound l g taken).
Proof.
  intros Hnew Hfair Hrun. cbv zeta. set (bound := 25 * Z.of_nat (length decks) + 3).
  destruct (new_game_ok game_seed decks g0 Hnew Hfair) as (Hok0 & Hlen & Hids & _ & Hb).
  induction Hrun as [|l g player cmd g' Hrun [IHl IH] Hopen Hcmd].
  - split; [cbn; lia|]. intros _. exists (replicate (length decks) 0). split; [done|done|cbn; lia|].
    intros i player Hi%lookup_lt_Some. unfold mulligans. cbn. apply lookup_replicate_2.
    unfold ids in Hi. rewrite length_map in Hi. lia.
  - destruct (decide (outcome g = None)) as [Hout|Hout].
    2: { unfold apply_command, bind, get in Hcmd. rewrite bool_decide_eq_false_2 in Hcmd by done. done. }
    destruct (IH Hout) as [taken Hrk]. destruct (opening g) as [op|] eqn:Ho; [|done].
    assert (H : wp (fun _ => True) (apply_command registry shuffle player cmd)
      (fun _ g' => leads_on (map library (players g0)) (taken_after g cmd taken) cmd g g' /\
         (at_any_time cmd = false -> live g (priority_idx g) player)) g).
    { eapply command_spec; [done|apply Hrk|done..]. }
    unfold wp in H. rewrite Hcmd in H. destruct H as [Hlead Hpri]. rewrite moves_snoc. cbn [snd].
    destruct (has_priority _ _ _ _ (rk_ok _ _ _ _ _ Hrk) Ho) as [who Hwho%in_game_pos].
    pose proof (to_do_nonneg _ _ _ (rk_ok _ _ _ _ _ Hrk)). pose proof (rk_bound _ _ _ _ _ Hrk).
    split; [destruct (by_hand cmd); lia|]. intros Hout'. destruct Hlead as [|(Hok' & Hless & Hids')]; [done|].
    exists (taken_after g cmd taken). split; [done| |rewrite moves_snoc; cbn [snd]; destruct (by_hand cmd); cbn [Z.b2z] in Hless; lia|].
    + rewrite Hids'. apply Hrk.
    + intros i q Hq. rewrite Hids' in Hq. by eapply taken_after_mulligans.
Qed.

(** What a command of the opening leads to from a reached state. *)
Lemma reached_command (R : Game -> Prop) game_seed decks g0 l g player cmd :
  new_with_registry registry shuffle game_seed decks = Ok g0 -> fair_decks decks -> run g0 l g ->
  opening g <> None -> R g ->
  wp R (apply_command registry shuffle player cmd)
    (fun _ _ => outcome g = None /\ (at_any_time cmd = false -> live g (priority_idx g) player)) g.
Proof.
  intros Hnew Hfair Hrun Hopen HR. destruct (run_keeps_ok _ _ _ _ _ Hnew Hfair Hrun) as [_ Hok].
  destruct (decide (outcome g = None)) as [Hout|Hout].
  2: { unfold apply_command, wp, bind, get. by rewrite bool_decide_eq_false_2. }
  destruct (Hok Hout) as [taken Hrk]. destruct (opening g) as [op|] eqn:Ho; [|done].
  eapply command_spec; [done|apply Hrk|done..].
Qed.

(** Seat by seat: whose cards a player in the game holds, and how many of them. *)
Lemma reached_seat game_seed decks g0 l g i p p0 :
  new_with_registry registry shuffle game_seed decks = Ok g0 -> fair_decks decks -> run g0 l g ->
  outcome g = None -> players g !! i = Some p -> players g0 !! i = Some p0 -> has_lost p = false ->
  player_id p = player_id p0 /\ cards p ≡ₚ library p0 /\ out p <= 7 /\
  (opening g = None -> let down := bottom_count_of g (mulligans l (player_id p)) in 0 <= down <= 7 /\ out p = 7 - down).
Proof.
  intros Hnew Hfair Hrun Hout Hp Hp0 Hl. destruct (run_keeps_ok _ _ _ _ _ Hnew Hfair Hrun) as [_ Hok].
  destruct (Hok Hout) as [taken [(Ht & _ & Hs) Hids _ Htk]]. specialize (Htk i _ (ids_lookup g i p Hp)).
  assert (Hd : map library (players g0) !! i = Some (library p0)).
  { etrans; [apply list_lookup_fmap|]. by rewrite Hp0. }
  split; [|split; [by apply (t_live _ _ Ht i p)|]].
  - apply ids_lookup in Hp, Hp0. rewrite Hids in Hp. congruence.
  - destruct (opening g) as [op|] eqn:Ho.
    + destruct Hs as (_ & Hseats & _). split; [by eapply out_bound|done].
    + destruct Hs as (_ & _ & _ & Hb). destruct (Hb i p _ Hp Hl Htk) as [Hc Hh]. split; [lia|done].
Qed.

(** Nobody's seat is taken away. *)
Lemma reached_seats game_seed decks g0 l g :
  new_with_registry registry shuffle game_seed decks = Ok g0 -> fair_decks decks -> run g0 l g ->
  outcome g = None -> length (players g) = length decks.
Proof.
  intros Hnew Hfair Hrun Hout. destruct (run_keeps_ok _ _ _ _ _ Hnew Hfair Hrun) as [_ Hok].
  destruct (Hok Hout) as [taken [(Ht & _ & _) _ _ _]]. rewrite (t_len _ _ Ht), length_map.
  by destruct (new_game_ok game_seed decks g0 Hnew Hfair) as (_ & ? & _).
Qed.

(** The first turn is that of a player in the game, who has priority. *)
Lemma reached_first_turn game_seed decks g0 l g :
  new_with_registry registry shuffle game_seed decks = Ok g0 -> fair_decks decks -> run g0 l g ->
  outcome g = None -> opening g = None ->
  (exists player, live g (priority_idx g) player) /\ active_player_idx g = priority_idx g /\
  starting_player_idx g = priority_idx g.
Proof.
  intros Hnew Hfair Hrun Hout Ho. destruct (run_keeps_ok _ _ _ _ _ Hnew Hfair Hrun) as [_ Hok].
  destruct (Hok Hout) as [taken [(_ & _ & Hs) _ _ _]]. rewrite Ho in Hs. by destruct Hs as (? & ? & ? & _).
Qed.

(** The player with priority can go on. *)
Lemma reached_can_go_on game_seed decks g0 l g :
  new_with_registry registry shuffle game_seed decks = Ok g0 -> fair_decks decks -> run g0 l g ->
  outcome g = None -> opening g <> None ->
  exists player cmd g', live g (priority_idx g) player /\ at_any_time cmd = false /\
    apply_command registry shuffle player cmd g = (Done tt, g').
Proof.
  intros Hnew Hfair Hrun Hout Hopen. destruct (run_keeps_ok _ _ _ _ _ Hnew Hfair Hrun) as [_ Hok].
  destruct (Hok Hout) as [taken Hrk]. destruct (opening g) as [op|] eqn:Ho; [|done].
  eapply can_go_on; [done|apply Hrk|done].
Qed.

Lemma bind_Done {A B} (m : M A) (k : A -> M B) g b g' :
  bind m k g = (Done b, g') -> exists a g1, m g = (Done a, g1) /\ k a g1 = (Done b, g').
Proof. unfold bind. destruct (m g) as [[a| |] g1]; [|done..]. intros H. by exists a, g1. Qed.

(** An accepted update of preferences changes only these. *)
Lemma preference_only player cmd g g' :
  apply_command registry shuffle player cmd g = (Done tt, g') -> is_preference cmd = true ->
  exists policies, g' = next_command (with_automation policies g).
Proof.
  intros (o & g0 & [= <- <-] & H)%bind_Done Hp. case_bool_decide as Hout; [|done]. cbn [negb] in H.
  apply bind_Done in H as (i & g0 & [= <- <-] & H). apply bind_Done in H as (i & g0 & H0 & H).
  destruct (player_idx g player) as [j|]; [|done]. injection H0 as <- <-.
  apply bind_Done in H as (p & g0 & [= <- <-] & H). apply bind_Done in H as (p & g0 & H0 & H).
  destruct (players g !! j) as [q|]; [|done]. injection H0 as <- <-. destruct (has_lost q); [done|].
  apply bind_Done in H as ([] & g1 & H1 & [= <-]).
  destruct cmd as [| | | | | |action|index rev|]; try done.
  - apply bind_Done in H1 as (ps & g0 & [= <- <-] & H1). destruct (update_policy _ action); [|done].
    injection H1 as <-. by eexists.
  - apply bind_Done in H1 as (k & g0 & [= <- <-] & H1). apply bind_Done in H1 as (pol & g0 & [= <- <-] & H1).
    by destruct (_ || _).
Qed.
End Start.

(** ** Replaying commands *)

(** The state after some commands, all accepted while the opening lasts. *)
Fixpoint replay registry shuffle (l : list (Z * Cmd)) (g : Game) : option Game :=
  match l with
  | [] => Some g
  | c :: l =>
      if bool_decide (opening g = None) then None
      else
        match apply_command registry shuffle c.1 c.2 g with
        | (Done _, g) => replay registry shuffle l g
        | _ => None
        end
  end.

Lemma replay_run registry shuffle g0 l : forall l0 g g',
  run registry shuffle g0 l0 g -> replay registry shuffle l g = Some g' -> run registry shuffle g0 (l0 ++ l) g'.
Proof.
  induction l as [|[player cmd] l IH]; intros l0 g g' Hrun H; cbn [replay fst snd] in H.
  - injection H as <-. by rewrite app_nil_r.
  - case_bool_decide as Ho; [done|]. destruct (apply_command registry shuffle player cmd g) as [[[]| |] g1] eqn:E; [|done..].
    rewrite cons_middle, app_assoc. apply IH with g1; [|done]. by apply run_command with g.
Qed.

(** ** Three players *)

(** Three players with small decks; a card of each may begin on the battlefield. *)
Module Sample.
Definition registry (card : string) : option CardDefinition :=
  Some {| commander_setup_only := false; gemstone_caverns_opening := bool_decide (card = "Gemstone Caverns"%string) |}.

Definition shuffle (mix : Z) (l : list Z) : list Z := l.

Definition deck : list string := ["Gemstone Caverns"; "A"; "B"; "C"; "D"; "E"; "F"; "G"]%string.
Definition decks : list (Z * list string) := [(0, deck); (1, deck); (2, deck)].

Definition no_game : Game :=
  {| seed := 0; command_index := 0; players := []; objects := ∅; zone_change_generation := ∅; priority_idx := 0;
     active_player_idx := 0; starting_player_idx := 0; opening := None; outcome := None; automation := ∅ |}.

Definition start_of (decks : list (Z * list string)) : Game :=
  match new_with_registry registry shuffle 1 decks with Ok g => g | Err _ => no_game end.

Definition start : Game := start_of decks.

(** The last player takes two mulligans, the second one; then the first player puts a
    card on the battlefield and exiles another. *)
Definition kept : list (Z * Cmd) :=
  [(0, UpdateAutomation (Some (Pause true))); (1, ChooseStartingPlayer 2);
   (0, UpdateAutomation (Some (StopOnce {| phase := PHASE_ID_UPKEEP; on_own_turn := false |}))); (2, Mulligan false); (0, Mulligan true); (1, Mulligan false);
   (2, Mulligan false); (1, Mulligan true); (2, Mulligan true); (2, PutOpeningHandOnBottom 3)].

Definition whole : list (Z * Cmd) :=
  kept ++ [(0, BeginWithGemstoneCaverns (Some (3, 0)) (Some (4, 0))); (1, FinishOpeningHandActions)].

Definition after (l : list (Z * Cmd)) : Game := default no_game (replay registry shuffle l start).

Lemma fair : fair_decks decks.
Proof.
  split.
  - apply (bool_decide_unpack _). by vm_compute.
  - intros player H. apply (Forall_forall (fun player => player <= i32_max) (map fst decks)); [|done].
    repeat constructor; done.
  - intros d H. apply (Forall_forall (fun d : Z * list string => (7 <= length d.2)%nat) decks); [|done].
    repeat constructor; done.
  - done.
Qed.

Lemma started : new_with_registry registry shuffle 1 decks = Ok start.
Proof. by vm_compute. Qed.

Lemma kept_run : run registry shuffle start kept (after kept).
Proof. apply (replay_run _ _ _ _ []) with start; [constructor|by vm_compute]. Qed.

Lemma whole_run : run registry shuffle start whole (after whole).
Proof. apply (replay_run _ _ _ _ []) with start; [constructor|by vm_compute]. Qed.
End Sample.

(** ** The opening ends *)

(** C17. From a new game with fair decks at most [25 n + 3] commands of [n] players are
    accepted, updates of preferences not counted, before the first turn starts or the
    game is over, whatever they are and in whatever order they come. As long as neither
    has happened, the player with priority has a command that is accepted and is neither
    a concession nor an update of preferences, while nobody else has: nobody waits for
    ever, and nobody plays out of turn. An update of preferences, which any player may
    send at any time, changes nothing but the preferences and the number of accepted
    commands. *)
Theorem opening_ends registry shuffle (shuffle_perm : forall mix l, shuffle mix l ≡ₚ l) game_seed decks g0 l g :
  new_with_registry registry shuffle game_seed decks = Ok g0 -> fair_decks decks -> run registry shuffle g0 l g ->
  Z.of_nat (length (moves l)) <= 25 * Z.of_nat (length decks) + 3 /\
  (opening g <> None -> outcome g = None ->
    (exists player cmd g', live g (priority_idx g) player /\ at_any_time cmd = false /\
       apply_command registry shuffle player cmd g = (Done tt, g')) /\
    forall player cmd g', apply_command registry shuffle player cmd g = (Done tt, g') ->
      (at_any_time cmd = false -> live g (priority_idx g) player) /\
      (is_preference cmd = true -> exists policies, g' = next_command (with_automation policies g))).
Proof.
  intros Hnew Hfair Hrun. split; [by eapply run_keeps_ok|]. intros Ho Hout. split; [by eapply reached_can_go_on|].
  intros player cmd g' Hcmd. split; [intros Hc|by apply (preference_only registry shuffle player)].
  pose proof (reached_command _ _ shuffle_perm (fun _ => True) _ _ _ _ _ player cmd Hnew Hfair Hrun Ho I) as H.
  unfold wp in H. rewrite Hcmd in H. by apply H.
Qed.

(** Two of the commands of the run are no moves. *)
Lemma opening_ends_witness :
  length Sample.whole = 12%nat /\ length (moves Sample.whole) = 10%nat /\
  Z.of_nat (length (moves Sample.whole)) <= 78 /\ opening (Sample.after Sample.whole) = None /\
  exists player cmd g', live (Sample.after Sample.kept) (priority_idx (Sample.after Sample.kept)) player /\
    at_any_time cmd = false /\
    apply_command Sample.registry Sample.shuffle player cmd (Sample.after Sample.kept) = (Done tt, g').
Proof.
  split; [done|]. split; [done|]. split; [|split].
  - apply (opening_ends Sample.registry Sample.shuffle (fun _ l => Permutation_refl l) 1 Sample.decks Sample.start
      Sample.whole (Sample.after Sample.whole) Sample.started Sample.fair Sample.whole_run).
  - by vm_compute.
  - apply (opening_ends Sample.registry Sample.shuffle (fun _ l => Permutation_refl l) 1 Sample.decks Sample.start
      Sample.kept (Sample.after Sample.kept) Sample.started Sample.fair Sample.kept_run); by vm_compute.
Defined.

(** ** Refused commands *)

(** C18. In every state reached from a new game with fair decks while the opening lasts,
    each command of any player, known or not, is either accepted or refused with the
    state exactly as it was, though commands write the state before their last check;
    no command hits an [unwrap] of nothing. *)
Theorem refused_unchanged registry shuffle (shuffle_perm : forall mix l, shuffle mix l ≡ₚ l) game_seed decks g0 l g
    player cmd :
  new_with_registry registry shuffle game_seed decks = Ok g0 -> fair_decks decks -> run registry shuffle g0 l g ->
  opening g <> None ->
  match apply_command registry shuffle player cmd g with
  | (Done _, _) => outcome g = None
  | (Refused _, g') => g' = g
  | (Panicked, _) => False
  end.
Proof.
  intros Hnew Hfair Hrun Ho.
  pose proof (reached_command _ _ shuffle_perm (fun g' => g' = g) _ _ _ _ _ player cmd Hnew Hfair Hrun Ho eq_refl) as H.
  unfold wp in H. destruct (apply_command registry shuffle player cmd g) as [[[]| |] g']; [apply H|done..].
Qed.

(** The card named is stale: it has changed its zone in the meantime. *)
Lemma refused_unchanged_witness :
  let g := Sample.after Sample.kept in
  let refused := apply_command Sample.registry Sample.shuffle 0 (BeginWithGemstoneCaverns (Some (3, 1)) (Some (4, 0))) g in
  refused.1 = Refused (Illegal "opening source is stale or ineligible") /\ refused.2 = g.
Proof.
  split; [by vm_compute|].
  pose proof (refused_unchanged Sample.registry Sample.shuffle (fun _ l => Permutation_refl l) 1 Sample.decks
    Sample.start Sample.kept (Sample.after Sample.kept) 0 (BeginWithGemstoneCaverns (Some (3, 1)) (Some (4, 0)))
    Sample.started Sample.fair Sample.kept_run) as H.
  assert (Hr : (apply_command Sample.registry Sample.shuffle 0 (BeginWithGemstoneCaverns (Some (3, 1)) (Some (4, 0)))
    (Sample.after Sample.kept)).1 = Refused (Illegal "opening source is stale or ineligible")) by by vm_compute.
  destruct (apply_command _ _ _ _ _) as [[| |] g']; cbn in Hr; [done| |done]. apply H. by vm_compute.
Defined.

(** ** Hands *)

(** C16. In every state reached from a new game with fair decks, a player in the game has
    exactly the cards of the own deck, no card lost, doubled or another's, at most
    seven of them out of the library; and when the first turn starts, it is that of a
    player in the game, and each has put on the bottom one card for each mulligan
    taken, the first of which is free when more than two players began. *)
Theorem hands_follow_mulligans registry shuffle (shuffle_perm : forall mix l, shuffle mix l ≡ₚ l) game_seed decks
    g0 l g i p p0 :
  new_with_registry registry shuffle game_seed decks = Ok g0 -> fair_decks decks -> run registry shuffle g0 l g ->
  outcome g = None -> players g !! i = Some p -> players g0 !! i = Some p0 -> has_lost p = false ->
  player_id p = player_id p0 /\ hand p ++ library p ++ battlefield p ++ exile p ≡ₚ library p0 /\ out p <= 7 /\
  (opening g = None ->
    (let free := if (2 <? length decks)%nat then 1 else 0 in
     let down := Z.max 0 (mulligans l (player_id p) - free) in down <= 7 /\ out p = 7 - down) /\
    (exists player, live g (priority_idx g) player) /\ active_player_idx g = priority_idx g /\
    starting_player_idx g = priority_idx g).
Proof.
  intros Hnew Hfair Hrun Hout Hp Hp0 Hl.
  destruct (reached_seat _ _ shuffle_perm _ _ _ _ _ i p p0 Hnew Hfair Hrun Hout Hp Hp0 Hl) as (? & ? & ? & H).
  split; [done|]. split; [done|]. split; [done|]. intros Ho.
  split; [|by apply (reached_first_turn registry shuffle shuffle_perm game_seed decks g0 l)]. specialize (H Ho). cbv zeta in *.
  rewrite <- (reached_seats registry shuffle shuffle_perm game_seed decks g0 l g) by done.
  unfold bottom_count_of, u32_saturating_sub in H. destruct (2 <? length (players g))%nat; cbn [Z.b2z] in H; mlia.
Qed.

Lemma hands_follow_mulligans_witness :
  (forall i p p0, players (Sample.after Sample.whole) !! i = Some p -> players Sample.start !! i = Some p0 ->
     hand p ++ library p ++ battlefield p ++ exile p ≡ₚ library p0) /\
  mulligans Sample.whole 2 = 2.
Proof.
  split; [|by vm_compute]. intros i p p0 Hp Hp0.
  assert (Hl : has_lost p = false).
  { apply (Forall_forall (fun p => has_lost p = false) (players (Sample.after Sample.whole))).
    - vm_compute. repeat constructor; done.
    - by eapply list_elem_of_lookup_2. }
  apply (hands_follow_mulligans Sample.registry Sample.shuffle (fun _ l => Permutation_refl l) 1 Sample.decks
    Sample.start Sample.whole (Sample.after Sample.whole) i p p0 Sample.started Sample.fair Sample.whole_run);
    [by vm_compute|done..].
Defined.

(** ** Decks of the engine *)

(** Who submits no mainboard plays sixty cards of the engine's. *)
Example default_decks_fair : fair_decks [(0, []); (1, [])].
Proof.
  split.
  - apply (bool_decide_unpack _). by vm_compute.
  - intros player H. apply (Forall_forall (fun player => player <= i32_max) [0; 1]); [|done]. repeat constructor; done.
  - intros d [->|[->|[]%not_elem_of_nil]%elem_of_cons]%elem_of_cons; apply Nat.leb_le; by vm_compute.
  - by vm_compute.
Qed.

(** ** Decks of fewer than seven cards *)

(** A player with six cards is dealt to last: the command that chooses who starts is
    refused, with the choice made and the other hands dealt; it cannot be made again. *)
Example short_deck :
  let start := Sample.start_of [(0, Sample.deck); (1, Sample.deck); (2, firstn 6 Sample.deck)] in
  let refused := apply_command Sample.registry Sample.shuffle 1 (ChooseStartingPlayer 0) start in
  refused.1 = Refused (Illegal "library empty") /\
  (starting_player <$> opening start) = Some None /\
  (starting_player <$> opening refused.2) = Some (Some 0) /\
  map (fun p => length (hand p)) (players refused.2) = [7; 7; 6]%nat /\
  (apply_command Sample.registry Sample.shuffle 1 (ChooseStartingPlayer 1) refused.2).1 =
    Refused (Illegal "starting player already chosen").
Proof. by vm_compute. Qed.
