(* ===== verification/Rng.v ===== *)
(** * Random numbers: [libcockatrice_rng/.../rng_sfmt.cpp]

    [RNG_Abstract] is the interface the game code draws from ([RandomSource]);
    [RNG_SFMT] implements it by rejection sampling over the 64-bit outputs of
    the SFMT generator. The generator is vendored C code and is here the
    stream of its outputs, so a draw reads the stream until a value is
    accepted. *)
From S2P Require Import Prelude.
Open Scope cockatrice_scope.
Local Open Scope Z_scope.

(** ** The interface *)

(** [RNG_Abstract::rand] on the states [S] of a generator; [None] is a thrown
    exception or a stream that ends. A caller relies on the bounds only. *)
Class RandomSource (S : Type) : Type := {
  rand : S -> Z -> Z -> option (Z * S);
  rand_bounds : forall s s' min max v,
    rand s min max = Some (v, s') -> 0 <= min <= max -> max <= i32_max -> min <= v <= max
}.

(** ** [RNG_SFMT] *)

(** The cast of an [int] argument to [unsigned int]. *)
Definition to_uint (z : Z) : Z := wrap_u32 z.

(** [max - min + 1] in [unsigned int]. *)
Definition diameter (min max : Z) : Z := wrap_u32 (max - min + 1).

(** [UINT64_MAX / diameter] and [diameter * buckets]. *)
Definition buckets (d : Z) : Z := u64_max / d.

Definition limit (d : Z) : Z := wrap_u64 (d * buckets d).

(** The [do .. while (rand >= limit)] loop over the outputs to come. *)
Fixpoint draw (lim : Z) (stream : list Z) : option (Z * list Z) :=
  match stream with
  | [] => None
  | r :: rest => if lim <=? r then draw lim rest else Some (r, rest)
  end.

Inductive rng_result : Type :=
| InvalidBounds
| OutOfStream
| Drawn (v : Z) (rest : list Z).

Definition cdf (min max : Z) (stream : list Z) : rng_result :=
  if max <? min then InvalidBounds
  else
    let d := diameter min max in
    match draw (limit d) stream with
    | None => OutOfStream
    | Some (r, rest) => Drawn (wrap_u32 (wrap_u64 (r / buckets d + min))) rest
    end.

(** [-max] on an [int], then the cast. *)
Definition sfmt_rand (min max : Z) (stream : list Z) : rng_result :=
  if min <? 0 then InvalidBounds
  else if min =? max then Drawn (to_uint max) stream
  else if (min =? 0) && (max <? 0) then cdf 0 (to_uint (- max)) stream
  else cdf (to_uint min) (to_uint max) stream.

(** ** Lemmas *)

Lemma draw_Some lim stream r rest :
  draw lim stream = Some (r, rest) <->
  exists rejected, stream = rejected ++ r :: rest /\ r < lim /\ Forall (Z.le lim) rejected.
Proof.
  induction stream as [|x stream IH]; cbn [draw].
  - split; [done|]. intros ([|] & He & _); done.
  - destruct (Z.leb_spec lim x) as [Hx|Hx]; [rewrite IH|]; split.
    + intros (rej & -> & Hr & Hf). exists (x :: rej). split_and!; [done|done|by constructor].
    + intros ([|y rej] & He & Hr & Hf); simplify_eq/=; [lia|].
      apply Forall_cons in Hf as [_ Hf]. by exists rej.
    + intros [= -> ->]. by exists [].
    + intros ([|y rej] & He & Hr & Hf); simplify_eq/=; [done|].
      apply Forall_cons in Hf as [Hf _]. lia.
Qed.

Section Bounds.
Context (min max : Z) (Hmin : 0 <= min) (Hmax : min <= max <= u32_max)
  (Hwidth : max - min < u32_max).

Lemma diameter_exact : diameter min max = max - min + 1.
Proof. apply wrap_u32_small. mlia. Qed.

Lemma buckets_pos d : 0 < d <= u32_max -> 2 ^ 32 <= buckets d.
Proof. intros Hd. unfold buckets. apply Z.div_le_lower_bound; mlia. Qed.

Lemma limit_exact d : 0 < d <= u32_max -> limit d = d * buckets d /\ u64_max - d < limit d <= u64_max.
Proof.
  intros Hd. pose proof (Z.mul_div_le u64_max d ltac:(lia)).
  pose proof (Z.mul_succ_div_gt u64_max d ltac:(lia)) as Hgt.
  unfold limit, buckets, wrap_u64 in *. rewrite Z.mod_small.
  - split; [done|]. rewrite Z.mul_succ_r in Hgt. lia.
  - split; [|mlia]. apply Z.mul_nonneg_nonneg; [lia|]. apply Z.div_pos; mlia.
Qed.

(** The bucket an accepted output falls in. *)
Lemma bucket_of r v :
  0 <= r -> min <= v <= max ->
  r / buckets (diameter min max) + min = v <->
  (v - min) * buckets (diameter min max) <= r < (v - min + 1) * buckets (diameter min max).
Proof.
  intros Hr Hv. rewrite diameter_exact.
  pose proof (buckets_pos (max - min + 1) ltac:(mlia)) as Hb.
  set (b := buckets _) in *. split.
  - intros <-. replace (r / b + min - min) with (r / b) by lia.
    pose proof (Z.mul_div_le r b ltac:(lia)). pose proof (Z.mul_succ_div_gt r b ltac:(lia)). lia.
  - intros Hin. enough (r / b = v - min) by lia. symmetry.
    apply (Z.div_unique r b (v - min) (r - b * (v - min))); lia.
Qed.

Lemma accepted_range r :
  0 <= r < limit (diameter min max) ->
  min <= r / buckets (diameter min max) + min <= max.
Proof.
  rewrite diameter_exact. intros [Hr Hl].
  destruct (limit_exact (max - min + 1) ltac:(mlia)) as [He _]. rewrite He in Hl.
  pose proof (buckets_pos (max - min + 1) ltac:(mlia)).
  pose proof (Z.div_pos r (buckets (max - min + 1)) Hr ltac:(lia)).
  pose proof (Z.div_lt_upper_bound r (buckets (max - min + 1)) (max - min + 1) ltac:(lia) ltac:(lia)).
  lia.
Qed.
End Bounds.

Lemma cdf_Drawn min max stream v rest :
  0 <= min -> min <= max <= u32_max -> max - min < u32_max -> Forall (Z.le 0) stream ->
  cdf min max stream = Drawn v rest <->
  exists rejected r, stream = rejected ++ r :: rest /\
    Forall (Z.le (limit (diameter min max))) rejected /\ r < limit (diameter min max) /\
    v = r / buckets (diameter min max) + min.
Proof.
  intros Hmin Hmax Hw Hs. unfold cdf. rewrite (proj2 (Z.ltb_ge max min)) by lia.
  assert (Hexact : forall r, 0 <= r < limit (diameter min max) ->
    wrap_u32 (wrap_u64 (r / buckets (diameter min max) + min)) =
    r / buckets (diameter min max) + min).
  { intros r Hr. pose proof (accepted_range min max Hmax Hw r Hr).
    unfold wrap_u64. rewrite Z.mod_small by mlia. apply wrap_u32_small. mlia. }
  assert (Hpos : forall rej r rst, stream = rej ++ r :: rst -> 0 <= r).
  { intros rej r rst ->. apply Forall_app in Hs as [_ Hs]. by apply Forall_cons in Hs as [? _]. }
  destruct (draw _ stream) as [[r rst]|] eqn:Hd.
  - apply draw_Some in Hd as (rej & He & Hr & Hf). pose proof (Hpos _ _ _ He).
    rewrite Hexact by done. split.
    + intros [= <- <-]. by exists rej, r.
    + intros (rej' & r' & He' & Hf' & Hr' & ->).
      assert (Hd1 : draw (limit (diameter min max)) stream = Some (r, rst))
        by (apply draw_Some; by exists rej).
      assert (Hd2 : draw (limit (diameter min max)) stream = Some (r', rest))
        by (apply draw_Some; by exists rej'). congruence.
  - split; [done|]. intros (rej & r & He & Hf & Hr & _).
    assert (Hd1 : draw (limit (diameter min max)) stream = Some (r, rest))
      by (apply draw_Some; by exists rej). congruence.
Qed.

Lemma cdf_single min max r v :
  0 <= min -> min <= max <= u32_max -> max - min < u32_max -> 0 <= r ->
  cdf min max [r] = Drawn v [] <->
  r < limit (diameter min max) /\ v = r / buckets (diameter min max) + min.
Proof.
  intros Hmin Hmax Hw Hr. rewrite cdf_Drawn by (done || by repeat constructor). split.
  - intros (rej & r' & He & Hf & Hl & Hv). destruct rej as [|x [|]]; simplify_eq/=. by split.
  - intros [Hl Hv]. exists [], r. by split_and!.
Qed.

Lemma sfmt_rand_in_bounds min max stream v rest :
  0 <= min <= max -> max <= i32_max -> Forall (Z.le 0) stream ->
  sfmt_rand min max stream = Drawn v rest -> min <= v <= max.
Proof.
  intros Hmin Hmax Hs. unfold sfmt_rand, to_uint.
  rewrite (proj2 (Z.ltb_ge min 0)), (proj2 (Z.ltb_ge max 0)) by lia. rewrite andb_false_r.
  rewrite !wrap_u32_small by mlia. destruct (Z.eqb_spec min max) as [->|Hne].
  - intros [= <- <-]. lia.
  - intros Hd. apply cdf_Drawn in Hd as (rej & r & -> & _ & Hr & ->); [|lia|mlia|mlia|done].
    apply accepted_range; [mlia|mlia|]. apply Forall_app in Hs as [_ Hs].
    by apply Forall_cons in Hs as [? _].
Qed.

(** [RNG_SFMT::rand] on the stream of [uint64_t] outputs to come. *)
Definition stream_rand (s : list Z) (min max : Z) : option (Z * list Z) :=
  if forallb (Z.leb 0) s then
    match sfmt_rand min max s with Drawn v rest => Some (v, rest) | _ => None end
  else None.

Lemma stream_rand_bounds s s' min max v :
  stream_rand s min max = Some (v, s') -> 0 <= min <= max -> max <= i32_max -> min <= v <= max.
Proof.
  unfold stream_rand. intros Hd Hmin Hmax. destruct (forallb _ s) eqn:Hs; [|done].
  destruct (sfmt_rand min max s) as [| |v' rest] eqn:Hr; simplify_eq.
  eapply sfmt_rand_in_bounds; [done|done| |done].
  rewrite forallb_forall in Hs. apply Forall_forall. intros r Hin%list_elem_of_In.
  by apply Z.leb_le, Hs.
Qed.

#[export] Instance RNG_SFMT : RandomSource (list Z) := {
  rand := stream_rand;
  rand_bounds := stream_rand_bounds
}.

(** ** Properties *)

(** C32. Rejection sampling is fair: over the 64-bit outputs, each value of
    [min..max] is produced by exactly [buckets] of them, a contiguous run, so
    all values have the same number of outputs, and fewer than [max - min + 1]
    outputs plus one are rejected. *)
Theorem cdf_uniform min max v :
  0 <= min -> min <= max <= i32_max -> min <= v <= max ->
  let b := buckets (diameter min max) in
  0 < b /\
  (forall r, 0 <= r <= u64_max ->
     cdf min max [r] = Drawn v [] <-> (v - min) * b <= r < (v - min + 1) * b) /\
  (forall r, 0 <= r <= u64_max ->
     cdf min max [r] = OutOfStream <-> limit (diameter min max) <= r) /\
  u64_max - (max - min + 1) < limit (diameter min max) /\
  limit (diameter min max) = (max - min + 1) * b.
Proof.
  intros Hmin Hmax Hv b. assert (Hd : diameter min max = max - min + 1)
    by (apply diameter_exact; mlia).
  pose proof (buckets_pos (max - min + 1) ltac:(mlia)) as Hb.
  destruct (limit_exact (max - min + 1) ltac:(mlia)) as [He Hl].
  subst b. split; [rewrite Hd; lia|]. split; [|split; [|rewrite Hd; lia]].
  - intros r Hr. rewrite cdf_single by mlia.
    pose proof (bucket_of min max ltac:(mlia) ltac:(mlia) r v ltac:(lia) Hv) as Hbk.
    rewrite Hd, He in *. split.
    + intros [_ ->]. by apply Hbk.
    + intros Hin. split; [nia|]. symmetry. by apply Hbk.
  - intros r Hr. unfold cdf. rewrite (proj2 (Z.ltb_ge max min)) by lia. cbn [draw].
    destruct (Z.leb_spec (limit (diameter min max)) r); split; (done || lia).
Qed.

(** [rand] is total on legal bounds: it throws exactly for a negative
    minimum, a stream with one output not in the last [2^31] 64-bit values is
    enough for it to return, and what it returns is in the bounds. *)
Theorem sfmt_rand_spec min max stream :
  min <= max <= i32_max -> Forall (Z.le 0) stream ->
  (sfmt_rand min max stream = InvalidBounds <-> min < 0) /\
  (0 <= min -> (exists r, r ∈ stream /\ r <= u64_max - 2 ^ 31) ->
     exists v rest, sfmt_rand min max stream = Drawn v rest) /\
  (forall v rest, 0 <= min -> sfmt_rand min max stream = Drawn v rest -> min <= v <= max).
Proof.
  intros Hmax Hs. split; [|split].
  - unfold sfmt_rand. destruct (Z.ltb_spec min 0) as [Hn|Hn]; [by split|].
    split; [|lia]. destruct (min =? max); [done|].
    rewrite (proj2 (Z.ltb_ge max 0)) by lia. rewrite andb_false_r. unfold to_uint, cdf.
    rewrite !wrap_u32_small by mlia. rewrite (proj2 (Z.ltb_ge max min)) by lia.
    by destruct (draw _ stream) as [[]|].
  - intros Hmin (r & Hr & Hle). unfold sfmt_rand.
    rewrite (proj2 (Z.ltb_ge min 0)), (proj2 (Z.ltb_ge max 0)) by lia. rewrite andb_false_r.
    destruct (min =? max); [by eexists _, _|]. unfold to_uint, cdf.
    rewrite !wrap_u32_small by mlia. rewrite (proj2 (Z.ltb_ge max min)) by lia.
    destruct (limit_exact (diameter min max)) as [_ Hl]; [rewrite diameter_exact; mlia|].
    rewrite diameter_exact in Hl |- * by mlia.
    enough (Hd : exists p, draw (limit (max - min + 1)) stream = Some p)
      by (destruct Hd as [[q rest] ->]; by eexists _, _).
    clear Hs. induction stream as [|x stream IH]; [by apply not_elem_of_nil in Hr|].
    cbn [draw]. destruct (Z.leb_spec (limit (max - min + 1)) x); [|by eexists].
    apply elem_of_cons in Hr as [<-|Hr]; [mlia|by apply IH].
  - intros v rest Hmin. apply sfmt_rand_in_bounds; [lia|mlia|done].
Qed.

(** A maximum below zero with a positive minimum is not caught: the cast makes
    the maximum about 2^32, and a number far outside any requested interval
    comes back. *)
Theorem rand_negative_maximum :
  sfmt_rand 1 (-2) [2 ^ 63] = Drawn 2147483648 [] /\ sfmt_rand 3 2 [2 ^ 63] = InvalidBounds.
Proof. split; vm_compute; reflexivity. Qed.

(** ** Witnesses *)

Lemma cdf_uniform_witness :
  cdf 1 6 [9223372036854775807] = Drawn 4 [] /\ 0 < buckets (diameter 1 6).
Proof.
  split; [|apply (cdf_uniform 1 6 4); mlia].
  apply (cdf_uniform 1 6 4); [lia|mlia|lia|mlia|]. vm_compute. split; [discriminate|reflexivity].
Defined.

Lemma sfmt_rand_spec_witness :
  exists v rest, sfmt_rand 0 99 [u64_max; 12345; 7] = Drawn v rest.
Proof.
  apply (sfmt_rand_spec 0 99 [u64_max; 12345; 7]).
  - mlia.
  - repeat (apply Forall_cons; split; [vm_compute; discriminate|]). apply Forall_nil_2.
  - lia.
  - exists 12345. split; [|vm_compute; discriminate].
    apply list_elem_of_In. right. left. reflexivity.
Defined.
