(* ===== verification/CardZone.v ===== *)
(** * Card zones of the server: [server_cardzone.cpp]

    A zone is a list of cards and, when it has coordinates, a grid: rows of
    piles of three columns, with the piles a card of a given name may still
    join and the leftmost free pile of each row. Cards are shared objects, so
    zones hold references and the cards live in a store.

    A row that [QMap] creates when it is only read holds the default value and
    is not distinguished from an absent row. A null pointer that is
    dereferenced is [None]; the cards of a row are taken to be in the store,
    and one that is not counts as face up and bare. [moveCardInRow] and [fixFreeSpaces] call the
    player's [moveCard] and [getInfo] fills a protocol message: they are not
    modelled. *)
From S2P Require Import Prelude Rng.
Open Scope cockatrice_scope.
Local Open Scope Z_scope.

(** ** State *)

Abbreviation card_ref := nat.

Record Server_Card : Type := {
  card_id : Z;
  card_name : string;
  face_down : bool;
  attached : list card_ref;
  card_x : Z;
  card_y : Z;
  in_zone : bool
}.

Abbreviation store := (gmap card_ref Server_Card).

Inductive ZoneType : Type := PrivateZone | PublicZone | HiddenZone.

#[export] Instance ZoneType_eq_dec : EqDecision ZoneType.
Proof. solve_decision. Defined.

Record Server_CardZone : Type := {
  has_coords : bool;
  zone_type : ZoneType;
  cardsBeingLookedAt : Z;
  playersWithWritePermission : gset Z;
  cards : list card_ref;
  coordinateMap : gmap Z (gmap Z card_ref);
  freePilesMap : gmap Z (list (string * Z));
  freeSpaceMap : gmap Z Z
}.

Definition set_cards (l : list card_ref) (z : Server_CardZone) : Server_CardZone :=
  {| has_coords := has_coords z; zone_type := zone_type z;
     cardsBeingLookedAt := cardsBeingLookedAt z;
     playersWithWritePermission := playersWithWritePermission z; cards := l;
     coordinateMap := coordinateMap z; freePilesMap := freePilesMap z;
     freeSpaceMap := freeSpaceMap z |}.

Definition set_looked_at (n : Z) (z : Server_CardZone) : Server_CardZone :=
  {| has_coords := has_coords z; zone_type := zone_type z; cardsBeingLookedAt := n;
     playersWithWritePermission := playersWithWritePermission z; cards := cards z;
     coordinateMap := coordinateMap z; freePilesMap := freePilesMap z;
     freeSpaceMap := freeSpaceMap z |}.

Definition set_writers (w : gset Z) (z : Server_CardZone) : Server_CardZone :=
  {| has_coords := has_coords z; zone_type := zone_type z;
     cardsBeingLookedAt := cardsBeingLookedAt z; playersWithWritePermission := w;
     cards := cards z; coordinateMap := coordinateMap z; freePilesMap := freePilesMap z;
     freeSpaceMap := freeSpaceMap z |}.

Definition set_grid (c : gmap Z (gmap Z card_ref)) (p : gmap Z (list (string * Z)))
    (f : gmap Z Z) (z : Server_CardZone) : Server_CardZone :=
  {| has_coords := has_coords z; zone_type := zone_type z;
     cardsBeingLookedAt := cardsBeingLookedAt z;
     playersWithWritePermission := playersWithWritePermission z; cards := cards z;
     coordinateMap := c; freePilesMap := p; freeSpaceMap := f |}.

(** [coordinateMap[y]], [freePilesMap[y]] and [freeSpaceMap[y]]. *)
Definition row (z : Server_CardZone) (y : Z) : gmap Z card_ref :=
  default ∅ (coordinateMap z !! y).

Definition free_piles (z : Server_CardZone) (y : Z) : list (string * Z) :=
  default [] (freePilesMap z !! y).

Definition free_space (z : Server_CardZone) (y : Z) : Z := default 0 (freeSpaceMap z !! y).

Definition contains (r : gmap Z card_ref) (x : Z) : bool := bool_decide (is_Some (r !! x)).

(** ** Shuffling *)

(** [QList::swapItemsAt]. *)
Definition swapItemsAt (j i : nat) (l : list card_ref) : list card_ref :=
  <[i := l !!! j]> (<[j := l !!! i]> l).

(** [for (int i = end; i > start; i--)]; [n] is [i - start]. *)
Fixpoint shuffle_loop {T} `{RandomSource T} (start : nat) (n : nat) (l : list card_ref) (rng : T)
    : option (list card_ref * T) :=
  match n with
  | O => Some (l, rng)
  | S n' =>
      let i := (start + n)%nat in
      '(j, rng') ← rand rng (Z.of_nat start) (Z.of_nat i);
      shuffle_loop start n' (swapItemsAt (Z.to_nat j) i l) rng'
  end.

Definition shuffle {T} `{RandomSource T} (start end_ : Z) (z : Server_CardZone) (rng : T)
    : option (Server_CardZone * T) :=
  let z := set_looked_at 0 z in
  let size := Z.of_nat (length (cards z)) in
  if size <? 2 then Some (z, rng)
  else
    let end_ := if end_ <? 0 then end_ + size else end_ in
    let start := if start <? 0 then start + size else start in
    if (start <? 0) || (end_ <? 0) || (size <=? start) || (size <=? end_) then Some (z, rng)
    else
      '(l, rng') ← shuffle_loop (Z.to_nat start) (Z.to_nat (end_ - start)) (cards z) rng;
      Some (set_writers ∅ (set_cards l z), rng').

(** ** The grid *)

(** [(x / 3) * 3], a division that truncates. *)
Definition base_column (x : Z) : Z := Z.quot x 3 * 3.

Definition pile_occupied (r : gmap Z card_ref) (x : Z) : bool :=
  contains r x || contains r (x + 1) || contains r (x + 2).

(** [QMultiMap::remove(key, value)] and [insert(key, value)], the latest first. *)
Definition multi_remove (name : string) (x : Z) (l : list (string * Z)) : list (string * Z) :=
  List.filter (fun e => negb (bool_decide (e = (name, x)))) l.

Definition name_at (st : store) (r : gmap Z card_ref) (x : Z) : option string :=
  c ← r !! x; k ← st !! c; Some (card_name k).

(** The [coordMap.contains(x) && coordMap.value(x)->getName() == name] tests. *)
Definition has_name_at (st : store) (r : gmap Z card_ref) (x : Z) (name : string) : bool :=
  bool_decide (name_at st r x = Some name).

Definition removeCardFromCoordMap (st : store) (card : card_ref) (oldX oldY : Z)
    (z : Server_CardZone) : option Server_CardZone :=
  if oldX <? 0 then Some z
  else
    k ← st !! card;
    let baseX := base_column oldX in
    let r := row z oldY in
    piles ← (if contains r baseX && contains r (baseX + 1) && contains r (baseX + 2)
             then n ← name_at st r baseX; Some ((n, baseX) :: free_piles z oldY)
             else Some (free_piles z oldY));
    let r := delete oldX r in
    let piles :=
      if negb (has_name_at st r baseX (card_name k)) &&
         negb (has_name_at st r (baseX + 1) (card_name k)) &&
         negb (has_name_at st r (baseX + 2) (card_name k))
      then multi_remove (card_name k) baseX piles else piles in
    let space :=
      if negb (pile_occupied r baseX) && (baseX <? free_space z oldY)
      then baseX else free_space z oldY in
    Some (set_grid (<[oldY := r]> (coordinateMap z)) (<[oldY := piles]> (freePilesMap z))
            (<[oldY := space]> (freeSpaceMap z)) z).

(** The [do nextFreeX += 3 while (..)] loop; [None] is out of fuel. *)
Fixpoint next_free (fuel : nat) (r : gmap Z card_ref) (x : Z) : option Z :=
  match fuel with
  | O => None
  | S f => let x := x + 3 in if pile_occupied r x then next_free f r x else Some x
  end.

(** One more column than the row has cards. *)
Definition row_fuel (r : gmap Z card_ref) : nat := S (size r).

Definition insertCardIntoCoordMap (st : store) (card : card_ref) (x y : Z)
    (z : Server_CardZone) : option Server_CardZone :=
  if x <? 0 then Some z
  else
    k ← st !! card;
    let r := <[x := card]> (row z y) in
    let grid := <[y := r]> (coordinateMap z) in
    if x mod 3 =? 0 then
      let piles :=
        if negb (face_down k) && negb (bool_decide ((card_name k, x) ∈ free_piles z y)) &&
           bool_decide (attached k = [])
        then (card_name k, x) :: free_piles z y else free_piles z y in
      space ← (if free_space z y =? x then next_free (row_fuel r) r x
               else Some (free_space z y));
      Some (set_grid grid (<[y := piles]> (freePilesMap z)) (<[y := space]> (freeSpaceMap z)) z)
    else if x mod 3 =? 2 then
      let baseX := base_column x in
      n ← name_at st r baseX;
      Some (set_grid grid (<[y := multi_remove n baseX (free_piles z y)]> (freePilesMap z))
              (freeSpaceMap z) z)
    else Some (set_grid grid (freePilesMap z) (freeSpaceMap z) z).

Definition updateCardCoordinates (st : store) (card : card_ref) (oldX oldY : Z)
    (z : Server_CardZone) : option Server_CardZone :=
  if negb (has_coords z) then Some z
  else
    z ← (if oldX =? -1 then Some z else removeCardFromCoordMap st card oldX oldY z);
    k ← st !! card;
    insertCardIntoCoordMap st card (card_x k) (card_y k) z.

(** [while (coordMap.contains(resultX)) resultX += 3;]. *)
Fixpoint skip_columns (fuel : nat) (r : gmap Z card_ref) (x : Z) : option Z :=
  match fuel with
  | O => None
  | S f => if contains r x then skip_columns f r (x + 3) else Some x
  end.

Definition card_at (st : store) (r : gmap Z card_ref) (x : Z) : option Server_Card :=
  c ← r !! x; st !! c.

Definition attached_at (st : store) (r : gmap Z card_ref) (x : Z) : bool :=
  match card_at st r x with Some k => negb (bool_decide (attached k = [])) | None => false end.

Definition face_down_at (st : store) (r : gmap Z card_ref) (x : Z) : bool :=
  match card_at st r x with Some k => face_down k | None => false end.

(** [freePilesMap[y].value(name)]: the latest pile of that name. *)
Definition pile_of (name : string) (piles : list (string * Z)) : option Z :=
  snd <$> head (List.filter (fun e => bool_decide (e.1 = name)) piles).

Definition getFreeGridColumn (st : store) (z : Server_CardZone) (x y : Z) (cardName : string)
    (dontStackSameName : bool) : option Z :=
  let r := row z y in
  if x =? -1 then
    match (if dontStackSameName then None else pile_of cardName (free_piles z y)) with
    | Some p =>
        let x := base_column p in
        if contains r x && (face_down_at st r x || attached_at st r x)
        then Some (free_space z y)
        else if negb (contains r x) then Some x
        else if negb (contains r (x + 1)) then Some (x + 1)
        else Some (x + 2)
    | None => Some (free_space z y)
    end
  else if 0 <=? x then
    let x := base_column x in
    if negb (contains r x) then Some x
    else if attached_at st r x then skip_columns (row_fuel r) r x
    else if negb (contains r (x + 1)) then Some (x + 1)
    else if negb (contains r (x + 2)) then Some (x + 2)
    else skip_columns (row_fuel r) r x
  else Some (free_space z y).

Definition isColumnStacked (z : Server_CardZone) (x y : Z) : bool :=
  if negb (has_coords z) then false else contains (row z y) (base_column x + 1).

Definition isColumnEmpty (z : Server_CardZone) (x y : Z) : bool :=
  if negb (has_coords z) then true else negb (contains (row z y) (base_column x)).

(** ** The list of cards *)

Definition isCardAtPosLookedAt (z : Server_CardZone) (pos : Z) : bool :=
  bool_decide (zone_type z = HiddenZone) &&
  ((cardsBeingLookedAt z =? -1) || (pos <? cardsBeingLookedAt z)).

Definition set_zone (b : bool) (k : Server_Card) : Server_Card :=
  {| card_id := card_id k; card_name := card_name k; face_down := face_down k;
     attached := attached k; card_x := card_x k; card_y := card_y k; in_zone := b |}.

Definition set_coords (x y : Z) (k : Server_Card) : Server_Card :=
  {| card_id := card_id k; card_name := card_name k; face_down := face_down k;
     attached := attached k; card_x := x; card_y := y; in_zone := in_zone k |}.

(** [QList::indexOf], the position of the first occurrence or -1. *)
Definition index_of (card : card_ref) (l : list card_ref) : Z :=
  match list_find (eq card) l with Some (i, _) => Z.of_nat i | None => -1 end.

(** [QList::removeAt]; the index has to be in range. *)
Definition removeAt (i : Z) (l : list card_ref) : option (list card_ref) :=
  if i <? 0 then None else Some (delete (Z.to_nat i) l).

(** [removeCard]: the index, whether the card was looked at, the new state. *)
Definition removeCard (st : store) (card : card_ref) (z : Server_CardZone)
    : option (Z * bool * (store * Server_CardZone)) :=
  let index := index_of card (cards z) in
  let wasLookedAt := isCardAtPosLookedAt z index in
  let z := if wasLookedAt && (0 <? cardsBeingLookedAt z)
           then set_looked_at (cardsBeingLookedAt z - 1) z else z in
  l ← removeAt index (cards z);
  let z := set_cards l z in
  k ← st !! card;
  z ← (if has_coords z then removeCardFromCoordMap st card (card_x k) (card_y k) z else Some z);
  Some (index, wasLookedAt, (<[card := set_zone false k]> st, z)).

(** The search loop of [getCard]. *)
Fixpoint find_id (st : store) (id : Z) (l : list card_ref) (i : nat) : option (nat * card_ref) :=
  match l with
  | [] => None
  | c :: l' =>
      match st !! c with
      | Some k => if card_id k =? id then Some (i, c) else find_id st id l' (S i)
      | None => find_id st id l' (S i)
      end
  end.

Definition getCard (st : store) (id : Z) (remove : bool) (z : Server_CardZone)
    : option (nat * card_ref) * (store * Server_CardZone) :=
  let found :=
    if negb (bool_decide (zone_type z = HiddenZone)) then find_id st id (cards z) 0
    else if (Z.of_nat (length (cards z)) <=? id) || (id <? 0) then None
    else c ← cards z !! Z.to_nat id; Some (Z.to_nat id, c) in
  match found with
  | Some (i, c) =>
      if remove
      then (found, (alter (set_zone false) c st, set_cards (delete i (cards z)) z))
      else (found, (st, z))
  | None => (None, (st, z))
  end.

(** [QList::insert]. *)
Definition insert_at (i : nat) (c : card_ref) (l : list card_ref) : list card_ref :=
  take i l ++ c :: drop i l.

Definition insertCard (st : store) (card : card_ref) (x y : Z) (z : Server_CardZone)
    : option (store * Server_CardZone) :=
  if has_coords z then
    let st := alter (set_coords x y) card st in
    z ← insertCardIntoCoordMap st card x y (set_cards (cards z ++ [card]) z);
    Some (alter (set_zone true) card st, z)
  else
    let st := alter (set_coords 0 0) card st in
    let l := if (0 <=? x) && (x <? Z.of_nat (length (cards z)))
             then insert_at (Z.to_nat x) card (cards z) else cards z ++ [card] in
    Some (alter (set_zone true) card st, set_cards l z).

(** [clear], which deletes the cards. *)
Definition clear (st : store) (z : Server_CardZone) : store * Server_CardZone :=
  (foldr delete st (cards z),
   set_looked_at 0 (set_writers ∅ (set_grid ∅ ∅ ∅ (set_cards [] z)))).

Definition addWritePermission (p : Z) (z : Server_CardZone) : Server_CardZone :=
  set_writers ({[p]} ∪ playersWithWritePermission z) z.

Definition setCardsBeingLookedAt (n : Z) (z : Server_CardZone) : Server_CardZone :=
  set_looked_at (Z.max 0 n) z.
