(* ===== verification/CardZoneCorrect.v ===== *)
(** * Correctness of card zones

    Shuffling against any random source and its fairness, the leftmost free
    pile of the grid as an invariant of the two grid updates, free columns, and
    the list operations. *)
From S2P Require Import Prelude Rng CardZone.
Open Scope cockatrice_scope.
Local Open Scope Z_scope.

(** ** Specification *)

(** A source that plays back chosen numbers, as long as they are in bounds. *)
Inductive script : Type := Script (choices : list Z).

Definition script_rand (s : script) (min max : Z) : option (Z * script) :=
  match s with
  | Script (v :: vs) => if (min <=? v) && (v <=? max) then Some (v, Script vs) else None
  | Script [] => None
  end.

(** A negative position counts from the end. *)
Definition position (size p : Z) : Z := if p <? 0 then p + size else p.

(** The leftmost pile of a row without a card is recorded: piles before it are
    occupied. *)
Definition leftmost_free (r : gmap Z card_ref) (x : Z) : Prop :=
  0 <= x /\ x mod 3 = 0 /\ pile_occupied r x = false /\
  forall b, 0 <= b < x -> b mod 3 = 0 -> pile_occupied r b = true.

Definition grid_ok (z : Server_CardZone) : Prop :=
  forall y, leftmost_free (row z y) (free_space z y).

(** ** Shuffling *)

Lemma script_bounds s s' min max v :
  script_rand s min max = Some (v, s') -> 0 <= min <= max -> max <= i32_max -> min <= v <= max.
Proof.
  destruct s as [[|x xs]]; cbn [script_rand]; [done|].
  destruct (_ && _) eqn:Hb; [|done]. intros [= <- <-] _ _. lia.
Qed.

#[export] Instance script_source : RandomSource script := {
  rand := script_rand;
  rand_bounds := script_bounds
}.

Lemma swap_lookup j i k l :
  (i < length l)%nat -> (j < length l)%nat ->
  swapItemsAt j i l !!! k =
    if Nat.eqb k i then l !!! j else if Nat.eqb k j then l !!! i else l !!! k.
Proof.
  intros Hi Hj. unfold swapItemsAt.
  rewrite lookup_total_insert by (by rewrite length_insert). rewrite lookup_total_insert by done.
  rewrite (Nat.eqb_sym i k), (Nat.eqb_sym j k). done.
Qed.

Lemma swap_length j i l : length (swapItemsAt j i l) = length l.
Proof. unfold swapItemsAt. by rewrite !length_insert. Qed.

Lemma insert_perm (i : nat) (a b : card_ref) l :
  l !! i = Some a -> a :: <[i := b]> l ≡ₚ b :: l.
Proof.
  revert i. induction l as [|x l IH]; intros [|i] Hi; simplify_eq/=; [apply perm_swap|].
  rewrite perm_swap, (IH i Hi). apply perm_swap.
Qed.

Lemma swap_perm j i l :
  (i < length l)%nat -> (j < length l)%nat -> swapItemsAt j i l ≡ₚ l.
Proof.
  intros Hi Hj. unfold swapItemsAt.
  pose proof (list_lookup_lookup_total_lt l j Hj) as Hlj.
  assert (Hli : <[j := l !!! i]> l !! i = Some (l !!! i)).
  { destruct (decide (i = j)) as [->|Hne]; [by rewrite list_lookup_insert_eq|].
    rewrite list_lookup_insert_ne by done. by apply list_lookup_lookup_total_lt. }
  apply (Permutation_cons_inv (a := l !!! i)).
  rewrite (insert_perm i _ (l !!! j) _ Hli). by apply insert_perm.
Qed.

Lemma swap_nodup j i l :
  (i < length l)%nat -> (j < length l)%nat -> NoDup l -> NoDup (swapItemsAt j i l).
Proof. intros Hi Hj. by rewrite swap_perm. Qed.

Section Loop.
Context {T : Type} `{RandomSource T}.

(** What the loop does to the list, whatever numbers it draws. *)
Lemma shuffle_loop_spec start n l rng l' rng' :
  (start + n < length l)%nat -> Z.of_nat (length l) <= i32_max ->
  shuffle_loop start n l rng = Some (l', rng') ->
  l' ≡ₚ l /\ forall k, (k < start \/ start + n < k)%nat -> l' !!! k = l !!! k.
Proof.
  revert l rng. induction n as [|n IH]; intros l rng Hlen Hmax; cbn [shuffle_loop].
  { intros [= -> _]. by split. }
  destruct (rand rng _ _) as [[j rng1]|] eqn:Hr; [|done]. cbn [mbind option_bind].
  apply rand_bounds in Hr; [|mlia|mlia].
  intros Hl. assert (Hi : (start + S n < length l)%nat) by lia.
  assert (Hj : (Z.to_nat j < length l)%nat) by lia.
  apply IH in Hl as [Hp Hk]; [|rewrite swap_length; lia|rewrite swap_length; lia].
  split; [by rewrite Hp, swap_perm|].
  intros k Hout. rewrite Hk by lia. rewrite swap_lookup by done.
  rewrite (proj2 (Nat.eqb_neq k (start + S n))) by lia.
  by rewrite (proj2 (Nat.eqb_neq k (Z.to_nat j))) by lia.
Qed.
End Loop.

Lemma nodup_lookup (l : list card_ref) i j :
  NoDup l -> (i < length l)%nat -> (j < length l)%nat -> l !!! i = l !!! j -> i = j.
Proof.
  intros Hn Hi Hj He. apply (NoDup_lookup l i j (l !!! i)); [done| |].
  - by apply list_lookup_lookup_total_lt.
  - rewrite He. by apply list_lookup_lookup_total_lt.
Qed.

Lemma perm_position (l p : list card_ref) i :
  p ≡ₚ l -> (i < length l)%nat -> exists j, (j < length l)%nat /\ l !!! j = p !!! i.
Proof.
  intros Hp Hi. assert (Hin : p !!! i ∈ l).
  { rewrite <- Hp. apply (list_elem_of_lookup_2 _ i), list_lookup_lookup_total_lt.
    by rewrite (Permutation_length Hp). }
  apply list_elem_of_lookup in Hin as [j Hj]. exists j.
  split; [by eapply lookup_lt_Some|]. by apply list_lookup_total_correct.
Qed.

(** Two arrangements of the same cards that agree everywhere but at one
    position agree there too. *)
Lemma perm_last (l p : list card_ref) start :
  NoDup l -> p ≡ₚ l -> (start < length l)%nat ->
  (forall k, k <> start -> p !!! k = l !!! k) -> p = l.
Proof.
  intros Hn Hp Hs Hk. pose proof (Permutation_length Hp) as Hlen.
  assert (Hst : p !!! start = l !!! start).
  { destruct (perm_position l p start Hp Hs) as (j & Hj & He).
    destruct (decide (j = start)) as [->|Hne]; [done|].
    rewrite <- (Hk j Hne) in He. apply nodup_lookup in He; [done| |lia|lia].
    by rewrite Hp. }
  apply list_eq. intros k. destruct (decide (k < length l)%nat) as [Hlt|Hge].
  - rewrite !list_lookup_lookup_total_lt by lia. f_equal.
    destruct (decide (k = start)) as [->|Hne]; auto.
  - by rewrite !lookup_ge_None_2 by lia.
Qed.

(** The number the loop has to draw first is the place of the card that ends at
    the last position. *)
Lemma shuffle_first start n l p :
  NoDup l -> p ≡ₚ l -> (start + S n < length l)%nat ->
  (forall k, (k < start \/ start + S n < k)%nat -> p !!! k = l !!! k) ->
  exists j, (start <= j <= start + S n)%nat /\ l !!! j = p !!! (start + S n)%nat /\
    let l1 := swapItemsAt j (start + S n) l in
    NoDup l1 /\ p ≡ₚ l1 /\ length l1 = length l /\
    forall k, (k < start \/ start + n < k)%nat -> p !!! k = l1 !!! k.
Proof.
  intros Hn Hp Hlen Hk. set (i := (start + S n)%nat) in *.
  pose proof (Permutation_length Hp) as Hl.
  destruct (perm_position l p i Hp Hlen) as (j & Hj & He).
  assert (Hji : (start <= j <= i)%nat).
  { destruct (decide (start <= j <= i)%nat); [done|]. exfalso.
    rewrite <- Hk in He by lia. apply nodup_lookup in He; [lia| |lia|lia]. by rewrite Hp. }
  exists j. split; [done|]. split; [done|]. cbv zeta.
  split; [by apply swap_nodup|]. split; [by rewrite swap_perm|]. split; [apply swap_length|].
  intros k Hout. rewrite swap_lookup by lia. destruct (Nat.eqb_spec k i) as [->|Hne]; [done|].
  rewrite (proj2 (Nat.eqb_neq k j)) by lia. apply Hk. lia.
Qed.

Lemma shuffle_exists start n l p :
  NoDup l -> p ≡ₚ l -> (start + n < length l)%nat ->
  (forall k, (k < start \/ start + n < k)%nat -> p !!! k = l !!! k) ->
  exists js, length js = n /\ shuffle_loop start n l (Script js) = Some (p, Script []).
Proof.
  revert l. induction n as [|n IH]; intros l Hn Hp Hlen Hk.
  - exists []. split; [done|]. cbn [shuffle_loop]. do 2 f_equal. symmetry.
    apply (perm_last l p start); [done|done|lia|]. intros k Hne. apply Hk. lia.
  - destruct (shuffle_first start n l p Hn Hp Hlen Hk) as (j & Hj & _ & Hn1 & Hp1 & Hl1 & Hk1).
    destruct (IH (swapItemsAt j (start + S n) l) Hn1 Hp1 ltac:(lia) Hk1) as (js & Hjs & Hloop).
    exists (Z.of_nat j :: js). split; [simpl; lia|]. cbn [shuffle_loop rand script_source script_rand].
    rewrite (proj2 (Z.leb_le _ _)), (proj2 (Z.leb_le _ _)) by lia.
    cbn [andb mbind option_bind]. rewrite Nat2Z.id. exact Hloop.
Qed.

Lemma shuffle_unique start n l p js js' :
  NoDup l -> (start + n < length l)%nat -> Z.of_nat (length l) <= i32_max ->
  shuffle_loop start n l (Script js) = Some (p, Script []) ->
  shuffle_loop start n l (Script js') = Some (p, Script []) -> js = js'.
Proof.
  revert l js js'. induction n as [|n IH]; intros l js js' Hn Hlen Hmax.
  { cbn [shuffle_loop]. congruence. }
  cbn [shuffle_loop]. intros H1 H2.
  destruct (rand (Script js) _ _) as [[j s1]|] eqn:Hr1; [|done].
  destruct (rand (Script js') _ _) as [[j' s2]|] eqn:Hr2; [|done].
  cbn [mbind option_bind] in H1, H2.
  pose proof (rand_bounds _ _ _ _ _ Hr1 ltac:(lia) ltac:(mlia)) as Hb1.
  pose proof (rand_bounds _ _ _ _ _ Hr2 ltac:(lia) ltac:(mlia)) as Hb2.
  assert (Hlast : forall j s, Z.of_nat start <= j <= Z.of_nat (start + S n) ->
    shuffle_loop start n (swapItemsAt (Z.to_nat j) (start + S n) l) s = Some (p, Script []) ->
    p !!! (start + S n)%nat = l !!! Z.to_nat j).
  { intros k s Hb Hs. apply shuffle_loop_spec in Hs as [_ Hk]; [|rewrite swap_length; lia..].
    rewrite Hk by lia. rewrite swap_lookup by lia. by rewrite Nat.eqb_refl. }
  assert (j = j') as <-.
  { pose proof (Hlast _ _ Hb1 H1) as E1. pose proof (Hlast _ _ Hb2 H2) as E2. rewrite E1 in E2.
    apply nodup_lookup in E2; lia || done. }
  destruct js as [|x js]; [done|]. destruct js' as [|x' js']; [done|].
  cbn [rand script_source script_rand] in Hr1, Hr2.
  destruct ((_ <=? x) && _); [|done]. destruct ((_ <=? x') && _); [|done].
  simplify_eq. f_equal. eapply IH; [| |rewrite swap_length; exact Hmax|exact H1|exact H2].
  - apply swap_nodup; [lia|lia|done].
  - rewrite swap_length. lia.
Qed.

(** ** The loops of the grid end *)

Lemma contains_true r x : contains r x = true <-> is_Some (r !! x).
Proof. unfold contains. apply bool_decide_eq_true. Qed.

Lemma contains_insert r x y c : contains (<[x := c]> r) y = (y =? x) || contains r y.
Proof.
  unfold contains. destruct (Z.eqb_spec y x) as [->|Hne].
  - apply bool_decide_eq_true_2. rewrite lookup_insert_eq. by eexists.
  - by rewrite lookup_insert_ne.
Qed.

Lemma contains_delete r x y : contains (delete x r) y = negb (y =? x) && contains r y.
Proof.
  unfold contains. destruct (Z.eqb_spec y x) as [->|Hne].
  - apply bool_decide_eq_false_2. rewrite lookup_delete_eq. by intros [? ?].
  - by rewrite lookup_delete_ne.
Qed.

(** A row with [n] different occupied columns has at least [n] cards. *)
Lemma columns_bound (r : gmap Z card_ref) (f : nat -> Z) n :
  (forall i j, f i = f j -> i = j) -> (forall k, (k < n)%nat -> contains r (f k) = true) ->
  (n <= size r)%nat.
Proof.
  intros Hinj Hc. rewrite <- size_dom. transitivity (size (list_to_set (C := gset Z) (map f (seq 0 n)))).
  - rewrite size_list_to_set; [by rewrite length_map, length_seq|].
    apply (NoDup_fmap_2_strong f); [intros i j _ _; apply Hinj|apply NoDup_seq].
  - apply subseteq_size. intros x Hx%elem_of_list_to_set.
    apply list_elem_of_fmap in Hx as (k & -> & Hk%elem_of_seq).
    apply elem_of_dom, contains_true, Hc. lia.
Qed.

(** The first occupied column of a pile. *)
Definition pile_column (r : gmap Z card_ref) (x : Z) : Z :=
  if contains r x then x else if contains r (x + 1) then x + 1 else x + 2.

Lemma pile_column_spec r x :
  pile_occupied r x = true -> contains r (pile_column r x) = true /\ x <= pile_column r x <= x + 2.
Proof.
  unfold pile_occupied, pile_column.
  destruct (contains r x) eqn:H0; [intros _; split; [done|lia]|].
  destruct (contains r (x + 1)) eqn:H1; [intros _; split; [done|lia]|].
  cbn [orb]. intros H2. split; [done|lia].
Qed.

Lemma mod3 a : a mod 3 = 0 <-> exists k, a = 3 * k.
Proof.
  rewrite Z.mod_divide by done. split; intros [k Hk]; exists k; lia.
Qed.

Lemma next_free_spec fuel r x x' :
  next_free fuel r x = Some x' ->
  x < x' /\ (x' - x) mod 3 = 0 /\ pile_occupied r x' = false /\
  forall b, x < b < x' -> (b - x) mod 3 = 0 -> pile_occupied r b = true.
Proof.
  revert x. induction fuel as [|f IH]; intros x; cbn [next_free]; [done|].
  destruct (pile_occupied r (x + 3)) eqn:Ho.
  - intros (H1 & H2 & H3 & H4)%IH. apply mod3 in H2 as [q Hq].
    split_and!; [lia|apply mod3; exists (q + 1); lia|done|].
    intros b Hb [k Hk]%mod3. destruct (decide (b = x + 3)) as [->|Hne]; [done|].
    apply H4; [lia|]. apply mod3. exists (k - 1). lia.
  - intros [= <-]. split_and!; [lia|apply mod3; exists 1; lia|done|].
    intros b Hb [k Hk]%mod3. lia.
Qed.

Lemma next_free_occupied fuel r x :
  next_free fuel r x = None ->
  forall k, (k < fuel)%nat -> pile_occupied r (x + 3 * (Z.of_nat k + 1)) = true.
Proof.
  revert x. induction fuel as [|f IH]; intros x; cbn [next_free]; [lia|].
  destruct (pile_occupied r (x + 3)) eqn:Ho; [|done]. intros Hn [|k] Hk.
  - by replace (x + 3 * (Z.of_nat 0 + 1)) with (x + 3) by lia.
  - replace (x + 3 * (Z.of_nat (S k) + 1)) with (x + 3 + 3 * (Z.of_nat k + 1)) by lia.
    apply IH; [done|lia].
Qed.

Lemma next_free_total r x : exists x', next_free (row_fuel r) r x = Some x'.
Proof.
  destruct (next_free (row_fuel r) r x) as [x'|] eqn:Hn; [by eexists|]. exfalso.
  pose proof (next_free_occupied _ _ _ Hn) as Ho.
  enough (row_fuel r <= size r)%nat by (unfold row_fuel in *; lia).
  set (f := fun k => if decide (k < row_fuel r)%nat
                     then pile_column r (x + 3 * (Z.of_nat k + 1))
                     else x + 3 * (Z.of_nat k + 1)).
  assert (Hf : forall k, x + 3 * (Z.of_nat k + 1) <= f k <= x + 3 * (Z.of_nat k + 1) + 2).
  { intros k. unfold f. case_decide as Hk; [by apply pile_column_spec, Ho|lia]. }
  apply (columns_bound r f).
  - intros i j He. pose proof (Hf i). pose proof (Hf j). lia.
  - intros k Hk. unfold f. rewrite decide_True by done. by apply pile_column_spec, Ho.
Qed.

Lemma skip_columns_spec fuel r x x' :
  skip_columns fuel r x = Some x' ->
  contains r x' = false /\ x <= x' /\ (x' - x) mod 3 = 0.
Proof.
  revert x. induction fuel as [|f IH]; intros x; cbn [skip_columns]; [done|].
  destruct (contains r x) eqn:Hc.
  - intros (H1 & H2 & H3)%IH. split_and!; [done|lia|].
    replace (x' - x) with (x' - (x + 3) + 1 * 3) by lia. by rewrite Z_mod_plus_full.
  - intros [= <-]. split_and!; [done|lia|by rewrite Z.sub_diag].
Qed.

Lemma skip_columns_total r x : exists x', skip_columns (row_fuel r) r x = Some x'.
Proof.
  destruct (skip_columns (row_fuel r) r x) as [x'|] eqn:Hs; [by eexists|]. exfalso.
  enough (row_fuel r <= size r)%nat by (unfold row_fuel in *; lia).
  apply (columns_bound r (fun k => x + 3 * Z.of_nat k)); [intros; lia|].
  revert x Hs. generalize (row_fuel r) as fuel. induction fuel as [|f IH]; intros x Hs; [lia|].
  cbn [skip_columns] in Hs. destruct (contains r x) eqn:Hc; [|done]. intros [|k] Hk.
  - by replace (x + 3 * Z.of_nat 0) with x by lia.
  - replace (x + 3 * Z.of_nat (S k)) with (x + 3 + 3 * Z.of_nat k) by lia. apply IH; [done|lia].
Qed.

(** ** The leftmost free pile *)

Lemma base_column_spec x :
  0 <= x -> 0 <= base_column x /\ base_column x mod 3 = 0 /\ base_column x <= x <= base_column x + 2.
Proof.
  intros Hx. unfold base_column. rewrite Z.quot_div_nonneg by lia. pose proof (Z.div_mod x 3). pose proof (Z.mod_pos_bound x 3).
  pose proof (Z.div_pos x 3). split_and!; [lia|apply Z_mod_mult|lia|lia].
Qed.

Lemma mod3_gap a b : a mod 3 = 0 -> b mod 3 = 0 -> a <= b + 2 -> b <= a + 2 -> a = b.
Proof.
  intros Ha Hb H1 H2. pose proof (Z.div_mod a 3). pose proof (Z.div_mod b 3). lia.
Qed.

Lemma pile_occupied_insert r x c b :
  pile_occupied (<[x := c]> r) b = pile_occupied r b || ((b <=? x) && (x <=? b + 2)).
Proof.
  unfold pile_occupied. rewrite !contains_insert.
  destruct (Z.eqb_spec b x), (Z.eqb_spec (b + 1) x), (Z.eqb_spec (b + 2) x),
    (Z.leb_spec b x), (Z.leb_spec x (b + 2)); try lia;
    destruct (contains r b), (contains r (b + 1)), (contains r (b + 2)); done.
Qed.

Lemma pile_occupied_delete_other r x b :
  x < b \/ b + 2 < x -> pile_occupied (delete x r) b = pile_occupied r b.
Proof.
  intros Hx. unfold pile_occupied. rewrite !contains_delete.
  by rewrite (proj2 (Z.eqb_neq b x)), (proj2 (Z.eqb_neq (b + 1) x)),
    (proj2 (Z.eqb_neq (b + 2) x)) by lia.
Qed.

Lemma row_set z y y' r p f :
  row (set_grid (<[y := r]> (coordinateMap z)) p f z) y' = if decide (y = y') then r else row z y'.
Proof.
  unfold row, set_grid. cbn [coordinateMap].
  destruct (decide (y = y')) as [->|Hne]; [by rewrite lookup_insert_eq|by rewrite lookup_insert_ne].
Qed.

Lemma space_set z y y' c p s :
  free_space (set_grid c p (<[y := s]> (freeSpaceMap z)) z) y' =
    if decide (y = y') then s else free_space z y'.
Proof.
  unfold free_space, set_grid. cbn [freeSpaceMap].
  destruct (decide (y = y')) as [->|Hne]; [by rewrite lookup_insert_eq|by rewrite lookup_insert_ne].
Qed.

(** Inserting a card moves the leftmost free pile on exactly when it took it. *)
Lemma leftmost_insert r x c s :
  leftmost_free r s -> 0 <= x ->
  (s = base_column x -> x mod 3 = 0) ->
  forall s', (if s =? x then next_free (row_fuel (<[x := c]> r)) (<[x := c]> r) x else Some s) =
    Some s' -> leftmost_free (<[x := c]> r) s'.
Proof.
  intros (H0 & H1 & H2 & H3) Hx Hb s'. destruct (base_column_spec x Hx) as (B0 & B1 & B2).
  destruct (Z.eqb_spec s x) as [->|Hne].
  - intros (N1 & N2 & N3 & N4)%next_free_spec. split; [lia|]. split.
    + replace s' with (s' - x + x) by lia. rewrite Z.add_mod, N2, H1 by lia. done.
    + split; [done|]. intros b Hbr Hm. destruct (decide (b < x)) as [Hlt|Hge].
      * rewrite pile_occupied_insert, H3 by (done || lia). done.
      * destruct (decide (b = x)) as [->|Hbx].
        -- rewrite pile_occupied_insert. rewrite (proj2 (Z.leb_le x x)), (proj2 (Z.leb_le x (x + 2))) by lia.
           by rewrite orb_true_r.
        -- apply N4; [lia|]. rewrite Zminus_mod, Hm, H1. done.
  - intros [= <-]. split; [done|]. split; [done|].
    assert (Hout : x < s \/ s + 2 < x).
    { destruct (decide (x < s)); [by left|]. right. destruct (decide (s + 2 < x)); [done|].
      exfalso. assert (s = base_column x) as He by (apply mod3_gap; lia || done).
      specialize (Hb He). apply Hne. pose proof (Z.div_mod x 3). unfold base_column in He.
      rewrite Z.quot_div_nonneg in He by lia. lia. }
    split.
    + rewrite pile_occupied_insert, H2. cbn [orb].
      destruct (Z.leb_spec s x), (Z.leb_spec x (s + 2)); (done || lia).
    + intros b Hbr Hm. rewrite pile_occupied_insert, H3 by done. done.
Qed.

Lemma leftmost_delete r x s :
  leftmost_free r s -> 0 <= x ->
  leftmost_free (delete x r)
    (if negb (pile_occupied (delete x r) (base_column x)) && (base_column x <? s)
     then base_column x else s).
Proof.
  intros (H0 & H1 & H2 & H3) Hx. destruct (base_column_spec x Hx) as (B0 & B1 & B2).
  assert (Hother : forall b, b mod 3 = 0 -> b <> base_column x ->
    pile_occupied (delete x r) b = pile_occupied r b).
  { intros b Hm Hb. apply pile_occupied_delete_other.
    destruct (decide (x < b)); [by left|]. right. destruct (decide (b + 2 < x)); [done|].
    exfalso. apply Hb, mod3_gap; lia || done. }
  destruct (pile_occupied (delete x r) (base_column x)) eqn:Ho; cbn [negb andb].
  - split_and!; [done|done| |].
    + destruct (decide (s = base_column x)) as [->|Hne]; [|by rewrite Hother].
      exfalso. revert Ho H2. unfold pile_occupied. rewrite !contains_delete.
      destruct (contains r _), (contains r (base_column x + 1)), (contains r (base_column x + 2));
        cbn; rewrite ?andb_false_r; done.
    + intros b Hb Hm. destruct (decide (b = base_column x)) as [->|Hne]; [done|].
      rewrite Hother by done. by apply H3.
  - destruct (Z.ltb_spec (base_column x) s) as [Hlt|Hge].
    + split_and!; [done|done|done|]. intros b Hb Hm. rewrite Hother by (done || lia).
      apply H3; [lia|done].
    + split_and!; [done|done| |].
      * destruct (decide (s = base_column x)) as [->|Hne]; [done|]. by rewrite Hother.
      * intros b Hb Hm. rewrite Hother by (done || lia). by apply H3.
Qed.

(** ** Properties *)

(** Shuffling keeps the cards: with any random source, the zone holds the
    same cards afterwards, the cards outside the shuffled positions keep their
    places, nobody is looking at the zone any more, and nothing else changes
    but the write permissions, which a shuffle withdraws. Positions below zero
    count from the end; a range outside the zone shuffles nothing. *)
Theorem shuffle_permutes {T} `{RandomSource T} start end_ z rng z' rng' :
  Z.of_nat (length (cards z)) <= i32_max ->
  shuffle start end_ z rng = Some (z', rng') ->
  let size := Z.of_nat (length (cards z)) in
  cards z' ≡ₚ cards z /\ cardsBeingLookedAt z' = 0 /\
  coordinateMap z' = coordinateMap z /\ freePilesMap z' = freePilesMap z /\
  freeSpaceMap z' = freeSpaceMap z /\
  (playersWithWritePermission z' = ∅ \/
     playersWithWritePermission z' = playersWithWritePermission z /\ cards z' = cards z) /\
  forall k, Z.of_nat k < position size start \/ Z.of_nat k > position size end_ ->
    cards z' !! k = cards z !! k.
Proof.
  intros Hmax. unfold shuffle, position. cbn [cards set_looked_at].
  destruct (Z.ltb_spec (Z.of_nat (length (cards z))) 2) as [H2|H2].
  { intros [= <- <-]. cbn. by split_and!; auto. }
  destruct (_ || _) eqn:Hr; [intros [= <- <-]; cbn; by split_and!; auto|].
  rewrite !orb_false_iff, !Z.ltb_ge, !Z.leb_gt in Hr. destruct Hr as [[[R1 R2] R3] R4].
  set (s := if start <? 0 then _ else _) in *. set (e := if end_ <? 0 then _ else _) in *.
  destruct (shuffle_loop _ _ _ _) as [[l r]|] eqn:Hl; [|done]. cbn [mbind option_bind].
  intros [= <- <-]. destruct (decide (s <= e)) as [Hse|Hse].
  - apply shuffle_loop_spec in Hl as [Hp Hk]; [|lia|done]. cbn.
    split_and!; auto. intros k Hout.
    destruct (decide (k < length (cards z))%nat) as [Hlt|Hge].
    + rewrite !list_lookup_lookup_total_lt by (rewrite ?(Permutation_length Hp); done).
      f_equal. apply Hk. lia.
    + rewrite !lookup_ge_None_2 by (rewrite ?(Permutation_length Hp); lia). done.
  - replace (Z.to_nat (e - s)) with O in Hl by lia. cbn [shuffle_loop] in Hl. simplify_eq. cbn.
    by split_and!; auto.
Qed.

(** C31. The shuffle is fair: every arrangement of the positions [start] to
    [start + n] is reached by exactly one sequence of the numbers the loop may
    draw. With equally likely numbers all arrangements are equally likely. *)
Theorem shuffle_fair start n l p :
  NoDup l -> (start + n < length l)%nat -> Z.of_nat (length l) <= i32_max ->
  p ≡ₚ l -> (forall k, (k < start \/ start + n < k)%nat -> p !!! k = l !!! k) ->
  exists js, length js = n /\ shuffle_loop start n l (Script js) = Some (p, Script []) /\
    forall js', shuffle_loop start n l (Script js') = Some (p, Script []) -> js' = js.
Proof.
  intros Hn Hlen Hmax Hp Hk. destruct (shuffle_exists start n l p Hn Hp Hlen Hk) as (js & Hl & Hs).
  exists js. split_and!; [done|done|]. intros js' Hs'. by eapply shuffle_unique.
Qed.

(** C36. The recorded free column of every row is its leftmost empty pile: it
    is so in a new zone, and inserting a card in a column (with its pile
    started, off the first column) or removing one keeps it so; the search for
    the next free pile ends. *)
Theorem grid_invariant st card x y z :
  grid_ok z -> 0 <= x -> is_Some (st !! card) ->
  (x mod 3 <> 0 -> is_Some (name_at st (row z y) (base_column x))) ->
  (exists z', insertCardIntoCoordMap st card x y z = Some z' /\ grid_ok z') /\
  (forall z', removeCardFromCoordMap st card x y z = Some z' -> grid_ok z').
Proof.
  intros Hok Hx [k Hk] Hbase. unfold insertCardIntoCoordMap, removeCardFromCoordMap.
  rewrite (proj2 (Z.ltb_ge x 0)), Hk by done. cbn [mbind option_bind].
  assert (Hb : free_space z y = base_column x -> x mod 3 = 0).
  { intros Hs. destruct (decide (x mod 3 = 0)) as [|Hne]; [done|]. exfalso.
    destruct (Hbase Hne) as [n Hn]. apply bind_Some in Hn as (c & Hc & _).
    destruct (Hok y) as (_ & _ & Ho & _). rewrite Hs in Ho. unfold pile_occupied in Ho.
    rewrite (proj2 (contains_true _ _)) in Ho by by exists c. done. }
  pose proof (leftmost_insert (row z y) x card (free_space z y) (Hok y) Hx Hb) as Hins.
  assert (Hrow : forall p s, leftmost_free (<[x := card]> (row z y)) s ->
    grid_ok (set_grid (<[y := <[x := card]> (row z y)]> (coordinateMap z)) p
      (<[y := s]> (freeSpaceMap z)) z)).
  { intros p s Hl y'. rewrite row_set, space_set. by destruct (decide (y = y')). }
  assert (Hkeep : forall p, x mod 3 <> 0 ->
    grid_ok (set_grid (<[y := <[x := card]> (row z y)]> (coordinateMap z)) p (freeSpaceMap z) z)).
  { intros p Hm y'. rewrite row_set.
    change (free_space (set_grid _ p (freeSpaceMap z) z) y') with (free_space z y').
    destruct (decide (y = y')) as [<-|]; [|done]. apply Hins.
    destruct (Z.eqb_spec (free_space z y) x) as [He|]; [|done]. exfalso.
    destruct (Hok y) as (_ & Hm' & _). rewrite He in Hm'. done. }
  split.
  - destruct (Z.eqb_spec (x mod 3) 0) as [H0|H0].
    + destruct (next_free_total (<[x := card]> (row z y)) x) as [x' Hx'].
      rewrite Hx' in *. destruct (Z.eqb_spec (free_space z y) x); cbn [mbind option_bind];
        eexists; (split; [done|]); apply Hrow, Hins; done.
    + destruct (x mod 3 =? 2); [|eexists; split; [done|]; by apply Hkeep].
      destruct (Hbase H0) as [n Hn]. cbv zeta.
      assert (Hne : x <> base_column x)
        by (intros He; apply H0; rewrite He; by apply (base_column_spec x Hx)).
      unfold name_at in Hn |- *. rewrite lookup_insert_ne, Hn by done. cbn [mbind option_bind].
      eexists. split; [done|]. by apply Hkeep.
  - intros z' (piles & _ & [= <-])%bind_Some y'. rewrite row_set, space_set.
    destruct (decide (y = y')) as [<-|]; [|done]. by apply leftmost_delete.
Qed.

(** A free column is free: for a requested column the search returns, in
    the same pile or at the foot of a later one, a place no card has; without
    stacking it returns an empty pile. The search always ends. *)
Theorem getFreeGridColumn_free st z x y cardName dontStack :
  grid_ok z -> 0 <= x \/ (x = -1 /\ (dontStack = true \/ pile_of cardName (free_piles z y) = None)) ->
  exists c, getFreeGridColumn st z x y cardName dontStack = Some c /\
    contains (row z y) c = false /\
    (0 <= x -> base_column c = base_column x \/ (c mod 3 = 0 /\ base_column x < c)) /\
    (x < 0 -> pile_occupied (row z y) c = false).
Proof.
  intros Hok Hx. unfold getFreeGridColumn. destruct (Hok y) as (F0 & F1 & F2 & _).
  assert (Hfree : contains (row z y) (free_space z y) = false).
  { unfold pile_occupied in F2. rewrite !orb_false_iff in F2. tauto. }
  destruct (Z.eqb_spec x (-1)) as [->|Hne].
  { exists (free_space z y). split_and!; [|done|lia|done].
    destruct Hx as [?|[_ [->|Hp]]]; [lia|done|]. destruct dontStack; [done|]. by rewrite Hp. }
  destruct Hx as [Hx|[? _]]; [|done]. rewrite (proj2 (Z.leb_le 0 x)) by done.
  destruct (base_column_spec x Hx) as (B0 & B1 & B2). set (b := base_column x) in *.
  assert (Hsame : forall d, 0 <= d <= 2 -> base_column (b + d) = b).
  { intros d Hd. destruct (base_column_spec (b + d) ltac:(lia)) as (C0 & C1 & C2).
    apply mod3_gap; lia || done. }
  assert (Hskip : contains (row z y) b = true ->
    exists c, skip_columns (row_fuel (row z y)) (row z y) b = Some c /\
      contains (row z y) c = false /\ (0 <= x -> base_column c = b \/ (c mod 3 = 0 /\ b < c)) /\
      (x < 0 -> pile_occupied (row z y) c = false)).
  { intros Hc. destruct (skip_columns_total (row z y) b) as [c Hs]. exists c.
    destruct (skip_columns_spec _ _ _ _ Hs) as (S1 & S2 & S3). split_and!; [done|done| |lia].
    intros _. right. apply mod3 in S3 as [q Hq]. apply mod3 in B1 as [q' Hq'].
    split; [apply mod3; exists (q + q'); lia|]. assert (c <> b) by congruence. lia. }
  destruct (contains (row z y) b) eqn:E0; cbn [negb].
  2: { pose proof (Hsame 0 ltac:(lia)) as Hself. rewrite Z.add_0_r in Hself.
       exists b. rewrite Hself. split_and!; auto; lia. }
  destruct (attached_at _ _ _); [by apply Hskip|].
  destruct (contains (row z y) (b + 1)) eqn:E1; cbn [negb].
  2: { exists (b + 1). rewrite Hsame by lia. split_and!; auto; lia. }
  destruct (contains (row z y) (b + 2)) eqn:E2; cbn [negb]; [by apply Hskip|].
  exists (b + 2). rewrite Hsame by lia. split_and!; auto; lia.
Qed.

Lemma index_of_insert_at i c l :
  c ∉ l -> (i <= length l)%nat -> index_of c (insert_at i c l) = Z.of_nat i.
Proof.
  intros Hn Hi. unfold index_of, insert_at.
  rewrite (proj2 (list_find_Some (eq c) _ i c)); [done|]. split_and!; [|done|].
  - rewrite lookup_app_r by (rewrite length_take; lia).
    by replace (i - length (take i l))%nat with O by (rewrite length_take; lia).
  - intros j d Hj Hlt <-. rewrite lookup_app_l in Hj by (rewrite length_take; lia).
    apply Hn. apply list_elem_of_lookup_2 in Hj. by apply (subseteq_take i l).
Qed.

Lemma delete_insert_at i (c : card_ref) l :
  (i <= length l)%nat -> delete i (insert_at i c l) = l.
Proof.
  intros Hi. unfold insert_at. rewrite delete_take_drop, take_app_le by (rewrite length_take; lia).
  rewrite take_take, Nat.min_id. rewrite drop_app_ge by (rewrite length_take; lia).
  rewrite length_take. replace (S i - i `min` length l)%nat with 1%nat by lia.
  cbn [drop]. rewrite drop_0. apply take_drop.
Qed.

(** In a zone without coordinates a card inserted at a position is found
    there by position and by identity, and removing it gives back the list,
    with the card out of any zone and every other card untouched. *)
Theorem insert_remove_roundtrip st card k x z :
  has_coords z = false -> card ∉ cards z -> st !! card = Some k ->
  let i := if (0 <=? x) && (x <? Z.of_nat (length (cards z)))
           then Z.to_nat x else length (cards z) in
  exists st1 z1, insertCard st card x 0 z = Some (st1, z1) /\
    cards z1 !! i = Some card /\
    (zone_type z = HiddenZone -> (getCard st1 (Z.of_nat i) false z1).1 = Some (i, card)) /\
    exists looked st2 z2, removeCard st1 card z1 = Some (Z.of_nat i, looked, (st2, z2)) /\
      cards z2 = cards z /\
      looked = isCardAtPosLookedAt z (Z.of_nat i) /\
      (forall c, c <> card -> st2 !! c = st !! c) /\
      exists k2, st2 !! card = Some k2 /\ in_zone k2 = false.
Proof.
  intros Hc Hn Hk i. unfold insertCard. rewrite Hc. eexists _, _. split; [reflexivity|].
  set (st1 := alter (set_zone true) card _).
  assert (Hcards : (if (0 <=? x) && (x <? Z.of_nat (length (cards z)))
             then insert_at (Z.to_nat x) card (cards z) else cards z ++ [card]) =
            insert_at i card (cards z)).
  { subst i. destruct (_ && _); [done|]. unfold insert_at.
    by rewrite firstn_all, drop_all. }
  assert (Hi : (i <= length (cards z))%nat).
  { subst i. destruct (Z.leb_spec 0 x), (Z.ltb_spec x (Z.of_nat (length (cards z)))); simpl; lia. }
  rewrite Hcards. cbn [cards set_cards].
  assert (Hlook : insert_at i card (cards z) !! i = Some card).
  { unfold insert_at. rewrite lookup_app_r by (rewrite length_take; lia).
    by replace (i - length (take i (cards z)))%nat with O by (rewrite length_take; lia). }
  assert (Hst1 : st1 !! card = Some (set_zone true (set_coords 0 0 k))).
  { subst st1. rewrite !lookup_alter_eq, Hk. done. }
  split; [done|]. split.
  - intros Ht. unfold getCard. cbn [zone_type set_cards cards]. rewrite Ht, bool_decide_true by done.
    cbn [negb]. rewrite (proj2 (Z.ltb_ge (Z.of_nat i) 0)) by lia. rewrite orb_false_r.
    pose proof (lookup_lt_Some _ _ _ Hlook). rewrite (proj2 (Z.leb_gt _ _)) by lia.
    rewrite Nat2Z.id, Hlook. done.
  - unfold removeCard. cbn [cards set_cards]. rewrite index_of_insert_at by done.
    set (zl := if isCardAtPosLookedAt _ _ && _ then _ else _).
    assert (Hzl : has_coords zl = false /\ cards zl = insert_at i card (cards z)).
    { subst zl. destruct (isCardAtPosLookedAt _ _ && _); by split. }
    destruct Hzl as [Hzc Hzl]. unfold removeAt.
    rewrite Hzl, (proj2 (Z.ltb_ge (Z.of_nat i) 0)), Nat2Z.id by lia.
    cbn [mbind option_bind has_coords set_cards]. rewrite Hst1. cbn [mbind option_bind].
    rewrite Hzc. eexists _, _, _. split; [reflexivity|]. cbn [cards set_cards].
    split; [by apply delete_insert_at|]. split; [done|]. split.
    + intros c Hne. subst st1. rewrite lookup_insert_ne by done. by rewrite !lookup_alter_ne.
    + eexists. split; [apply lookup_insert_eq|done].
Qed.

(** ** Witnesses *)

Definition sample_card (id x y : Z) (n : string) : Server_Card :=
  {| card_id := id; card_name := n; face_down := false; attached := []; card_x := x;
     card_y := y; in_zone := true |}.

Definition sample_store : store :=
  list_to_map [(0%nat, sample_card 10 0 0 "Forest"); (1%nat, sample_card 11 1 0 "Forest");
               (2%nat, sample_card 12 3 0 "Island"); (3%nat, sample_card 13 0 1 "Plains")].

Definition sample_deck : Server_CardZone :=
  {| has_coords := false; zone_type := HiddenZone; cardsBeingLookedAt := 2;
     playersWithWritePermission := {[7]}; cards := [0; 1; 2]%nat; coordinateMap := ∅;
     freePilesMap := ∅; freeSpaceMap := ∅ |}.

(** A table row with a pile of two cards and a pile of one. *)
Definition sample_table : Server_CardZone :=
  {| has_coords := true; zone_type := PublicZone; cardsBeingLookedAt := 0;
     playersWithWritePermission := ∅; cards := [0; 1; 2]%nat;
     coordinateMap := {[ 0 := {[ 0 := 0%nat; 1 := 1%nat; 3 := 2%nat ]} ]};
     freePilesMap := {[ 0 := [("Island"%string, 3); ("Forest"%string, 0)] ]};
     freeSpaceMap := {[ 0 := 6 ]} |}.

Lemma sample_table_ok : grid_ok sample_table.
Proof.
  intros y. destruct (decide (y = 0)) as [->|Hne].
  - split_and!; [vm_compute; discriminate|reflexivity|reflexivity|].
    intros b Hb [k ->]%mod3. change (free_space sample_table 0) with 6 in Hb.
    assert (k = 0 \/ k = 1) as [-> | ->] by lia; reflexivity.
  - assert (Hr : row sample_table y = ∅).
    { unfold row, sample_table. cbn [coordinateMap]. by rewrite lookup_singleton_ne. }
    assert (Hs : free_space sample_table y = 0).
    { unfold free_space, sample_table. cbn [freeSpaceMap]. by rewrite lookup_singleton_ne. }
    rewrite Hr, Hs. split_and!; [done|done|done|lia].
Qed.

Lemma shuffle_permutes_witness :
  exists z' rng', shuffle 0 (-1) sample_deck [2 ^ 63; 5; 2 ^ 62] = Some (z', rng') /\
    cards z' = [2; 0; 1]%nat /\ cards z' ≡ₚ cards sample_deck.
Proof.
  assert (Hs : exists z' rng', shuffle 0 (-1) sample_deck [2 ^ 63; 5; 2 ^ 62] = Some (z', rng') /\
    cards z' = [2; 0; 1]%nat) by (eexists _, _; split; vm_compute; reflexivity).
  destruct Hs as (z' & rng' & Hs & Hc). exists z', rng'. split; [exact Hs|]. split; [exact Hc|].
  apply (shuffle_permutes 0 (-1) sample_deck [2 ^ 63; 5; 2 ^ 62] z' rng'); [vm_compute; discriminate|].
  exact Hs.
Defined.

Lemma shuffle_fair_witness :
  exists js, shuffle_loop 0 2 [0; 1; 2]%nat (Script js) = Some ([2; 0; 1]%nat, Script []).
Proof.
  destruct (shuffle_fair 0 2 [0; 1; 2]%nat [2; 0; 1]%nat) as (js & _ & Hjs & _).
  - apply (bool_decide_unpack _). reflexivity.
  - simpl. lia.
  - vm_compute. discriminate.
  - change ([2; 0; 1] ≡ₚ [0; 1; 2])%nat. rewrite (perm_swap 0%nat 2%nat).
    apply perm_skip, perm_swap.
  - intros k [?|?]; [lia|]. do 3 (destruct k as [|k]; [lia|]). reflexivity.
  - exists js. exact Hjs.
Defined.

Lemma grid_invariant_witness :
  exists z', insertCardIntoCoordMap sample_store 3 6 0 sample_table = Some z' /\ grid_ok z' /\
    free_space z' 0 = 9.
Proof.
  destruct (grid_invariant sample_store 3 6 0 sample_table sample_table_ok) as [(z' & Hz & Hok) _].
  - lia.
  - eexists. reflexivity.
  - intros Hm. destruct (Hm eq_refl).
  - exists z'. split; [exact Hz|]. split; [exact Hok|].
    enough (Some (free_space z' 0) = Some 9) by congruence.
    change (Some (free_space z' 0)) with ((fun z => free_space z 0) <$> Some z').
    rewrite <- Hz. vm_compute. reflexivity.
Defined.

Lemma getFreeGridColumn_free_witness :
  exists c, getFreeGridColumn sample_store sample_table 4 0 "Plains" false = Some c /\
    contains (row sample_table 0) c = false.
Proof.
  destruct (getFreeGridColumn_free sample_store sample_table 4 0 "Plains" false sample_table_ok)
    as (c & Hc & Hf & _).
  - left. lia.
  - exists c. split; [exact Hc|exact Hf].
Defined.

Lemma insert_remove_roundtrip_witness :
  exists st1 z1 looked st2 z2,
    insertCard sample_store 3 1 0 sample_deck = Some (st1, z1) /\
    removeCard st1 3 z1 = Some (1, looked, (st2, z2)) /\ cards z2 = cards sample_deck.
Proof.
  destruct (insert_remove_roundtrip sample_store 3 (sample_card 13 0 1 "Plains") 1 sample_deck)
    as (st1 & z1 & Hi & _ & _ & looked & st2 & z2 & Hr & Hc & _).
  - reflexivity.
  - apply (bool_decide_unpack _). reflexivity.
  - reflexivity.
  - exists st1, z1, looked, st2, z2. split; [exact Hi|]. split; [exact Hr|exact Hc].
Defined.
