(* ===== verification/DeckTree.v ===== *)
(** * The deck tree: [libcockatrice_deck_list], [deck_list_node_tree.cpp] and [tree/]

    A deck is a tree: the root holds the board zones, a board zone holds cards
    and custom zones. Nodes are heap objects the program points at, so a node
    carries an identity and a pointer is the identity of a node; the parent
    pointer of a node is the position it is found at. A deck file is the list of
    its XML tokens, a reader the list of the tokens not read yet.

    [QString::number], [toInt], [toLower] and SHA-1 are arguments. *)
From stdpp Require Import sorting.
From S2P Require Import Prelude.
Open Scope cockatrice_scope.
Local Open Scope Z_scope.

Definition MAX_DECK_SIZE : Z := 100000.

Definition DECK_ZONE_MAIN : text := str "main".
Definition DECK_ZONE_COMMANDER : text := 31 :: str "commander".
Definition DECK_ZONE_SIDE : text := str "side".
Definition DECK_ZONE_TOKENS : text := str "tokens".
Definition DECK_ZONE_MAYBEBOARD : text := str "maybeboard".

(** ** Nodes *)

Inductive DeckSortMethod : Type := ByNumber | ByName | Default.

(** The data of [DecklistCardNode]. *)
Record Card : Type := {
  card_name : text;
  number : Z;
  cardSetShortName : text;
  cardSetNumber : text;
  cardProviderId : text;
  formatLegal : bool
}.

(** [DecklistCardNode] and [InnerDecklistNode]: identity, sort method, data. *)
Inductive node : Type :=
| CardNode (id : nat) (sortMethod : DeckSortMethod) (c : Card)
| InnerNode (id : nat) (sortMethod : DeckSortMethod) (name : text) (children : list node).

Definition node_id (n : node) : nat :=
  match n with CardNode i _ _ => i | InnerNode i _ _ _ => i end.

Definition getName (n : node) : text :=
  match n with CardNode _ _ c => card_name c | InnerNode _ _ name _ => name end.

Definition getCardProviderId (n : node) : text :=
  match n with CardNode _ _ c => cardProviderId c | InnerNode _ _ _ _ => [] end.

Definition getCardCollectorNumber (n : node) : text :=
  match n with CardNode _ _ c => cardSetNumber c | InnerNode _ _ _ _ => [] end.

(** The [dynamic_cast] to [InnerDecklistNode]. *)
Definition is_inner (n : node) : bool :=
  match n with CardNode _ _ _ => false | InnerNode _ _ _ _ => true end.

Definition children_of (n : node) : list node :=
  match n with CardNode _ _ _ => [] | InnerNode _ _ _ ks => ks end.

(** [setSortMethod], recursive. *)
Fixpoint setSortMethod (method : DeckSortMethod) (n : node) : node :=
  match n with
  | CardNode i _ c => CardNode i method c
  | InnerNode i _ name ks => InnerNode i method name (map (setSortMethod method) ks)
  end.

Definition boardZoneNames : list text :=
  [DECK_ZONE_MAIN; DECK_ZONE_SIDE; DECK_ZONE_COMMANDER; DECK_ZONE_MAYBEBOARD].

(** The first child of a name. *)
Fixpoint findChild (name : text) (ks : list node) : option node :=
  match ks with
  | [] => None
  | k :: ks => if bool_decide (getName k = name) then Some k else findChild name ks
  end.

Fixpoint findCardChildByNameProviderIdAndNumber (name providerId cardNumber : text)
    (ks : list node) : option node :=
  match ks with
  | [] => None
  | k :: ks =>
      if negb (bool_decide (getName k = name)) ||
         (negb (bool_decide (cardNumber = [])) &&
          negb (bool_decide (getCardCollectorNumber k = cardNumber))) ||
         (negb (bool_decide (providerId = [])) &&
          negb (bool_decide (getCardProviderId k = providerId)))
      then findCardChildByNameProviderIdAndNumber name providerId cardNumber ks
      else Some k
  end.

(** [height]: of the first child, plus one. *)
Fixpoint height (n : node) : Z :=
  match n with
  | CardNode _ _ _ => 0
  | InnerNode _ _ _ [] => 1
  | InnerNode _ _ _ (k :: _) => height k + 1
  end.

Fixpoint recursiveCount (countTotalCards : bool) (n : node) : Z :=
  match n with
  | CardNode _ _ c => if countTotalCards then number c else 1
  | InnerNode _ _ _ ks => zsum (map (recursiveCount countTotalCards) ks)
  end.

(** ** Comparison and sorting *)

Definition compareName (a b : node) : bool :=
  match a, b with
  | CardNode _ _ _, CardNode _ _ _ => lex_lt (getName b) (getName a)
  | CardNode _ _ _, InnerNode _ _ _ _ => true
  | InnerNode _ _ _ _, InnerNode _ _ _ _ => lex_lt (getName b) (getName a)
  | InnerNode _ _ _ _, CardNode _ _ _ => false
  end.

Definition compareNumber (a b : node) : bool :=
  match a, b with
  | CardNode _ _ _, InnerNode _ _ _ _ => true
  | InnerNode _ _ _ _, CardNode _ _ _ => false
  | _, _ =>
      let n1 := recursiveCount true a in
      let n2 := recursiveCount true b in
      if negb (n1 =? n2) then n2 <? n1 else compareName a b
  end.

Definition compare (a b : node) : bool :=
  match match a with CardNode _ m _ => m | InnerNode _ m _ _ => m end with
  | ByNumber => compareNumber a b
  | ByName => compareName a b
  | Default => false
  end.

Definition indexedSnapshot (ks : list node) : list (nat * node) := zip (seq 0 (length ks)) ks.

(** [applySortedOrder]: the children in the sorted order, and the pairs of old
    and new index. *)
Definition applySortedOrder (sorted : list (nat * node)) : list node * list (nat * nat) :=
  (map snd sorted, zip (map fst sorted) (seq 0 (length sorted))).

(** [sort], with [std::sort] as an argument. *)
Definition sort (std_sort : (nat * node -> nat * node -> bool) -> list (nat * node) -> list (nat * node))
    (ascending : bool) (ks : list node) : list node * list (nat * nat) :=
  applySortedOrder
    (std_sort (fun a b => if ascending then compare b.2 a.2 else compare a.2 b.2)
       (indexedSnapshot ks)).

(** ** Collecting cards *)

Fixpoint collectCardsRecursive (n : node) : list Card :=
  match n with
  | CardNode _ _ c => [c]
  | InnerNode _ _ _ ks => concat (map collectCardsRecursive ks)
  end.

(** The calls [forEachCardInNode] makes: the board zone and the card. *)
Fixpoint forEachCardInNode (boardZone : node) (n : node) : list (node * Card) :=
  match n with
  | CardNode _ _ c => [(boardZone, c)]
  | InnerNode _ _ _ ks => concat (map (forEachCardInNode boardZone) ks)
  end.

(** ** The tree *)

(** The children of the root, the card budget used, and the identity of the next
    node; the root is node 0. *)
Record DecklistNodeTree : Type := {
  root : list node;
  totalCards : Z;
  next_id : nat
}.

Definition empty_tree : DecklistNodeTree := {| root := []; totalCards := 0; next_id := 1 |}.

Definition set_root (ks : list node) (t : DecklistNodeTree) : DecklistNodeTree :=
  {| root := ks; totalCards := totalCards t; next_id := next_id t |}.

Definition set_total (n : Z) (t : DecklistNodeTree) : DecklistNodeTree :=
  {| root := root t; totalCards := n; next_id := next_id t |}.

Definition fresh (t : DecklistNodeTree) : DecklistNodeTree :=
  {| root := root t; totalCards := totalCards t; next_id := S (next_id t) |}.

Definition isEmpty (t : DecklistNodeTree) : bool := bool_decide (root t = []).

(** The copy constructor of a node: a deep copy, each copy a new object in the
    default sort method; [legal] is the flag of a copied card, which the
    constructor leaves unset. *)
Fixpoint copy_node (legal : nat -> bool) (next : nat) (n : node) : node * nat :=
  match n with
  | CardNode _ _ c =>
      (CardNode next Default
         {| card_name := card_name c; number := number c;
            cardSetShortName := cardSetShortName c; cardSetNumber := cardSetNumber c;
            cardProviderId := cardProviderId c; formatLegal := legal next |}, S next)
  | InnerNode _ _ name ks =>
      let '(ks', next') :=
        (fix copy_nodes (next' : nat) (l : list node) : list node * nat :=
           match l with
           | [] => ([], next')
           | k :: l =>
               let '(k', next1) := copy_node legal next' k in
               let '(l', next2) := copy_nodes next1 l in
               (k' :: l', next2)
           end) (S next) ks in
      (InnerNode next Default name ks', next')
  end.

(** The copy constructor of the tree. *)
Definition copy_tree (legal : nat -> bool) (t : DecklistNodeTree) : DecklistNodeTree :=
  let '(r, next) := copy_node legal 0 (InnerNode 0 Default [] (root t)) in
  {| root := children_of r; totalCards := 0; next_id := next |}.

(** The assignment: copies of the nodes of the other tree take the place of the nodes,
    and the budget used stays what it was. Assigning a tree to itself does nothing. *)
Definition assign (legal : nat -> bool) (other t : DecklistNodeTree) : DecklistNodeTree :=
  let copy := copy_tree legal other in
  {| root := root copy; totalCards := totalCards t; next_id := next_id copy |}.

(** Applying [f] to the children of the inner node [z] points at. *)
Fixpoint on_children (z : nat) (f : list node -> list node) (n : node) : node :=
  match n with
  | CardNode _ _ _ => n
  | InnerNode i m name ks =>
      let ks' := map (on_children z f) ks in
      InnerNode i m name (if Nat.eqb i z then f ks' else ks')
  end.

Definition update (z : nat) (f : list node -> list node) (t : DecklistNodeTree) : DecklistNodeTree :=
  set_root (map (on_children z f) (root t)) t.

(** The placement of the node constructor: [append] for -1, [insert] otherwise,
    which asserts that the position is not behind the end. *)
Definition place (position : Z) (n : node) (ks : list node) : list node :=
  if position =? -1 then ks ++ [n]
  else take (Z.to_nat position) ks ++ n :: drop (Z.to_nat position) ks.

(** ** Looking up zones *)

Definition findBoardZone (name : text) (t : DecklistNodeTree) : option node :=
  n ← findChild name (root t); if is_inner n then Some n else None.

(** The first inner child of a name. *)
Definition inner_named (name : text) (n : node) : bool :=
  is_inner n && bool_decide (getName n = name).

Definition first_inner (name : text) (ks : list node) : option node :=
  List.find (inner_named name) ks.

Definition findCustomZoneByName (name : text) (t : DecklistNodeTree) : option node :=
  first_inner name (concat (map children_of (root t))).

(** The board zone a custom zone is found under: its parent. *)
Definition parent_of (name : text) (t : DecklistNodeTree) : option node :=
  List.find (fun b => bool_decide (is_Some (first_inner name (children_of b)))) (root t).

Definition reserved (name : text) : bool :=
  bool_decide (name ∈ [DECK_ZONE_MAIN; DECK_ZONE_SIDE; DECK_ZONE_MAYBEBOARD; DECK_ZONE_TOKENS;
                       DECK_ZONE_COMMANDER]).

Definition hasZoneName (name : text) (t : DecklistNodeTree) : bool :=
  if reserved name then true
  else if bool_decide (is_Some (findChild name (root t))) then true
  else bool_decide (is_Some (findCustomZoneByName name t)).

(** A new inner node at the end of the root. *)
Definition new_zone (name : text) (t : DecklistNodeTree) : nat * DecklistNodeTree :=
  (next_id t, fresh (set_root (root t ++ [InnerNode (next_id t) Default name []]) t)).

(** [getZoneObjFromName]: the zone to use, created when there is none. *)
Definition getZoneObjFromName (name : text) (t : DecklistNodeTree) : nat * DecklistNodeTree :=
  match first_inner name (root t) with
  | Some n => (node_id n, t)
  | None =>
      match findCustomZoneByName name t with
      | Some n => (node_id n, t)
      | None => new_zone name t
      end
  end.

Definition findOrCreateBoardZone (name : text) (t : DecklistNodeTree)
    : option nat * DecklistNodeTree :=
  match findBoardZone name t with
  | Some n => (Some (node_id n), t)
  | None =>
      if bool_decide (name ∈ [DECK_ZONE_MAYBEBOARD; DECK_ZONE_MAIN; DECK_ZONE_SIDE]) then
        let '(z, t) := new_zone name t in (Some z, t)
      else (None, t)
  end.

Definition getCustomZones (name : text) (t : DecklistNodeTree) : list node :=
  match findBoardZone name t with
  | Some b => List.filter is_inner (children_of b)
  | None => []
  end.

(** [restrictToZones] is a set; the empty set does not restrict. *)
Definition getZoneNodes (restrictToZones : list text) (t : DecklistNodeTree) : list node :=
  List.filter (fun n => is_inner n &&
            (bool_decide (restrictToZones = []) || bool_decide (getName n ∈ restrictToZones)))
    (root t).

Definition getCardNodes (restrictToZones : list text) (t : DecklistNodeTree) : list Card :=
  concat (map collectCardsRecursive (getZoneNodes restrictToZones t)).

Definition forEachCard (t : DecklistNodeTree) : list (node * Card) :=
  concat (map (fun z => forEachCardInNode z z) (List.filter is_inner (root t))).

(** ** Changing the tree *)

(** [addCard]: the node it creates and the tree. *)
Definition addCard (name : text) (amount : Z) (zoneName : text) (position : Z)
    (setName collectorNumber providerId : text) (legal : bool) (t : DecklistNodeTree)
    : nat * DecklistNodeTree :=
  let amount := Z.min amount (MAX_DECK_SIZE - totalCards t) in
  let t := set_total (totalCards t + amount) t in
  let '(zone, t) := getZoneObjFromName zoneName t in
  let n := CardNode (next_id t) Default
    {| card_name := name; number := amount; cardSetShortName := setName;
       cardSetNumber := collectorNumber; cardProviderId := providerId; formatLegal := legal |} in
  (next_id t, fresh (update zone (place position n) t)).

(** [deleteNode] below a container [n]: the node [target] points at is removed
    from the children it is found in. At the [top], a board zone left empty goes
    with it ([pruneEmptyBoardZone]). *)
Fixpoint delete_below (top : bool) (target : nat) (n : node) : option node :=
  match n with
  | CardNode _ _ _ => None
  | InnerNode i m name ks =>
      match list_find (fun k => node_id k = target) ks with
      | Some (index, _) => Some (InnerNode i m name (delete index ks))
      | None =>
          InnerNode i m name <$>
            (fix delete_in (l : list node) : option (list node) :=
               match l with
               | [] => None
               | k :: l =>
                   match delete_below false target k with
                   | Some k' =>
                       if top && bool_decide (children_of k' = []) then Some l else Some (k' :: l)
                   | None => cons k <$> delete_in l
                   end
               end) ks
      end
  end.

(** [deleteNode] from the root. *)
Definition deleteNode (target : nat) (t : DecklistNodeTree) : bool * DecklistNodeTree :=
  if Nat.eqb target 0 then (true, t)
  else
    match delete_below true target (InnerNode 0 Default [] (root t)) with
    | Some n => (true, set_root (children_of n) t)
    | None => (false, t)
    end.

Definition clear (preserveCommanders : bool) (t : DecklistNodeTree) : DecklistNodeTree :=
  match (if preserveCommanders then findBoardZone DECK_ZONE_COMMANDER t else None) with
  | Some commanders => set_total (recursiveCount true commanders) (set_root [commanders] t)
  | None => set_total 0 (set_root [] t)
  end.

Definition clearCommanders (t : DecklistNodeTree) : DecklistNodeTree :=
  match findBoardZone DECK_ZONE_COMMANDER t with
  | Some zone =>
      (deleteNode (node_id zone)
         (set_total (Z.max 0 (totalCards t - recursiveCount true zone)) t)).2
  | None => t
  end.

(** [addCustomZone]: the zone, unless the name is taken or the board unknown. *)
Definition addCustomZone (board name : text) (t : DecklistNodeTree) : option nat * DecklistNodeTree :=
  if hasZoneName name t then (None, t)
  else
    match findOrCreateBoardZone board t with
    | (None, t) => (None, t)
    | (Some b, t) =>
        (Some (next_id t),
         fresh (update b (fun ks => ks ++ [InnerNode (next_id t) Default name []]) t))
    end.

(** [setName] on the node [z] points at. *)
Fixpoint rename_node (z : nat) (name : text) (n : node) : node :=
  match n with
  | CardNode _ _ _ => n
  | InnerNode i m old ks =>
      InnerNode i m (if Nat.eqb i z then name else old) (map (rename_node z name) ks)
  end.

Definition renameCustomZone (old new : text) (t : DecklistNodeTree) : bool * DecklistNodeTree :=
  if hasZoneName new t then (false, t)
  else
    match findCustomZoneByName old t with
    | None => (false, t)
    | Some zone => (true, set_root (map (rename_node (node_id zone) new) (root t)) t)
    end.

(** [removeOne] of a pointer. *)
Definition removeOne (z : nat) (ks : list node) : list node :=
  match list_find (fun k => node_id k = z) ks with
  | Some (index, _) => delete index ks
  | None => ks
  end.

Definition moveCustomZone (name newBoard : text) (t : DecklistNodeTree) : bool * DecklistNodeTree :=
  match findCustomZoneByName name t, parent_of name t with
  | Some zone, Some current =>
      if bool_decide (getName current = newBoard) then (true, t)
      else
        match findOrCreateBoardZone newBoard t with
        | (None, t) => (false, t)
        | (Some b, t) =>
            (true, update b (fun ks => ks ++ [zone])
                     (update (node_id current) (removeOne (node_id zone)) t))
        end
  | _, _ => (false, t)
  end.

(** [removeCustomZone]: without pruning the board zone. *)
Definition removeCustomZone (name : text) (t : DecklistNodeTree) : bool * DecklistNodeTree :=
  match findCustomZoneByName name t, parent_of name t with
  | Some zone, Some board => (true, update (node_id board) (removeOne (node_id zone)) t)
  | _, _ => (false, t)
  end.

(** *** The setters of a card node

    [setNumber] is below, where the reader uses it. *)

(** The card the node [z] points at is changed; the budget is not looked at. *)
Fixpoint on_card (z : nat) (f : Card -> Card) (n : node) : node :=
  match n with
  | CardNode i m c => CardNode i m (if Nat.eqb i z then f c else c)
  | InnerNode i m name ks => InnerNode i m name (map (on_card z f) ks)
  end.

Definition change_card (z : nat) (f : Card -> Card) (t : DecklistNodeTree) : DecklistNodeTree :=
  set_root (map (on_card z f) (root t)) t.

Definition setCardName (s : text) (z : nat) : DecklistNodeTree -> DecklistNodeTree :=
  change_card z (fun c =>
    {| card_name := s; number := number c; cardSetShortName := cardSetShortName c;
       cardSetNumber := cardSetNumber c; cardProviderId := cardProviderId c; formatLegal := formatLegal c |}).
Definition setCardProviderId (s : text) (z : nat) : DecklistNodeTree -> DecklistNodeTree :=
  change_card z (fun c =>
    {| card_name := card_name c; number := number c; cardSetShortName := cardSetShortName c;
       cardSetNumber := cardSetNumber c; cardProviderId := s; formatLegal := formatLegal c |}).
Definition setCardSetShortName (s : text) (z : nat) : DecklistNodeTree -> DecklistNodeTree :=
  change_card z (fun c =>
    {| card_name := card_name c; number := number c; cardSetShortName := s;
       cardSetNumber := cardSetNumber c; cardProviderId := cardProviderId c; formatLegal := formatLegal c |}).
Definition setCardCollectorNumber (s : text) (z : nat) : DecklistNodeTree -> DecklistNodeTree :=
  change_card z (fun c =>
    {| card_name := card_name c; number := number c; cardSetShortName := cardSetShortName c;
       cardSetNumber := s; cardProviderId := cardProviderId c; formatLegal := formatLegal c |}).
Definition setFormatLegality (b : bool) (z : nat) : DecklistNodeTree -> DecklistNodeTree :=
  change_card z (fun c =>
    {| card_name := card_name c; number := number c; cardSetShortName := cardSetShortName c;
       cardSetNumber := cardSetNumber c; cardProviderId := cardProviderId c; formatLegal := b |}).

(** ** The deck hash *)

Section Hash.
Context (toLower : text -> text) (sha1 : text -> list Z).

Definition cardNodesToCopies (prefix : text) (cards : list Card) : list text :=
  concat (map (fun c => replicate (Z.to_nat (number c)) (prefix ++ toLower (card_name c))) cards).

(** [QString::number] in base 32. *)
Definition base32_digit (d : Z) : Z := if d <? 10 then 48 + d else 87 + d.

Fixpoint base32 (fuel : nat) (n : Z) (acc : text) : text :=
  match fuel with
  | O => acc
  | S f =>
      let acc := base32_digit (n mod 32) :: acc in
      if n / 32 =? 0 then acc else base32 f (n / 32) acc
  end.

Definition rightJustified (width : nat) (fill : Z) (s : text) : text :=
  replicate (width - length s) fill ++ s.

(** The first five bytes, the first one highest. *)
Definition pack_digest (digest : list Z) : Z :=
  fold_left (fun number i => Z.lor number (Z.shiftl (nth i digest 0) (32 - 8 * Z.of_nat i)))
    (seq 0 5) 0.

Definition encodeDeckHash (digest : list Z) : text :=
  rightJustified 8 48 (base32 13 (pack_digest digest) []).

(** [QStringList::sort]: by code units. *)
Definition text_le : relation text := fun s t => lex_lt t s = false.
#[export] Instance text_le_dec : RelDecision text_le := fun s t => decide (lex_lt t s = false).

Definition join (sep : text) (l : list text) : text :=
  match l with
  | [] => []
  | s :: l => s ++ concat (map (app sep) l)
  end.

Definition computeDeckHash (t : DecklistNodeTree) : text :=
  let cardList := cardNodesToCopies [] (getCardNodes [DECK_ZONE_MAIN] t) ++
                  cardNodesToCopies (str "SB:") (getCardNodes [DECK_ZONE_SIDE] t) in
  encodeDeckHash (sha1 (join (str ";") (merge_sort text_le cardList))).
End Hash.

(** ** Deck files *)

Inductive token : Type :=
| StartElement (name : text) (attributes : list (text * text))
| EndElement (name : text)
| Characters (s : text).

Definition empty_element (name : text) (attributes : list (text * text)) : list token :=
  [StartElement name attributes; EndElement name].

(** [attributes().value(name)]: empty when there is none. *)
Definition attribute (name : text) (attributes : list (text * text)) : text :=
  match List.find (fun a => bool_decide (a.1 = name)) attributes with
  | Some a => a.2
  | None => []
  end.

Definition optional_attribute (name value : text) : list (text * text) :=
  if bool_decide (value = []) then [] else [(name, value)].

Section File.
Context (number_text : Z -> text) (toInt : text -> Z).

(** [AbstractDecklistCardNode::writeElement]. *)
Definition write_card (c : Card) : list token :=
  empty_element (str "card")
    ([(str "number", number_text (number c)); (str "name", card_name c)] ++
     optional_attribute (str "setShortName") (cardSetShortName c) ++
     optional_attribute (str "collectorNumber") (cardSetNumber c) ++
     optional_attribute (str "uuid") (cardProviderId c)).

(** [writeElement] of a node. *)
Fixpoint writeElement (n : node) : list token :=
  match n with
  | CardNode _ _ c => write_card c
  | InnerNode _ _ name ks =>
      StartElement (str "zone") [(str "name", name)] :: concat (map writeElement ks) ++
      [EndElement (str "zone")]
  end.

(** One declaration of a commander. *)
Definition write_commander (c : Card) : list token :=
  StartElement (str "commander")
    ((str "providerId", cardProviderId c) ::
     optional_attribute (str "setShortName") (cardSetShortName c) ++
     optional_attribute (str "collectorNumber") (cardSetNumber c)) ::
  Characters (card_name c) :: [EndElement (str "commander")].

(** [DecklistNodeTree::write]. *)
Definition write (t : DecklistNodeTree) : list token :=
  let zones := List.filter (fun n => negb (bool_decide (getName n = DECK_ZONE_COMMANDER))) (root t) in
  let commanders := getCardNodes [DECK_ZONE_COMMANDER] t in
  concat (map writeElement zones) ++
  if bool_decide (commanders = []) then []
  else StartElement (str "commanders") [] ::
       concat (map (fun c => concat (replicate (Z.to_nat (number c)) (write_commander c))) commanders) ++
       [EndElement (str "commanders")].

(** [readCardElement]: the data of the node it appends. *)
Definition readCardElement (attributes : list (text * text)) (remainingBudget : Z) : Card :=
  {| card_name := attribute (str "name") attributes;
     number := Z.min (toInt (attribute (str "number") attributes)) remainingBudget;
     cardSetShortName := attribute (str "setShortName") attributes;
     cardSetNumber := attribute (str "collectorNumber") attributes;
     cardProviderId := attribute (str "uuid") attributes;
     formatLegal := true |}.

(** [readElement] of a zone: its children and their count, the next identity and
    the tokens left. Each turn of the loop reads one token. *)
Fixpoint readElement (fuel : nat) (limit total : Z) (next : nat) (ks : list node) (xml : list token)
    : list node * Z * nat * list token :=
  match fuel with
  | O => (ks, total, next, xml)
  | S f =>
      match xml with
      | [] => (ks, total, next, [])
      | StartElement name attributes :: xml =>
          let remainingBudget := limit - total in
          if bool_decide (name = str "zone") then
            let '(ks', n, next', xml) := readElement f remainingBudget 0 (S next) [] xml in
            readElement f limit (total + n) next'
              (ks ++ [InnerNode next Default (attribute (str "name") attributes) ks']) xml
          else if bool_decide (name = str "card") then
            let c := readCardElement attributes remainingBudget in
            readElement f limit (total + number c) (S next) (ks ++ [CardNode next Default c]) xml
          else readElement f limit total next ks xml
      | EndElement name :: xml =>
          if bool_decide (name = str "zone") then (ks, total, next, xml)
          else readElement f limit total next ks xml
      | Characters _ :: xml => readElement f limit total next ks xml
      end
  end.

(** [readZoneElement]: [attributes] are those of the start tag already read. *)
Definition readZoneElement (attributes : list (text * text)) (xml : list token)
    (t : DecklistNodeTree) : DecklistNodeTree * list token :=
  let '(zone, t) := getZoneObjFromName (attribute (str "name") attributes) t in
  let '(ks, n, next, xml) :=
    readElement (S (length xml)) (MAX_DECK_SIZE - totalCards t) 0 (next_id t) [] xml in
  ({| root := root (update zone (fun old => old ++ ks) t);
      totalCards := totalCards t + n; next_id := next |}, xml).

(** [skipCurrentElement] behind a start tag, [depth] elements deep. *)
Fixpoint skipCurrentElement (depth : nat) (xml : list token) : list token :=
  match xml with
  | [] => []
  | StartElement _ _ :: xml => skipCurrentElement (S depth) xml
  | EndElement _ :: xml => match depth with O => xml | S d => skipCurrentElement d xml end
  | Characters _ :: xml => skipCurrentElement depth xml
  end.

(** [readElementText]: an element inside is an error, after which the text read
    so far is returned and the reader is at its end. *)
Fixpoint readElementText (acc : text) (xml : list token) : text * bool * list token :=
  match xml with
  | [] => (acc, false, [])
  | StartElement _ _ :: _ => (acc, false, [])
  | EndElement _ :: xml => (acc, true, xml)
  | Characters s :: xml => readElementText (acc ++ s) xml
  end.

Definition with_number (n : Z) (c : Card) : Card :=
  {| card_name := card_name c; number := n; cardSetShortName := cardSetShortName c;
     cardSetNumber := cardSetNumber c; cardProviderId := cardProviderId c;
     formatLegal := formatLegal c |}.

(** [setNumber] on the card [z] points at. *)
Fixpoint set_card (z : nat) (n : Z) (k : node) : node :=
  match k with
  | CardNode i m c =>
      if Nat.eqb i z then CardNode i m (with_number n c)
      else k
  | InnerNode i m name ks => InnerNode i m name (map (set_card z n) ks)
  end.

Definition setNumber (z : nat) (n : Z) (t : DecklistNodeTree) : DecklistNodeTree :=
  set_root (map (set_card z n) (root t)) t.

(** The test that a declaration repeats the card before it. *)
Definition same_printing (c : Card) (name set number provider : text) : bool :=
  bool_decide (card_name c = name) && bool_decide (cardSetShortName c = set) &&
  bool_decide (cardSetNumber c = number) && bool_decide (cardProviderId c = provider).

(** One declaration: the last node and its data, and the tree. *)
Definition declare_commander (name set num provider : text) (previous : option (nat * Card))
    (t : DecklistNodeTree) : (nat * Card) * DecklistNodeTree :=
  let add :=
    let '(z, t) := addCard name 1 DECK_ZONE_COMMANDER (-1) set num provider true t in
    ((z, {| card_name := name; number := 1; cardSetShortName := set; cardSetNumber := num;
            cardProviderId := provider; formatLegal := true |}), t) in
  match previous with
  | Some (z, c) =>
      if same_printing c name set num provider then
        ((z, with_number (number c + 1) c),
         set_total (totalCards t + 1) (setNumber z (number c + 1) t))
      else add
  | None => add
  end.

(** The loop of [readCommandersElement]; [previous] is the node added last and
    its data, [ok] whether the reader has no error. *)
Fixpoint read_commanders (fuel : nat) (ok : bool) (previous : option (nat * Card))
    (xml : list token) (t : DecklistNodeTree) : bool * DecklistNodeTree * list token :=
  match fuel with
  | O => (ok, t, xml)
  | S f =>
      match xml with
      | [] => (ok, t, [])
      | Characters _ :: xml => read_commanders f ok previous xml t
      | EndElement _ :: xml => (ok, t, xml)
      | StartElement tag attributes :: xml =>
          if negb (bool_decide (tag = str "commander")) then
            read_commanders f ok previous (skipCurrentElement 0 xml) t
          else
            let provider := attribute (str "providerId") attributes in
            let set := attribute (str "setShortName") attributes in
            let num := attribute (str "collectorNumber") attributes in
            let '(name, ok', xml) := readElementText [] xml in
            if MAX_DECK_SIZE <=? totalCards t then (false, t, [])
            else
              let '(previous, t) := declare_commander name set num provider previous t in
              read_commanders f (ok && ok') (Some previous) xml t
      end
  end.

Definition readCommandersElement (xml : list token) (t : DecklistNodeTree)
    : bool * DecklistNodeTree * list token :=
  read_commanders (S (length xml)) true None xml (clearCommanders t).
End File.
