(* ===== verification/DeckTreeCorrect.v ===== *)
(** * Correctness of the deck tree

    The invariants of the deck tree under its operations and under reading: the
    ownership of its nodes, its zone names, the card budget. *)
From stdpp Require Import sorting relations.
From S2P Require Import Prelude DeckTree.
Open Scope cockatrice_scope.
Local Open Scope Z_scope.

(** ** Trees *)

Section NodeInd.
Context (P : node -> Prop).
Hypothesis Pcard : forall i m c, P (CardNode i m c).
Hypothesis Pinner : forall i m name ks, Forall P ks -> P (InnerNode i m name ks).

Fixpoint node_tree_ind (n : node) : P n :=
  match n with
  | CardNode i m c => Pcard i m c
  | InnerNode i m name ks =>
      Pinner i m name ks
        ((fix all (l : list node) : Forall P l :=
            match l with
            | [] => Forall_nil_2 P
            | k :: l => Forall_cons_2 P k l (node_tree_ind k) (all l)
            end) ks)
  end.
End NodeInd.

Fixpoint ids (n : node) : list nat :=
  match n with
  | CardNode i _ _ => [i]
  | InnerNode i _ _ ks => i :: concat (map ids ks)
  end.

Definition all_ids (ks : list node) : list nat := concat (map ids ks).

Definition inner_names (ks : list node) : list text := map getName (List.filter is_inner ks).

Definition custom_names (ks : list node) : list text := inner_names (concat (map children_of ks)).

(** The cards with the identities of their nodes. *)
Fixpoint idcards (n : node) : list (nat * Card) :=
  match n with
  | CardNode i _ c => [(i, c)]
  | InnerNode _ _ _ ks => concat (map idcards ks)
  end.

Definition all_idcards (ks : list node) : list (nat * Card) := concat (map idcards ks).

Definition all_cards (ks : list node) : list Card := concat (map collectCardsRecursive ks).

Definition count_all (ks : list node) : Z := zsum (map (recursiveCount true) ks).

Lemma deck_all_ids_app k l : all_ids (k ++ l) = all_ids k ++ all_ids l.
Proof. unfold all_ids. by rewrite map_app, concat_app. Qed.

Lemma deck_all_ids_cons n l : all_ids (n :: l) = ids n ++ all_ids l.
Proof. done. Qed.

Lemma inner_names_app k l : inner_names (k ++ l) = inner_names k ++ inner_names l.
Proof. unfold inner_names. by rewrite List.filter_app, map_app. Qed.

Lemma custom_names_app k l : custom_names (k ++ l) = custom_names k ++ custom_names l.
Proof. unfold custom_names. by rewrite map_app, concat_app, inner_names_app. Qed.

Lemma custom_names_cons n l : custom_names (n :: l) = inner_names (children_of n) ++ custom_names l.
Proof. unfold custom_names. cbn [map concat]. by rewrite inner_names_app. Qed.

Lemma all_cards_app k l : all_cards (k ++ l) = all_cards k ++ all_cards l.
Proof. unfold all_cards. by rewrite map_app, concat_app. Qed.

Lemma all_idcards_app k l : all_idcards (k ++ l) = all_idcards k ++ all_idcards l.
Proof. unfold all_idcards. by rewrite map_app, concat_app. Qed.

Lemma cards_idcards n : collectCardsRecursive n = map snd (idcards n).
Proof.
  induction n as [i m c|i m name ks IH] using node_tree_ind; [done|]. cbn.
  induction IH as [|k ks Hk _ IH]; [done|]. cbn. by rewrite map_app, Hk, IH.
Qed.

Lemma all_cards_idcards ks : all_cards ks = map snd (all_idcards ks).
Proof.
  induction ks as [|k ks IH]; [done|]. unfold all_cards, all_idcards in *. cbn.
  by rewrite map_app, IH, cards_idcards.
Qed.

Lemma count_all_app k l : count_all (k ++ l) = count_all k + count_all l.
Proof. unfold count_all. by rewrite map_app, zsum_app. Qed.

Lemma deck_node_id_in n : node_id n ∈ ids n.
Proof. destruct n; cbn; set_solver. Qed.

Lemma deck_in_all_ids z ks : z ∈ all_ids ks <-> exists n, n ∈ ks /\ z ∈ ids n.
Proof.
  induction ks as [|k ks IH]; [set_solver|]. rewrite deck_all_ids_cons, elem_of_app, IH. set_solver.
Qed.

(** ** Pointers into a tree *)

Lemma deck_on_children_absent z f n : z ∉ ids n -> on_children z f n = n.
Proof.
  revert z. induction n as [|i m name ks IH] using node_tree_ind; intros z Hz; [done|].
  cbn in Hz |- *. apply not_elem_of_cons in Hz as [Hi Hks].
  destruct (Nat.eqb_spec i z); [congruence|]. f_equal.
  fold (all_ids ks) in Hks. induction IH as [|k ks Hk IH IH']; [done|]. cbn.
  rewrite deck_all_ids_cons in Hks. apply not_elem_of_app in Hks as [H1 H2]. f_equal; auto.
Qed.

Lemma map_absent z f ks : z ∉ all_ids ks -> map (on_children z f) ks = ks.
Proof.
  induction ks as [|k ks IH]; [done|]. rewrite deck_all_ids_cons, not_elem_of_app. intros [H1 H2].
  cbn. rewrite deck_on_children_absent by done. f_equal. auto.
Qed.

(** What updating the children of a zone at the top does. *)
Lemma update_top l1 z m name ks l2 f :
  NoDup (all_ids (l1 ++ InnerNode z m name ks :: l2)) ->
  map (on_children z f) (l1 ++ InnerNode z m name ks :: l2) = l1 ++ InnerNode z m name (f ks) :: l2.
Proof.
  rewrite deck_all_ids_app, deck_all_ids_cons. cbn [ids]. fold (all_ids ks).
  intros (H1 & H2 & H3)%NoDup_app. apply NoDup_app in H3 as (H4 & H6 & H7).
  apply NoDup_cons in H4 as [H4 H5].
  rewrite map_app. cbn [map on_children]. rewrite Nat.eqb_refl, !map_absent; try done.
  - intros Hz. apply (H6 z); [apply elem_of_cons; auto|done].
  - intros Hz. apply (H2 z); [done|]. apply elem_of_app. left. apply elem_of_cons. auto.
Qed.

(** The same for a zone inside a board zone. *)
Lemma update_nested l1 b mb bname k1 z m name ks k2 l2 f :
  NoDup (all_ids (l1 ++ InnerNode b mb bname (k1 ++ InnerNode z m name ks :: k2) :: l2)) ->
  map (on_children z f) (l1 ++ InnerNode b mb bname (k1 ++ InnerNode z m name ks :: k2) :: l2) =
  l1 ++ InnerNode b mb bname (k1 ++ InnerNode z m name (f ks) :: k2) :: l2.
Proof.
  rewrite deck_all_ids_app, deck_all_ids_cons. intros (H1 & H2 & H3)%NoDup_app.
  apply NoDup_app in H3 as (H4 & H5 & H6). cbn [ids] in *. fold (all_ids (k1 ++ InnerNode z m name ks :: k2)) in *.
  apply NoDup_cons in H4 as (H7 & H8).
  assert (Hin : z ∈ all_ids (k1 ++ InnerNode z m name ks :: k2))
    by (rewrite deck_all_ids_app, deck_all_ids_cons; cbn; set_solver).
  rewrite map_app. cbn [map on_children]. rewrite update_top by done.
  destruct (Nat.eqb_spec b z) as [->|]; [by destruct (H7 Hin)|].
  rewrite !map_absent; try done.
  - intros Hz. apply (H5 z); [|done]. apply elem_of_cons. auto.
  - intros Hz. apply (H2 z); [done|]. apply elem_of_app. left. apply elem_of_cons. auto.
Qed.

(** ** Lookups *)

Lemma first_inner_Some name ks n : first_inner name ks = Some n ->
  exists i m cs l1 l2, n = InnerNode i m name cs /\ ks = l1 ++ n :: l2 /\ name ∉ inner_names l1.
Proof.
  unfold first_inner. induction ks as [|k ks IH]; [done|]. cbn [List.find].
  destruct (inner_named name k) eqn:Hk.
  - intros [= ->]. unfold inner_named in Hk. apply andb_true_iff in Hk as [H1 H2%bool_decide_eq_true_1].
    destruct n as [|i m name' cs]; [done|]. cbn in H2. subst. exists i, m, cs, [], ks. set_solver.
  - intros (i & m & cs & l1 & l2 & -> & -> & Hn)%IH. exists i, m, cs, (k :: l1), l2. split_and!; [done..|].
    unfold inner_names, inner_named in *. cbn. destruct (is_inner k); [|done]. cbn in *.
    apply bool_decide_eq_false_1 in Hk. set_solver.
Qed.

Lemma first_inner_None name ks : first_inner name ks = None <-> name ∉ inner_names ks.
Proof.
  unfold first_inner. induction ks as [|k ks IH]; [set_solver|]. cbn [List.find].
  unfold inner_names, inner_named in *. cbn. destruct (is_inner k); cbn; [|done].
  case_bool_decide; set_solver.
Qed.

Lemma findChild_Some name ks n : findChild name ks = Some n ->
  getName n = name /\ exists l1 l2, ks = l1 ++ n :: l2 /\ name ∉ map getName l1.
Proof.
  induction ks as [|k ks IH]; [done|]. cbn. case_bool_decide as Hk.
  - intros [= ->]. split; [done|]. exists [], ks. set_solver.
  - intros (H1 & l1 & l2 & -> & H2)%IH. split; [done|]. exists (k :: l1), l2. split; [done|].
    cbn. set_solver.
Qed.

Lemma findChild_None name ks : findChild name ks = None <-> name ∉ map getName ks.
Proof.
  induction ks as [|k ks IH]; [set_solver|]. cbn. case_bool_decide; set_solver.
Qed.

(** [z] is a zone among the children [ks] of the root, or one below, with the
    children [cs]; [put] puts other children there. *)
Inductive zone_at (ks : list node) (z : nat) (cs : list node) (put : list node -> list node) : Prop :=
| at_top l1 m name l2 :
    ks = l1 ++ InnerNode z m name cs :: l2 ->
    (forall cs', put cs' = l1 ++ InnerNode z m name cs' :: l2) -> zone_at ks z cs put
| at_nested l1 b mb bname k1 m name k2 l2 :
    ks = l1 ++ InnerNode b mb bname (k1 ++ InnerNode z m name cs :: k2) :: l2 ->
    (forall cs', put cs' = l1 ++ InnerNode b mb bname (k1 ++ InnerNode z m name cs' :: k2) :: l2) ->
    zone_at ks z cs put.

Lemma zone_at_put ks z cs put : zone_at ks z cs put -> put cs = ks.
Proof. by intros [l1 m name l2 -> Hp|l1 b mb bname k1 m name k2 l2 -> Hp]; rewrite Hp. Qed.

Lemma update_zone ks z cs put f :
  zone_at ks z cs put -> NoDup (all_ids ks) -> map (on_children z f) ks = put (f cs).
Proof.
  intros [l1 m name l2 -> Hp|l1 b mb bname k1 m name k2 l2 -> Hp] Hnd; rewrite Hp.
  - by apply update_top.
  - by apply update_nested.
Qed.

Lemma inner_names_zone k1 z m name cs k2 :
  inner_names (k1 ++ InnerNode z m name cs :: k2) = inner_names k1 ++ name :: inner_names k2.
Proof. by rewrite inner_names_app. Qed.

(** What a measure of the cards or nodes below sees of a replacement. *)
Lemma put_ids ks z cs put : zone_at ks z cs put ->
  exists A, forall cs', all_ids (put cs') ≡ₚ A ++ all_ids cs'.
Proof.
  intros [l1 m name l2 _ Hp|l1 b mb bname k1 m name k2 l2 _ Hp].
  - exists (z :: all_ids l1 ++ all_ids l2). intros cs'. rewrite Hp, deck_all_ids_app, deck_all_ids_cons. cbn [ids].
    fold (all_ids cs'). solve_Permutation.
  - exists (b :: z :: all_ids l1 ++ all_ids k1 ++ all_ids k2 ++ all_ids l2). intros cs'.
    rewrite Hp, deck_all_ids_app, deck_all_ids_cons. cbn [ids].
    fold (all_ids (k1 ++ InnerNode z m name cs' :: k2)). rewrite deck_all_ids_app, deck_all_ids_cons. cbn [ids].
    fold (all_ids cs'). solve_Permutation.
Qed.

Lemma put_count ks z cs put : zone_at ks z cs put ->
  forall cs', count_all (put cs') = count_all ks - count_all cs + count_all cs'.
Proof.
  intros [l1 m name l2 -> Hp|l1 b mb bname k1 m name k2 l2 -> Hp] cs'; rewrite Hp, !count_all_app;
    unfold count_all; cbn [map recursiveCount zsum]; rewrite ?map_app, ?zsum_app;
    cbn [map recursiveCount zsum]; lia.
Qed.

Lemma put_inner_names ks z cs put : zone_at ks z cs put ->
  forall cs', inner_names (put cs') = inner_names ks.
Proof.
  intros [l1 m name l2 -> Hp|l1 b mb bname k1 m name k2 l2 -> Hp] cs';
    by rewrite Hp, !inner_names_zone.
Qed.

Lemma put_custom_names ks z cs put : zone_at ks z cs put ->
  forall cs', inner_names cs' = inner_names cs -> custom_names (put cs') = custom_names ks.
Proof.
  intros [l1 m name l2 -> Hp|l1 b mb bname k1 m name k2 l2 -> Hp] cs' Hc;
    rewrite Hp, !custom_names_app, !custom_names_cons; cbn [children_of]; by rewrite ?Hc, ?inner_names_zone.
Qed.

Lemma put_all_inner ks z cs put : zone_at ks z cs put ->
  Forall (fun n => is_inner n = true) ks -> forall cs', Forall (fun n => is_inner n = true) (put cs').
Proof.
  intros [l1 m name l2 -> Hp|l1 b mb bname k1 m name k2 l2 -> Hp] Hf cs'; rewrite Hp;
    apply Forall_app in Hf as [H1 (_ & H2)%Forall_cons]; apply Forall_app; auto.
Qed.

(** ** Ownership

    Every node of the tree has an identity of its own, below the next one to be
    used and different from the root's, and the children of the root are zones. *)
Record shape_ok (t : DecklistNodeTree) : Prop := {
  so_ids : NoDup (all_ids (root t));
  so_below : Forall (fun i => 0 < i < next_id t)%nat (all_ids (root t));
  so_next : (0 < next_id t)%nat;
  so_inner : Forall (fun n => is_inner n = true) (root t)
}.

(** The names of the zones are pairwise different, and no custom zone has the
    name of a board zone. *)
Record names_ok (t : DecklistNodeTree) : Prop := {
  no_names : NoDup (inner_names (root t) ++ custom_names (root t));
  no_reserved : Forall (fun name => reserved name = false) (custom_names (root t))
}.

Lemma all_inner_names ks :
  Forall (fun n => is_inner n = true) ks -> inner_names ks = map getName ks.
Proof. unfold inner_names. induction 1 as [|k ks Hk _ IH]; [done|]. cbn. rewrite Hk. cbn. by f_equal. Qed.

Lemma first_inner_at ks name n : first_inner name ks = Some n ->
  exists put, zone_at ks (node_id n) (children_of n) put.
Proof.
  intros (i & m & cs & l1 & l2 & -> & -> & _)%first_inner_Some.
  exists (fun cs' => l1 ++ InnerNode i m name cs' :: l2). by eapply at_top.
Qed.

Lemma first_inner_app name k l :
  first_inner name (k ++ l) =
  match first_inner name k with Some n => Some n | None => first_inner name l end.
Proof. unfold first_inner. induction k as [|x k IH]; [done|]. cbn. by destruct (inner_named name x). Qed.

Definition holds_zone (name : text) (b : node) : bool :=
  bool_decide (is_Some (first_inner name (children_of b))).

(** A custom zone sits in a board zone, the first one with a zone of its name. *)
Lemma custom_Some name ks n :
  first_inner name (concat (map children_of ks)) = Some n ->
  exists z m cs l1 b mb bname k1 k2 l2, n = InnerNode z m name cs /\
    ks = l1 ++ InnerNode b mb bname (k1 ++ n :: k2) :: l2 /\
    List.find (holds_zone name) ks = Some (InnerNode b mb bname (k1 ++ n :: k2)).
Proof.
  induction ks as [|k ks IH]; [done|]. cbn [map concat List.find].
  unfold holds_zone at 1. destruct (first_inner name (children_of k)) as [n'|] eqn:Hk.
  - intros Hf. assert (n' = n) as ->.
    { rewrite first_inner_app, Hk in Hf. congruence. }
    apply first_inner_Some in Hk as (z & m & cs & k1 & k2 & -> & Hc & Hn).
    destruct k as [|b mb bname cs']; [by destruct k1|]. cbn in Hc. subst cs'.
    exists z, m, cs, [], b, mb, bname, k1, k2, ks. by rewrite bool_decide_eq_true_2 by done.
  - intros Hf. assert (Hf' : first_inner name (concat (map children_of ks)) = Some n).
    { by rewrite first_inner_app, Hk in Hf. }
    apply IH in Hf' as (z & m & cs & l1 & b & mb & bname & k1 & k2 & l2 & -> & -> & H2).
    exists z, m, cs, (k :: l1), b, mb, bname, k1, k2, l2. split_and!; [done|done|].
    rewrite bool_decide_eq_false_2 by (by intros [? ?]). done.
Qed.

Lemma custom_at ks name n : first_inner name (concat (map children_of ks)) = Some n ->
  exists put, zone_at ks (node_id n) (children_of n) put.
Proof.
  intros (z & m & cs & l1 & b & mb & bname & k1 & k2 & l2 & -> & -> & _)%custom_Some.
  exists (fun cs' => l1 ++ InnerNode b mb bname (k1 ++ InnerNode z m name cs' :: k2) :: l2).
  by eapply at_nested.
Qed.

(** ** Operations keep the ownership and the names *)

(** New nodes, with new identities, among the children of a zone. *)
Lemma shape_put t z cs put cs' N next' total' :
  shape_ok t -> zone_at (root t) z cs put -> all_ids cs' ≡ₚ all_ids cs ++ N ->
  NoDup N -> Forall (fun i => next_id t <= i < next')%nat N -> (next_id t <= next')%nat ->
  shape_ok {| root := put cs'; totalCards := total'; next_id := next' |}.
Proof.
  intros [H1 H2 H3 H4] Hz Hc HN Hr Hle. destruct (put_ids _ _ _ _ Hz) as [A HA].
  pose proof (HA cs) as Hold. rewrite (zone_at_put _ _ _ _ Hz) in Hold.
  assert (Hnew : all_ids (put cs') ≡ₚ all_ids (root t) ++ N) by (rewrite HA, Hc, Hold; solve_Permutation).
  constructor; cbn [root next_id]; [| |lia|by eapply put_all_inner].
  - rewrite Hnew. apply NoDup_app. split_and!; [done| |done]. intros i Hi Hi'.
    rewrite Forall_forall in H2, Hr. specialize (H2 i Hi). specialize (Hr i Hi'). lia.
  - rewrite Hnew. apply Forall_app. split; (eapply Forall_impl; [eassumption|]); cbn; lia.
Qed.

Lemma new_zone_shape name t : shape_ok t -> shape_ok (new_zone name t).2.
Proof.
  intros [H1 H2 H3 H4]. constructor; cbn [new_zone fresh set_root root next_id snd];
    rewrite ?deck_all_ids_app; cbn [all_ids map ids concat app].
  - apply NoDup_app. split_and!; [done| |by apply NoDup_singleton]. intros i Hi ->%list_elem_of_singleton.
    rewrite Forall_forall in H2. specialize (H2 _ Hi). lia.
  - apply Forall_app. split; [|constructor; [lia|done]].
    eapply Forall_impl; [exact H2|]. cbn. lia.
  - lia.
  - apply Forall_app. split; [done|]. by constructor.
Qed.

Lemma new_zone_names name t : names_ok t ->
  name ∉ inner_names (root t) -> name ∉ custom_names (root t) -> names_ok (new_zone name t).2.
Proof.
  intros [H1 H2] Hi Hc. constructor; cbn [new_zone fresh set_root root snd];
    rewrite ?inner_names_app, ?custom_names_app; change (custom_names [InnerNode _ _ _ []]) with (@nil text);
    rewrite ?app_nil_r; [|done].
  change (inner_names [InnerNode _ _ name []]) with [name].
  assert (Hp : (inner_names (root t) ++ [name]) ++ custom_names (root t) ≡ₚ
               name :: (inner_names (root t) ++ custom_names (root t))) by solve_Permutation.
  rewrite Hp. apply NoDup_cons. split; [|done]. rewrite not_elem_of_app. done.
Qed.

(** What a zone lookup that may create the zone keeps. *)
Record same_cards (t t' : DecklistNodeTree) : Prop := {
  sc_shape : shape_ok t';
  sc_next : (next_id t <= next_id t')%nat;
  sc_total : totalCards t' = totalCards t;
  sc_count : count_all (root t') = count_all (root t);
  sc_nodes : all_idcards (root t') = all_idcards (root t)
}.

Lemma same_cards_refl t : shape_ok t -> same_cards t t.
Proof. by constructor. Qed.

Lemma new_zone_same name t : shape_ok t -> same_cards t (new_zone name t).2.
Proof.
  intros Ht. constructor; [by apply new_zone_shape|cbn; lia|done| |];
    cbn [new_zone fresh set_root root snd].
  - rewrite count_all_app. cbn. lia.
  - rewrite all_idcards_app. cbn. by rewrite app_nil_r.
Qed.

Lemma new_zone_at name t : exists put, zone_at (root (new_zone name t).2) (new_zone name t).1 [] put.
Proof.
  exists (fun cs' => root t ++ [InnerNode (next_id t) Default name cs']). by eapply at_top.
Qed.

Lemma getZoneObjFromName_ok name t : shape_ok t ->
  let res := getZoneObjFromName name t in
  same_cards t res.2 /\ (names_ok t -> names_ok res.2) /\
  exists cs put, zone_at (root res.2) res.1 cs put.
Proof.
  intros Ht. unfold getZoneObjFromName. destruct (first_inner name (root t)) as [n|] eqn:H1.
  { split_and!; [by apply same_cards_refl|done|]. exists (children_of n). by eapply first_inner_at. }
  destruct (findCustomZoneByName name t) as [n|] eqn:H2.
  { split_and!; [by apply same_cards_refl|done|]. exists (children_of n). by eapply custom_at. }
  split_and!; [by apply new_zone_same| |exists []; apply new_zone_at].
  intros Hn. apply new_zone_names; [done| |]; by apply first_inner_None.
Qed.

Lemma findBoardZone_Some name t n : findBoardZone name t = Some n ->
  exists i m cs l1 l2, n = InnerNode i m name cs /\ root t = l1 ++ n :: l2 /\ name ∉ map getName l1.
Proof.
  unfold findBoardZone. destruct (findChild name (root t)) as [k|] eqn:Hk; [|done]. cbn.
  apply findChild_Some in Hk as (Hname & l1 & l2 & Hr & Hl). destruct k as [|i m name' cs]; [done|].
  cbn in Hname. subst name'. intros [= <-]. by exists i, m, cs, l1, l2.
Qed.

Lemma findBoardZone_None name t : shape_ok t -> findBoardZone name t = None ->
  name ∉ inner_names (root t).
Proof.
  intros Ht. unfold findBoardZone. destruct (findChild name (root t)) as [k|] eqn:Hk; cbn.
  - apply findChild_Some in Hk as (Hname & l1 & l2 & Hr & Hl). pose proof (so_inner _ Ht) as Hi.
    rewrite Hr in Hi. apply Forall_app in Hi as [_ (Hi & _)%Forall_cons]. by rewrite Hi.
  - intros _. rewrite all_inner_names by apply Ht. by apply findChild_None.
Qed.

Lemma findOrCreateBoardZone_ok name t z t' : shape_ok t ->
  findOrCreateBoardZone name t = (z, t') ->
  same_cards t t' /\ (names_ok t -> names_ok t') /\ (z = None -> t' = t) /\
  (forall i, z = Some i -> exists m cs l1 l2, root t' = l1 ++ InnerNode i m name cs :: l2).
Proof.
  intros Ht. unfold findOrCreateBoardZone. destruct (findBoardZone name t) as [n|] eqn:Hb.
  { intros [= <- <-]. split_and!; [by apply same_cards_refl|done|done|]. intros i [= <-].
    apply findBoardZone_Some in Hb as (i & m & cs & l1 & l2 & -> & Hr & _). cbn. eauto. }
  case_bool_decide as Hboard; [|intros [= <- <-]; split_and!; [by apply same_cards_refl|done..]].
  intros [= <- <-]. change (fresh _) with (new_zone name t).2. split_and!; [by apply new_zone_same| |done|].
  - intros Hn. apply new_zone_names; [done|by apply findBoardZone_None|]. intros Hin.
    pose proof (no_reserved _ Hn) as Hr. rewrite Forall_forall in Hr. specialize (Hr _ Hin).
    unfold reserved in Hr. apply bool_decide_eq_false_1 in Hr. set_solver.
  - intros i [= <-]. exists Default, [], (root t), []. done.
Qed.

(** ** Removing nodes *)

Lemma count_cards n : recursiveCount true n = zsum (map number (collectCardsRecursive n)).
Proof.
  induction n as [i m c|i m name ks IH] using node_tree_ind; cbn; [lia|].
  induction IH as [|k ks Hk _ IH]; [done|]. cbn. rewrite map_app, zsum_app, Hk, IH. done.
Qed.

Lemma count_all_cards ks : count_all ks = zsum (map number (all_cards ks)).
Proof.
  induction ks as [|k ks IH]; [done|]. unfold count_all, all_cards in *. cbn.
  rewrite map_app, zsum_app, IH, count_cards. done.
Qed.

(** [ks'] is [ks] with some nodes removed. *)
Record fewer (ks' ks : list node) : Prop := {
  fw_ids : all_ids ks' `sublist_of` all_ids ks;
  fw_inner : inner_names ks' `sublist_of` inner_names ks;
  fw_custom : custom_names ks' `sublist_of` custom_names ks;
  fw_cards : all_cards ks' `sublist_of` all_cards ks;
  fw_zones : Forall (fun n => is_inner n = true) ks -> Forall (fun n => is_inner n = true) ks'
}.

Lemma concat_map_sublist {A B} (f : A -> list B) l k :
  l `sublist_of` k -> concat (map f l) `sublist_of` concat (map f k).
Proof.
  induction 1 as [|x l k _ IH|x l k _ IH]; cbn; [done| |].
  - by apply sublist_app.
  - by apply sublist_inserts_l.
Qed.

Lemma inner_names_sublist l k : l `sublist_of` k -> inner_names l `sublist_of` inner_names k.
Proof.
  unfold inner_names. induction 1 as [|x l k _ IH|x l k _ IH]; cbn; [done| |];
    destruct (is_inner x); cbn; [by constructor|done|by constructor|done].
Qed.

Lemma fewer_sublist ks' ks : ks' `sublist_of` ks -> fewer ks' ks.
Proof.
  intros H. constructor.
  - by apply concat_map_sublist.
  - by apply inner_names_sublist.
  - by apply inner_names_sublist, concat_map_sublist.
  - by apply concat_map_sublist.
  - intros Hf. apply Forall_forall. intros x Hx. rewrite Forall_forall in Hf.
    by apply Hf, (elem_of_sublist _ _ _ Hx).
Qed.

Lemma fewer_app k' k l' l : fewer k' k -> fewer l' l -> fewer (k' ++ l') (k ++ l).
Proof.
  intros [H1 H2 H3 H4 H5] [G1 G2 G3 G4 G5]. constructor;
    rewrite ?deck_all_ids_app, ?inner_names_app, ?custom_names_app, ?all_cards_app; try by apply sublist_app.
  rewrite !Forall_app. naive_solver.
Qed.

Lemma fewer_refl ks : fewer ks ks.
Proof. by apply fewer_sublist. Qed.

Lemma fewer_inner i m name ks' ks : fewer ks' ks -> fewer [InnerNode i m name ks'] [InnerNode i m name ks].
Proof.
  intros [H1 H2 H3 H4 H5]. constructor.
  - unfold all_ids in *. cbn. rewrite !app_nil_r. by constructor.
  - done.
  - rewrite !custom_names_cons. by apply sublist_app.
  - unfold all_cards in *. cbn. by rewrite !app_nil_r.
  - intros _. by constructor.
Qed.

(** A node with some nodes below it removed. *)
Lemma delete_below_fewer top target n n' :
  delete_below top target n = Some n' ->
  fewer (children_of n') (children_of n) /\ exists i m name,
    n = InnerNode i m name (children_of n) /\ n' = InnerNode i m name (children_of n').
Proof.
  revert top n'. induction n as [i m c|i m name ks IH] using node_tree_ind; intros top n'; [done|].
  cbn [delete_below]. destruct (list_find _ ks) as [[index x]|].
  { intros [= <-]. cbn. split; [by apply fewer_sublist, sublist_delete|]. by exists i, m, name. }
  match goal with |- _ <$> ?d ks = _ -> _ => set (delete_in := d) end.
  assert (Hin : forall ks', delete_in ks = Some ks' -> fewer ks' ks).
  { induction IH as [|k ks Hk _ IHks]; intros ks'; [done|]. cbn.
    destruct (delete_below false target k) as [k'|] eqn:Hd.
    - apply Hk in Hd as [Hf (i' & m' & name' & -> & Ek)]. destruct (_ && _); intros [= <-].
      + apply fewer_sublist. by constructor.
      + apply (fewer_app [k'] [_]); [|apply fewer_refl]. rewrite Ek. by apply fewer_inner.
    - destruct (delete_in ks) as [l|] eqn:Hl; [|done]. intros [= <-].
      apply (fewer_app [k] [k]); [apply fewer_refl|by apply IHks]. }
  destruct (delete_in ks) as [ks'|]; [|done]. intros [= <-]. cbn. split; [by apply Hin|].
  by exists i, m, name.
Qed.

Lemma fewer_shape t ks total' : shape_ok t -> fewer ks (root t) ->
  shape_ok {| root := ks; totalCards := total'; next_id := next_id t |}.
Proof.
  intros [H1 H2 H3 H4] Hf. constructor; cbn; [by eapply sublist_NoDup, Hf| |done|by apply Hf].
  apply Forall_forall. intros x Hx. rewrite Forall_forall in H2. eapply H2, elem_of_sublist; [exact Hx|apply Hf].
Qed.

Lemma fewer_names t ks total' next' : names_ok t -> fewer ks (root t) ->
  names_ok {| root := ks; totalCards := total'; next_id := next' |}.
Proof.
  intros [H1 H2] Hf. constructor; cbn.
  - eapply sublist_NoDup; [exact H1|]. by apply sublist_app; apply Hf.
  - apply Forall_forall. intros x Hx. rewrite Forall_forall in H2. eapply H2, elem_of_sublist; [exact Hx|apply Hf].
Qed.

Lemma deleteNode_fewer target t : fewer (root (deleteNode target t).2) (root t).
Proof.
  unfold deleteNode. destruct (Nat.eqb _ _); [apply fewer_refl|].
  destruct (delete_below _ _ _) as [n|] eqn:Hd; [|apply fewer_refl].
  by apply delete_below_fewer in Hd as [Hf _].
Qed.

Lemma deleteNode_next target t :
  (deleteNode target t).2 = set_root (root (deleteNode target t).2) t.
Proof.
  unfold deleteNode. destruct (Nat.eqb _ _); [by destruct t|].
  by destruct (delete_below _ _ _); destruct t.
Qed.

Lemma clear_fewer b t : fewer (root (clear b t)) (root t).
Proof.
  unfold clear. destruct (if b then _ else _) as [n|] eqn:Hn; cbn; apply fewer_sublist.
  - destruct b; [|done]. apply findBoardZone_Some in Hn as (i & m & cs & l1 & l2 & -> & -> & _).
    apply (sublist_inserts_l l1 [_]), sublist_skip, sublist_nil_l.
  - apply sublist_nil_l.
Qed.

Lemma removeOne_fewer z ks : fewer (removeOne z ks) ks.
Proof.
  unfold removeOne. destruct (list_find _ ks) as [[i x]|]; [|apply fewer_refl].
  by apply fewer_sublist, sublist_delete.
Qed.

(** ** The custom zones *)

Lemma custom_zone_split name t zone board : shape_ok t ->
  findCustomZoneByName name t = Some zone -> parent_of name t = Some board ->
  exists z m cs l1 b mb bname k1 k2 l2, zone = InnerNode z m name cs /\
    board = InnerNode b mb bname (k1 ++ zone :: k2) /\ root t = l1 ++ board :: l2.
Proof.
  intros _ (z & m & cs & l1 & b & mb & bname & k1 & k2 & l2 & -> & Hr & Hp)%custom_Some Hb.
  unfold parent_of in Hb. fold (holds_zone name) in Hb.
  change (List.find _ (root t)) with (List.find (holds_zone name) (root t)) in Hb.
  rewrite Hp in Hb. injection Hb as <-.
  by exists z, m, cs, l1, b, mb, bname, k1, k2, l2.
Qed.

Lemma parent_of_custom name t zone :
  findCustomZoneByName name t = Some zone -> exists board, parent_of name t = Some board.
Proof.
  intros (z & m & cs & l1 & b & mb & bname & k1 & k2 & l2 & _ & _ & Hp)%custom_Some. eauto.
Qed.

Lemma find_pointer k1 n k2 : NoDup (all_ids (k1 ++ n :: k2)) ->
  list_find (fun k => node_id k = node_id n) (k1 ++ n :: k2) = Some (length k1, n).
Proof.
  intros Hnd. assert (Hk : forall k, k ∈ k1 -> node_id k <> node_id n).
  { intros k Hk E. rewrite deck_all_ids_app, deck_all_ids_cons in Hnd. apply NoDup_app in Hnd as (_ & Hd & _).
    apply (Hd (node_id n)); [apply deck_in_all_ids; exists k; split; [done|]; rewrite <- E; apply deck_node_id_in|].
    apply elem_of_app. left. apply deck_node_id_in. }
  apply list_find_Some. split_and!; [by apply list_lookup_middle|done|]. intros j k Hj Hlt.
  rewrite lookup_app_l in Hj by done. by apply Hk, (list_elem_of_lookup_2 _ j).
Qed.

Lemma removeOne_spec k1 n k2 : NoDup (all_ids (k1 ++ n :: k2)) ->
  removeOne (node_id n) (k1 ++ n :: k2) = k1 ++ k2.
Proof. intros Hnd. unfold removeOne. rewrite find_pointer by done. by rewrite delete_middle. Qed.

Lemma nodup_children ks l1 b mb bname cs l2 : ks = l1 ++ InnerNode b mb bname cs :: l2 ->
  NoDup (all_ids ks) -> NoDup (all_ids cs).
Proof.
  intros -> Hnd. rewrite deck_all_ids_app, deck_all_ids_cons in Hnd.
  apply NoDup_app in Hnd as (_ & _ & Hnd). apply NoDup_app in Hnd as (Hnd & _).
  cbn [ids] in Hnd. by apply NoDup_cons in Hnd as [_ Hnd].
Qed.

(** Removing a custom zone takes the zone out of its board zone. *)
Lemma remove_zone_root name t zone board : shape_ok t ->
  findCustomZoneByName name t = Some zone -> parent_of name t = Some board ->
  exists z m cs l1 b mb bname k1 k2 l2, zone = InnerNode z m name cs /\
    board = InnerNode b mb bname (k1 ++ zone :: k2) /\ root t = l1 ++ board :: l2 /\
    root (update (node_id board) (removeOne (node_id zone)) t) =
      l1 ++ InnerNode b mb bname (k1 ++ k2) :: l2.
Proof.
  intros Ht Hz Hb. destruct (custom_zone_split _ _ _ _ Ht Hz Hb)
    as (z & m & cs & l1 & b & mb & bname & k1 & k2 & l2 & -> & -> & Hr).
  exists z, m, cs, l1, b, mb, bname, k1, k2, l2. split_and!; [done..|].
  pose proof (so_ids _ Ht) as Hnd. pose proof (nodup_children _ _ _ _ _ _ _ Hr Hnd) as Hc.
  unfold update, set_root. cbn [root node_id]. rewrite Hr in Hnd |- *.
  rewrite update_top by done.
  change z with (node_id (InnerNode z m name cs)). by rewrite removeOne_spec.
Qed.

Lemma removeCustomZone_fewer name t : shape_ok t ->
  fewer (root (removeCustomZone name t).2) (root t).
Proof.
  intros Ht. unfold removeCustomZone. destruct (findCustomZoneByName name t) as [zone|] eqn:Hz;
    [|apply fewer_refl].
  destruct (parent_of name t) as [board|] eqn:Hb; [|apply fewer_refl]. cbn [snd].
  destruct (remove_zone_root _ _ _ _ Ht Hz Hb)
    as (z & m & cs & l1 & b & mb & bname & k1 & k2 & l2 & -> & -> & Hr & Hu).
  rewrite Hu, Hr. apply fewer_app; [apply fewer_refl|].
  apply (fewer_app [_] [_]); [|apply fewer_refl]. apply fewer_inner, fewer_sublist.
  apply sublist_app; [done|]. by constructor.
Qed.

Lemma rename_absent z name n : z ∉ ids n -> rename_node z name n = n.
Proof.
  induction n as [|i m old ks IH] using node_tree_ind; intros Hz; [done|].
  cbn in Hz |- *. apply not_elem_of_cons in Hz as [Hi Hks].
  destruct (Nat.eqb_spec i z); [congruence|]. f_equal. fold (all_ids ks) in Hks.
  induction IH as [|k ks Hk IH IH']; [done|]. cbn.
  rewrite deck_all_ids_cons in Hks. apply not_elem_of_app in Hks as [H1 H2]. f_equal; auto.
Qed.

Lemma rename_ids z name n : ids (rename_node z name n) = ids n.
Proof.
  induction n as [|i m old ks IH] using node_tree_ind; [done|]. cbn. f_equal.
  induction IH as [|k ks Hk _ IH]; [done|]. cbn. by rewrite Hk, IH.
Qed.

Lemma rename_cards z name n : collectCardsRecursive (rename_node z name n) = collectCardsRecursive n.
Proof.
  induction n as [|i m old ks IH] using node_tree_ind; [done|]. cbn.
  induction IH as [|k ks Hk _ IH]; [done|]. cbn. by rewrite Hk, IH.
Qed.

Lemma map_rename_absent z name ks : z ∉ all_ids ks -> map (rename_node z name) ks = ks.
Proof.
  induction ks as [|k ks IH]; [done|]. rewrite deck_all_ids_cons, not_elem_of_app. intros [H1 H2].
  cbn. rewrite rename_absent by done. f_equal. auto.
Qed.

Lemma rename_nested l1 b mb bname k1 z m name cs k2 l2 new :
  NoDup (all_ids (l1 ++ InnerNode b mb bname (k1 ++ InnerNode z m name cs :: k2) :: l2)) ->
  map (rename_node z new) (l1 ++ InnerNode b mb bname (k1 ++ InnerNode z m name cs :: k2) :: l2) =
  l1 ++ InnerNode b mb bname (k1 ++ InnerNode z m new cs :: k2) :: l2.
Proof.
  intros Hnd. pose proof (nodup_children _ _ _ _ _ _ _ eq_refl Hnd) as Hc.
  rewrite deck_all_ids_app, deck_all_ids_cons in Hnd. apply NoDup_app in Hnd as (_ & H2 & Hnd).
  apply NoDup_app in Hnd as (H4 & H5 & _). cbn [ids] in *.
  fold (all_ids (k1 ++ InnerNode z m name cs :: k2)) in *. apply NoDup_cons in H4 as [H7 _].
  assert (Hin : z ∈ all_ids (k1 ++ InnerNode z m name cs :: k2)).
  { apply deck_in_all_ids. exists (InnerNode z m name cs). split; [set_solver|apply (deck_node_id_in (InnerNode z m name cs))]. }
  rewrite deck_all_ids_app, deck_all_ids_cons in Hc. apply NoDup_app in Hc as (_ & G2 & Hc).
  apply NoDup_app in Hc as (G4 & G5 & _). cbn [ids] in G4, G5, G2. fold (all_ids cs) in *.
  apply NoDup_cons in G4 as [G7 _].
  rewrite map_app. cbn [map rename_node]. rewrite map_app. cbn [map rename_node].
  rewrite Nat.eqb_refl. destruct (Nat.eqb_spec b z) as [->|]; [by destruct (H7 Hin)|].
  rewrite !map_rename_absent; [done| | | | |].
  - intros Hz. apply (H5 z); [|done]. apply elem_of_cons. auto.
  - intros Hz. apply (G5 z); [|done]. apply elem_of_cons. auto.
  - done.
  - intros Hz. apply (G2 z); [done|]. apply elem_of_app. left. apply elem_of_cons. auto.
  - intros Hz. apply (H2 z); [done|]. apply elem_of_app. left. apply elem_of_cons. auto.
Qed.

(** A name that is free. *)
Lemma hasZoneName_false name t : shape_ok t -> hasZoneName name t = false ->
  reserved name = false /\ name ∉ inner_names (root t) /\ name ∉ custom_names (root t).
Proof.
  intros Ht. unfold hasZoneName. destruct (reserved name); [done|]. case_bool_decide as H1; [done|].
  intros H2%bool_decide_eq_false_1. split; [done|].
  rewrite <- eq_None_not_Some in H1, H2. split.
  - rewrite all_inner_names by apply Ht. by apply findChild_None.
  - by apply first_inner_None.
Qed.

(** The operations that move no cards: the shape, the names and the cards they
    leave, and that no card is lost or made. *)
Record keeps (t t' : DecklistNodeTree) : Prop := {
  kp_shape : shape_ok t';
  kp_names : names_ok t -> names_ok t';
  kp_next : (next_id t <= next_id t')%nat;
  kp_total : totalCards t' = totalCards t;
  kp_cards : all_cards (root t') ≡ₚ all_cards (root t)
}.

Lemma keeps_refl t : shape_ok t -> keeps t t.
Proof. by constructor. Qed.

Lemma same_cards_keeps t t' : same_cards t t' -> (names_ok t -> names_ok t') -> keeps t t'.
Proof. intros [H1 H2 H3 H4 H5] Hn. constructor; try done. by rewrite !all_cards_idcards, H5. Qed.

Lemma keeps_trans t1 t2 t3 : keeps t1 t2 -> keeps t2 t3 -> keeps t1 t3.
Proof.
  intros [H1 H2 H3 H4 H5] [G1 G2 G3 G4 G5]. constructor; try done; [auto|lia|congruence|by rewrite G5].
Qed.

Lemma rename_keeps old new t : shape_ok t -> keeps t (renameCustomZone old new t).2.
Proof.
  intros Ht. unfold renameCustomZone. destruct (hasZoneName new t) eqn:Hn; [by apply keeps_refl|].
  destruct (findCustomZoneByName old t) as [zone|] eqn:Hz; [|by apply keeps_refl]. cbn [snd].
  destruct (hasZoneName_false _ _ Ht Hn) as (Hr & Hi & Hc).
  apply custom_Some in Hz as (z & m & cs & l1 & b & mb & bname & k1 & k2 & l2 & -> & Hroot & _).
  pose proof Ht as [S1 S2 S3 S4]. cbn [node_id].
  assert (E : map (rename_node z new) (root t) =
              l1 ++ InnerNode b mb bname (k1 ++ InnerNode z m new cs :: k2) :: l2).
  { rewrite Hroot in S1 |- *. by apply rename_nested. }
  assert (Hids : all_ids (map (rename_node z new) (root t)) = all_ids (root t)).
  { unfold all_ids. rewrite map_map. f_equal. apply map_ext. intros. apply rename_ids. }
  constructor; cbn [set_root root totalCards next_id];
    [constructor; cbn [set_root root next_id]; rewrite ?Hids; try done| |done|done|].
  - rewrite E. rewrite Hroot in S4. apply Forall_app in S4 as [S4 (_ & S5)%Forall_cons].
    apply Forall_app. split; [done|]. by constructor.
  - intros [N1 N2]. assert (Hcn : exists C1 C2, custom_names (root t) = C1 ++ old :: C2 /\
        custom_names (map (rename_node z new) (root t)) = C1 ++ new :: C2).
    { rewrite E, Hroot, !custom_names_app, !custom_names_cons. cbn [children_of].
      rewrite !inner_names_zone. exists (custom_names l1 ++ inner_names k1), (inner_names k2 ++ custom_names l2).
      by rewrite <- !app_assoc. }
    destruct Hcn as (C1 & C2 & Ho & Hnew).
    assert (Hin : inner_names (map (rename_node z new) (root t)) = inner_names (root t)).
    { by rewrite E, Hroot, !inner_names_zone. }
    constructor; cbn [set_root root]; rewrite ?Hin, Hnew; rewrite Ho in N1, N2, Hc.
    + rewrite <- Permutation_middle in N1 |- *. rewrite (Permutation_app_comm (inner_names _)) in N1 |- *.
      cbn in *. apply NoDup_cons in N1 as [N1 N3]. apply NoDup_cons. split; [|done]. set_solver.
    + apply Forall_app in N2 as [N2 (_ & N3)%Forall_cons]. apply Forall_app. split; [done|]. by constructor.
  - apply Permutation_refl'. unfold all_cards. rewrite map_map. f_equal. apply map_ext.
    intros. apply rename_cards.
Qed.

Lemma put_idcards ks z cs put : zone_at ks z cs put ->
  exists A, forall cs', all_idcards (put cs') ≡ₚ A ++ all_idcards cs'.
Proof.
  intros [l1 m name l2 _ Hp|l1 b mb bname k1 m name k2 l2 _ Hp].
  - exists (all_idcards l1 ++ all_idcards l2). intros cs'. rewrite Hp, all_idcards_app.
    unfold all_idcards at 2. cbn. fold (all_idcards cs') (all_idcards l2). solve_Permutation.
  - exists (all_idcards l1 ++ all_idcards k1 ++ all_idcards k2 ++ all_idcards l2). intros cs'.
    rewrite Hp, all_idcards_app. unfold all_idcards at 2. cbn. fold (all_idcards l2).
    fold (all_idcards (k1 ++ InnerNode z m name cs' :: k2)). rewrite all_idcards_app.
    unfold all_idcards at 3. cbn. fold (all_idcards cs') (all_idcards k2). solve_Permutation.
Qed.

Lemma put_cards ks z cs put : zone_at ks z cs put ->
  exists A, forall cs', all_cards (put cs') ≡ₚ A ++ all_cards cs'.
Proof.
  intros (A & HA)%put_idcards. exists (map snd A). intros cs'.
  by rewrite !all_cards_idcards, (HA cs'), map_app.
Qed.

(** A zone appended to the children of a board zone, with names that stay
    different. *)
Lemma add_zone_keeps t b m bname cs l1 l2 z mz name next' :
  shape_ok t -> root t = l1 ++ InnerNode b m bname cs :: l2 ->
  z = next_id t -> next' = S (next_id t) ->
  reserved name = false -> name ∉ inner_names (root t) -> name ∉ custom_names (root t) ->
  keeps t {| root := map (on_children b (fun ks => ks ++ [InnerNode z mz name []])) (root t);
             totalCards := totalCards t; next_id := next' |}.
Proof.
  intros Ht Hr -> -> Hres Hi Hc.
  assert (Hz : zone_at (root t) b cs (fun cs' => l1 ++ InnerNode b m bname cs' :: l2))
    by by eapply at_top.
  rewrite (update_zone _ _ _ _ _ Hz) by apply Ht.
  constructor; cbn [root next_id totalCards]; [| |lia|done|].
  - apply (shape_put t b cs (fun cs' => l1 ++ InnerNode b m bname cs' :: l2)
      (cs ++ [InnerNode (next_id t) mz name []]) [next_id t]); [done|exact Hz| |by apply NoDup_singleton| |lia].
    + rewrite deck_all_ids_app. done.
    + constructor; [lia|done].
  - intros [N1 N2]. rewrite Hr, inner_names_zone, custom_names_app, custom_names_cons in N1.
    rewrite Hr, custom_names_app, custom_names_cons in N2.
    rewrite Hr, inner_names_zone in Hi. rewrite Hr, custom_names_app, custom_names_cons in Hc.
    cbn [children_of] in *.
    constructor; cbn [root]; rewrite ?inner_names_zone, custom_names_app, custom_names_cons; cbn [children_of];
      rewrite inner_names_app; change (inner_names [InnerNode _ _ name []]) with [name].
    + match type of N1 with NoDup ?l => match goal with |- NoDup ?k =>
        assert (Hp : k ≡ₚ name :: l) by solve_Permutation end end.
      rewrite Hp. apply NoDup_cons. split; [|done]. set_solver.
    + rewrite !Forall_app in N2 |- *. destruct N2 as (? & ? & ?). split_and!; try done.
      apply Forall_app. split; [done|]. by constructor.
  - destruct (put_cards _ _ _ _ Hz) as [A HA]. cbn beta in HA.
    rewrite HA, all_cards_app, Hr, HA. cbn. by rewrite app_nil_r.
Qed.

Lemma addCustomZone_keeps board name t : shape_ok t -> keeps t (addCustomZone board name t).2.
Proof.
  intros Ht. unfold addCustomZone. destruct (hasZoneName name t) eqn:Hn; [by apply keeps_refl|].
  destruct (hasZoneName_false _ _ Ht Hn) as (Hr & Hi & Hc).
  destruct (findOrCreateBoardZone board t) as [[b|] t1] eqn:Hb.
  2:{ apply findOrCreateBoardZone_ok in Hb as (H1 & H2 & _); [|done]. by apply same_cards_keeps. }
  pose proof Hb as (H1 & H2 & _ & H4)%findOrCreateBoardZone_ok; [|done].
  destruct (H4 b eq_refl) as (m & cs & l1 & l2 & Hroot). apply (keeps_trans _ t1); [by apply same_cards_keeps|].
  assert (Hnew : root t1 = root t \/ root t1 = root t ++ [InnerNode b Default board []] /\
                 reserved board = true).
  { unfold findOrCreateBoardZone in Hb. destruct (findBoardZone board t); [left; congruence|].
    case_bool_decide as Hd; [|done]. injection Hb as <- <-. right. split; [done|].
    unfold reserved. apply bool_decide_eq_true_2. set_solver. }
  apply (add_zone_keeps t1 b m board cs l1 l2); try done; [by apply H1| |].
  - destruct Hnew as [->|[-> Hres]]; [done|]. rewrite inner_names_app, not_elem_of_app. split; [done|].
    change (name ∉ [board]). intros ->%list_elem_of_singleton. congruence.
  - destruct Hnew as [->|[-> _]]; [done|]. rewrite custom_names_app, not_elem_of_app. split; [done|].
    by apply not_elem_of_nil.
Qed.

(** The second half of a move: a zone out of the tree [t1] appended to a board
    zone of what is left. *)
Lemma attach_keeps t1 t2 z m name cs k1 k2 l1 b mb bname l2 i mi board ci l1' r1' :
  shape_ok t1 -> root t1 = l1 ++ InnerNode b mb bname (k1 ++ InnerNode z m name cs :: k2) :: l2 ->
  t2 = set_root (root t2) t1 -> root t2 = l1 ++ InnerNode b mb bname (k1 ++ k2) :: l2 ->
  root t2 = l1' ++ InnerNode i mi board ci :: r1' ->
  keeps t1 (update i (fun ks => ks ++ [InnerNode z m name cs]) t2).
Proof.
  intros Ht1 Hr1 Et2 E2 Hi. set (zone := InnerNode z m name cs) in *.
  assert (Hf : fewer (root t2) (root t1)).
  { rewrite E2, Hr1. apply fewer_app; [apply fewer_refl|]. apply (fewer_app [_] [_]); [|apply fewer_refl].
    apply fewer_inner, fewer_sublist, sublist_app; [done|]. by constructor. }
  assert (Ht2 : shape_ok t2) by (rewrite Et2; by apply fewer_shape).
  assert (Hz : zone_at (root t2) i ci (fun cs' => l1' ++ InnerNode i mi board cs' :: r1'))
    by by eapply at_top.
  assert (Eu : root (update i (fun ks => ks ++ [zone]) t2) = l1' ++ InnerNode i mi board (ci ++ [zone]) :: r1').
  { unfold update, set_root. cbn [root]. by rewrite (update_zone _ _ _ _ _ Hz) by apply Ht2. }
  assert (Hids : all_ids (root (update i (fun ks => ks ++ [zone]) t2)) ≡ₚ all_ids (root t1)).
  { destruct (put_ids _ _ _ _ Hz) as [A HA]. cbn beta in HA. rewrite Eu, HA, deck_all_ids_app, app_assoc, <- HA, <- Hi, E2, Hr1.
    rewrite !deck_all_ids_app, !deck_all_ids_cons. cbn [ids]. fold (all_ids (k1 ++ k2)) (all_ids (k1 ++ zone :: k2)).
    rewrite !deck_all_ids_app, deck_all_ids_cons. change (all_ids []) with (@nil nat). rewrite app_nil_r. solve_Permutation. }
  assert (Hcards : all_cards (root (update i (fun ks => ks ++ [zone]) t2)) ≡ₚ all_cards (root t1)).
  { destruct (put_cards _ _ _ _ Hz) as [A HA]. cbn beta in HA. rewrite Eu, HA, all_cards_app, app_assoc, <- HA, <- Hi, E2, Hr1.
    change (l1 ++ ?n :: l2) with (l1 ++ [n] ++ l2). rewrite !all_cards_app.
    assert (Hone : forall ks, all_cards [InnerNode b mb bname ks] = all_cards ks)
      by (intros; unfold all_cards; cbn; by rewrite app_nil_r).
    rewrite !Hone. change (zone :: k2) with ([zone] ++ k2). rewrite !all_cards_app. solve_Permutation. }
  assert (Hin : inner_names (root (update i (fun ks => ks ++ [zone]) t2)) = inner_names (root t1)).
  { rewrite Eu, inner_names_zone, <- (inner_names_zone l1' i mi board ci r1'), <- Hi, E2, Hr1, !inner_names_zone. done. }
  assert (Hcn : custom_names (root (update i (fun ks => ks ++ [zone]) t2)) ≡ₚ custom_names (root t1)).
  { assert (E : custom_names (root (update i (fun ks => ks ++ [zone]) t2)) ≡ₚ name :: custom_names (root t2)).
    { rewrite Eu, Hi, !custom_names_app, !custom_names_cons. cbn [children_of]. rewrite inner_names_app.
      change (inner_names [zone]) with [name]. solve_Permutation. }
    rewrite E, E2, Hr1, !custom_names_app, !custom_names_cons. cbn [children_of].
    unfold zone. rewrite inner_names_zone, inner_names_app. solve_Permutation. }
  assert (En : next_id (update i (fun ks => ks ++ [zone]) t2) = next_id t1 /\
               totalCards (update i (fun ks => ks ++ [zone]) t2) = totalCards t1) by (by rewrite Et2).
  destruct En as [En1 En2]. destruct Ht1 as [S1 S2 S3 S4].
  constructor; rewrite ?En1; try done.
  - constructor; rewrite ?Hids, ?En1; try done. rewrite Eu. eapply (put_all_inner _ _ _ _ Hz). by apply Hf.
  - intros [N1 N2]. constructor; [by rewrite Hin, Hcn|by rewrite Hcn].
Qed.

(** A zone taken out of one board zone and appended to another. *)
Lemma moveCustomZone_keeps name board t : shape_ok t -> keeps t (moveCustomZone name board t).2.
Proof.
  intros Ht. unfold moveCustomZone. destruct (findCustomZoneByName name t) as [zone|] eqn:Hz;
    [|by apply keeps_refl].
  destruct (parent_of name t) as [current|] eqn:Hp; [|by apply keeps_refl].
  case_bool_decide as Hcur; [by apply keeps_refl|].
  destruct (findOrCreateBoardZone board t) as [[i|] t1] eqn:Hb.
  2:{ apply findOrCreateBoardZone_ok in Hb as (H1 & H2 & _); [|done]. by apply same_cards_keeps. }
  pose proof Hb as (H1 & H2 & _ & H4)%findOrCreateBoardZone_ok; [|done].
  apply (keeps_trans _ t1); [by apply same_cards_keeps|]. cbn [snd].
  destruct (custom_zone_split _ _ _ _ Ht Hz Hp)
    as (z & m & cs & l1 & b & mb & bname & k1 & k2 & l2 & -> & -> & Hr). cbn [node_id].
  assert (Hr1 : exists l2', root t1 = l1 ++ InnerNode b mb bname (k1 ++ InnerNode z m name cs :: k2) :: l2').
  { unfold findOrCreateBoardZone in Hb. destruct (findBoardZone board t); [exists l2; congruence|].
    case_bool_decide; [|done]. injection Hb as <- <-. cbn. rewrite Hr, <- app_assoc. cbn. eauto. }
  destruct Hr1 as [l2' Hr1]. destruct (H4 i eq_refl) as (mi & ci & li & ri & Hi).
  assert (Ht1 : shape_ok t1) by apply H1. pose proof (so_ids _ Ht1) as Hnd.
  pose proof (nodup_children _ _ _ _ _ _ _ Hr1 Hnd) as Hcn.
  set (t2 := update b (removeOne z) t1).
  assert (E2 : root t2 = l1 ++ InnerNode b mb bname (k1 ++ k2) :: l2').
  { unfold t2, update, set_root. cbn [root]. rewrite Hr1 in Hnd |- *. rewrite update_top by done.
    pose proof (removeOne_spec k1 (InnerNode z m name cs) k2 Hcn) as Hrem. cbn [node_id] in Hrem.
    by rewrite Hrem. }
  assert (Hi2 : exists ci' l1' r1', root t2 = l1' ++ InnerNode i mi board ci' :: r1').
  { unfold t2, update, set_root. cbn [root]. rewrite Hi, map_app. cbn [map on_children]. eauto. }
  destruct Hi2 as (ci' & l1' & r1' & Hi2).
  by apply (attach_keeps t1 t2 z m name cs k1 k2 l1 b mb bname l2' i mi board ci' l1' r1').
Qed.

(** ** Adding cards *)

Lemma place_split position n ks : exists k1 k2, ks = k1 ++ k2 /\ place position n ks = k1 ++ n :: k2.
Proof.
  unfold place. destruct (position =? -1).
  - exists ks, []. by rewrite app_nil_r.
  - exists (take (Z.to_nat position) ks), (drop (Z.to_nat position) ks). by rewrite take_drop.
Qed.

(** The card that is added: its amount is cut to the budget that is left. *)
Definition added_card (name : text) (amount : Z) (setName collectorNumber providerId : text)
    (legal : bool) (t : DecklistNodeTree) : Card :=
  {| card_name := name; number := Z.min amount (MAX_DECK_SIZE - totalCards t);
     cardSetShortName := setName; cardSetNumber := collectorNumber; cardProviderId := providerId;
     formatLegal := legal |}.

(** The effect of an addition: one more card, the budget used by its amount. *)
Record adds (z : nat) (c : Card) (t t' : DecklistNodeTree) : Prop := {
  ad_shape : shape_ok t';
  ad_names : names_ok t -> names_ok t';
  ad_total : totalCards t' = totalCards t + number c;
  ad_cards : all_idcards (root t') ≡ₚ (z, c) :: all_idcards (root t)
}.

Lemma addCard_adds name amount zoneName position set num provider legal t : shape_ok t ->
  let res := addCard name amount zoneName position set num provider legal t in
  adds res.1 (added_card name amount set num provider legal t) t res.2.
Proof.
  intros Ht. unfold addCard. set (c := added_card _ _ _ _ _ _ _). cbn [set_total totalCards].
  set (t0 := set_total _ t). assert (Ht0 : shape_ok t0) by (by destruct Ht).
  pose proof (getZoneObjFromName_ok zoneName t0 Ht0) as (H1 & H2 & cs & put & Hz).
  destruct (getZoneObjFromName zoneName t0) as [z t1]. cbn [fst snd] in *.
  change ({| card_name := name; number := _ |}) with c. set (n := CardNode (next_id t1) Default c).
  destruct (place_split position n cs) as (k1 & k2 & Ecs & Ep). destruct H1 as [S1 S2 S3 S4 S5].
  assert (Eu : root (fresh (update z (place position n) t1)) = put (k1 ++ n :: k2)).
  { unfold fresh, update, set_root. cbn [root]. rewrite (update_zone _ _ _ _ _ Hz) by apply S1. by rewrite Ep. }
  assert (En : inner_names (k1 ++ n :: k2) = inner_names cs) by (by rewrite Ecs, !inner_names_app).
  constructor.
  - pose proof (shape_put t1 z cs put (k1 ++ n :: k2) [next_id t1] (S (next_id t1))
      (totalCards t1) S1 Hz) as Hs.
    unfold fresh, update, set_root in *. cbn [root totalCards next_id] in *. rewrite Eu. apply Hs.
    + rewrite Ecs, !deck_all_ids_app, deck_all_ids_cons. cbn [ids n]. solve_Permutation.
    + apply NoDup_singleton.
    + constructor; [lia|done].
    + lia.
  - intros Hn. assert (Hn1 : names_ok t1) by (apply H2; by destruct Hn). destruct Hn1 as [N1 N2].
    constructor; rewrite Eu, ?(put_inner_names _ _ _ _ Hz), (put_custom_names _ _ _ _ Hz _ En); done.
  - unfold fresh, update, set_root. cbn [totalCards]. rewrite S3. done.
  - destruct (put_idcards _ _ _ _ Hz) as [A HA]. rewrite Eu, HA, all_idcards_app.
    change (all_idcards (n :: k2)) with ((next_id t1, c) :: all_idcards k2).
    assert (E1 : all_idcards (root t1) = all_idcards (root t)) by apply S5.
    rewrite <- E1, <- (zone_at_put _ _ _ _ Hz), HA, Ecs, all_idcards_app. solve_Permutation.
Qed.

(** A setter changes the card of its node and no other, and keeps the shape of the tree. *)
Lemma on_card_spec z f n :
  idcards (on_card z f n) = map (fun e => (e.1, if Nat.eqb e.1 z then f e.2 else e.2)) (idcards n) /\
  ids (on_card z f n) = ids n /\ is_inner (on_card z f n) = is_inner n /\
  (is_inner n = true -> getName (on_card z f n) = getName n).
Proof.
  induction n as [i m c|i m name ks IH] using node_tree_ind; [done|]. cbn [on_card idcards ids].
  split; [|split; [|done]].
  - induction IH as [|k ks (Hk & _) _ IH']; [done|]. cbn [map concat]. by rewrite Hk, IH', map_app.
  - f_equal. induction IH as [|k ks (_ & Hk & _) _ IH']; [done|]. cbn [map concat]. by rewrite Hk, IH'.
Qed.

Lemma change_card_spec z f t :
  all_idcards (root (change_card z f t)) =
    map (fun e => (e.1, if Nat.eqb e.1 z then f e.2 else e.2)) (all_idcards (root t)) /\
  all_ids (root (change_card z f t)) = all_ids (root t) /\
  inner_names (root (change_card z f t)) = inner_names (root t) /\
  totalCards (change_card z f t) = totalCards t.
Proof.
  unfold change_card, set_root. cbn [root totalCards]. split_and!; [..|done];
    (induction (root t) as [|k ks IH]; [done|]; destruct (on_card_spec z f k) as (H1 & H2 & H3 & H4)).
  - unfold all_idcards in *. cbn [map concat]. by rewrite H1, IH, map_app.
  - unfold all_ids in *. cbn [map concat]. by rewrite H2, IH.
  - unfold inner_names in *. cbn [map List.filter]. rewrite H3. destruct (is_inner k); [|done].
    cbn [map]. by rewrite H4, IH.
Qed.

(** ** The card budget *)

Record budget_ok (t : DecklistNodeTree) : Prop := {
  bo_numbers : Forall (fun c => 0 <= number c) (all_cards (root t));
  bo_count : count_all (root t) <= totalCards t;
  bo_max : totalCards t <= MAX_DECK_SIZE
}.

Lemma numbers_nonneg cards : Forall (fun c => 0 <= number c) cards -> 0 <= zsum (map number cards).
Proof. induction 1; cbn; lia. Qed.

Lemma sublist_count l k : Forall (fun c => 0 <= number c) k -> l `sublist_of` k ->
  Forall (fun c => 0 <= number c) l /\ zsum (map number l) <= zsum (map number k).
Proof.
  intros Hk Hs. induction Hs as [|x l k Hs IH|x l k Hs IH]; [done| |];
    apply Forall_cons in Hk as [Hx Hk]; destruct (IH Hk) as [H1 H2]; cbn.
  - split; [by constructor|lia].
  - split; [done|lia].
Qed.

Lemma fewer_budget t ks total' next' : budget_ok t -> fewer ks (root t) ->
  zsum (map number (all_cards ks)) <= total' <= MAX_DECK_SIZE ->
  budget_ok {| root := ks; totalCards := total'; next_id := next' |}.
Proof.
  intros [B1 B2 B3] Hf Ht. destruct (sublist_count _ _ B1 (fw_cards _ _ Hf)) as [H1 H2].
  constructor; cbn [root totalCards]; [done| |lia]. rewrite count_all_cards. lia.
Qed.

Lemma fewer_budget_same t ks next' : budget_ok t -> fewer ks (root t) ->
  budget_ok {| root := ks; totalCards := totalCards t; next_id := next' |}.
Proof.
  intros Hb Hf. apply (fewer_budget t); [done|done|]. destruct Hb as [B1 B2 B3].
  destruct (sublist_count _ _ B1 (fw_cards _ _ Hf)) as [_ H2]. rewrite count_all_cards in B2. lia.
Qed.

Lemma perm_count l k : l ≡ₚ k -> zsum (map number l) = zsum (map number k).
Proof. intros Hp. apply zsum_perm. by rewrite Hp. Qed.

Lemma keeps_budget t t' : keeps t t' -> budget_ok t -> budget_ok t'.
Proof.
  intros [K1 K2 K3 K4 K5] [B1 B2 B3]. constructor; rewrite ?K4; [by rewrite K5| |done].
  rewrite count_all_cards in *. by rewrite (perm_count _ _ K5).
Qed.

Lemma adds_all_cards z c t t' : adds z c t t' -> all_cards (root t') ≡ₚ c :: all_cards (root t).
Proof. intros H. by rewrite !all_cards_idcards, (ad_cards _ _ _ _ H). Qed.

Lemma adds_budget z c t t' : adds z c t t' -> 0 <= number c -> totalCards t + number c <= MAX_DECK_SIZE ->
  budget_ok t -> budget_ok t'.
Proof.
  intros Ha Hc Hm [B1 B2 B3]. pose proof (adds_all_cards _ _ _ _ Ha) as A4. destruct Ha as [A1 A2 A3 _].
  constructor; rewrite ?A3; [| |done].
  - rewrite A4. by constructor.
  - rewrite count_all_cards in *. rewrite (perm_count _ _ A4). cbn. lia.
Qed.

(** ** Reading *)

Section Reading.
Context (toInt : text -> Z).

(** What a run of [readElement] appends: new nodes [new] with new identities. *)
Record read_spec (total : Z) (next : nat) (ks ks' : list node) (total' : Z) (next' : nat)
    (new : list node) : Prop := {
  rd_nodes : ks' = ks ++ new;
  rd_ids : NoDup (all_ids new);
  rd_range : Forall (fun i => next <= i < next')%nat (all_ids new);
  rd_next : (next <= next')%nat;
  rd_total : total' = total + count_all new
}.

Lemma read_done total next ks : read_spec total next ks ks total next [].
Proof.
  constructor; [by rewrite app_nil_r|apply NoDup_nil_2|by apply Forall_nil|done|].
  unfold count_all. cbn. lia.
Qed.

(** One node, then the rest of the loop. *)
Lemma read_cons total next ks ks' total' next' n next1 new :
  read_spec (total + recursiveCount true n) next1 (ks ++ [n]) ks' total' next' new ->
  NoDup (ids n) -> Forall (fun i => next <= i < next1)%nat (ids n) -> (next <= next1)%nat ->
  read_spec total next ks ks' total' next' (n :: new).
Proof.
  intros [R1 R2 R3 R4 R5] Hn Hr Hle. constructor; [by rewrite R1, <- app_assoc| | |lia|].
  - rewrite deck_all_ids_cons. apply NoDup_app. split_and!; [done| |done]. intros i H1 H2.
    rewrite Forall_forall in Hr, R3. specialize (Hr i H1). specialize (R3 i H2). lia.
  - rewrite deck_all_ids_cons. apply Forall_app. split.
    + eapply Forall_impl; [exact Hr|]. cbn. lia.
    + eapply Forall_impl; [exact R3|]. cbn. lia.
  - rewrite R5. unfold count_all. cbn. lia.
Qed.

Lemma readElement_spec f : forall limit total next ks xml ks' total' next' xml',
  readElement toInt f limit total next ks xml = (ks', total', next', xml') ->
  exists new, read_spec total next ks ks' total' next' new /\ (length xml' <= length xml)%nat.
Proof.
  induction f as [|f IH]; intros limit total next ks xml ks' total' next' xml'; cbn [readElement].
  { intros [= <- <- <- <-]. exists []. split; [apply read_done|done]. }
  destruct xml as [|[tag attrs|tag|s] xml].
  - intros [= <- <- <- <-]. exists []. split; [apply read_done|done].
  - cbv zeta. case_bool_decide; [|case_bool_decide].
    + destruct (readElement _ _ _ _ _ _ _) as [[[ks1 n1] next1] xml1] eqn:H1. intros H2.
      apply IH in H1 as (new1 & [R1 R2 R3 R4 R5] & L1). apply IH in H2 as (new2 & G & L2).
      set (z := InnerNode next Default (attribute (str "name") attrs) ks1) in G.
      exists (z :: new2). cbn [app] in R1. subst ks1. split; [|cbn; lia].
      apply (read_cons _ _ _ _ _ _ z next1).
      * rewrite R5 in G. exact G.
      * cbn [z ids]. fold (all_ids new1). apply NoDup_cons. split; [|done]. intros Hi.
        rewrite Forall_forall in R3. specialize (R3 _ Hi). lia.
      * cbn [z ids]. fold (all_ids new1). constructor; [lia|]. eapply Forall_impl; [exact R3|]. cbn. lia.
      * lia.
    + intros H2. apply IH in H2 as (new2 & G & L2). set (n := CardNode next Default _) in G.
      exists (n :: new2). split; [|cbn; lia]. apply (read_cons _ _ _ _ _ _ n (S next)); [exact G| | |lia].
      * apply NoDup_singleton.
      * constructor; [lia|done].
    + intros (new & G & L)%IH. exists new. split; [done|cbn; lia].
  - case_bool_decide.
    + intros [= <- <- <- <-]. exists []. split; [apply read_done|cbn; lia].
    + intros (new & G & L)%IH. exists new. split; [done|cbn; lia].
  - intros (new & G & L)%IH. exists new. split; [done|cbn; lia].
Qed.

(** The test of a token of the file: a card element has no negative number. *)
Definition counts_cards (tok : token) : bool :=
  match tok with
  | StartElement name attributes =>
      negb (bool_decide (name = str "card")) || (0 <=? toInt (attribute (str "number") attributes))
  | _ => true
  end.

(** Where no number read is negative, the cards read fit in the limit. *)
Lemma readElement_budget f :
  forall limit total next ks xml, forallb counts_cards xml = true -> total <= limit ->
  Forall (fun c => 0 <= number c) (all_cards ks) ->
  let '(ks', total', _, xml') := readElement toInt f limit total next ks xml in
  Forall (fun c => 0 <= number c) (all_cards ks') /\ total' <= limit /\ forallb counts_cards xml' = true.
Proof.
  induction f as [|f IH]; intros limit total next ks xml Hint Hl Hk; cbn [readElement]; [done|].
  destruct xml as [|tok xml]; [done|]. cbn [forallb] in Hint. apply andb_true_iff in Hint as [Htok Hint].
  destruct tok as [tag attrs|tag|s]; [| |by apply IH].
  - cbv zeta. case_bool_decide; [|case_bool_decide; [|by apply IH]].
    + specialize (IH (limit - total) 0 (S next) [] xml Hint ltac:(lia) (Forall_nil_2 _)) as H1.
      destruct (readElement _ _ _ _ _ _ _) as [[[ks1 n1] next1] xml1]. destruct H1 as (H1 & H2 & H3).
      apply IH; [done|lia|]. rewrite all_cards_app. apply Forall_app. split; [done|].
      unfold all_cards at 1. cbn. by rewrite app_nil_r.
    + apply IH; [done|unfold readCardElement; cbn [number]; lia|]. rewrite all_cards_app. apply Forall_app. split; [done|].
      cbn [counts_cards] in Htok. rewrite bool_decide_eq_true_2 in Htok by done. cbn [negb orb] in Htok.
      apply Z.leb_le in Htok. constructor; [unfold readCardElement; cbn [number]; lia|done].
  - case_bool_decide; [done|by apply IH].
Qed.

Lemma readZoneElement_shape attrs xml t : shape_ok t ->
  shape_ok (readZoneElement toInt attrs xml t).1.
Proof.
  intros Ht. unfold readZoneElement.
  pose proof (getZoneObjFromName_ok (attribute (str "name") attrs) t Ht) as (H1 & _ & cs & put & Hz).
  destruct (getZoneObjFromName _ t) as [z t1]. cbn [fst snd] in *.
  destruct (readElement _ _ _ _ _ _ _) as [[[ks n] next] xml1] eqn:Hr.
  apply readElement_spec in Hr as (new & [R1 R2 R3 R4 R5] & _). cbn [app] in R1. subst ks. cbn [fst].
  unfold update, set_root. cbn [root]. rewrite (update_zone _ _ _ _ _ Hz) by apply H1.
  eapply (shape_put t1 z cs put (cs ++ new) (all_ids new)); try done; [apply H1|by rewrite deck_all_ids_app].
Qed.

Lemma readZoneElement_budget attrs xml t : forallb counts_cards xml = true -> shape_ok t -> budget_ok t ->
  budget_ok (readZoneElement toInt attrs xml t).1.
Proof.
  intros Hint Ht Hb. unfold readZoneElement.
  pose proof (getZoneObjFromName_ok (attribute (str "name") attrs) t Ht) as (H1 & _ & cs & put & Hz).
  destruct (getZoneObjFromName _ t) as [z t1]. cbn [fst snd] in *.
  destruct H1 as [S1 S2 S3 S4 S5]. destruct Hb as [B1 B2 B3].
  pose proof (readElement_budget (S (length xml)) (MAX_DECK_SIZE - totalCards t1) 0 (next_id t1) []
    xml Hint ltac:(lia) (Forall_nil_2 _)) as Hbud.
  destruct (readElement _ _ _ _ _ _ _) as [[[ks n] next] xml1] eqn:Hr. destruct Hbud as (H1 & H2 & _).
  apply readElement_spec in Hr as (new & [R1 R2 R3 R4 R5] & _). cbn [app] in R1. subst ks. cbn [fst].
  unfold update, set_root. constructor; cbn [root totalCards]; rewrite ?(update_zone _ _ _ _ _ Hz) by apply S1.
  - destruct (put_cards _ _ _ _ Hz) as [A HA]. rewrite HA, all_cards_app, app_assoc, <- HA,
      (zone_at_put _ _ _ _ Hz), all_cards_idcards, S5, <- all_cards_idcards. by apply Forall_app.
  - rewrite (put_count _ _ _ _ Hz), count_all_app. lia.
  - lia.
Qed.
End Reading.

(** A change of the amount of one card. *)
Lemma set_card_ids z n k : ids (set_card z n k) = ids k.
Proof.
  induction k as [i m c|i m old ks IH] using node_tree_ind; cbn; [by destruct (Nat.eqb _ _)|]. f_equal.
  induction IH as [|k ks Hk _ IH]; [done|]. cbn. by rewrite Hk, IH.
Qed.

Definition set_idcard (z : nat) (n : Z) (ic : nat * Card) : nat * Card :=
  if Nat.eqb ic.1 z then (ic.1, with_number n ic.2) else ic.

Lemma set_card_idcards z n k : idcards (set_card z n k) = map (set_idcard z n) (idcards k).
Proof.
  induction k as [i m c|i m old ks IH] using node_tree_ind; cbn.
  - unfold set_idcard. cbn. by destruct (Nat.eqb _ _).
  - induction IH as [|k ks Hk _ IH]; [done|]. cbn. by rewrite map_app, Hk, IH.
Qed.

Lemma idcards_ids k : map fst (idcards k) `sublist_of` ids k.
Proof.
  induction k as [i m c|i m old ks IH] using node_tree_ind; cbn; [done|].
  apply sublist_cons. induction IH as [|k ks Hk _ IH]; [done|]. cbn. rewrite map_app.
  by apply sublist_app.
Qed.

Lemma all_idcards_ids ks : map fst (all_idcards ks) `sublist_of` all_ids ks.
Proof.
  induction ks as [|k ks IH]; [done|]. unfold all_idcards, all_ids in *. cbn. rewrite map_app.
  apply sublist_app; [apply idcards_ids|done].
Qed.

Lemma set_idcard_absent z n l : z ∉ map fst l -> map (set_idcard z n) l = l.
Proof.
  induction l as [|[i c] l IH]; [done|]. cbn. rewrite not_elem_of_cons. intros [H1 H2].
  unfold set_idcard at 1. cbn. destruct (Nat.eqb_spec i z); [congruence|]. f_equal. auto.
Qed.

Lemma setNumber_idcards z n c rest t : shape_ok t ->
  all_idcards (root t) ≡ₚ (z, c) :: rest ->
  shape_ok (setNumber z n t) /\ all_idcards (root (setNumber z n t)) ≡ₚ (z, with_number n c) :: rest.
Proof.
  intros [H1 H2 H3 H4] Hr. unfold setNumber, set_root. split.
  - assert (Hids : all_ids (map (set_card z n) (root t)) = all_ids (root t)).
    { unfold all_ids. rewrite map_map. f_equal. apply map_ext. intros. apply set_card_ids. }
    constructor; cbn [root next_id]; rewrite ?Hids; try done.
    rewrite Forall_map. eapply Forall_impl; [exact H4|]. by intros [].
  - cbn [root]. assert (E : all_idcards (map (set_card z n) (root t)) = map (set_idcard z n) (all_idcards (root t))).
    { unfold all_idcards. rewrite concat_map, !map_map. f_equal. apply map_ext. intros. apply set_card_idcards. }
    pose proof (sublist_NoDup _ _ H1 (all_idcards_ids (root t))) as Hnd.
    rewrite Hr in Hnd. cbn in Hnd. apply NoDup_cons in Hnd as [Hz _].
    rewrite E, Hr. cbn [map]. unfold set_idcard at 1. cbn. rewrite Nat.eqb_refl.
    by rewrite set_idcard_absent.
Qed.

(** ** Clearing *)

(** Deleting a child of the root removes exactly that child. *)
Lemma deleteNode_top t l1 n l2 : shape_ok t -> root t = l1 ++ n :: l2 ->
  deleteNode (node_id n) t = (true, set_root (l1 ++ l2) t).
Proof.
  intros [H1 H2 H3 H4] Hr. unfold deleteNode. rewrite Hr in H1.
  assert (Hz : node_id n <> 0%nat).
  { intros E. rewrite Forall_forall in H2. assert (Hin : node_id n ∈ all_ids (root t)).
    { apply deck_in_all_ids. exists n. split; [rewrite Hr; set_solver|apply deck_node_id_in]. }
    specialize (H2 _ Hin). lia. }
  rewrite (proj2 (Nat.eqb_neq _ _) Hz), Hr. cbn [delete_below]. rewrite find_pointer by done.
  cbn [children_of]. by rewrite delete_middle.
Qed.

Lemma all_cards_middle l1 n l2 : all_cards (l1 ++ n :: l2) ≡ₚ collectCardsRecursive n ++ all_cards (l1 ++ l2).
Proof. rewrite !all_cards_app. change (all_cards (n :: l2)) with (collectCardsRecursive n ++ all_cards l2). solve_Permutation. Qed.

Lemma clearCommanders_ok t : shape_ok t ->
  let t' := clearCommanders t in
  fewer (root t') (root t) /\ next_id t' = next_id t /\
  (budget_ok t -> zsum (map number (all_cards (root t'))) <= totalCards t' <= MAX_DECK_SIZE).
Proof.
  intros Ht. unfold clearCommanders. destruct (findBoardZone DECK_ZONE_COMMANDER t) as [zone|] eqn:Hz.
  2:{ split_and!; [apply fewer_refl|done|]. intros [B1 B2 B3]. by rewrite <- count_all_cards. }
  apply findBoardZone_Some in Hz as (i & m & cs & l1 & l2 & -> & Hr & _).
  set (zone := InnerNode i m DECK_ZONE_COMMANDER cs) in *.
  set (t0 := set_total _ t). assert (Ht0 : shape_ok t0) by (by destruct Ht).
  rewrite (deleteNode_top t0 l1 zone l2 Ht0 Hr). cbn [snd set_root root next_id totalCards t0 set_total].
  split_and!; [|done|].
  - rewrite Hr. apply fewer_sublist, sublist_app; [done|]. by constructor.
  - intros [B1 B2 B3]. rewrite count_all_cards, Hr, (perm_count _ _ (all_cards_middle l1 zone l2)) in B2.
    rewrite Hr, all_cards_middle in B1. apply Forall_app in B1 as [B1 B4].
    rewrite map_app, zsum_app, <- count_cards in B2.
    pose proof (numbers_nonneg _ B1) as G1. pose proof (numbers_nonneg _ B4) as G2.
    rewrite <- count_cards in G1. lia.
Qed.

Lemma clear_budget b t : budget_ok t -> budget_ok (clear b t).
Proof.
  intros Hb. pose proof (clear_fewer b t) as Hf. destruct Hb as [B1 B2 B3].
  destruct (sublist_count _ _ B1 (fw_cards _ _ Hf)) as [H1 H2]. rewrite count_all_cards in B2.
  revert H1 H2. unfold clear. destruct (if b then _ else _) as [n|]; cbn [set_total set_root root].
  - intros H1 H2. assert (E : all_cards [n] = collectCardsRecursive n)
      by (unfold all_cards; cbn; by rewrite app_nil_r). rewrite E in H1, H2.
    constructor; cbn [set_total set_root root totalCards]; [by rewrite E| |].
    + rewrite count_all_cards, E, count_cards. done.
    + rewrite count_cards. lia.
  - intros _ _. constructor; cbn; [constructor|done|unfold MAX_DECK_SIZE; lia].
Qed.

(** ** Commanders read from a file *)

(** The node remembered as the last one holds the data remembered with it. *)
Definition previous_ok (previous : option (nat * Card)) (t : DecklistNodeTree) : Prop :=
  forall z c, previous = Some (z, c) -> exists rest, all_idcards (root t) ≡ₚ (z, c) :: rest.

Lemma declare_commander_ok name set num provider previous t :
  shape_ok t -> previous_ok previous t -> totalCards t < MAX_DECK_SIZE ->
  let res := declare_commander name set num provider previous t in
  shape_ok res.2 /\ previous_ok (Some res.1) res.2 /\ (budget_ok t -> budget_ok res.2).
Proof.
  intros Ht Hp Hlt. unfold declare_commander.
  set (c1 := {| card_name := name; number := 1; cardSetShortName := set; cardSetNumber := num;
                cardProviderId := provider; formatLegal := true |}).
  assert (Hadd : forall res, res = (let '(z, t) := addCard name 1 DECK_ZONE_COMMANDER (-1) set num provider true t
                 in ((z, c1), t)) ->
    shape_ok res.2 /\ previous_ok (Some res.1) res.2 /\ (budget_ok t -> budget_ok res.2)).
  { intros res ->. pose proof (addCard_adds name 1 DECK_ZONE_COMMANDER (-1) set num provider true t Ht) as Ha.
    destruct (addCard _ _ _ _ _ _ _ _ _) as [z t']. cbn [fst snd] in *.
    assert (Ec : added_card name 1 set num provider true t = c1).
    { unfold added_card, c1. f_equal. lia. }
    rewrite Ec in Ha. split_and!; [apply Ha| |].
    - intros ? ? [= <- <-]. eexists. apply Ha.
    - intros Hb. apply (adds_budget _ _ _ _ Ha); [cbn; lia|cbn; lia|done]. }
  destruct previous as [[z c]|]; [|by apply Hadd].
  destruct (same_printing c name set num provider); [|by apply Hadd]. clear Hadd.
  destruct (Hp z c eq_refl) as [rest Hrest]. cbn [fst snd].
  destruct (setNumber_idcards z (number c + 1) c rest t Ht Hrest) as [H1 H2]. split_and!.
  - by destruct H1.
  - intros ? ? [= <- <-]. by exists rest.
  - assert (E1 : all_cards (root t) ≡ₚ c :: map snd rest) by (by rewrite all_cards_idcards, Hrest).
    assert (E2 : all_cards (root (setNumber z (number c + 1) t)) ≡ₚ with_number (number c + 1) c :: map snd rest)
      by (by rewrite all_cards_idcards, H2).
    intros [B1 B2 B3]. rewrite E1 in B1. apply Forall_cons in B1 as [B1 B4].
    rewrite count_all_cards, (perm_count _ _ E1) in B2. cbn [map zsum] in B2.
    constructor; cbn [set_total root totalCards].
    + rewrite E2. constructor; [cbn; lia|done].
    + rewrite count_all_cards, (perm_count _ _ E2). cbn [map zsum with_number number]. lia.
    + lia.
Qed.

Lemma read_commanders_ok f : forall ok previous xml t, shape_ok t -> previous_ok previous t ->
  let res := read_commanders f ok previous xml t in
  shape_ok res.1.2 /\ (budget_ok t -> budget_ok res.1.2).
Proof.
  induction f as [|f IH]; intros ok previous xml t Ht Hp; cbn [read_commanders]; [done|].
  destruct xml as [|[tag attrs|tag|s] xml]; [done| |done|by apply IH].
  destruct (negb _); [by apply IH|]. cbv zeta.
  destruct (readElementText [] xml) as [[name ok'] xml']. destruct (Z.leb_spec MAX_DECK_SIZE (totalCards t)); [done|].
  pose proof (declare_commander_ok name (attribute (str "setShortName") attrs)
    (attribute (str "collectorNumber") attrs) (attribute (str "providerId") attrs) previous t Ht Hp ltac:(lia))
    as (H1 & H2 & H3).
  destruct (declare_commander _ _ _ _ _ _) as [[z c] t']. cbn [fst snd] in *.
  destruct (IH (ok && ok') (Some (z, c)) xml' t' H1 H2) as [G1 G2]. auto.
Qed.

(** ** The operations

    One call on the tree's interface, or of a setter of one of its cards. *)
Inductive card_setter : Type :=
| SetCardName (s : text)
| SetCardProviderId (s : text)
| SetCardSetShortName (s : text)
| SetCardCollectorNumber (s : text)
| SetFormatLegality (b : bool).

Definition set_field (s : card_setter) : nat -> DecklistNodeTree -> DecklistNodeTree :=
  match s with
  | SetCardName s => setCardName s
  | SetCardProviderId s => setCardProviderId s
  | SetCardSetShortName s => setCardSetShortName s
  | SetCardCollectorNumber s => setCardCollectorNumber s
  | SetFormatLegality b => setFormatLegality b
  end.

Inductive operation : Type :=
| OpAddCard (name : text) (amount : Z) (zoneName : text) (position : Z) (set num provider : text) (legal : bool)
| OpDeleteNode (target : nat)
| OpClear (preserveCommanders : bool)
| OpClearCommanders
| OpAddCustomZone (board name : text)
| OpRenameCustomZone (old new : text)
| OpMoveCustomZone (name board : text)
| OpRemoveCustomZone (name : text)
| OpSetNumber (z : nat) (n : Z)
| OpSetField (s : card_setter) (z : nat).

Definition edit (o : operation) (t : DecklistNodeTree) : DecklistNodeTree :=
  match o with
  | OpAddCard name amount zoneName position set num provider legal =>
      (addCard name amount zoneName position set num provider legal t).2
  | OpDeleteNode target => (deleteNode target t).2
  | OpClear b => clear b t
  | OpClearCommanders => clearCommanders t
  | OpAddCustomZone board name => (addCustomZone board name t).2
  | OpRenameCustomZone old new => (renameCustomZone old new t).2
  | OpMoveCustomZone name board => (moveCustomZone name board t).2
  | OpRemoveCustomZone name => (removeCustomZone name t).2
  | OpSetNumber z n => setNumber z n t
  | OpSetField s z => set_field s z t
  end.

(** Calls the card budget takes account of: what is added is not negative, and a
    number is only set lower. *)
Definition careful (o : operation) (t : DecklistNodeTree) : bool :=
  match o with
  | OpAddCard _ amount _ _ _ _ _ _ => 0 <=? amount
  | OpSetNumber z n =>
      (0 <=? n) && forallb (fun e => negb (Nat.eqb e.1 z) || (n <=? number e.2)) (all_idcards (root t))
  | _ => true
  end.

(** One element of a deck file, read behind its start tag. *)
Inductive element : Type :=
| ZoneElement (attributes : list (text * text)) (xml : list token)
| CommandersElement (xml : list token).

Definition load (toInt : text -> Z) (e : element) (t : DecklistNodeTree) : DecklistNodeTree :=
  match e with
  | ZoneElement attributes xml => (readZoneElement toInt attributes xml t).1
  | CommandersElement xml => (readCommandersElement xml t).1.2
  end.

(** No card of the file has a negative number. *)
Definition careful_load (toInt : text -> Z) (e : element) : bool :=
  match e with
  | ZoneElement _ xml => forallb (counts_cards toInt) xml
  | CommandersElement _ => true
  end.

(** The trees a program can have: new ones, the results of operations and of reading
    elements of files, copies, and trees others were assigned to. The first flag
    says that a file was read, the second that all calls were careful; copying and
    assigning are not, since they do not count the cards. *)
Inductive built (toInt : text -> Z) : bool -> bool -> DecklistNodeTree -> Prop :=
| built_new : built toInt false true empty_tree
| built_edit files c o t : built toInt files c t -> built toInt files (c && careful o t) (edit o t)
| built_load files c e t :
    built toInt files c t -> built toInt true (c && careful_load toInt e) (load toInt e t)
| built_copy files c legal t : built toInt files c t -> built toInt files false (copy_tree legal t)
| built_assign files c files' c' legal other t :
    built toInt files c t -> built toInt files' c' other ->
    built toInt (files || files') false (assign legal other t).

(** Several operations, one after the other. *)
Fixpoint edits (ops : list operation) (t : DecklistNodeTree) : DecklistNodeTree :=
  match ops with
  | [] => t
  | o :: ops => edits ops (edit o t)
  end.

Fixpoint careful_edits (ops : list operation) (t : DecklistNodeTree) : bool :=
  match ops with
  | [] => true
  | o :: ops => careful o t && careful_edits ops (edit o t)
  end.

Lemma built_edits toInt files ops : forall t,
  built toInt files true t -> careful_edits ops t = true -> built toInt files true (edits ops t).
Proof.
  induction ops as [|o ops IH]; intros t Ht Hc; [done|]. cbn [careful_edits edits] in *.
  apply andb_true_iff in Hc as [Ho Hc]. apply IH; [|done]. rewrite <- Ho.
  by apply (built_edit toInt files true).
Qed.

Lemma tree_eta t : t = {| root := root t; totalCards := totalCards t; next_id := next_id t |}.
Proof. by destruct t. Qed.

Lemma clear_next b t : next_id (clear b t) = next_id t.
Proof. unfold clear. by destruct (if b then _ else _). Qed.

Lemma removeCustomZone_next name t :
  (removeCustomZone name t).2 = set_root (root (removeCustomZone name t).2) t.
Proof.
  unfold removeCustomZone. destruct (findCustomZoneByName name t), (parent_of name t);
    by destruct t.
Qed.

Lemma fewer_step_shape t t' : shape_ok t -> fewer (root t') (root t) -> next_id t' = next_id t -> shape_ok t'.
Proof. intros Ht Hf Hn. rewrite (tree_eta t'), Hn. by apply fewer_shape. Qed.

Lemma fewer_step_names t t' : names_ok t -> fewer (root t') (root t) -> names_ok t'.
Proof. intros Ht Hf. rewrite (tree_eta t'). by eapply fewer_names. Qed.

Lemma on_card_children z f ks : inner_names (map (on_card z f) ks) = inner_names ks.
Proof.
  unfold inner_names. induction ks as [|k ks IH]; [done|]. cbn [map List.filter].
  destruct (on_card_spec z f k) as (_ & _ & H3 & H4). rewrite H3. destruct (is_inner k); [|done].
  cbn [map]. by rewrite H4, IH.
Qed.

Lemma change_card_shape z f t : shape_ok t -> shape_ok (change_card z f t).
Proof.
  intros [H1 H2 H3 H4]. destruct (change_card_spec z f t) as (_ & E & _ & _).
  constructor; rewrite ?E; [done|done|done|]. unfold change_card, set_root. cbn [root].
  rewrite Forall_map. eapply Forall_impl; [exact H4|]. intros k Hk. cbn.
  by destruct (on_card_spec z f k) as (_ & _ & -> & _).
Qed.

Lemma change_card_names z f t : names_ok t -> names_ok (change_card z f t).
Proof.
  intros [N1 N2]. destruct (change_card_spec z f t) as (_ & _ & E & _).
  assert (Ec : custom_names (root (change_card z f t)) = custom_names (root t)).
  { unfold change_card, set_root. cbn [root]. clear. induction (root t) as [|k ks IH]; [done|].
    cbn [map]. rewrite !custom_names_cons, IH. f_equal. destruct k as [|i m name cs]; [done|].
    apply on_card_children. }
  constructor; rewrite ?E, Ec; done.
Qed.

(** A card that is changed to a number between zero and its own. *)
Lemma change_card_budget z f t :
  (forall c, (z, c) ∈ all_idcards (root t) -> 0 <= number c -> 0 <= number (f c) <= number c) ->
  budget_ok t -> budget_ok (change_card z f t).
Proof.
  intros Hf [B1 B2 B3]. destruct (change_card_spec z f t) as (E & _ & _ & Et).
  rewrite all_cards_idcards in B1. rewrite count_all_cards, all_cards_idcards in B2.
  assert (Hs : Forall (fun c => 0 <= number c) (map snd (all_idcards (root (change_card z f t)))) /\
               zsum (map number (map snd (all_idcards (root (change_card z f t))))) <=
               zsum (map number (map snd (all_idcards (root t))))).
  { rewrite E. clear E B2. induction (all_idcards (root t)) as [|[i c] l IH]; [done|].
    cbn [map fst snd] in *. apply Forall_cons in B1 as [Hc B1].
    destruct IH as [I1 I2]; [intros c' Hc'; apply Hf; by right|done|].
    assert (Hn : 0 <= number (if Nat.eqb i z then f c else c) <= number c).
    { destruct (Nat.eqb_spec i z) as [->|]; [|lia]. apply Hf; [left|done]. }
    split; [constructor; [lia|done]|cbn [zsum]; lia]. }
  destruct Hs as [S1 S2]. constructor; [by rewrite all_cards_idcards|
    rewrite count_all_cards, all_cards_idcards, Et; lia|by rewrite Et].
Qed.

Lemma setNumber_change z n t : setNumber z n t = change_card z (with_number n) t.
Proof.
  unfold setNumber, change_card. f_equal. apply map_ext. intros k.
  induction k as [i m c|i m name ks IH] using node_tree_ind; cbn [set_card on_card]; [by destruct (Nat.eqb i z)|].
  f_equal. induction IH as [|k ks Hk _ IH]; [done|]. cbn [map]. by rewrite Hk, IH.
Qed.

Lemma set_field_change s z t : exists f, set_field s z t = change_card z f t /\ forall c, number (f c) = number c.
Proof. destruct s; eexists; split; try reflexivity; done. Qed.

(** *** Copies *)

Definition copy_nodes (legal : nat -> bool) : nat -> list node -> list node * nat :=
  fix copy_nodes next l :=
    match l with
    | [] => ([], next)
    | k :: l =>
        let '(k', next1) := copy_node legal next k in
        let '(l', next2) := copy_nodes next1 l in
        (k' :: l', next2)
    end.

Lemma copy_cons legal next k l :
  copy_nodes legal next (k :: l) =
  let '(k', next1) := copy_node legal next k in
  let '(l', next2) := copy_nodes legal next1 l in (k' :: l', next2).
Proof. done. Qed.

Lemma copy_inner legal next i m name ks :
  copy_node legal next (InnerNode i m name ks) =
  let '(ks', next') := copy_nodes legal (S next) ks in (InnerNode next Default name ks', next').
Proof. done. Qed.

(** What a copy has in common with the original, and what is new of it. *)
Record copies (next next' : nat) (l l' : list node) : Prop := {
  cp_ids : NoDup (all_ids l');
  cp_range : Forall (fun i => next <= i < next')%nat (all_ids l');
  cp_next : (next <= next')%nat;
  cp_inner : map is_inner l' = map is_inner l;
  cp_names : inner_names l' = inner_names l;
  cp_custom : custom_names l' = custom_names l
}.

Lemma copies_nil next : copies next next [] [].
Proof. constructor; [apply NoDup_nil_2|constructor|done..]. Qed.

Lemma copies_cons next next1 next' k k' l l' :
  copies next next1 [k] [k'] -> copies next1 next' l l' -> copies next next' (k :: l) (k' :: l').
Proof.
  intros [A1 A2 A3 A4 A5 A6] [B1 B2 B3 B4 B5 B6].
  rewrite (deck_all_ids_cons k' []), app_nil_r in A1, A2.
  constructor; rewrite ?deck_all_ids_cons; [| |lia| | |].
  - apply NoDup_app. split_and!; [done| |done]. intros i H1 H2. rewrite Forall_forall in A2, B2.
    specialize (A2 i H1). specialize (B2 i H2). lia.
  - apply Forall_app. split; [eapply Forall_impl; [exact A2|]|eapply Forall_impl; [exact B2|]]; cbn; lia.
  - cbn in *. by injection A4 as ->; rewrite B4.
  - change (k' :: l') with ([k'] ++ l'). change (k :: l) with ([k] ++ l). by rewrite !inner_names_app, A5, B5.
  - change (k' :: l') with ([k'] ++ l'). change (k :: l) with ([k] ++ l). by rewrite !custom_names_app, A6, B6.
Qed.

Lemma copy_nodes_spec legal ks : Forall (fun k => forall next,
    copies next (copy_node legal next k).2 [k] [(copy_node legal next k).1]) ks ->
  forall next, copies next (copy_nodes legal next ks).2 ks (copy_nodes legal next ks).1.
Proof.
  induction 1 as [|k ks Hk _ IH]; intros next; [apply copies_nil|]. rewrite copy_cons.
  specialize (Hk next). destruct (copy_node legal next k) as [k' next1]. specialize (IH next1).
  destruct (copy_nodes legal next1 ks) as [ks' next2]. by eapply copies_cons.
Qed.

Lemma copy_node_spec legal n : forall next,
  copies next (copy_node legal next n).2 [n] [(copy_node legal next n).1].
Proof.
  induction n as [i m c|i m name ks IH] using node_tree_ind; intros next.
  - cbn. constructor; [apply NoDup_singleton| |cbn; lia|done..]. constructor; [lia|done].
  - rewrite copy_inner. pose proof (copy_nodes_spec legal ks IH (S next)) as [A1 A2 A3 A4 A5 A6].
    destruct (copy_nodes legal (S next) ks) as [ks' next']. cbn [fst snd] in *.
    constructor; rewrite ?(deck_all_ids_cons _ []), ?app_nil_r; cbn [ids]; fold (all_ids ks').
    + apply NoDup_cons. split; [|done]. intros Hi. rewrite Forall_forall in A2. specialize (A2 _ Hi). lia.
    + constructor; [lia|]. eapply Forall_impl; [exact A2|]. cbn. lia.
    + lia.
    + done.
    + done.
    + rewrite !(custom_names_cons _ []). cbn [children_of]. by rewrite A5.
Qed.

Lemma copy_tree_spec legal t : shape_ok t ->
  shape_ok (copy_tree legal t) /\ (names_ok t -> names_ok (copy_tree legal t)).
Proof.
  intros [_ _ _ H4]. unfold copy_tree. rewrite copy_inner.
  assert (Hc : Forall (fun k => forall next,
    copies next (copy_node legal next k).2 [k] [(copy_node legal next k).1]) (root t)).
  { apply Forall_forall. intros k _. apply copy_node_spec. }
  pose proof (copy_nodes_spec legal (root t) Hc 1) as [A1 A2 A3 A4 A5 A6].
  destruct (copy_nodes legal 1 (root t)) as [ks' next']. cbn [fst snd] in *. split.
  - constructor; cbn; [done|eapply Forall_impl; [exact A2|]; cbn; lia|lia|].
    apply Forall_forall. intros k Hk. rewrite Forall_forall in H4.
    assert (Hin : is_inner k ∈ map is_inner ks') by (apply list_elem_of_In, in_map, list_elem_of_In, Hk).
    rewrite A4 in Hin. apply list_elem_of_In, in_map_iff in Hin as (k0 & <- & Hk0).
    apply H4. by apply list_elem_of_In.
  - intros [N1 N2]. constructor; cbn [root children_of]; rewrite ?A5, A6; done.
Qed.

Lemma assign_spec legal other t : shape_ok other ->
  shape_ok (assign legal other t) /\ (names_ok other -> names_ok (assign legal other t)).
Proof.
  intros Ho. destruct (copy_tree_spec legal other Ho) as [[H1 H2 H3 H4] Hn].
  split; [by constructor|]. intros [N1 N2]%Hn. by constructor.
Qed.

(** *** What the operations keep *)

Lemma edit_shape o t : shape_ok t -> shape_ok (edit o t).
Proof.
  intros Ht. destruct o as [name amount zoneName position set num provider legal|?|b| |? ?|? ?|? ?|?|z n|s z];
    cbn [edit].
  - apply (addCard_adds name amount zoneName position set num provider legal _ Ht).
  - eapply fewer_step_shape; [done|apply deleteNode_fewer|]. by rewrite deleteNode_next.
  - eapply fewer_step_shape; [done|apply clear_fewer|apply clear_next].
  - by eapply fewer_step_shape; [|apply clearCommanders_ok..].
  - by apply addCustomZone_keeps.
  - by apply rename_keeps.
  - by apply moveCustomZone_keeps.
  - eapply fewer_step_shape; [done|by apply removeCustomZone_fewer|]. by rewrite removeCustomZone_next.
  - rewrite setNumber_change. by apply change_card_shape.
  - destruct (set_field_change s z t) as (f & -> & _). by apply change_card_shape.
Qed.

Lemma edit_names o t : shape_ok t -> names_ok t -> names_ok (edit o t).
Proof.
  intros Ht Hn. destruct o as [name amount zoneName position set num provider legal|?|b| |? ?|? ?|? ?|?|z n|s z];
    cbn [edit].
  - by apply (addCard_adds name amount zoneName position set num provider legal _ Ht).
  - by eapply fewer_step_names, deleteNode_fewer.
  - by eapply fewer_step_names, clear_fewer.
  - by eapply fewer_step_names, clearCommanders_ok.
  - by apply addCustomZone_keeps.
  - by apply rename_keeps.
  - by apply moveCustomZone_keeps.
  - by eapply fewer_step_names, removeCustomZone_fewer.
  - rewrite setNumber_change. by apply change_card_names.
  - destruct (set_field_change s z t) as (f & -> & _). by apply change_card_names.
Qed.

Lemma clearCommanders_budget t : shape_ok t -> budget_ok t -> budget_ok (clearCommanders t).
Proof.
  intros Ht Hb. destruct (clearCommanders_ok t Ht) as (Hf & _ & Hc).
  rewrite (tree_eta (clearCommanders t)). apply (fewer_budget t); auto.
Qed.

Lemma edit_budget o t : careful o t = true -> shape_ok t -> budget_ok t -> budget_ok (edit o t).
Proof.
  intros Hc Ht Hb.
  destruct o as [name amount zoneName position set num provider legal|?|b| |? ?|? ?|? ?|?|z n|s z]; cbn [edit].
  - cbn in Hc. apply Z.leb_le in Hc. pose proof (bo_max _ Hb).
    eapply adds_budget; [by apply addCard_adds|..]; cbn [added_card number]; try lia. done.
  - rewrite deleteNode_next. apply (fewer_budget_same _ _ _ Hb), deleteNode_fewer.
  - by apply clear_budget.
  - by apply clearCommanders_budget.
  - by eapply keeps_budget; [apply addCustomZone_keeps|].
  - by eapply keeps_budget; [apply rename_keeps|].
  - by eapply keeps_budget; [apply moveCustomZone_keeps|].
  - rewrite removeCustomZone_next. by apply (fewer_budget_same _ _ _ Hb), removeCustomZone_fewer.
  - rewrite setNumber_change. apply change_card_budget; [|done]. intros c Hin _. cbn [with_number number].
    cbn in Hc. apply andb_true_iff in Hc as [Hn Hall]. apply Z.leb_le in Hn. rewrite forallb_forall in Hall.
    specialize (Hall (z, c) (proj1 (list_elem_of_In _ _) Hin)). cbn in Hall.
    rewrite Nat.eqb_refl in Hall. cbn in Hall. lia.
  - destruct (set_field_change s z t) as (f & -> & Hf). apply change_card_budget; [|done]. intros c _ H0.
    rewrite Hf. lia.
Qed.

Lemma load_shape toInt e t : shape_ok t -> shape_ok (load toInt e t).
Proof.
  intros Ht. destruct e as [attrs xml|xml]; cbn [load]; [by apply readZoneElement_shape|].
  apply read_commanders_ok; [|done]. by eapply fewer_step_shape; [|apply clearCommanders_ok..].
Qed.

Lemma load_budget toInt e t : careful_load toInt e = true ->
  shape_ok t -> budget_ok t -> budget_ok (load toInt e t).
Proof.
  intros Hc Ht Hb. destruct e as [attrs xml|xml]; cbn [load]; [by apply readZoneElement_budget|].
  apply read_commanders_ok; [|done|by apply clearCommanders_budget].
  by eapply fewer_step_shape; [|apply clearCommanders_ok..].
Qed.

Lemma empty_shape : shape_ok empty_tree.
Proof. constructor; cbn; [apply NoDup_nil_2|constructor|lia|constructor]. Qed.

Lemma empty_budget : budget_ok empty_tree.
Proof. constructor; cbn; [constructor|done|unfold MAX_DECK_SIZE; lia]. Qed.

Lemma empty_names : names_ok empty_tree.
Proof. constructor; cbn; [apply NoDup_nil_2|constructor]. Qed.

Lemma built_shape toInt files c t : built toInt files c t -> shape_ok t.
Proof.
  induction 1 as [|files c o t _ IH|files c e t _ IH|files c legal t _ IH|files c files' c' legal other t _ _ _ IH].
  - apply empty_shape.
  - by apply edit_shape.
  - by apply load_shape.
  - by apply copy_tree_spec.
  - by apply assign_spec.
Qed.

Lemma built_budget toInt files c t : built toInt files c t -> c = true -> budget_ok t.
Proof.
  induction 1 as [|files c o t Ht IH|files c e t Ht IH|files c legal t _ _|files c files' c' legal other t _ _ _ _];
    [intros _; apply empty_budget|..|done|done].
  - intros [Hc Ho]%andb_true_iff. apply edit_budget; [done|by eapply built_shape|auto].
  - intros [Hc He]%andb_true_iff. apply load_budget; [done|by eapply built_shape|auto].
Qed.

Lemma built_names toInt files c t : built toInt files c t -> files = false -> names_ok t.
Proof.
  induction 1 as [|files c o t Ht IH|files c e t Ht IH|files c legal t Ht IH
                  |files c files' c' legal other t _ _ Ho IH]; intros Hf.
  - apply empty_names.
  - apply edit_names; [by eapply built_shape|auto].
  - done.
  - apply copy_tree_spec; [by eapply built_shape|auto].
  - apply orb_false_iff in Hf as [_ Hf]. apply assign_spec; [by eapply built_shape|auto].
Qed.

(** ** Properties *)

(** The zone with a name is found where it stands, when names are different. *)
Lemma custom_found t l1 b mb bname k1 z m name cs k2 l2 : names_ok t ->
  root t = l1 ++ InnerNode b mb bname (k1 ++ InnerNode z m name cs :: k2) :: l2 ->
  findCustomZoneByName name t = Some (InnerNode z m name cs) /\
  parent_of name t = Some (InnerNode b mb bname (k1 ++ InnerNode z m name cs :: k2)).
Proof.
  intros [N1 _] Hr. apply NoDup_app in N1 as (_ & _ & N1).
  rewrite Hr, custom_names_app, custom_names_cons in N1. cbn [children_of] in N1.
  rewrite inner_names_zone in N1. apply NoDup_app in N1 as (_ & N2 & N3).
  assert (H1 : first_inner name (concat (map children_of l1)) = None).
  { apply first_inner_None. intros Hin. apply (N2 name Hin). set_solver. }
  assert (H2 : first_inner name (k1 ++ InnerNode z m name cs :: k2) = Some (InnerNode z m name cs)).
  { rewrite first_inner_app, (proj2 (first_inner_None name k1)).
    - unfold first_inner, inner_named. cbn. by rewrite bool_decide_eq_true_2.
    - rewrite <- app_assoc in N3. apply NoDup_app in N3 as (_ & N3 & _). intros Hin. apply (N3 name Hin). set_solver. }
  unfold findCustomZoneByName, parent_of. rewrite Hr, map_app, concat_app. cbn [map concat children_of]. split.
  - by rewrite first_inner_app, H1, first_inner_app, H2.
  - clear Hr N2. induction l1 as [|k l1 IH]; cbn [app List.find].
    + cbn [children_of]. rewrite H2. by rewrite bool_decide_eq_true_2.
    + cbn [map concat] in H1. rewrite first_inner_app in H1.
      destruct (first_inner name (children_of k)) eqn:Hk; [done|].
      rewrite bool_decide_eq_false_2 by (by intros [? ?]). by apply IH.
Qed.

(** C13. Whatever built a deck tree - operations of its interface and setters of its
    cards with any arguments, elements of deck files, copies, assignments of other
    trees - every node has one place in it: the identities of its nodes are pairwise
    different and none is the root's or one still to be given out, and the root
    holds only zones. Where nothing was added in a negative number, numbers were only
    set lower, no card of the files had a negative number, and nothing was copied or
    assigned, no card's number is negative, and the cards together are no more than
    the budget used, which is within the limit of a deck. *)
Theorem deck_tree_reachable (toInt : text -> Z) (files careful : bool) (t : DecklistNodeTree)
    (H : built toInt files careful t) :
  shape_ok t /\ (careful = true -> budget_ok t).
Proof. split; [by eapply built_shape|by eapply built_budget]. Qed.

(** A main board with three cards in it and three in a custom zone, and a
    sideboard with a card of its own. *)
Definition sample_add (name : String.string) (amount : Z) (zone : text) : operation :=
  OpAddCard (str name) amount zone (-1) [] [] [] true.

Definition sample_tree : DecklistNodeTree :=
  edits [sample_add "Island" 3 DECK_ZONE_MAIN; OpAddCustomZone DECK_ZONE_MAIN (str "Ramp");
         sample_add "Sol Ring" 1 (str "Ramp"); sample_add "Forest" 2 (str "Ramp");
         sample_add "Duress" 4 DECK_ZONE_SIDE] empty_tree.

Lemma sample_tree_built toInt : built toInt false true sample_tree.
Proof. apply built_edits; [apply built_new|vm_compute; reflexivity]. Qed.

(** The tree after a file with a further zone was read into it, one [Forest] was taken
    out, and its copy; a number in the file is below zero in the last part. *)
Definition sample_int (s : text) : Z := match s with [n] => n | _ => 0 end.

Definition sample_zone (n : Z) : element :=
  ZoneElement [(str "name", str "tokens")]
    (empty_element (str "card") [(str "number", [n]); (str "name", str "Goblin")] ++ [EndElement (str "zone")]).

Definition sample_loaded : DecklistNodeTree :=
  edits [OpSetNumber 5 1] (load sample_int (sample_zone 5) sample_tree).

Lemma sample_loaded_built : built sample_int true true sample_loaded.
Proof.
  apply built_edits; [|vm_compute; reflexivity].
  apply (built_load sample_int false true (sample_zone 5) sample_tree (sample_tree_built _)).
Qed.

Lemma deck_tree_reachable_witness :
  (totalCards sample_loaded = 15 /\ shape_ok sample_loaded /\ budget_ok sample_loaded) /\
  shape_ok (copy_tree (fun _ => false) (load sample_int (sample_zone (-5)) sample_loaded)).
Proof.
  split; [split; [vm_compute; reflexivity|]|].
  - destruct (deck_tree_reachable sample_int true true sample_loaded sample_loaded_built) as [G1 G2].
    split; [exact G1|by apply G2].
  - pose proof (built_copy sample_int _ _ (fun _ => false) _
      (built_load sample_int _ _ (sample_zone (-5)) sample_loaded sample_loaded_built)) as H.
    exact (proj1 (deck_tree_reachable sample_int _ _ _ H)).
Defined.

(** C33. In every tree built without files - by operations and setters with any
    arguments, copies and assignments - the names of the zones are pairwise
    different, board zones and custom zones together, and no custom zone has the name
    of a standard zone; so the lookup by name finds the one custom zone of that name
    and its board. *)
Theorem deck_names_unique (toInt : text -> Z) (careful : bool) (t : DecklistNodeTree)
    (H : built toInt false careful t) :
  NoDup (inner_names (root t) ++ custom_names (root t)) /\
  Forall (fun name => reserved name = false) (custom_names (root t)) /\
  (forall b z, b ∈ root t -> z ∈ children_of b -> is_inner z = true ->
     findCustomZoneByName (getName z) t = Some z /\ parent_of (getName z) t = Some b).
Proof.
  pose proof (built_names _ _ _ _ H eq_refl) as Hn. split_and!; [apply Hn..|].
  intros b z (l1 & l2 & Hr)%list_elem_of_split Hz Hinner.
  destruct b as [|b mb bname cs]; [by apply not_elem_of_nil in Hz|].
  apply list_elem_of_split in Hz as (k1 & k2 & Ez). cbn in Ez. subst cs.
  destruct z as [|z m name cs]; [done|]. by eapply custom_found.
Qed.

Lemma deck_names_unique_witness :
  built (fun _ => 0) false true sample_tree /\ custom_names (root sample_tree) = [str "Ramp"] /\
  NoDup (inner_names (root sample_tree) ++ custom_names (root sample_tree)).
Proof.
  split; [apply sample_tree_built|]. split; [vm_compute; reflexivity|].
  apply (deck_names_unique (fun _ => 0) true sample_tree (sample_tree_built _)).
Defined.
