(* ===== verification/DeckOrder.v ===== *)
(** * The deck tree: order and hash

    The comparators of the deck tree give [std::sort] a strict weak order, the
    sorted children are the children with the reported index map, the deck hash
    does not depend on the order of the cards, and its text says as much as the
    five bytes it encodes. *)
From stdpp Require Import sorting.
From S2P Require Import Prelude DeckTree.
Open Scope cockatrice_scope.
Local Open Scope Z_scope.

(** ** The order of [compare] *)

Definition sort_method (n : node) : DeckSortMethod :=
  match n with CardNode _ m _ => m | InnerNode _ m _ _ => m end.

(** What a node is compared by: cards before zones, then the method's key. *)
Definition sort_key (m : DeckSortMethod) (n : node) : list Z :=
  match m with
  | ByNumber => (if is_inner n then 0 else 1) :: recursiveCount true n :: getName n
  | ByName => (if is_inner n then 0 else 1) :: getName n
  | Default => []
  end.

Lemma lex_lt_head x k l : lex_lt (x :: k) (x :: l) = lex_lt k l.
Proof. cbn. by rewrite Z.ltb_irrefl, Z.eqb_refl. Qed.

Lemma lex_lt_diff x y k l : x <> y -> lex_lt (x :: k) (y :: l) = (x <? y).
Proof. intros Hxy. cbn. rewrite (proj2 (Z.eqb_neq x y)) by done. by rewrite orb_false_r. Qed.

Lemma compare_key a b : compare a b = lex_lt (sort_key (sort_method a) b) (sort_key (sort_method a) a).
Proof.
  assert (Hn : forall x y k l, (if negb (x =? y) then y <? x else lex_lt l k) = lex_lt (y :: l) (x :: k)).
  { intros x y k l. destruct (Z.eqb_spec x y) as [->|Hne]; cbn [negb]; [by rewrite lex_lt_head|].
    by rewrite lex_lt_diff by done. }
  destruct a as [i m c|i m name ks], b as [j m' c'|j m' name' ks'], m;
    unfold compare, compareNumber, compareName, sort_key; cbn [sort_method is_inner];
    rewrite ?lex_lt_head; try done; by rewrite <- Hn.
Qed.

Lemma lex_lt_negtrans k l m : lex_lt k l = false -> lex_lt l m = false -> lex_lt k m = false.
Proof.
  intros H1 H2. destruct (lex_lt k m) eqn:H3; [|done]. exfalso.
  destruct (lex_lt l k) eqn:H4.
  - by rewrite (lex_lt_trans _ _ _ H4 H3) in H2.
  - by rewrite (lex_lt_antisym _ _ H1 H4), H2 in H3.
Qed.

(** The laws [std::sort] asks of its comparator, at three elements. *)
Definition strict_weak {A} (lt : A -> A -> bool) (a b c : A) : Prop :=
  lt a a = false /\
  (lt a b = true -> lt b a = false) /\
  (lt a b = true -> lt b c = true -> lt a c = true) /\
  (lt a b = false -> lt b c = false -> lt a c = false).

Lemma compare_laws m a b c :
  sort_method a = m -> sort_method b = m -> sort_method c = m -> strict_weak compare a b c.
Proof.
  intros Ha Hb Hc. unfold strict_weak. rewrite !compare_key, Ha, Hb. split_and!.
  - apply lex_lt_irrefl.
  - intros H. destruct (lex_lt (sort_key m a) (sort_key m b)) eqn:E; [|done].
    by rewrite <- (lex_lt_trans _ _ _ H E), lex_lt_irrefl.
  - intros H1 H2. by eapply lex_lt_trans.
  - intros H1 H2. by eapply lex_lt_negtrans.
Qed.

Lemma compare_laws_flip m a b c :
  sort_method a = m -> sort_method b = m -> sort_method c = m ->
  strict_weak (fun x y => compare y x) a b c.
Proof.
  intros Ha Hb Hc. destruct (compare_laws m a a a Ha Ha Ha) as (H1 & _).
  destruct (compare_laws m b a a Hb Ha Ha) as (_ & H2 & _).
  destruct (compare_laws m c b a Hc Hb Ha) as (_ & _ & H3 & H4).
  split_and!; auto.
Qed.

(** On nodes with one sort method, as [setSortMethod] leaves them, [compare]
    is a strict weak order: what [std::sort] requires of its comparator, for
    children that mix cards and zones too. *)
Theorem compare_strict_weak (m : DeckSortMethod) (a b c : node)
    (Ha : sort_method a = m) (Hb : sort_method b = m) (Hc : sort_method c = m) :
  strict_weak compare a b c.
Proof. by apply (compare_laws m). Qed.

Definition sample_card (name : String.string) (n : Z) : Card :=
  {| card_name := str name; number := n; cardSetShortName := []; cardSetNumber := [];
     cardProviderId := []; formatLegal := true |}.

Lemma compare_strict_weak_witness :
  let a := CardNode 1 ByNumber (sample_card "Forest" 4) in
  let b := CardNode 2 ByNumber (sample_card "Duress" 4) in
  let c := InnerNode 3 ByNumber (str "Ramp") [a; b] in
  compare a b = true /\ compare b c = true /\ compare a c = true.
Proof.
  intros a b c. assert (H1 : compare a b = true) by (vm_compute; reflexivity).
  assert (H2 : compare b c = true) by (vm_compute; reflexivity).
  split; [exact H1|]. split; [exact H2|].
  apply (compare_strict_weak ByNumber a b c); [reflexivity|reflexivity|reflexivity|exact H1|exact H2].
Defined.

(** ** Sorting *)

(** What the library promises of [std::sort] on a strict weak order. *)
Definition sorts (std_sort : (nat * node -> nat * node -> bool) -> list (nat * node) -> list (nat * node)) : Prop :=
  forall lt l,
    (forall x y z, x ∈ l -> y ∈ l -> z ∈ l ->
       strict_weak lt x y z) ->
    std_sort lt l ≡ₚ l /\ Sorted (fun x y => lt y x = false) (std_sort lt l).

Lemma snapshot_in ks i n : (i, n) ∈ indexedSnapshot ks <-> ks !! i = Some n.
Proof.
  unfold indexedSnapshot. rewrite list_elem_of_lookup. split.
  - intros [j Hj]. apply lookup_zip_with_Some in Hj as (x & y & [= <- <-] & Hx & Hy).
    apply lookup_seq in Hx as [-> _]. done.
  - intros Hi. exists i. apply lookup_zip_with_Some. exists i, n. split_and!; [done| |done].
    apply lookup_seq. split; [done|]. by eapply lookup_lt_Some.
Qed.

(** The comparator [sort] passes for an order. *)
Definition sort_cmp (ascending : bool) (a b : node) : bool :=
  if ascending then compare b a else compare a b.

Lemma Sorted_map_snd {A B} (R : B -> B -> Prop) (l : list (A * B)) :
  Sorted (fun x y => R x.2 y.2) l -> Sorted R (map snd l).
Proof.
  induction 1 as [|x l Hl IH Hx]; cbn; constructor; [done|]. destruct Hx; cbn; by constructor.
Qed.

(** Sorting the children of a zone keeps the children, puts them in the order
    of the comparator, and returns for every child its old and its new index: the
    child at the new index is the one that was at the old, every old and every new
    index occurs once. *)
Theorem sort_spec (std_sort : (nat * node -> nat * node -> bool) -> list (nat * node) -> list (nat * node))
    (ascending : bool) (m : DeckSortMethod) (ks : list node)
    (Hsort : sorts std_sort) (Hm : Forall (fun n => sort_method n = m) ks) :
  let '(ks', moves) := sort std_sort ascending ks in
  ks' ≡ₚ ks /\
  Sorted (fun a b => sort_cmp ascending b a = false) ks' /\
  (forall old new, (old, new) ∈ moves -> exists n, ks !! old = Some n /\ ks' !! new = Some n) /\
  map fst moves ≡ₚ seq 0 (length ks) /\ map snd moves = seq 0 (length ks).
Proof.
  unfold sort, applySortedOrder. set (cmp := fun a b : nat * node => _).
  rewrite Forall_forall in Hm.
  assert (Hm2 : forall x, x ∈ indexedSnapshot ks -> sort_method x.2 = m).
  { intros [i n] Hx%snapshot_in. cbn. apply Hm. by apply (list_elem_of_lookup_2 _ i). }
  destruct (Hsort cmp (indexedSnapshot ks)) as [Hp Hs].
  { intros x y z Hx Hy Hz. unfold cmp. destruct ascending.
    - apply (compare_laws_flip m); auto.
    - apply (compare_laws m); auto. }
  set (l := std_sort cmp (indexedSnapshot ks)) in *.
  assert (Hlen : length l = length ks).
  { rewrite (Permutation_length Hp). unfold indexedSnapshot. rewrite length_zip_with, length_seq. lia. }
  assert (Hsnap : map fst (indexedSnapshot ks) = seq 0 (length ks) /\ map snd (indexedSnapshot ks) = ks).
  { unfold indexedSnapshot. split.
    - change (fst <$> zip (seq 0 (length ks)) ks = seq 0 (length ks)). apply fst_zip. by rewrite length_seq.
    - change (snd <$> zip (seq 0 (length ks)) ks = ks). apply snd_zip. by rewrite length_seq. }
  destruct Hsnap as [Hs1 Hs2]. split_and!.
  - rewrite <- Hs2. by rewrite Hp.
  - apply (Sorted_map_snd (fun a b => sort_cmp ascending b a = false)). exact Hs.
  - intros old new Hin. apply list_elem_of_lookup in Hin as [j Hj].
    apply lookup_zip_with_Some in Hj as (x & y & [= <- <-] & Hx & Hy).
    change (map fst l) with (fst <$> l) in Hx. rewrite list_lookup_fmap in Hx.
    destruct (l !! j) as [[i n]|] eqn:Hl; [|done]. injection Hx as <-. apply lookup_seq in Hy as [-> _].
    exists n. cbn. split; [|change (map snd l) with (snd <$> l); by rewrite list_lookup_fmap, Hl].
    apply snapshot_in. rewrite <- Hp. by apply (list_elem_of_lookup_2 _ j).
  - change (fst <$> zip (fst <$> l) (seq 0 (length l)) ≡ₚ seq 0 (length ks)).
    rewrite fst_zip by (by rewrite length_fmap, length_seq).
    change (fst <$> l) with (map fst l). by rewrite Hp, Hs1.
  - change (snd <$> zip (fst <$> l) (seq 0 (length l)) = seq 0 (length ks)).
    rewrite snd_zip by (by rewrite length_fmap, length_seq). by rewrite Hlen.
Qed.

(** Insertion sort, which keeps what [std::sort] promises. *)
Fixpoint insert_by (lt : nat * node -> nat * node -> bool) (x : nat * node) (l : list (nat * node))
    : list (nat * node) :=
  match l with
  | [] => [x]
  | y :: l' => if lt y x then y :: insert_by lt x l' else x :: l
  end.

Definition insertion_sort (lt : nat * node -> nat * node -> bool) (l : list (nat * node))
    : list (nat * node) :=
  foldr (insert_by lt) [] l.

Lemma insert_by_perm lt x l : insert_by lt x l ≡ₚ x :: l.
Proof.
  induction l as [|y l IH]; cbn; [done|]. destruct (lt y x); [|done].
  rewrite IH. apply Permutation_swap.
Qed.

Lemma insert_by_sorted lt x l :
  (forall y, y ∈ l -> lt x y = true -> lt y x = false) ->
  (forall y, y ∈ l -> lt y x = true -> lt x y = false) ->
  Sorted (fun x y => lt y x = false) l -> Sorted (fun x y => lt y x = false) (insert_by lt x l).
Proof.
  intros H1 H2. induction 1 as [|y l Hl IH Hy]; cbn; [repeat constructor|].
  destruct (lt y x) eqn:E.
  - constructor; [apply IH; intros z Hz; [apply H1|apply H2]; by right|].
    destruct l as [|z l]; cbn; [constructor; by apply H2; [left|]|].
    destruct (lt z x); constructor; [by inversion Hy|by apply H2; [left|]].
  - constructor; [by constructor|]. by constructor.
Qed.

Lemma insertion_sorts : sorts insertion_sort.
Proof.
  intros lt l Hl. unfold insertion_sort. induction l as [|x l IH]; cbn; [done|].
  destruct IH as [Hp Hs].
  { intros a b c Ha Hb Hc. apply Hl; by right. }
  split; [by rewrite insert_by_perm, Hp|]. apply insert_by_sorted; [| |done];
    intros y Hy Hxy; rewrite Hp in Hy;
    [apply (Hl x y y)|apply (Hl y x x)]; first [done|by left|by right].
Qed.

Lemma sort_spec_witness :
  let ks := [InnerNode 3 ByName (str "Ramp") []; CardNode 1 ByName (sample_card "Forest" 4);
             CardNode 2 ByName (sample_card "Duress" 4)] in
  let '(ks', moves) := sort insertion_sort true ks in
  map node_id ks' = [3; 2; 1]%nat /\ ks' ≡ₚ ks /\ map fst moves ≡ₚ seq 0 (length ks).
Proof.
  intros ks. pose proof (sort_spec insertion_sort true ByName ks insertion_sorts
    ltac:(repeat constructor)) as H.
  assert (E : map node_id (sort insertion_sort true ks).1 = [3; 2; 1]%nat) by (vm_compute; reflexivity).
  destruct (sort insertion_sort true ks) as [ks' moves].
  destruct H as (H1 & _ & _ & H2 & _). split; [exact E|]. by split.
Defined.

(** ** The deck hash *)

Lemma text_le_refl s : text_le s s.
Proof. apply lex_lt_irrefl. Qed.

#[export] Instance text_le_trans : Transitive text_le.
Proof. intros a b c H1 H2. unfold text_le in *. by eapply lex_lt_negtrans. Qed.

#[export] Instance text_le_total : Total text_le.
Proof.
  intros a b. unfold text_le. destruct (lex_lt b a) eqn:E; [right|by left].
  destruct (lex_lt a b) eqn:E2; [|done]. by rewrite <- (lex_lt_trans _ _ _ E E2), lex_lt_irrefl.
Qed.

#[export] Instance text_le_antisym : AntiSymm eq text_le.
Proof. intros a b H1 H2. unfold text_le in *. by apply lex_lt_antisym. Qed.

Lemma merge_sort_perm (l l' : list text) :
  l ≡ₚ l' -> merge_sort text_le l = merge_sort text_le l'.
Proof.
  intros Hl. apply (Sorted_unique text_le).
  - apply Sorted_merge_sort, _.
  - apply Sorted_merge_sort, _.
  - by rewrite !merge_sort_Permutation.
Qed.

(** How many copies of a name a list of cards holds. *)
Definition copies (toLower : text -> text) (s : text) (cs : list Card) : nat :=
  sum_list_with (fun c => if bool_decide (toLower (card_name c) = s) then Z.to_nat (number c) else 0%nat) cs.

Definition text_dec (a b : text) : {a = b} + {a <> b} := decide (a = b).

Lemma count_replicate (x y : text) n :
  count_occ text_dec (replicate n y) x = (if bool_decide (y = x) then n else 0)%nat.
Proof.
  induction n as [|n IH]; cbn; [by case_bool_decide|]. rewrite IH.
  case_bool_decide; destruct (text_dec y x); done.
Qed.

Lemma count_copies toLower prefix s cs :
  count_occ text_dec (cardNodesToCopies toLower prefix cs) (prefix ++ s)
  = copies toLower s cs.
Proof.
  unfold cardNodesToCopies, copies. induction cs as [|c cs IH]; [done|].
  cbn [map concat sum_list_with]. rewrite count_occ_app, count_replicate. f_equal; [|exact IH].
  case_bool_decide as H1; case_bool_decide as H2; try done.
  - by apply app_inv_head in H1.
  - by rewrite H2 in H1.
Qed.

Lemma count_no_copies toLower prefix x cs :
  (forall s, x <> prefix ++ s) ->
  count_occ text_dec (cardNodesToCopies toLower prefix cs) x = 0%nat.
Proof.
  intros Hx. unfold cardNodesToCopies. induction cs as [|c cs IH]; [done|].
  cbn [map concat]. rewrite count_occ_app, count_replicate.
  case_bool_decide as H1; [|exact IH]. by destruct (Hx _ (eq_sym H1)).
Qed.

Lemma prefix_or_not (prefix x : text) : (exists s, x = prefix ++ s) \/ (forall s, x <> prefix ++ s).
Proof.
  destruct (decide (take (length prefix) x = prefix)) as [E|E].
  - left. exists (drop (length prefix) x). rewrite <- E at 1. by rewrite take_drop.
  - right. intros s ->. by rewrite take_app_length in E.
Qed.

Lemma copies_perm_count toLower prefix cs cs' :
  (forall s, copies toLower s cs = copies toLower s cs') ->
  cardNodesToCopies toLower prefix cs ≡ₚ cardNodesToCopies toLower prefix cs'.
Proof.
  intros H. apply (Permutation_count_occ text_dec). intros x.
  destruct (prefix_or_not prefix x) as [[s ->]|Hx]; [by rewrite !count_copies|].
  by rewrite !count_no_copies.
Qed.

(** The deck hash depends on the copies of each lower-cased name in the main
    board and in the sideboard alone: not on the order of the cards, on how their
    copies are split over nodes or custom zones, on the other boards, on the
    printings or on the identities of the nodes. *)
Theorem deck_hash_of_copies (toLower : text -> text) (sha1 : text -> list Z) (t t' : DecklistNodeTree)
    (Hmain : forall s, copies toLower s (getCardNodes [DECK_ZONE_MAIN] t)
                       = copies toLower s (getCardNodes [DECK_ZONE_MAIN] t'))
    (Hside : forall s, copies toLower s (getCardNodes [DECK_ZONE_SIDE] t)
                       = copies toLower s (getCardNodes [DECK_ZONE_SIDE] t')) :
  computeDeckHash toLower sha1 t = computeDeckHash toLower sha1 t'.
Proof.
  unfold computeDeckHash. do 3 f_equal. apply merge_sort_perm.
  by rewrite (copies_perm_count _ _ _ _ Hmain), (copies_perm_count _ _ _ _ Hside).
Qed.

Definition ascii_lower (s : text) : text :=
  map (fun c => if (65 <=? c) && (c <=? 90) then c + 32 else c) s.

Definition hash_tree (zones : list node) : DecklistNodeTree :=
  {| root := zones; totalCards := 5; next_id := 10 |}.

Lemma deck_hash_of_copies_witness :
  let t := hash_tree [InnerNode 1 Default DECK_ZONE_MAIN
                        [CardNode 2 Default (sample_card "Forest" 3);
                         InnerNode 3 Default (str "Ramp") [CardNode 4 Default (sample_card "FOREST" 1)]]] in
  let t' := hash_tree [InnerNode 1 Default DECK_ZONE_MAYBEBOARD [CardNode 2 Default (sample_card "Duress" 1)];
                       InnerNode 3 Default DECK_ZONE_MAIN [CardNode 4 Default (sample_card "Forest" 4)]] in
  computeDeckHash ascii_lower id t = computeDeckHash ascii_lower id t' /\
  computeDeckHash ascii_lower id t = str "cpnn4pbj".
Proof.
  intros t t'. split; [|vm_compute; reflexivity].
  apply (deck_hash_of_copies ascii_lower id t t'); intros s.
  - change (copies ascii_lower s [sample_card "Forest" 3; sample_card "FOREST" 1]
            = copies ascii_lower s [sample_card "Forest" 4]).
    unfold copies. cbn [sum_list_with]. change (ascii_lower (card_name (sample_card "FOREST" 1)))
      with (ascii_lower (card_name (sample_card "Forest" 3))).
    change (ascii_lower (card_name (sample_card "Forest" 4)))
      with (ascii_lower (card_name (sample_card "Forest" 3))). by case_bool_decide.
  - reflexivity.
Defined.

(** *** The text of a digest *)

Definition base32_value (c : Z) : Z := if c <? 58 then c - 48 else c - 87.

(** The number a text of base-32 digits is. *)
Definition text_value (s : text) : Z := fold_left (fun v c => v * 32 + base32_value c) s 0.

Definition base32_char (c : Z) : Prop := 48 <= c < 58 \/ 97 <= c < 119.

Lemma base32_digit_ok d : 0 <= d < 32 -> base32_char (base32_digit d) /\ base32_value (base32_digit d) = d.
Proof.
  intros Hd. unfold base32_char, base32_digit, base32_value.
  destruct (d <? 10) eqn:E; case_match; lia.
Qed.

Lemma fold_value s v :
  fold_left (fun v c => v * 32 + base32_value c) s v = v * 32 ^ Z.of_nat (length s) + text_value s.
Proof.
  unfold text_value. revert v. induction s as [|c s IH]; intros v; cbn [fold_left length]; [lia|].
  rewrite IH, (IH (0 * 32 + _)), Nat2Z.inj_succ, Z.pow_succ_r by lia. lia.
Qed.

Lemma text_value_cons c s :
  text_value (c :: s) = base32_value c * 32 ^ Z.of_nat (length s) + text_value s.
Proof. unfold text_value at 1. cbn [fold_left]. by rewrite fold_value. Qed.

Lemma text_value_zeros n s : text_value (replicate n 48 ++ s) = text_value s.
Proof. induction n as [|n IH]; [done|]. cbn [replicate app]. by rewrite text_value_cons, IH. Qed.

Lemma base32_spec f n k acc :
  0 <= n < 32 ^ Z.of_nat k -> (0 < k <= f)%nat ->
  exists s, base32 f n acc = s ++ acc /\ (length s <= k)%nat /\ text_value s = n /\ Forall base32_char s.
Proof.
  revert n k acc. induction f as [|f IH]; intros n k acc Hn Hk; [lia|].
  cbn [base32]. destruct (base32_digit_ok (n mod 32)) as [Hc Hv]; [dlia|].
  destruct (Z.eqb_spec (n / 32) 0) as [E|E].
  - exists [base32_digit (n mod 32)]. split_and!; [done|cbn; lia| |by constructor; [|constructor]].
    unfold text_value. cbn. rewrite Hv. dlia.
  - destruct k as [|k]; [lia|]. rewrite Nat2Z.inj_succ, Z.pow_succ_r in Hn by lia.
    assert (Hk0 : (k <> 0)%nat) by (intros ->; cbn in Hn; dlia).
    destruct (IH (n / 32) k (base32_digit (n mod 32) :: acc)) as (s & E1 & E2 & E3 & E4);
      [split; [dlia|apply Z.div_lt_upper_bound; lia]|lia|].
    exists (s ++ [base32_digit (n mod 32)]). split_and!.
    + by rewrite E1, <- app_assoc.
    + rewrite length_app; cbn; lia.
    + unfold text_value. rewrite fold_left_app. fold (text_value s). cbn. rewrite E3, Hv. dlia.
    + apply Forall_app; split; [done|by constructor; [|constructor]].
Qed.

Lemma shiftl_lor_add a b k : 0 <= k -> 0 <= b < 2 ^ k -> Z.lor (Z.shiftl a k) b = a * 2 ^ k + b.
Proof.
  intros Hk Hb. rewrite <- Z.shiftl_mul_pow2 by done. rewrite <- Z.add_lor_land.
  replace (Z.land (Z.shiftl a k) b) with 0; [lia|].
  symmetry. apply Z.bits_inj'. intros n Hn. rewrite Z.land_spec, Z.bits_0.
  destruct (Z.lt_ge_cases n k).
  - by rewrite Z.shiftl_spec_low.
  - rewrite <- (Z.mod_small b (2 ^ k)) by done. rewrite Z.mod_pow2_bits_high by lia. by rewrite andb_false_r.
Qed.

Lemma pack_step x b k : 0 <= k -> 0 <= b < 256 ->
  Z.lor (x * 2 ^ (k + 8)) (Z.shiftl b k) = (x * 256 + b) * 2 ^ k.
Proof.
  intros Hk Hb. replace (x * 2 ^ (k + 8)) with (Z.shiftl (Z.shiftl x 8) k).
  - rewrite <- Z.shiftl_lor, shiftl_lor_add by lia. by rewrite Z.shiftl_mul_pow2.
  - rewrite !Z.shiftl_mul_pow2, Z.pow_add_r by lia. lia.
Qed.

Definition byte (b : Z) : Prop := 0 <= b < 256.

Lemma pack_digest_eq b0 b1 b2 b3 b4 l :
  Forall byte [b0; b1; b2; b3; b4] ->
  pack_digest (b0 :: b1 :: b2 :: b3 :: b4 :: l)
  = (((b0 * 256 + b1) * 256 + b2) * 256 + b3) * 256 + b4.
Proof.
  rewrite !Forall_cons. unfold byte. intros (H0 & H1 & H2 & H3 & H4 & _).
  change (pack_digest _) with
    (Z.lor (Z.lor (Z.lor (Z.lor (Z.lor (0 * 2 ^ (32 + 8)) (Z.shiftl b0 32)) (Z.shiftl b1 24))
       (Z.shiftl b2 16)) (Z.shiftl b3 8)) (Z.shiftl b4 0)).
  rewrite pack_step by lia. change 32 with (24 + 8). rewrite pack_step by lia.
  change 24 with (16 + 8). rewrite pack_step by lia. change 16 with (8 + 8).
  rewrite pack_step by lia. change 8 with (0 + 8). rewrite pack_step by lia. lia.
Qed.

Lemma encode_value digest n :
  pack_digest digest = n -> 0 <= n < 2 ^ 40 ->
  length (encodeDeckHash digest) = 8%nat /\ text_value (encodeDeckHash digest) = n /\
  Forall base32_char (encodeDeckHash digest).
Proof.
  intros <- Hn. unfold encodeDeckHash.
  destruct (base32_spec 13 (pack_digest digest) 8 []) as (s & -> & Hlen & Hv & Hc); [done|lia|].
  rewrite app_nil_r. unfold rightJustified. split_and!.
  - rewrite length_app, length_replicate. lia.
  - by rewrite text_value_zeros.
  - apply Forall_app; split; [|done]. apply Forall_replicate. unfold base32_char. lia.
Qed.

(** The text of a deck hash is eight base-32 digits, and two digests give the
    same text exactly when their first five bytes are the same: nothing of the
    forty bits is lost to the packing or to the padding. *)
Theorem encodeDeckHash_spec (d d' : list Z)
    (Hd : (5 <= length d)%nat /\ Forall byte d) (Hd' : (5 <= length d')%nat /\ Forall byte d') :
  length (encodeDeckHash d) = 8%nat /\ Forall base32_char (encodeDeckHash d) /\
  (encodeDeckHash d = encodeDeckHash d' <-> take 5 d = take 5 d').
Proof.
  destruct Hd as [Hl Hb], Hd' as [Hl' Hb'].
  destruct d as [|b0 [|b1 [|b2 [|b3 [|b4 d]]]]]; cbn in Hl; try lia.
  destruct d' as [|c0 [|c1 [|c2 [|c3 [|c4 d']]]]]; cbn in Hl'; try lia.
  rewrite !Forall_cons in Hb, Hb'. destruct Hb as (B0 & B1 & B2 & B3 & B4 & _).
  destruct Hb' as (C0 & C1 & C2 & C3 & C4 & _).
  destruct (encode_value _ _ (pack_digest_eq b0 b1 b2 b3 b4 d ltac:(by rewrite !Forall_cons, Forall_nil)))
    as (E1 & E2 & E3); [unfold byte in *; lia|].
  destruct (encode_value _ _ (pack_digest_eq c0 c1 c2 c3 c4 d' ltac:(by rewrite !Forall_cons, Forall_nil)))
    as (F1 & F2 & F3); [unfold byte in *; lia|].
  split; [done|]. split; [done|]. cbn [take]. split.
  - intros E. rewrite E, F2 in E2. unfold byte in *.
    assert (b0 = c0 /\ b1 = c1 /\ b2 = c2 /\ b3 = c3 /\ b4 = c4) as (-> & -> & -> & -> & ->); [lia|done].
  - intros [= -> -> -> -> ->]. unfold encodeDeckHash. do 2 f_equal.
Qed.

Lemma encodeDeckHash_spec_witness :
  encodeDeckHash [0; 0; 0; 1; 255; 7] = str "000000fv" /\ encodeDeckHash [0; 0; 0; 1; 255; 7] <> encodeDeckHash [0; 0; 0; 2; 255; 7].
Proof.
  assert (H : forall l, forallb (fun b => (0 <=? b) && (b <? 256)) l = true -> Forall byte l).
  { intros l Hl. apply Forall_forall. intros b Hb. rewrite forallb_forall in Hl.
    apply list_elem_of_In in Hb. specialize (Hl b Hb). unfold byte. lia. }
  split; [vm_compute; reflexivity|]. intros E.
  destruct (encodeDeckHash_spec [0; 0; 0; 1; 255; 7] [0; 0; 0; 2; 255; 7]) as (_ & _ & Hiff).
  - split; [cbn; lia|by apply H].
  - split; [cbn; lia|by apply H].
  - by apply Hiff in E.
Defined.
