(* ===== verification/DeckFile.v ===== *)
(** * Deck files: what is written of a deck tree is read back

    The zones of a tree, written and read again, are the same but for the
    identities of the nodes, their sort methods and the legality of their cards;
    the commanders are the same copy by copy. *)
From S2P Require Import Prelude DeckTree DeckTreeCorrect.
Open Scope cockatrice_scope.
Local Open Scope Z_scope.

(** ** What a file says of a node *)

Definition strip_card (c : Card) : Card :=
  {| card_name := card_name c; number := number c; cardSetShortName := cardSetShortName c;
     cardSetNumber := cardSetNumber c; cardProviderId := cardProviderId c; formatLegal := true |}.

Fixpoint strip (n : node) : node :=
  match n with
  | CardNode _ _ c => CardNode 0 Default (strip_card c)
  | InnerNode _ _ name ks => InnerNode 0 Default name (map strip ks)
  end.

Definition strip_all (ks : list node) : list node := map strip ks.

Lemma strip_all_app k l : strip_all (k ++ l) = strip_all k ++ strip_all l.
Proof. apply map_app. Qed.

Lemma strip_name n : getName (strip n) = getName n.
Proof. by destruct n. Qed.

Lemma strip_inner n : is_inner (strip n) = is_inner n.
Proof. by destruct n. Qed.

Lemma strip_children n : children_of (strip n) = strip_all (children_of n).
Proof. by destruct n. Qed.

Lemma strip_names ks : inner_names (strip_all ks) = inner_names ks.
Proof.
  unfold inner_names, strip_all. induction ks as [|k ks IH]; [done|]. cbn.
  rewrite strip_inner. destruct (is_inner k); [|done]. cbn. by rewrite strip_name, IH.
Qed.

Lemma strip_custom ks : custom_names (strip_all ks) = custom_names ks.
Proof.
  induction ks as [|k ks IH]; [done|]. cbn [strip_all map]. fold (strip_all ks).
  rewrite !custom_names_cons, IH, strip_children. by rewrite strip_names.
Qed.

Lemma strip_cards n : collectCardsRecursive (strip n) = map strip_card (collectCardsRecursive n).
Proof.
  induction n as [|i m name ks IH] using node_tree_ind; [done|]. cbn.
  rewrite concat_map, !map_map. f_equal. apply map_ext_Forall. done.
Qed.

Lemma strip_all_cards ks : all_cards (strip_all ks) = map strip_card (all_cards ks).
Proof.
  unfold all_cards, strip_all. rewrite concat_map, !map_map. f_equal. apply map_ext, strip_cards.
Qed.

Lemma strip_count ks : count_all (strip_all ks) = count_all ks.
Proof.
  by rewrite !count_all_cards, strip_all_cards, map_map.
Qed.

(** Equal in a file. *)
Lemma same_names ks ks' : strip_all ks = strip_all ks' ->
  inner_names ks = inner_names ks' /\ custom_names ks = custom_names ks' /\ count_all ks = count_all ks'.
Proof.
  intros E. rewrite <- (strip_names ks), <- (strip_names ks'), <- (strip_custom ks), <- (strip_custom ks').
  by rewrite <- (strip_count ks), <- (strip_count ks'), E.
Qed.

Section Codec.
(** Reading a written number gives it back, for the numbers a deck can hold. *)
Context (number_text : Z -> text) (toInt : text -> Z).
Hypothesis number_codec : forall n, 0 <= n <= MAX_DECK_SIZE -> toInt (number_text n) = n.

Notation writeElement := (writeElement number_text).
Notation readElement := (readElement toInt).

Definition card_attributes (c : Card) : list (text * text) :=
  [(str "number", number_text (number c)); (str "name", card_name c)] ++
  optional_attribute (str "setShortName") (cardSetShortName c) ++
  optional_attribute (str "collectorNumber") (cardSetNumber c) ++
  optional_attribute (str "uuid") (cardProviderId c).

Lemma read_written_card c budget : 0 <= number c <= budget -> budget <= MAX_DECK_SIZE ->
  readCardElement toInt (card_attributes c) budget = strip_card c.
Proof.
  intros Hn Hb. assert (E : Z.min (toInt (number_text (number c))) budget = number c)
    by (rewrite number_codec; lia).
  assert (A : attribute (str "name") (card_attributes c) = card_name c /\
    attribute (str "number") (card_attributes c) = number_text (number c) /\
    attribute (str "setShortName") (card_attributes c) = cardSetShortName c /\
    attribute (str "collectorNumber") (card_attributes c) = cardSetNumber c /\
    attribute (str "uuid") (card_attributes c) = cardProviderId c).
  { unfold card_attributes, optional_attribute.
    destruct (bool_decide_reflect (cardSetShortName c = [])) as [->|];
      destruct (bool_decide_reflect (cardSetNumber c = [])) as [->|];
      destruct (bool_decide_reflect (cardProviderId c = [])) as [->|]; by vm_compute. }
  destruct A as (A1 & A2 & A3 & A4 & A5). unfold readCardElement, strip_card.
  by rewrite A1, A2, A3, A4, A5, E.
Qed.

(** Reading one written node takes the reader behind it and adds a node that says
    the same. *)
Definition reads_back (n : node) : Prop := forall fuel limit total next ks0 rest,
  (length (writeElement n ++ rest) < fuel)%nat ->
  Forall (fun c => 0 <= number c) (collectCardsRecursive n) ->
  0 <= total -> total + recursiveCount true n <= limit <= MAX_DECK_SIZE ->
  exists n' next' fuel', (length rest < fuel')%nat /\ strip n' = strip n /\
    readElement fuel limit total next ks0 (writeElement n ++ rest) =
    readElement fuel' limit (total + recursiveCount true n) next' (ks0 ++ [n']) rest.

Lemma reads_back_all ks : Forall reads_back ks -> forall fuel limit total next ks0 rest,
  (length (concat (map writeElement ks) ++ rest) < fuel)%nat ->
  Forall (fun c => 0 <= number c) (all_cards ks) ->
  0 <= total -> total + count_all ks <= limit <= MAX_DECK_SIZE ->
  exists ks' next' fuel', (length rest < fuel')%nat /\ strip_all ks' = strip_all ks /\
    readElement fuel limit total next ks0 (concat (map writeElement ks) ++ rest) =
    readElement fuel' limit (total + count_all ks) next' (ks0 ++ ks') rest.
Proof.
  induction 1 as [|k ks Hk _ IH]; intros fuel limit total next ks0 rest Hf Hc Ht Hl.
  { exists [], next, fuel. rewrite app_nil_r. by replace (total + count_all []) with total by (cbn; lia). }
  change (all_cards (k :: ks)) with (collectCardsRecursive k ++ all_cards ks) in Hc.
  apply Forall_app in Hc as [Hc1 Hc2]. cbn [map concat] in Hf |- *. rewrite <- app_assoc in Hf |- *.
  change (count_all (k :: ks)) with (recursiveCount true k + count_all ks) in *.
  pose proof (numbers_nonneg _ Hc1) as G1. rewrite <- count_cards in G1.
  pose proof (numbers_nonneg _ Hc2) as G2. rewrite <- count_all_cards in G2.
  destruct (Hk fuel limit total next ks0 _ Hf Hc1 Ht ltac:(lia)) as (k' & next1 & f1 & F1 & S1 & ->).
  destruct (IH f1 limit (total + recursiveCount true k) next1 (ks0 ++ [k']) rest F1 Hc2 ltac:(lia) ltac:(lia))
    as (ks' & next2 & f2 & F2 & S2 & ->).
  exists (k' :: ks'), next2, f2. split; [done|]. split; [cbn; rewrite S1; by f_equal|].
  rewrite <- app_assoc. by rewrite Z.add_assoc.
Qed.

Lemma reads_back_node n : reads_back n.
Proof.
  induction n as [i m c|i m name ks IH] using node_tree_ind; intros fuel limit total next ks0 rest Hf Hc Ht Hl.
  - destruct fuel as [|[|fuel]]; [cbn in Hf; lia..|]. exists (CardNode next Default (strip_card c)), (S next), fuel.
    cbn [collectCardsRecursive recursiveCount] in Hc, Hl |- *. apply Forall_cons in Hc as [Hc _].
    split; [cbn in Hf; lia|]. split; [done|].
    change (writeElement (CardNode i m c)) with
      [StartElement (str "card") (card_attributes c); EndElement (str "card")].
    cbn [app]. cbn [DeckTree.readElement].
    rewrite (bool_decide_eq_false_2 (str "card" = str "zone")) by done.
    rewrite bool_decide_eq_true_2 by done. by rewrite read_written_card by lia.
  - destruct fuel as [|fuel]; [cbn in Hf; lia|].
    change (writeElement (InnerNode i m name ks)) with
      (StartElement (str "zone") [(str "name", name)] :: concat (map writeElement ks) ++ [EndElement (str "zone")]) in *.
    cbn [app length] in Hf |- *. rewrite <- app_assoc in Hf |- *. cbn [DeckTree.readElement].
    rewrite (bool_decide_eq_true_2 (str "zone" = str "zone")) by done.
    change (recursiveCount true (InnerNode i m name ks)) with (count_all ks) in *.
    change (collectCardsRecursive (InnerNode i m name ks)) with (all_cards ks) in Hc.
    change (attribute (str "name") [(str "name", name)]) with name.
    destruct (reads_back_all ks IH fuel (limit - total) 0 (S next) [] ([EndElement (str "zone")] ++ rest))
      as (ks' & next' & f' & F1 & S1 & ->); [lia|done|lia|lia|].
    destruct f' as [|f']; [cbn in F1; lia|]. cbn [app DeckTree.readElement].
    rewrite bool_decide_eq_true_2 by done.
    exists (InnerNode next Default name ks'), next', fuel. split; [rewrite length_app in Hf; cbn in Hf; lia|].
    split; [cbn; by f_equal|]. done.
Qed.

(** ** Zones *)

(** A written zone whose name the tree does not have is read to its end as a new
    zone of the root. *)
Lemma read_zone i m name ks rest t : shape_ok t ->
  name ∉ inner_names (root t) -> name ∉ custom_names (root t) ->
  Forall (fun c => 0 <= number c) (all_cards ks) ->
  0 <= totalCards t -> totalCards t + count_all ks <= MAX_DECK_SIZE ->
  exists t' z', readZoneElement toInt [(str "name", name)]
      (concat (map writeElement ks) ++ EndElement (str "zone") :: rest) t = (t', rest) /\
    root t' = root t ++ [z'] /\ strip z' = strip (InnerNode i m name ks) /\
    totalCards t' = totalCards t + count_all ks /\ shape_ok t'.
Proof.
  intros Ht Hi Hcu Hc H0 Hm. set (xml := concat _ ++ _).
  pose proof (readZoneElement_shape toInt [(str "name", name)] xml t Ht) as Hs. revert Hs.
  unfold readZoneElement. change (attribute (str "name") [(str "name", name)]) with name.
  assert (Hz : getZoneObjFromName name t = new_zone name t).
  { unfold getZoneObjFromName. rewrite (proj2 (first_inner_None _ _) Hi).
    unfold findCustomZoneByName. by rewrite (proj2 (first_inner_None _ _) Hcu). }
  rewrite Hz. pose proof (so_ids _ (new_zone_shape name t Ht)) as Hnd. destruct t as [r total next].
  cbn [new_zone fresh set_root root totalCards next_id snd] in *.
  destruct (reads_back_all ks ltac:(apply Forall_forall; intros; apply reads_back_node) (S (length xml))
      (MAX_DECK_SIZE - total) 0 (S next) [] (EndElement (str "zone") :: rest))
    as (ks' & next' & [|f'] & F1 & S1 & Hr); [subst xml; lia|done|lia|lia|cbn in F1; lia|].
  fold xml in Hr. rewrite Hr. cbn [app DeckTree.readElement]. rewrite bool_decide_eq_true_2 by done.
  unfold update, set_root, fresh. cbn [root fst totalCards]. rewrite update_top by done. intros Hs.
  eexists _, (InnerNode next Default name ks'). split; [done|]. cbn [root totalCards].
  split_and!; [done|cbn; by f_equal|lia|done].
Qed.

(** ** Commanders *)

(** One card per copy. *)
Definition unit_card (c : Card) : Card := with_number 1 (strip_card c).

Definition card_copies (cs : list Card) : list Card :=
  concat (map (fun c => replicate (Z.to_nat (number c)) (unit_card c)) cs).

Lemma card_copies_app cs cs' : card_copies (cs ++ cs') = card_copies cs ++ card_copies cs'.
Proof. unfold card_copies. by rewrite map_app, concat_app. Qed.

Lemma card_copies_units cs : Forall (fun u => u = unit_card u) (card_copies cs).
Proof.
  unfold card_copies. induction cs as [|c cs IH]; cbn; [done|]. apply Forall_app. split; [|done].
  by apply Forall_replicate.
Qed.

Lemma card_copies_length cs : Forall (fun c => 0 <= number c) cs ->
  Z.of_nat (length (card_copies cs)) = zsum (map number cs).
Proof.
  unfold card_copies. induction 1 as [|c cs Hc _ IH]; [done|]. cbn [map concat zsum].
  rewrite length_app, length_replicate. lia.
Qed.

Lemma card_copies_next cs c : 0 < number c ->
  card_copies (cs ++ [with_number (number c + 1) c]) = card_copies (cs ++ [c]) ++ [unit_card c].
Proof.
  intros Hc. rewrite !card_copies_app, <- app_assoc. f_equal. unfold card_copies. cbn [map concat with_number number].
  rewrite !app_nil_r. replace (Z.to_nat (number c + 1)) with (Z.to_nat (number c) + 1)%nat by lia.
  by rewrite replicate_add.
Qed.

(** The tree and the node read last, where the declarations [us] were read behind
    the zones [zs]. *)
Definition declared (zs : list node) (us : list Card) (previous : option (nat * Card))
    (t : DecklistNodeTree) : Prop :=
  match previous with
  | None => us = [] /\ root t = zs
  | Some (i, c) => exists z m k ks,
      root t = zs ++ [InnerNode z m DECK_ZONE_COMMANDER (ks ++ [CardNode i k c])] /\
      card_copies (all_cards ks ++ [c]) = us /\
      Forall (fun c => 0 < number c) (all_cards ks ++ [c]) /\
      Forall (fun n => is_inner n = false) ks
  end.

Lemma declared_previous zs us previous t : declared zs us previous t -> previous_ok previous t.
Proof.
  intros Hd i c ->. destruct Hd as (z & m & k & ks & -> & _). rewrite all_idcards_app.
  unfold all_idcards at 2. cbn [map concat idcards]. fold (all_idcards (ks ++ [CardNode i k c])).
  rewrite all_idcards_app, app_nil_r. cbn. exists (all_idcards zs ++ all_idcards ks).
  rewrite app_assoc. symmetry. apply Permutation_cons_append.
Qed.

Lemma set_card_absent z n k : z ∉ ids k -> set_card z n k = k.
Proof.
  induction k as [i m c|i m name ks IH] using node_tree_ind; cbn; intros Hz.
  - rewrite (proj2 (Nat.eqb_neq i z)); [done|]. set_solver.
  - f_equal. apply not_elem_of_cons in Hz as [_ Hz]. fold (all_ids ks) in Hz.
    induction IH as [|k ks Hk _ IH']; [done|]. rewrite deck_all_ids_cons in Hz.
    apply not_elem_of_app in Hz as [H1 H2]. cbn. f_equal; auto.
Qed.

Lemma map_set_card_absent z n ks : z ∉ all_ids ks -> map (set_card z n) ks = ks.
Proof.
  induction ks as [|k ks IH]; [done|]. rewrite deck_all_ids_cons, not_elem_of_app. intros [H1 H2].
  cbn. rewrite set_card_absent by done. f_equal. auto.
Qed.

(** Counting the last commander up, behind other nodes. *)
Lemma set_last zs z m name ks i k c n :
  NoDup (all_ids (zs ++ [InnerNode z m name (ks ++ [CardNode i k c])])) ->
  map (set_card i n) (zs ++ [InnerNode z m name (ks ++ [CardNode i k c])]) =
  zs ++ [InnerNode z m name (ks ++ [CardNode i k (with_number n c)])].
Proof.
  rewrite deck_all_ids_app. unfold all_ids at 2. cbn [map concat ids]. fold (all_ids (ks ++ [CardNode i k c])).
  rewrite app_nil_r, deck_all_ids_app. change (all_ids [CardNode i k c]) with [i]. intros (_ & H1 & H2)%NoDup_app.
  apply NoDup_cons in H2 as [_ (_ & H3 & _)%NoDup_app].
  assert (Hks : i ∉ all_ids ks) by (intros Hin; apply (H3 i Hin); set_solver).
  assert (Hzs : i ∉ all_ids zs).
  { intros Hin. apply (H1 i Hin). rewrite elem_of_cons, elem_of_app. set_solver. }
  rewrite map_app, map_set_card_absent by done. cbn [map set_card].
  rewrite map_app, map_set_card_absent by done. cbn [map set_card]. by rewrite Nat.eqb_refl.
Qed.

Lemma unit_card_eq u : u = unit_card u ->
  {| card_name := card_name u; number := 1; cardSetShortName := cardSetShortName u;
     cardSetNumber := cardSetNumber u; cardProviderId := cardProviderId u; formatLegal := true |} = u /\
  number u = 1.
Proof. intros ->. done. Qed.

Lemma declare_add zs us previous t u :
  u = unit_card u -> declared zs us previous t -> shape_ok t ->
  DECK_ZONE_COMMANDER ∉ inner_names zs -> DECK_ZONE_COMMANDER ∉ custom_names zs ->
  totalCards t < MAX_DECK_SIZE ->
  let res := addCard (card_name u) 1 DECK_ZONE_COMMANDER (-1) (cardSetShortName u) (cardSetNumber u)
               (cardProviderId u) true t in
  declared zs (us ++ [u]) (Some (res.1, u)) res.2 /\ totalCards res.2 = totalCards t + 1.
Proof.
  intros Hu Hd Ht Hi Hc Hm. unfold addCard. rewrite Z.min_l by lia.
  set (t0 := set_total _ t). assert (Ht0 : shape_ok t0) by (by destruct Ht).
  assert (Hg : exists z m ks, let g := getZoneObjFromName DECK_ZONE_COMMANDER t0 in
    g.1 = z /\ root g.2 = zs ++ [InnerNode z m DECK_ZONE_COMMANDER ks] /\ card_copies (all_cards ks) = us /\
    Forall (fun c => 0 < number c) (all_cards ks) /\
    Forall (fun n => is_inner n = false) ks /\ shape_ok g.2 /\ totalCards g.2 = totalCards t + 1).
  { unfold getZoneObjFromName. destruct previous as [[i c]|].
    - destruct Hd as (z & m & k & ks & Hr & E & Hpos & Hks).
      assert (Ef : first_inner DECK_ZONE_COMMANDER (root t0)
                   = Some (InnerNode z m DECK_ZONE_COMMANDER (ks ++ [CardNode i k c]))).
      { change (root t0) with (root t). rewrite Hr, first_inner_app.
        rewrite (proj2 (first_inner_None _ _) Hi). done. }
      rewrite Ef. exists z, m, (ks ++ [CardNode i k c]). cbn zeta. split_and!; try done; try by rewrite all_cards_app.
      apply Forall_app. by split; [|repeat constructor].
    - destruct Hd as [-> Hr]. change (root t0) with (root t).
      rewrite (proj2 (first_inner_None _ _)) by (by rewrite Hr).
      unfold findCustomZoneByName. change (root t0) with (root t).
      rewrite (proj2 (first_inner_None _ _)) by (rewrite Hr; exact Hc).
      exists (next_id t0), Default, []. cbn zeta. split_and!; [done| |done|constructor|constructor|by apply new_zone_shape|done].
      cbn. by rewrite Hr. }
  destruct Hg as (z & m & ks & Hg). destruct (getZoneObjFromName DECK_ZONE_COMMANDER t0) as [z' t1].
  cbn [fst snd] in *. destruct Hg as (-> & Hr1 & E & Hpos & Hks & Ht1 & Htot).
  split; [|done]. exists z, m, Default, ks. cbn [fresh update set_root root].
  pose proof (so_ids _ Ht1) as Hnd. rewrite Hr1 in Hnd |- *. rewrite update_top by done.
  destruct (unit_card_eq u Hu) as [Eu En].
  change (place (-1) ?n ks) with (ks ++ [n]). rewrite Eu. split; [done|].
  split; [|split; [apply Forall_app; split; [done|constructor; [lia|done]]|done]].
  rewrite card_copies_app, E. f_equal. unfold card_copies. cbn [map concat].
  by rewrite app_nil_r, En, <- Hu.
Qed.

(** What the next declaration does, whether it repeats the card before it or not. *)
Lemma declare_back zs us previous t u :
  u = unit_card u -> declared zs us previous t -> shape_ok t ->
  DECK_ZONE_COMMANDER ∉ inner_names zs -> DECK_ZONE_COMMANDER ∉ custom_names zs ->
  totalCards t < MAX_DECK_SIZE ->
  let res := declare_commander (card_name u) (cardSetShortName u) (cardSetNumber u) (cardProviderId u)
               previous t in
  declared zs (us ++ [u]) (Some res.1) res.2 /\ totalCards res.2 = totalCards t + 1.
Proof.
  intros Hu Hd Ht Hi Hc Hm. pose proof (declare_add zs us previous t u Hu Hd Ht Hi Hc Hm) as Hadd.
  unfold declare_commander. destruct (unit_card_eq u Hu) as [Eu En]. rewrite Eu.
  destruct (addCard _ _ _ _ _ _ _ _ _) as [z1 t1]. cbn [fst snd] in Hadd.
  destruct previous as [[i c]|]; [|exact Hadd].
  destruct (same_printing c _ _ _ _) eqn:Hsame; [|exact Hadd]. clear Hadd.
  unfold same_printing in Hsame. rewrite !andb_true_iff, !bool_decide_eq_true in Hsame.
  destruct Hsame as (((E1 & E2) & E3) & E4).
  assert (Ec : unit_card c = u).
  { rewrite Hu. unfold unit_card, with_number, strip_card. cbn. by rewrite E1, E2, E3, E4. }
  destruct Hd as (z & m & k & ks & Hr & E & Hpos & Hks). cbn [fst snd]. split; [|done].
  exists z, m, k, ks. cbn [set_total root setNumber set_root]. rewrite Hr, set_last by (rewrite <- Hr; apply Ht).
  split; [done|]. apply Forall_app in Hpos as [Hp1 (Hp2 & _)%Forall_cons]. split; [|split; [|done]].
  - rewrite <- E, <- Ec. apply card_copies_next. exact Hp2.
  - apply Forall_app. split; [done|]. apply Forall_cons. split; [cbn; lia|done].
Qed.

Lemma written_commander u rest :
  concat (map write_commander (u :: rest)) =
  StartElement (str "commander")
    ((str "providerId", cardProviderId u) ::
     optional_attribute (str "setShortName") (cardSetShortName u) ++
     optional_attribute (str "collectorNumber") (cardSetNumber u)) ::
  Characters (card_name u) :: EndElement (str "commander") :: concat (map write_commander rest).
Proof. done. Qed.

Lemma commander_attributes u :
  let attributes := (str "providerId", cardProviderId u) ::
     optional_attribute (str "setShortName") (cardSetShortName u) ++
     optional_attribute (str "collectorNumber") (cardSetNumber u) in
  attribute (str "providerId") attributes = cardProviderId u /\
  attribute (str "setShortName") attributes = cardSetShortName u /\
  attribute (str "collectorNumber") attributes = cardSetNumber u.
Proof.
  unfold optional_attribute.
  destruct (bool_decide_reflect (cardSetShortName u = [])) as [->|];
    destruct (bool_decide_reflect (cardSetNumber u = [])) as [->|]; by vm_compute.
Qed.

(** The declarations are read back one by one. *)
Lemma read_commanders_back new : forall fuel zs us previous t tag rest,
  (length (concat (map write_commander new) ++ EndElement tag :: rest) < fuel)%nat ->
  Forall (fun u => u = unit_card u) new -> declared zs us previous t -> shape_ok t ->
  DECK_ZONE_COMMANDER ∉ inner_names zs -> DECK_ZONE_COMMANDER ∉ custom_names zs ->
  totalCards t + Z.of_nat (length new) <= MAX_DECK_SIZE ->
  exists previous' t',
    read_commanders fuel true previous (concat (map write_commander new) ++ EndElement tag :: rest) t
    = (true, t', rest) /\
    declared zs (us ++ new) previous' t' /\ totalCards t' = totalCards t + Z.of_nat (length new) /\ shape_ok t'.
Proof.
  induction new as [|u new IH]; intros fuel zs us previous t tag rest Hf Hnew Hd Ht Hi Hc Hm.
  { destruct fuel as [|fuel]; [cbn in Hf; lia|]. exists previous, t. cbn. rewrite app_nil_r, Z.add_0_r. done. }
  apply Forall_cons in Hnew as [Hu Hnew]. cbn [length] in Hm |- *. rewrite Nat2Z.inj_succ in Hm |- *.
  rewrite written_commander in Hf |- *. destruct fuel as [|fuel]; [cbn in Hf; lia|].
  cbn [app length] in Hf |- *. cbn [read_commanders]. rewrite bool_decide_eq_true_2 by done. cbn [negb].
  destruct (commander_attributes u) as (A1 & A2 & A3). cbv zeta. rewrite A1, A2, A3.
  cbn [readElementText app]. rewrite (proj2 (Z.leb_gt _ _)) by lia.
  pose proof (declare_back zs us previous t u Hu Hd Ht Hi Hc ltac:(lia)) as [D1 D2].
  pose proof (declare_commander_ok (card_name u) (cardSetShortName u) (cardSetNumber u) (cardProviderId u)
    previous t Ht (declared_previous _ _ _ _ Hd) ltac:(lia)) as (S1 & _).
  destruct (declare_commander _ _ _ _ _ _) as [p1 t1]. cbn [fst snd] in *. cbn [andb].
  destruct (IH fuel zs (us ++ [u]) (Some p1) t1 tag rest ltac:(lia) Hnew D1 S1 Hi Hc ltac:(lia))
    as (p2 & t2 & R1 & R2 & R3 & R4).
  exists p2, t2. rewrite <- app_assoc in R2. split_and!; [done|done|lia|done].
Qed.

Lemma written_copies cs :
  concat (map (fun c => concat (replicate (Z.to_nat (number c)) (write_commander c))) cs)
  = concat (map write_commander (card_copies cs)).
Proof.
  induction cs as [|c cs IH]; [done|].
  change (card_copies (c :: cs)) with (replicate (Z.to_nat (number c)) (unit_card c) ++ card_copies cs).
  rewrite map_app, concat_app, <- IH. cbn [map concat]. f_equal. f_equal.
  change (map write_commander ?l) with (write_commander <$> l). by rewrite fmap_replicate.
Qed.
End Codec.

(** ** The content of a tree *)

Definition board_zones (t : DecklistNodeTree) : list node :=
  List.filter (fun n => negb (bool_decide (getName n = DECK_ZONE_COMMANDER))) (root t).

Definition commander_copies (t : DecklistNodeTree) : list Card :=
  card_copies (getCardNodes [DECK_ZONE_COMMANDER] t).

(** Where no custom zone has the name of the commanders' board, it is no zone's
    custom name and the other boards have other names. *)
Lemma commander_zone_filter ks : DECK_ZONE_COMMANDER ∉ inner_names ks ->
  List.filter (fun n => is_inner n && (bool_decide ([DECK_ZONE_COMMANDER] = []) ||
    bool_decide (getName n ∈ [DECK_ZONE_COMMANDER]))) ks = [].
Proof.
  unfold inner_names. induction ks as [|k ks IH]; [done|]. cbn [List.filter]. destruct (is_inner k) eqn:Hk; cbn.
  - intros Hn. rewrite bool_decide_eq_false_2; [apply IH; set_solver|]. set_solver.
  - intros Hn. by apply IH.
Qed.

Lemma declared_content zs us previous t :
  declared zs us previous t -> DECK_ZONE_COMMANDER ∉ inner_names zs ->
  Forall (fun n => is_inner n = true) zs ->
  board_zones t = zs /\ commander_copies t = us /\
  Forall (fun c => 0 <= number c) (getCardNodes [DECK_ZONE_COMMANDER] t).
Proof.
  intros Hd Hi Hin. rewrite all_inner_names in Hi by done.
  assert (Hz : List.filter (fun n => negb (bool_decide (getName n = DECK_ZONE_COMMANDER))) zs = zs).
  { clear Hd Hin. induction zs as [|z zs IH]; [done|]. cbn in Hi |- *.
    rewrite bool_decide_eq_false_2 by set_solver. cbn. f_equal. apply IH. set_solver. }
  rewrite <- all_inner_names in Hi by done.
  unfold board_zones, commander_copies, getCardNodes, getZoneNodes.
  destruct previous as [[i c]|]; [|destruct Hd as [-> Hr]; rewrite Hr, commander_zone_filter; done].
  destruct Hd as (z & m & k & ks & Hr & E & Hpos & _). rewrite Hr, !List.filter_app, Hz, commander_zone_filter by done.
  split; [by rewrite app_nil_r|]. rewrite <- E. cbn [List.filter is_inner getName].
  rewrite (bool_decide_eq_true_2 (_ ∈ [_])) by set_solver. rewrite orb_true_r. cbn [andb app map concat].
  rewrite app_nil_r. change (collectCardsRecursive (InnerNode z m DECK_ZONE_COMMANDER ?l)) with (all_cards l).
  rewrite all_cards_app. split; [done|]. eapply Forall_impl; [exact Hpos|]. cbn. lia.
Qed.

(** The names of a tree that was read. *)
Lemma declared_names zs us previous t : declared zs us previous t ->
  NoDup (inner_names zs ++ custom_names zs) ->
  Forall (fun name => reserved name = false) (custom_names zs) ->
  DECK_ZONE_COMMANDER ∉ inner_names zs -> names_ok t.
Proof.
  intros Hd Hnd Hres Hi. destruct previous as [[i c]|]; [|destruct Hd as [_ Hr]; constructor; by rewrite Hr].
  destruct Hd as (z & m & k & ks & Hr & _ & _ & Hks).
  assert (Ein : inner_names (ks ++ [CardNode i k c]) = []).
  { rewrite inner_names_app. unfold inner_names. cbn. rewrite app_nil_r. clear Hr.
    induction Hks as [|n ks Hn _ IH]; [done|]. cbn. by rewrite Hn. }
  assert (Ecu : custom_names (root t) = custom_names zs).
  { rewrite Hr, custom_names_app, custom_names_cons. cbn [children_of]. by rewrite Ein, app_nil_r. }
  constructor; rewrite Ecu; [|done]. rewrite Hr, inner_names_app.
  change (inner_names [InnerNode z m DECK_ZONE_COMMANDER ?l]) with [DECK_ZONE_COMMANDER].
  assert (Hp : (inner_names zs ++ [DECK_ZONE_COMMANDER]) ++ custom_names zs ≡ₚ
               DECK_ZONE_COMMANDER :: (inner_names zs ++ custom_names zs)) by solve_Permutation.
  rewrite Hp. apply NoDup_cons. split; [|done]. rewrite not_elem_of_app. split; [done|].
  intros Hin. rewrite Forall_forall in Hres. by specialize (Hres _ Hin).
Qed.
