(* ===== verification/DeckList.v ===== *)
(** * The deck: [deck_list.cpp], [sideboard_plan.cpp], [deck_list_history_manager.cpp]

    A deck is its metadata, its sideboard plans and its tree, with a cached hash.
    Its native form is a list of XML tokens, which stands for the string of
    [writeToString_Native] too; a [Reader] is what [QXmlStreamReader] has still to
    read. The history keeps such forms on two stacks.

    Floating-point numbers, the conversions of texts to standard strings, numbers
    and lower case, and SHA-1 are arguments. *)
From S2P Require Import Prelude DeckTree.
Open Scope cockatrice_scope.
Local Open Scope Z_scope.

(** ** Data *)

(** What the code asks of [double]: [toDouble], [QString::number(x, 'f', 4)],
    [qBound] and its literals, [literal n d] for n / d. *)
Class Doubles : Type := {
  double : Type;
  toDouble : text -> option double;
  number_f4 : double -> text;
  qBound : double -> double -> double -> double;
  literal : Z -> Z -> double
}.

Record CardRef : Type := { ref_name : text; ref_providerId : text }.

Definition no_card : CardRef := {| ref_name := []; ref_providerId := [] |}.

Definition CardRef_isEmpty (c : CardRef) : bool :=
  bool_decide (ref_name c = []) && bool_decide (ref_providerId c = []).

Record MoveCard_ToZone : Type := { move_card_name : text; start_zone : text; target_zone : text }.

Record SideboardPlan : Type := { plan_name : text; moveList : list MoveCard_ToZone }.

Definition empty_plan : SideboardPlan := {| plan_name := []; moveList := [] |}.

(** A [QMap] with text keys: in the order of its keys. *)
Definition PlanMap : Type := list (text * SideboardPlan).

Fixpoint insert_plan (key : text) (p : SideboardPlan) (l : PlanMap) : PlanMap :=
  match l with
  | [] => [(key, p)]
  | (k, q) :: l' =>
      if lex_lt key k then (key, p) :: l
      else if bool_decide (key = k) then (key, p) :: l'
      else (k, q) :: insert_plan key p l'
  end.

Fixpoint find_plan (key : text) (l : PlanMap) : option SideboardPlan :=
  match l with
  | [] => None
  | (k, q) :: l => if bool_decide (k = key) then Some q else find_plan key l
  end.

(** What is still to be read: the tokens, whether an error was raised, and whether
    the tokens are those of a whole document. *)
Record Reader : Type := { tokens : list token; failed : bool; whole : bool }.

Definition with_tokens (l : list token) (r : Reader) : Reader :=
  {| tokens := l; failed := failed r; whole := whole r |}.

(** [xml->error()] where all tokens were read. *)
Definition error_at_end (r : Reader) : bool :=
  failed r || (bool_decide (tokens r = []) && negb (whole r)).

Definition read_text (r : Reader) : text * Reader :=
  let '(s, ok, l) := readElementText [] (tokens r) in
  (s, {| tokens := l; failed := failed r || negb ok; whole := whole r |}).

(** [writeTextElement]. *)
Definition text_element (tag s : text) : list token :=
  [StartElement tag []; Characters s; EndElement tag].

Section Deck.
Context `{Doubles}.
Context (number_text : Z -> text) (toInt : text -> Z) (toStdString fromStdString : text -> text).
Context (toLower : text -> text) (sha1 : text -> list Z).

(** ** Metadata *)

Record PlaymatParams : Type := {
  marginPctL : double; marginPctR : double; verticalOffset : double; zoom : double
}.

Definition default_params : PlaymatParams :=
  {| marginPctL := literal 7 100; marginPctR := literal 7 100; verticalOffset := literal 33 100;
     zoom := literal 1 1 |}.

Record PlaymatInfo : Type := { playmat_card : CardRef; params : PlaymatParams }.

Record Metadata : Type := {
  deckname : text;
  comments : text;
  gameFormat : text;
  bannerCard : CardRef;
  tags : list text;
  lastLoadedTimestamp : text;
  playmat : PlaymatInfo
}.

Definition empty_metadata : Metadata :=
  {| deckname := []; comments := []; gameFormat := []; bannerCard := no_card; tags := [];
     lastLoadedTimestamp := []; playmat := {| playmat_card := no_card; params := default_params |} |}.

Definition with_deckname (s : text) (m : Metadata) : Metadata :=
  {| deckname := s; comments := comments m; gameFormat := gameFormat m; bannerCard := bannerCard m;
     tags := tags m; lastLoadedTimestamp := lastLoadedTimestamp m; playmat := playmat m |}.
Definition with_comments (s : text) (m : Metadata) : Metadata :=
  {| deckname := deckname m; comments := s; gameFormat := gameFormat m; bannerCard := bannerCard m;
     tags := tags m; lastLoadedTimestamp := lastLoadedTimestamp m; playmat := playmat m |}.
Definition with_gameFormat (s : text) (m : Metadata) : Metadata :=
  {| deckname := deckname m; comments := comments m; gameFormat := s; bannerCard := bannerCard m;
     tags := tags m; lastLoadedTimestamp := lastLoadedTimestamp m; playmat := playmat m |}.
Definition with_bannerCard (c : CardRef) (m : Metadata) : Metadata :=
  {| deckname := deckname m; comments := comments m; gameFormat := gameFormat m; bannerCard := c;
     tags := tags m; lastLoadedTimestamp := lastLoadedTimestamp m; playmat := playmat m |}.
Definition with_tags (l : list text) (m : Metadata) : Metadata :=
  {| deckname := deckname m; comments := comments m; gameFormat := gameFormat m;
     bannerCard := bannerCard m; tags := l; lastLoadedTimestamp := lastLoadedTimestamp m;
     playmat := playmat m |}.
Definition with_timestamp (s : text) (m : Metadata) : Metadata :=
  {| deckname := deckname m; comments := comments m; gameFormat := gameFormat m;
     bannerCard := bannerCard m; tags := tags m; lastLoadedTimestamp := s; playmat := playmat m |}.
Definition with_playmat (p : PlaymatInfo) (m : Metadata) : Metadata :=
  {| deckname := deckname m; comments := comments m; gameFormat := gameFormat m;
     bannerCard := bannerCard m; tags := tags m; lastLoadedTimestamp := lastLoadedTimestamp m;
     playmat := p |}.

Definition parseClampedParam (valueString : text) (fallback min max : double) : double :=
  match toDouble valueString with
  | Some value => qBound min value max
  | None => fallback
  end.

(** The parameters from their attributes. *)
Definition read_params (l r v z : text) : PlaymatParams :=
  {| marginPctL := parseClampedParam l (literal 7 100) (literal 0 1) (literal 95 100);
     marginPctR := parseClampedParam r (literal 7 100) (literal 0 1) (literal 95 100);
     verticalOffset := parseClampedParam v (literal 33 100) (literal 0 1) (literal 1 1);
     zoom := parseClampedParam z (literal 1 1) (literal 1 10) (literal 4 1) |}.

Definition readBannerCard (attributes : list (text * text)) (r : Reader) : CardRef * Reader :=
  let '(s, r) := read_text r in
  ({| ref_name := s; ref_providerId := attribute (str "providerId") attributes |}, r).

Definition readPlaymatCard (attributes : list (text * text)) (r : Reader) : PlaymatInfo * Reader :=
  let '(s, r) := read_text r in
  ({| playmat_card := {| ref_name := s; ref_providerId := attribute (str "providerId") attributes |};
      params := read_params (attribute (str "marginPctL") attributes)
                  (attribute (str "marginPctR") attributes)
                  (attribute (str "verticalOffset") attributes) (attribute (str "zoom") attributes) |}, r).

(** The loop over the tags: [readNextStartElement] skips to a start tag, or stops
    behind an end tag; an element that is no tag is stepped into. *)
Fixpoint read_tags (fuel : nat) (acc : list text) (r : Reader) : list text * Reader :=
  match fuel with
  | O => (acc, r)
  | S f =>
      match tokens r with
      | [] => (acc, r)
      | Characters _ :: l => read_tags f acc (with_tokens l r)
      | EndElement _ :: l => (acc, with_tokens l r)
      | StartElement name _ :: l =>
          if bool_decide (name = str "tag") then
            let '(s, r) := read_text (with_tokens l r) in read_tags f (acc ++ [s]) r
          else read_tags f acc (with_tokens l r)
      end
  end.

(** [Metadata::readElement] at a start tag; [None] where the element is no
    metadata. *)
Definition metadata_readElement (childName : text) (attributes : list (text * text)) (m : Metadata)
    (r : Reader) : option (Metadata * Reader) :=
  if bool_decide (childName = str "lastLoadedTimestamp") then
    let '(s, r) := read_text r in Some (with_timestamp s m, r)
  else if bool_decide (childName = str "deckname") then
    let '(s, r) := read_text r in Some (with_deckname s m, r)
  else if bool_decide (childName = str "format") then
    let '(s, r) := read_text r in Some (with_gameFormat s m, r)
  else if bool_decide (childName = str "comments") then
    let '(s, r) := read_text r in Some (with_comments s m, r)
  else if bool_decide (childName = str "bannerCard") then
    let '(c, r) := readBannerCard attributes r in Some (with_bannerCard c m, r)
  else if bool_decide (childName = str "playmatCard") then
    let '(p, r) := readPlaymatCard attributes r in Some (with_playmat p m, r)
  else if bool_decide (childName = str "tags") then
    let '(l, r) := read_tags (S (length (tokens r))) [] r in Some (with_tags l m, r)
  else None.

(** [Metadata::write]. *)
Definition write_playmat (p : PlaymatInfo) : list token :=
  if CardRef_isEmpty (playmat_card p) then []
  else
    [StartElement (str "playmatCard")
       [(str "providerId", ref_providerId (playmat_card p));
        (str "marginPctL", number_f4 (marginPctL (params p)));
        (str "marginPctR", number_f4 (marginPctR (params p)));
        (str "verticalOffset", number_f4 (verticalOffset (params p)));
        (str "zoom", number_f4 (zoom (params p)))];
     Characters (ref_name (playmat_card p)); EndElement (str "playmatCard")].

Definition write_metadata (m : Metadata) : list token :=
  text_element (str "lastLoadedTimestamp") (lastLoadedTimestamp m) ++
  text_element (str "deckname") (deckname m) ++
  text_element (str "format") (gameFormat m) ++
  [StartElement (str "bannerCard") [(str "providerId", ref_providerId (bannerCard m))];
   Characters (ref_name (bannerCard m)); EndElement (str "bannerCard")] ++
  write_playmat (playmat m) ++
  text_element (str "comments") (comments m) ++
  [StartElement (str "tags") []] ++ concat (map (text_element (str "tag")) (tags m)) ++
  [EndElement (str "tags")].

(** ** Sideboard plans *)

Fixpoint readMoveCardToZone (fuel : nat) (move : MoveCard_ToZone) (r : Reader)
    : option MoveCard_ToZone * Reader :=
  match fuel with
  | O => (None, r)
  | S f =>
      match tokens r with
      | [] => (None, r)
      | StartElement childName _ :: l =>
          let r := with_tokens l r in
          if bool_decide (childName = str "card_name") then
            let '(s, r) := read_text r in
            readMoveCardToZone f {| move_card_name := toStdString s; start_zone := start_zone move;
                                    target_zone := target_zone move |} r
          else if bool_decide (childName = str "start_zone") then
            let '(s, r) := read_text r in
            readMoveCardToZone f {| move_card_name := move_card_name move; start_zone := toStdString s;
                                    target_zone := target_zone move |} r
          else if bool_decide (childName = str "target_zone") then
            let '(s, r) := read_text r in
            readMoveCardToZone f {| move_card_name := move_card_name move; start_zone := start_zone move;
                                    target_zone := toStdString s |} r
          else readMoveCardToZone f move r
      | EndElement childName :: l =>
          let r := with_tokens l r in
          if bool_decide (childName = str "move_card_to_zone") then (Some move, r)
          else readMoveCardToZone f move r
      | Characters _ :: l => readMoveCardToZone f move (with_tokens l r)
      end
  end.

Definition empty_move : MoveCard_ToZone :=
  {| move_card_name := []; start_zone := []; target_zone := [] |}.

(** [SideboardPlan::readElement]: the plan, and whether its end was read. *)
Fixpoint plan_readElement (fuel : nat) (p : SideboardPlan) (r : Reader) : bool * SideboardPlan * Reader :=
  match fuel with
  | O => (false, p, r)
  | S f =>
      match tokens r with
      | [] => (false, p, r)
      | StartElement childName _ :: l =>
          let r := with_tokens l r in
          if bool_decide (childName = str "name") then
            let '(s, r) := read_text r in
            plan_readElement f {| plan_name := s; moveList := moveList p |} r
          else if bool_decide (childName = str "move_card_to_zone") then
            let '(move, r) := readMoveCardToZone (S (length l)) empty_move r in
            plan_readElement f {| plan_name := plan_name p; moveList := moveList p ++ option_list move |} r
          else plan_readElement f p r
      | EndElement childName :: l =>
          let r := with_tokens l r in
          if bool_decide (childName = str "sideboard_plan") then (true, p, r)
          else plan_readElement f p r
      | Characters _ :: l => plan_readElement f p (with_tokens l r)
      end
  end.

Definition write_move (i : MoveCard_ToZone) : list token :=
  [StartElement (str "move_card_to_zone") []] ++
  text_element (str "card_name") (fromStdString (move_card_name i)) ++
  text_element (str "start_zone") (fromStdString (start_zone i)) ++
  text_element (str "target_zone") (fromStdString (target_zone i)) ++
  [EndElement (str "move_card_to_zone")].

Definition write_plan (p : SideboardPlan) : list token :=
  [StartElement (str "sideboard_plan") []] ++ text_element (str "name") (plan_name p) ++
  concat (map write_move (moveList p)) ++ [EndElement (str "sideboard_plan")].

(** ** The deck *)

Record DeckList : Type := {
  metadata : Metadata;
  sideboardPlans : PlanMap;
  tree : DecklistNodeTree;
  cachedDeckHash : text
}.

Definition with_metadata (m : Metadata) (d : DeckList) : DeckList :=
  {| metadata := m; sideboardPlans := sideboardPlans d; tree := tree d; cachedDeckHash := cachedDeckHash d |}.
Definition with_plans (l : PlanMap) (d : DeckList) : DeckList :=
  {| metadata := metadata d; sideboardPlans := l; tree := tree d; cachedDeckHash := cachedDeckHash d |}.
Definition with_tree (t : DecklistNodeTree) (d : DeckList) : DeckList :=
  {| metadata := metadata d; sideboardPlans := sideboardPlans d; tree := t; cachedDeckHash := cachedDeckHash d |}.

(** The setters of the metadata. *)
Definition on_metadata (f : Metadata -> Metadata) (d : DeckList) : DeckList := with_metadata (f (metadata d)) d.
Definition setName (s : text) : DeckList -> DeckList := on_metadata (with_deckname s).
Definition setComments (s : text) : DeckList -> DeckList := on_metadata (with_comments s).
Definition setTags (l : list text) : DeckList -> DeckList := on_metadata (with_tags l).
Definition addTag (s : text) : DeckList -> DeckList := on_metadata (fun m => with_tags (tags m ++ [s]) m).
Definition clearTags : DeckList -> DeckList := on_metadata (with_tags []).
Definition setBannerCard (c : CardRef) : DeckList -> DeckList := on_metadata (with_bannerCard c).
Definition setPlaymat (p : PlaymatInfo) : DeckList -> DeckList := on_metadata (with_playmat p).
Definition setLastLoadedTimestamp (s : text) : DeckList -> DeckList := on_metadata (with_timestamp s).
Definition setGameFormat (s : text) : DeckList -> DeckList := on_metadata (with_gameFormat s).

Definition refreshDeckHash (d : DeckList) : DeckList :=
  {| metadata := metadata d; sideboardPlans := sideboardPlans d; tree := tree d; cachedDeckHash := [] |}.

(** The hash, and the deck with its cache filled. *)
Definition getDeckHash (d : DeckList) : text * DeckList :=
  if negb (bool_decide (cachedDeckHash d = [])) then (cachedDeckHash d, d)
  else
    let h := computeDeckHash toLower sha1 (tree d) in
    (h, {| metadata := metadata d; sideboardPlans := sideboardPlans d; tree := tree d;
           cachedDeckHash := h |}).

Definition cleanList (preserveMetadata : bool) (d : DeckList) : DeckList :=
  let d := with_tree (clear preserveMetadata (tree d)) d in
  refreshDeckHash (if preserveMetadata then d else with_metadata empty_metadata d).

(** [addCards]: the new node, unless the amount is not positive. *)
Definition addCards (name : text) (amount : Z) (zoneName : text) (position : Z)
    (setName collectorNumber providerId : text) (legal : bool) (d : DeckList) : option nat * DeckList :=
  if amount <=? 0 then (None, d)
  else
    let '(z, t) := DeckTree.addCard name amount zoneName position setName collectorNumber providerId legal (tree d) in
    (Some z, refreshDeckHash (with_tree t d)).

Definition setCommanders (commanders : list CardRef) (d : DeckList) : DeckList :=
  with_tree
    (fold_left (fun t c =>
       (DeckTree.addCard (ref_name c) 1 DECK_ZONE_COMMANDER (-1) [] [] (ref_providerId c) true t).2)
       commanders (clearCommanders (tree d))) d.

Definition getCommanders (d : DeckList) : list CardRef :=
  concat (map (fun c => replicate (Z.to_nat (number c))
                          {| ref_name := card_name c; ref_providerId := cardProviderId c |})
            (getCardNodes [DECK_ZONE_COMMANDER] (tree d))).

(** [CURRENT_SIDEBOARD_PLAN_KEY] is the empty text. *)
Definition getCurrentSideboardPlan (d : DeckList) : list MoveCard_ToZone :=
  match find_plan [] (sideboardPlans d) with Some p => moveList p | None => [] end.

Definition setCurrentSideboardPlan (plan : list MoveCard_ToZone) (d : DeckList) : DeckList :=
  let p := match find_plan [] (sideboardPlans d) with Some p => p | None => empty_plan end in
  with_plans (insert_plan [] {| plan_name := plan_name p; moveList := plan |} (sideboardPlans d)) d.

Definition getSideboardSize (d : DeckList) : Z :=
  zsum (map number (getCardNodes [DECK_ZONE_SIDE] (tree d))).

(** *** The native form *)

Definition write_deck (d : DeckList) : list token :=
  [StartElement (str "cockatrice_deck") [(str "version", str "1")]] ++
  write_metadata (metadata d) ++ write number_text (tree d) ++
  concat (map (fun kp => write_plan kp.2) (sideboardPlans d)) ++
  [EndElement (str "cockatrice_deck")].

(** [DeckList::readElement] on a token just read: whether the deck goes on. *)
Definition deck_readElement (tok : token) (d : DeckList) (r : Reader) : bool * DeckList * Reader :=
  match tok with
  | StartElement childName attributes =>
      match metadata_readElement childName attributes (metadata d) r with
      | Some (m, r) => (true, with_metadata m d, r)
      | None =>
          if bool_decide (childName = str "zone") then
            let '(t, l) := readZoneElement toInt attributes (tokens r) (tree d) in
            (true, with_tree t d, with_tokens l r)
          else if bool_decide (childName = str "commanders") then
            let '(ok, t, l) := readCommandersElement (tokens r) (tree d) in
            (true, with_tree t d, {| tokens := l; failed := failed r || negb ok; whole := whole r |})
          else if bool_decide (childName = str "sideboard_plan") then
            let '(done, p, r) := plan_readElement (S (length (tokens r))) empty_plan r in
            (true, if done then with_plans (insert_plan (plan_name p) p (sideboardPlans d)) d else d, r)
          else (true, d, r)
      end
  | EndElement childName => (negb (bool_decide (childName = str "cockatrice_deck")), d, r)
  | Characters _ => (true, d, r)
  end.

Fixpoint readDeckBody (fuel : nat) (d : DeckList) (r : Reader) : DeckList * Reader :=
  match fuel with
  | O => (d, r)
  | S f =>
      match tokens r with
      | [] => (d, r)
      | tok :: l =>
          let '(go_on, d, r) := deck_readElement tok d (with_tokens l r) in
          if go_on then readDeckBody f d r else (d, r)
      end
  end.

(** [seekToNextElement]: the name of the start tag reached. *)
Fixpoint seekToNextElement (l : list token) : option (text * list token) :=
  match l with
  | [] => None
  | StartElement name _ :: l => Some (name, l)
  | _ :: l => seekToNextElement l
  end.

(** The loop of [loadFromXml]; [None] where another element is met. *)
Fixpoint load_loop (fuel : nat) (d : DeckList) (r : Reader) : bool * DeckList * Reader :=
  match fuel with
  | O => (true, d, r)
  | S f =>
      match seekToNextElement (tokens r) with
      | None => (true, d, with_tokens [] r)
      | Some (name, l) =>
          if negb (bool_decide (name = str "cockatrice_deck")) then (false, d, with_tokens l r)
          else
            let '(d, r) := readDeckBody (S (length l)) d (with_tokens l r) in load_loop f d r
      end
  end.

Definition loadFromXml (r : Reader) (d : DeckList) : bool * DeckList :=
  if failed r then (false, d)
  else
    let '(go_on, d, r) := load_loop (S (length (tokens r))) (cleanList false d) r in
    if negb go_on then (false, d)
    else (negb (error_at_end r), refreshDeckHash d).

(** A reader at the beginning of a native form. *)
Definition native (l : list token) : Reader := {| tokens := l; failed := false; whole := true |}.

Definition loadFromString_Native (l : list token) (d : DeckList) : bool * DeckList :=
  loadFromXml (native l) d.

(** ** History *)

Record DeckListMemento : Type := { memento : list token; reason : text }.

Definition createMemento (why : text) (d : DeckList) : DeckListMemento :=
  {| memento := write_deck d; reason := why |}.

Definition restoreMemento (m : DeckListMemento) (d : DeckList) : DeckList :=
  (loadFromString_Native (memento m) (cleanList false d)).2.

(** The stacks, their tops first. *)
Record History : Type := { undoStack : list DeckListMemento; redoStack : list DeckListMemento }.

Definition save (m : DeckListMemento) (h : History) : History :=
  {| undoStack := m :: undoStack h; redoStack := [] |}.

Definition clear_history (h : History) : History := {| undoStack := []; redoStack := [] |}.

(** [restoreAndSwap]: the source, the target and the deck. *)
Definition restoreAndSwap (source target : list DeckListMemento) (d : DeckList)
    : list DeckListMemento * list DeckListMemento * DeckList :=
  match source with
  | [] => (source, target, d)
  | m :: source => (source, createMemento (reason m) d :: target, restoreMemento m d)
  end.

Definition undo (st : History * DeckList) : History * DeckList :=
  let '(u, r, d) := restoreAndSwap (undoStack st.1) (redoStack st.1) st.2 in
  ({| undoStack := u; redoStack := r |}, d).

Definition redo (st : History * DeckList) : History * DeckList :=
  let '(r, u, d) := restoreAndSwap (redoStack st.1) (undoStack st.1) st.2 in
  ({| undoStack := u; redoStack := r |}, d).
End Deck.
