(* ===== verification/DeckListCorrect.v ===== *)
(** * Correctness of the deck: native form, history, hash

    A deck that is saved and loaded is the deck it was, up to what a file does not
    say; the history is a zipper of such contents; and the cached hash is the hash
    of the tree. *)
From Stdlib Require Import Sorted.
From stdpp Require Import sorting relations.
From S2P Require Import Prelude DeckTree DeckTreeCorrect DeckOrder DeckFile DeckList.
Open Scope cockatrice_scope.
Local Open Scope Z_scope.

Section Codec.
Context `{Doubles}.
Context (number_text : Z -> text) (toInt : text -> Z) (toStdString fromStdString : text -> text).
Hypothesis number_codec : forall n, 0 <= n <= MAX_DECK_SIZE -> toInt (number_text n) = n.

Notation readDeckBody := (readDeckBody toInt toStdString).
Notation deck_readElement := (deck_readElement toInt toStdString).

(** ** Reading the body of a deck *)

(** Reading a part of the body takes the reader from [l] to [l'] and the deck from
    [d] to [d']. *)
Definition reads (d : DeckList) (l : list token) (d' : DeckList) (l' : list token) : Prop :=
  forall fuel, (length l < fuel)%nat ->
    exists fuel', (length l' < fuel')%nat /\
      readDeckBody fuel d (native l) = readDeckBody fuel' d' (native l').

Lemma reads_refl d l : reads d l d l.
Proof. intros fuel Hf. by exists fuel. Qed.

Lemma reads_trans d1 l1 d2 l2 d3 l3 : reads d1 l1 d2 l2 -> reads d2 l2 d3 l3 -> reads d1 l1 d3 l3.
Proof.
  intros H1 H2 fuel Hf. destruct (H1 fuel Hf) as (f1 & F1 & ->). by apply H2.
Qed.

Lemma reads_step tok l d d' l' :
  deck_readElement tok d (native l) = (true, d', native l') -> (length l' <= length l)%nat ->
  reads d (tok :: l) d' l'.
Proof.
  intros E Hl [|fuel] Hf; [lia|]. exists fuel. split; [cbn in Hf; lia|].
  cbn [DeckList.readDeckBody tokens native]. change (with_tokens l (native (tok :: l))) with (native l). by rewrite E.
Qed.

Lemma tokens_native l : tokens (native l) = l.
Proof. done. Qed.

Lemma with_tokens_native l l' : with_tokens l (native l') = native l.
Proof. done. Qed.

Lemma read_text_native s tag l : read_text (native (Characters s :: EndElement tag :: l)) = (s, native l).
Proof. done. Qed.

(** *** Metadata *)

(** The four elements that hold one text. *)
Lemma reads_timestamp s d l : reads d (text_element (str "lastLoadedTimestamp") s ++ l)
  (with_metadata (with_timestamp s (metadata d)) d) l.
Proof. apply reads_step; [done|cbn; lia]. Qed.

Lemma reads_deckname s d l : reads d (text_element (str "deckname") s ++ l)
  (with_metadata (with_deckname s (metadata d)) d) l.
Proof. apply reads_step; [done|cbn; lia]. Qed.

Lemma reads_format s d l : reads d (text_element (str "format") s ++ l)
  (with_metadata (with_gameFormat s (metadata d)) d) l.
Proof. apply reads_step; [done|cbn; lia]. Qed.

Lemma reads_comments s d l : reads d (text_element (str "comments") s ++ l)
  (with_metadata (with_comments s (metadata d)) d) l.
Proof. apply reads_step; [done|cbn; lia]. Qed.

Lemma reads_banner c d l :
  reads d ([StartElement (str "bannerCard") [(str "providerId", ref_providerId c)];
            Characters (ref_name c); EndElement (str "bannerCard")] ++ l)
    (with_metadata (with_bannerCard c (metadata d)) d) l.
Proof. destruct c. apply reads_step; [done|cbn; lia]. Qed.

(** The parameters of a playmat as a file keeps them: with four decimals, within
    their bounds. *)
Definition saved_params (p : PlaymatParams) : PlaymatParams :=
  read_params (number_f4 (marginPctL p)) (number_f4 (marginPctR p)) (number_f4 (verticalOffset p))
    (number_f4 (zoom p)).

Definition saved_playmat (p : PlaymatInfo) : PlaymatInfo :=
  if CardRef_isEmpty (playmat_card p) then playmat empty_metadata
  else {| playmat_card := playmat_card p; params := saved_params (params p) |}.

Lemma reads_playmat p d l : playmat (metadata d) = playmat empty_metadata ->
  reads d (write_playmat p ++ l) (with_metadata (with_playmat (saved_playmat p) (metadata d)) d) l.
Proof.
  intros Hp. unfold write_playmat, saved_playmat. destruct (CardRef_isEmpty (playmat_card p)).
  - rewrite <- Hp. destruct d as [m ps t h], m. apply reads_refl.
  - destruct p as [[nm pid] q]. apply reads_step; [done|cbn; lia].
Qed.

Lemma read_tags_back ts : forall fuel acc tag l,
  (length (concat (map (text_element (str "tag")) ts)) < fuel)%nat ->
  read_tags fuel acc (native (concat (map (text_element (str "tag")) ts) ++ EndElement tag :: l))
  = (acc ++ ts, native l).
Proof.
  induction ts as [|s ts IH]; intros fuel acc tag l Hf; (destruct fuel as [|fuel]; [cbn in Hf; lia|]).
  - cbn. by rewrite app_nil_r.
  - change (concat (map (text_element (str "tag")) (s :: ts)))
      with (StartElement (str "tag") [] :: Characters s :: EndElement (str "tag") ::
            concat (map (text_element (str "tag")) ts)) in *.
    cbn [app read_tags]. rewrite tokens_native. cbn match. rewrite bool_decide_eq_true_2 by done.
    rewrite with_tokens_native, read_text_native, IH by (cbn [length] in Hf; lia). by rewrite <- app_assoc.
Qed.

Lemma reads_tags ts d l :
  reads d ([StartElement (str "tags") []] ++ concat (map (text_element (str "tag")) ts) ++
           [EndElement (str "tags")] ++ l)
    (with_metadata (with_tags ts (metadata d)) d) l.
Proof.
  cbn [app]. apply reads_step.
  - unfold DeckList.deck_readElement, metadata_readElement.
    repeat (rewrite bool_decide_eq_false_2 by done). rewrite bool_decide_eq_true_2 by done.
    rewrite tokens_native, read_tags_back by (rewrite !length_app; cbn; lia). done.
  - rewrite !length_app. cbn. lia.
Qed.

Definition saved_metadata (m : Metadata) : Metadata := with_playmat (saved_playmat (playmat m)) m.

Lemma reads_metadata m d l : metadata d = empty_metadata ->
  reads d (write_metadata m ++ l) (with_metadata (saved_metadata m) d) l.
Proof.
  intros Hd. unfold write_metadata. rewrite <- !app_assoc.
  eapply reads_trans; [apply reads_timestamp|]. eapply reads_trans; [apply reads_deckname|].
  eapply reads_trans; [apply reads_format|]. eapply reads_trans; [apply (reads_banner (bannerCard m))|].
  eapply reads_trans; [apply reads_playmat; cbn; by rewrite Hd|].
  eapply reads_trans; [apply reads_comments|].
  match goal with |- reads ?d1 _ _ _ => pose proof (reads_tags (tags m) d1 l) as Ht end.
  cbn [metadata with_metadata] in Ht. rewrite Hd in Ht |- *. destruct m. exact Ht.
Qed.

(** *** Sideboard plans *)

(** The texts of a move come back from their standard strings. *)
Definition move_ok (i : MoveCard_ToZone) : Prop :=
  toStdString (fromStdString (move_card_name i)) = move_card_name i /\
  toStdString (fromStdString (start_zone i)) = start_zone i /\
  toStdString (fromStdString (target_zone i)) = target_zone i.

Definition key_lt (k l : text) : Prop := lex_lt k l = true.
#[export] Instance key_lt_trans : Transitive key_lt.
Proof. intros k l m. apply lex_lt_trans. Qed.

Definition plans_ok (l : PlanMap) : Prop :=
  StronglySorted key_lt (map fst l) /\
  Forall (fun kp => kp.1 = plan_name kp.2 /\ Forall move_ok (moveList kp.2)) l.

Lemma read_move_back i fuel l : move_ok i ->
  readMoveCardToZone toStdString (S (S (S (S fuel)))) empty_move
    (native (tl (write_move fromStdString i) ++ l)) = (Some i, native l).
Proof.
  intros (E1 & E2 & E3). destruct i as [a b c]. cbn [move_card_name start_zone target_zone] in *.
  unfold write_move. cbn [app tl text_element move_card_name start_zone target_zone].
  assert (F : forall f mv tag s r, readMoveCardToZone toStdString (S f) mv
    (native (StartElement tag [] :: Characters s :: EndElement tag :: r)) =
    if bool_decide (tag = str "card_name") then
      readMoveCardToZone toStdString f {| move_card_name := toStdString s; start_zone := start_zone mv; target_zone := target_zone mv |} (native r)
    else if bool_decide (tag = str "start_zone") then
      readMoveCardToZone toStdString f {| move_card_name := move_card_name mv; start_zone := toStdString s; target_zone := target_zone mv |} (native r)
    else if bool_decide (tag = str "target_zone") then
      readMoveCardToZone toStdString f {| move_card_name := move_card_name mv; start_zone := start_zone mv; target_zone := toStdString s |} (native r)
    else readMoveCardToZone toStdString f mv (native (Characters s :: EndElement tag :: r))) by done.
  rewrite F. rewrite bool_decide_eq_true_2 by done. rewrite F.
  rewrite bool_decide_eq_false_2 by done. rewrite bool_decide_eq_true_2 by done. rewrite F.
  do 2 rewrite bool_decide_eq_false_2 by done. rewrite bool_decide_eq_true_2 by done.
  cbn [readMoveCardToZone]. rewrite tokens_native. cbn match. rewrite bool_decide_eq_true_2 by done.
  rewrite with_tokens_native. cbn. by rewrite E1, E2, E3.
Qed.

Lemma read_moves_back ms : forall fuel name moves l,
  (length (concat (map (write_move fromStdString) ms)) < fuel)%nat -> Forall move_ok ms ->
  plan_readElement toStdString fuel {| plan_name := name; moveList := moves |}
    (native (concat (map (write_move fromStdString) ms) ++ EndElement (str "sideboard_plan") :: l))
  = (true, {| plan_name := name; moveList := moves ++ ms |}, native l).
Proof.
  induction ms as [|i ms IH]; intros fuel name moves l Hf Hms; (destruct fuel as [|fuel]; [cbn in Hf; lia|]).
  - cbn. by rewrite app_nil_r.
  - apply Forall_cons in Hms as [Hi Hms]. cbn [map concat] in Hf |- *. rewrite <- app_assoc.
    change (write_move fromStdString i) with
      (StartElement (str "move_card_to_zone") [] :: tl (write_move fromStdString i)) in *.
    rewrite length_app in Hf. cbn [length] in Hf. cbn [app plan_readElement]. rewrite tokens_native. cbn match.
    rewrite (bool_decide_eq_false_2 (_ = str "name")) by done. rewrite bool_decide_eq_true_2 by done.
    rewrite with_tokens_native.
    set (rest := concat _ ++ _). assert (Hl : exists k, S (length (tl (write_move fromStdString i) ++ rest)) = S (S (S (S k)))).
    { rewrite length_app. change (length (tl (write_move fromStdString i))) with 10%nat. by eexists. }
    destruct Hl as [k ->]. rewrite read_move_back by done. cbn [option_list plan_name moveList].
    subst rest. rewrite IH by (done || lia). by rewrite <- app_assoc.
Qed.

Lemma read_plan_name fuel name l :
  plan_readElement toStdString (S fuel) empty_plan
    (native (StartElement (str "name") [] :: Characters name :: EndElement (str "name") :: l))
  = plan_readElement toStdString fuel {| plan_name := name; moveList := [] |} (native l).
Proof. done. Qed.

Lemma reads_plan p d l : Forall move_ok (moveList p) ->
  reads d (write_plan fromStdString p ++ l)
    (with_plans (insert_plan (plan_name p) p (sideboardPlans d)) d) l.
Proof.
  intros Hp. destruct p as [name ms]. cbn [plan_name moveList] in *. unfold write_plan, text_element.
  cbn [plan_name moveList app]. rewrite <- app_assoc. cbn [app]. set (rest := concat _ ++ _). apply reads_step.
  - unfold DeckList.deck_readElement, metadata_readElement.
    repeat (rewrite bool_decide_eq_false_2 by done). rewrite bool_decide_eq_true_2 by done.
    rewrite tokens_native, read_plan_name.
    subst rest. by rewrite read_moves_back by (done || (cbn [length]; rewrite length_app; lia)).
  - subst rest. cbn [length]. rewrite length_app. cbn [length]. lia.
Qed.

(** Inserting plans in the order of a map. *)
Definition insert_plans (l old : PlanMap) : PlanMap :=
  fold_left (fun l kp => insert_plan kp.1 kp.2 l) l old.

Lemma find_insert_plan key k p l :
  find_plan key (insert_plan k p l) = if bool_decide (k = key) then Some p else find_plan key l.
Proof.
  induction l as [|[k' q] l IH]; [done|]. cbn [insert_plan]. destruct (lex_lt k k'); [done|].
  destruct (bool_decide_reflect (k = k')) as [<-|Hk]; [cbn; by case_bool_decide|]. cbn. rewrite IH.
  repeat case_bool_decide; congruence.
Qed.

Lemma find_insert_plans key l : StronglySorted key_lt (map fst l) -> forall old,
  find_plan key (insert_plans l old) =
  match find_plan key l with Some p => Some p | None => find_plan key old end.
Proof.
  unfold insert_plans. induction l as [|[k p] l IH]; intros Hs old; [done|]. cbn in Hs.
  apply StronglySorted_cons in Hs as [Hk Hs]. cbn [fold_left fst snd find_plan]. rewrite IH, find_insert_plan by done.
  case_bool_decide as E; [|done]. subst k. destruct (find_plan key l) eqn:Ef; [|done].
  exfalso. clear -Ef Hk. induction l as [|[k q] l IH]; [done|]. cbn in *. apply Forall_cons in Hk as [Hk Hl].
  case_bool_decide; [subst; unfold key_lt in Hk; by rewrite lex_lt_irrefl in Hk|by apply IH].
Qed.

Lemma insert_plan_keys k p l k' : k' ∈ map fst (insert_plan k p l) -> k' = k \/ k' ∈ map fst l.
Proof.
  induction l as [|[k1 q] l IH]; cbn [insert_plan]; [set_solver|].
  destruct (lex_lt k k1); [cbn; set_solver|]. case_bool_decide; cbn; [set_solver|].
  rewrite !elem_of_cons. intros [->|Hk]; [auto|]. destruct (IH Hk); auto.
Qed.

Lemma insert_plan_ok p l : plans_ok l -> Forall move_ok (moveList p) ->
  plans_ok (insert_plan (plan_name p) p l).
Proof.
  intros [Hs Hl] Hp. set (k := plan_name p). split.
  - clear Hl. induction l as [|[k1 q] l IH]; cbn [insert_plan]; [repeat constructor|].
    cbn in Hs. pose proof Hs as Hs0. apply StronglySorted_cons in Hs as [H1 Hs].
    destruct (lex_lt k k1) eqn:E1.
    + cbn. constructor; [done|]. constructor; [done|]. eapply Forall_impl; [exact H1|]. intros x. by apply lex_lt_trans.
    + case_bool_decide as E2; [subst k1; cbn; by constructor|]. cbn. constructor; [by apply IH|].
      apply Forall_forall. intros x [->|Hx]%insert_plan_keys.
      * destruct (lex_lt k1 k) eqn:E3; [done|]. by destruct (E2 (lex_lt_antisym _ _ E1 E3)).
      * rewrite Forall_forall in H1. by apply H1.
  - clear Hs. induction Hl as [|[k1 q] l Hq Hl IH]; cbn [insert_plan]; [repeat constructor; done|].
    destruct (lex_lt k k1); [constructor; [done|by constructor]|].
    case_bool_decide; constructor; done.
Qed.

Lemma insert_plans_ok ps : forall old, plans_ok ps -> plans_ok old -> plans_ok (insert_plans ps old).
Proof.
  unfold insert_plans. induction ps as [|[k p] ps IH]; intros old [Hs Hps] Hold; [done|].
  apply Forall_cons in Hps as [[Hk Hm] Hps]. cbn in Hk, Hm, Hs |- *. apply StronglySorted_cons in Hs as [_ Hs].
  apply IH; [by split|]. subst k. by apply insert_plan_ok.
Qed.

Lemma reads_plans ps : forall d l, plans_ok ps ->
  reads d (concat (map (fun kp => write_plan fromStdString kp.2) ps) ++ l)
    (with_plans (insert_plans ps (sideboardPlans d)) d) l.
Proof.
  induction ps as [|[k p] ps IH]; intros d l [Hnd Hps].
  { destruct d. apply reads_refl. }
  apply Forall_cons in Hps as [[Hk Hm] Hps]. cbn in Hk, Hm, Hnd. apply StronglySorted_cons in Hnd as [_ Hnd]. subst k.
  cbn [map concat]. rewrite <- app_assoc. eapply reads_trans; [by apply reads_plan|].
  apply (IH (with_plans _ d)). by split.
Qed.

(** *** The tree *)

Lemma not_metadata name attributes m r :
  name ∉ map str ["lastLoadedTimestamp"; "deckname"; "format"; "comments"; "bannerCard"; "playmatCard"; "tags"]%string ->
  metadata_readElement name attributes m r = None.
Proof.
  intros Hn. unfold metadata_readElement. cbn [map] in Hn. rewrite !elem_of_cons in Hn.
  repeat (rewrite bool_decide_eq_false_2 by tauto). done.
Qed.

Lemma reads_zones zs : forall d l, shape_ok (tree d) ->
  Forall (fun n => is_inner n = true) zs ->
  NoDup (inner_names (root (tree d) ++ zs) ++ custom_names (root (tree d) ++ zs)) ->
  Forall (fun c => 0 <= number c) (all_cards zs) ->
  0 <= totalCards (tree d) -> totalCards (tree d) + count_all zs <= MAX_DECK_SIZE ->
  exists t', reads d (concat (map (writeElement number_text) zs) ++ l) (with_tree t' d) l /\
    strip_all (root t') = strip_all (root (tree d) ++ zs) /\
    totalCards t' = totalCards (tree d) + count_all zs /\ shape_ok t'.
Proof.
  induction zs as [|z zs IH]; intros d l Ht Hin Hnd Hc H0 Hm.
  { exists (tree d). rewrite app_nil_r. split; [destruct d; apply reads_refl|].
    split_and!; [done|unfold count_all; cbn; lia|done]. }
  apply Forall_cons in Hin as [Hz Hin]. destruct z as [|i m name ks]; [done|].
  change (all_cards (InnerNode i m name ks :: zs)) with (all_cards ks ++ all_cards zs) in Hc.
  change (count_all (InnerNode i m name ks :: zs)) with (count_all ks + count_all zs) in *.
  apply Forall_app in Hc as [Hc1 Hc2].
  pose proof (numbers_nonneg _ Hc1) as G1. rewrite <- count_all_cards in G1.
  pose proof (numbers_nonneg _ Hc2) as G2. rewrite <- count_all_cards in G2.
  set (l1 := concat (map (writeElement number_text) zs) ++ l).
  assert (Hn : name ∉ inner_names (root (tree d)) /\ name ∉ custom_names (root (tree d))).
  { rewrite inner_names_app, custom_names_app in Hnd. change (inner_names (InnerNode i m name ks :: zs))
      with (name :: inner_names zs) in Hnd.
    rewrite <- app_assoc in Hnd. apply NoDup_app in Hnd as (_ & H1 & H2).
    cbn [app] in H2. apply NoDup_cons in H2 as [H2 _]. split; intros Hx.
    - apply (H1 name Hx). set_solver.
    - apply H2. set_solver. }
  destruct Hn as [Hn1 Hn2].
  destruct (read_zone number_text toInt number_codec i m name ks l1 (tree d) Ht Hn1 Hn2 Hc1 H0 ltac:(lia))
    as (t1 & z1 & R1 & R2 & R3 & R4 & R5).
  assert (Hs1 : strip_all (root t1 ++ zs) = strip_all (root (tree d) ++ InnerNode i m name ks :: zs)).
  { rewrite R2, <- app_assoc, !strip_all_app. cbn [strip_all map app]. by rewrite R3. }
  destruct (same_names _ _ Hs1) as (N1 & N2 & _).
  destruct (IH (with_tree t1 d) l R5 Hin) as (t2 & S1 & S2 & S3 & S4); cbn [with_tree tree].
  - by rewrite N1, N2.
  - done.
  - lia.
  - lia.
  - exists t2. split_and!; [|by rewrite S2|cbn [with_tree tree] in S3; lia|done].
    eapply reads_trans; [|exact S1]. cbn [map concat]. rewrite <- app_assoc. fold l1.
    change (writeElement number_text (InnerNode i m name ks)) with
      (StartElement (str "zone") [(str "name", name)] ::
       concat (map (writeElement number_text) ks) ++ [EndElement (str "zone")]).
    cbn [app]. rewrite <- app_assoc. cbn [app]. apply reads_step.
    + unfold DeckList.deck_readElement. rewrite not_metadata by by apply (bool_decide_eq_true_1 (_ ∉ _)).
      rewrite bool_decide_eq_true_2 by done. rewrite tokens_native, R1. done.
    + rewrite length_app. cbn. lia.
Qed.

Lemma reads_commanders new d l : shape_ok (tree d) -> Forall (fun u => u = unit_card u) new ->
  DECK_ZONE_COMMANDER ∉ inner_names (root (tree d)) -> DECK_ZONE_COMMANDER ∉ custom_names (root (tree d)) ->
  totalCards (tree d) + Z.of_nat (length new) <= MAX_DECK_SIZE ->
  exists previous t', reads d (StartElement (str "commanders") [] :: concat (map write_commander new) ++
      EndElement (str "commanders") :: l) (with_tree t' d) l /\
    declared (root (tree d)) new previous t' /\ shape_ok t' /\
    totalCards t' = totalCards (tree d) + Z.of_nat (length new).
Proof.
  intros Ht Hnew Hi Hc Hm. set (xml := concat _ ++ _).
  destruct (read_commanders_back number_text toInt number_codec new (S (length xml)) (root (tree d)) [] None (tree d)
    (str "commanders") l) as (previous & t' & R1 & R2 & R3 & R4); try done; [subst xml; lia|].
  exists previous, t'. split_and!; [|done|done|done]. apply reads_step.
  - unfold DeckList.deck_readElement. rewrite not_metadata by by apply (bool_decide_eq_true_1 (_ ∉ _)).
    rewrite bool_decide_eq_false_2 by done. rewrite bool_decide_eq_true_2 by done. rewrite tokens_native.
    unfold readCommandersElement. fold xml in R1.
    assert (Hcl : clearCommanders (tree d) = tree d).
    { unfold clearCommanders, findBoardZone. rewrite all_inner_names in Hi by apply Ht.
      by rewrite (proj2 (findChild_None _ _) Hi). }
    by rewrite Hcl, R1.
  - subst xml. rewrite length_app. cbn. lia.
Qed.

(** ** Saving and loading *)

(** What saving asks of a tree; the trees the operations build have it
    ([reachable_savable]). *)
Record savable (t : DecklistNodeTree) : Prop := {
  sv_shape : shape_ok t;
  sv_names : NoDup (inner_names (board_zones t) ++ custom_names (board_zones t));
  sv_commander : DECK_ZONE_COMMANDER ∉ custom_names (board_zones t);
  sv_numbers : Forall (fun c => 0 <= number c) (all_cards (root t));
  sv_total : count_all (root t) <= MAX_DECK_SIZE
}.

Lemma board_zones_names t : shape_ok t ->
  Forall (fun n => is_inner n = true) (board_zones t) /\ DECK_ZONE_COMMANDER ∉ inner_names (board_zones t).
Proof.
  intros Ht. pose proof (so_inner _ Ht) as Hi. rewrite Forall_forall in Hi.
  assert (Hin : Forall (fun n => is_inner n = true) (board_zones t)).
  { apply Forall_forall. intros n Hn. apply Hi. apply list_elem_of_In, List.filter_In in Hn as [Hn _].
    by apply list_elem_of_In. }
  split; [done|]. rewrite all_inner_names by done. intros Hn. apply list_elem_of_In, in_map_iff in Hn as (n & E & Hn).
  apply List.filter_In in Hn as [_ Hn]. by rewrite bool_decide_eq_true_2 in Hn.
Qed.

Lemma board_names t : names_ok t ->
  Forall (fun name => reserved name = false) (custom_names (board_zones t)) /\
  NoDup (inner_names (board_zones t) ++ custom_names (board_zones t)).
Proof.
  intros Hn. assert (Hf : fewer (board_zones t) (root t)).
  { apply fewer_sublist. unfold board_zones. induction (root t) as [|n ks IH]; [done|]. cbn [List.filter].
    destruct (negb _); by constructor. }
  by destruct (fewer_names t (board_zones t) (totalCards t) (next_id t) Hn Hf).
Qed.

(** The cards of the boards and those of the commanders are the cards. *)
Lemma split_cards t : shape_ok t ->
  all_cards (root t) ≡ₚ all_cards (board_zones t) ++ getCardNodes [DECK_ZONE_COMMANDER] t.
Proof.
  intros Ht. pose proof (so_inner _ Ht) as Hi. unfold board_zones, getCardNodes, getZoneNodes, all_cards.
  induction Hi as [|n ks Hn _ IH]; [done|]. cbn [List.filter map concat]. rewrite Hn. cbn [andb].
  rewrite (bool_decide_eq_false_2 (_ = [])) by done. cbn [orb].
  rewrite (bool_decide_ext (getName n ∈ [DECK_ZONE_COMMANDER]) (getName n = DECK_ZONE_COMMANDER)) by apply list_elem_of_singleton.
  destruct (bool_decide_reflect (getName n = DECK_ZONE_COMMANDER)); cbn [negb map concat]; rewrite IH;
    [|by rewrite app_assoc].
  rewrite !app_assoc. apply Permutation_app; [apply Permutation_app_comm|done].
Qed.

Lemma savable_counts t : savable t ->
  Forall (fun c => 0 <= number c) (all_cards (board_zones t)) /\
  0 <= count_all (board_zones t) /\
  count_all (board_zones t) + Z.of_nat (length (commander_copies t)) <= MAX_DECK_SIZE.
Proof.
  intros [H1 _ _ H4 H5]. rewrite (split_cards t H1) in H4. apply Forall_app in H4 as [H4 H6].
  rewrite count_all_cards, (perm_count _ _ (split_cards t H1)), map_app, zsum_app in H5.
  unfold commander_copies. rewrite card_copies_length, count_all_cards by done.
  split; [done|]. split; [by apply numbers_nonneg|done].
Qed.

(** The content of a deck: the metadata as a file keeps them, the zones and cards of
    the boards, the commanders copy by copy, and the plans by their names. *)
Record Content : Type := {
  content_metadata : Metadata;
  content_boards : list node;
  content_commanders : list Card;
  content_plans : gmap text SideboardPlan
}.

Definition content (d : DeckList) : Content :=
  {| content_metadata := saved_metadata (metadata d);
     content_boards := strip_all (board_zones (tree d));
     content_commanders := commander_copies (tree d);
     content_plans := list_to_map (sideboardPlans d) |}.

Lemma lookup_plans key (l : PlanMap) : (list_to_map l : gmap text SideboardPlan) !! key = find_plan key l.
Proof.
  induction l as [|[k p] l IH]; [done|]. cbn [list_to_map foldr find_plan fst snd].
  case_bool_decide as E; [subst; by rewrite lookup_insert_eq|]. by rewrite lookup_insert_ne.
Qed.

Definition commanders_element (t : DecklistNodeTree) : list token :=
  if bool_decide (getCardNodes [DECK_ZONE_COMMANDER] t = []) then []
  else StartElement (str "commanders") [] :: concat (map write_commander (commander_copies t)) ++
       [EndElement (str "commanders")].

Lemma write_tree t :
  write number_text t = concat (map (writeElement number_text) (board_zones t)) ++ commanders_element t.
Proof. unfold write, commanders_element, commander_copies. by rewrite written_copies. Qed.

(** Reading the written tree into an empty one. *)
Lemma reads_tree t d l : savable t -> shape_ok (tree d) -> root (tree d) = [] -> totalCards (tree d) = 0 ->
  exists t', reads d (write number_text t ++ l) (with_tree t' d) l /\ shape_ok t' /\
    strip_all (board_zones t') = strip_all (board_zones t) /\ commander_copies t' = commander_copies t /\
    Forall (fun c => 0 <= number c) (getCardNodes [DECK_ZONE_COMMANDER] t') /\
    (names_ok t -> names_ok t').
Proof.
  intros Hsv Hd Hr H0. pose proof (sv_shape _ Hsv) as Ht.
  destruct (board_zones_names t Ht) as [Hin Hci]. destruct (savable_counts t Hsv) as (C1 & C2 & C3).
  rewrite write_tree, <- app_assoc.
  destruct (reads_zones (board_zones t) d (commanders_element t ++ l) Hd Hin) as (t1 & R1 & R2 & R3 & R4);
    [rewrite Hr; apply Hsv|done|lia|lia|]. rewrite Hr in R2. cbn [app] in R2.
  destruct (same_names _ _ R2) as (N1 & N2 & _).
  assert (Hin1 : Forall (fun n => is_inner n = true) (root t1)) by apply R4.
  assert (D0 : declared (root t1) [] None t1) by done.
  assert (Hnames : forall us previous t2, declared (root t1) us previous t2 -> names_ok t -> names_ok t2).
  { intros us previous t2 Hd2 Hn. destruct (board_names t Hn) as [B1 B2].
    apply (declared_names _ _ _ _ Hd2); rewrite ?N1, ?N2; done. }
  unfold commanders_element in *. case_bool_decide as Hcards.
  - exists t1. destruct (declared_content _ _ _ _ D0) as (E1 & E2 & E3); [by rewrite N1|done|].
    split; [exact R1|]. split; [done|]. rewrite E1, E2. split; [done|].
    split; [unfold commander_copies; by rewrite Hcards|]. split; [done|]. by apply (Hnames _ _ _ D0).
  - destruct (reads_commanders (commander_copies t) (with_tree t1 d) l) as (previous & t2 & S1 & S2 & S3 & _);
      cbn [with_tree tree]; [done|apply card_copies_units|by rewrite N1|rewrite N2; apply Hsv|lia|].
    destruct (declared_content _ _ _ _ S2) as (E1 & E2 & E3); [cbn; by rewrite N1|done|].
    exists t2. split_and!; [|done|by rewrite E1|done|done|by apply (Hnames _ _ _ S2)].
    eapply reads_trans; [exact R1|]. cbn [app]. rewrite <- app_assoc. exact S1.
Qed.

Notation write_deck := (write_deck number_text fromStdString).
Notation loadFromString_Native := (loadFromString_Native toInt toStdString).

(** The body of a written deck, read into a cleaned deck. *)
Lemma reads_deck d0 d l : savable (tree d) -> plans_ok (sideboardPlans d) ->
  metadata d0 = empty_metadata -> shape_ok (tree d0) -> root (tree d0) = [] -> totalCards (tree d0) = 0 ->
  exists t', reads d0 (tl (write_deck d) ++ l)
      {| metadata := saved_metadata (metadata d);
         sideboardPlans := insert_plans (sideboardPlans d) (sideboardPlans d0);
         tree := t'; cachedDeckHash := cachedDeckHash d0 |}
      (EndElement (str "cockatrice_deck") :: l) /\
    shape_ok t' /\ strip_all (board_zones t') = strip_all (board_zones (tree d)) /\
    commander_copies t' = commander_copies (tree d) /\
    Forall (fun c => 0 <= number c) (getCardNodes [DECK_ZONE_COMMANDER] t') /\
    (names_ok (tree d) -> names_ok t').
Proof.
  intros Hsv Hp Hm H0 Hr Ht. set (l2 := EndElement (str "cockatrice_deck") :: l).
  set (l1 := concat (map (fun kp => write_plan fromStdString kp.2) (sideboardPlans d)) ++ l2).
  destruct (reads_tree (tree d) (with_metadata (saved_metadata (metadata d)) d0) l1 Hsv H0 Hr Ht)
    as (t' & R1 & R2 & R3 & R4 & R5 & R6).
  exists t'. split_and!; [|done|done|done|done|done]. unfold DeckList.write_deck. cbn [app tl]. rewrite <- !app_assoc.
  eapply reads_trans; [by apply reads_metadata|]. eapply reads_trans; [exact R1|].
  destruct d0 as [m0 ps0 t0 h0]. exact (reads_plans (sideboardPlans d) _ l2 Hp).
Qed.

Lemma clear_shape b t : shape_ok t -> shape_ok (clear b t).
Proof.
  intros Ht. pose proof (clear_fewer b t) as Hf. apply (fewer_step_shape t); [done|done|]. apply clear_next.
Qed.

Lemma load_native d0 d : savable (tree d) -> plans_ok (sideboardPlans d) -> shape_ok (tree d0) ->
  exists t', loadFromString_Native (write_deck d) d0 =
      (true, {| metadata := saved_metadata (metadata d);
                sideboardPlans := insert_plans (sideboardPlans d) (sideboardPlans d0);
                tree := t'; cachedDeckHash := [] |}) /\
    shape_ok t' /\ strip_all (board_zones t') = strip_all (board_zones (tree d)) /\
    commander_copies t' = commander_copies (tree d) /\
    Forall (fun c => 0 <= number c) (getCardNodes [DECK_ZONE_COMMANDER] t') /\
    (names_ok (tree d) -> names_ok t').
Proof.
  intros Hsv Hp H0.
  destruct (reads_deck (cleanList false d0) d [] Hsv Hp) as (t' & R1 & R2);
    [done|by apply (clear_shape false)|done|done|].
  exists t'. split; [|done]. unfold DeckList.loadFromString_Native, loadFromXml. cbn [native failed].
  change (tokens (native (write_deck d))) with (write_deck d).
  change (write_deck d) with (StartElement (str "cockatrice_deck") [(str "version", str "1")] :: tl (write_deck d)).
  set (body := tl (write_deck d)) in *. rewrite app_nil_r in R1.
  cbn [length load_loop]. rewrite tokens_native. cbn [seekToNextElement].
  rewrite bool_decide_eq_true_2 by done. cbn [negb]. rewrite with_tokens_native.
  destruct (R1 (S (length body)) ltac:(lia)) as ([|f] & F1 & ->); [lia|].
  cbn [DeckList.readDeckBody]. rewrite tokens_native. cbn match.
  cbn [DeckList.deck_readElement]. rewrite bool_decide_eq_true_2 by done. cbn [negb].
  rewrite with_tokens_native. by destruct (length body).
Qed.

(** C9. Saving a deck and loading the file, into whatever deck: the load succeeds;
    the metadata are those saved, with the playmat's numbers as the file keeps
    them; the boards hold the same zones and cards in the same order; the
    commanders are the same, copy by copy; the plans of the file replace those of
    the same name, and the plans the deck had under other names stay. *)
Theorem native_roundtrip (d d0 : DeckList)
    (Hd : savable (tree d)) (Hp : plans_ok (sideboardPlans d)) (H0 : shape_ok (tree d0)) :
  let res := loadFromString_Native (write_deck d) d0 in
  res.1 = true /\
  metadata res.2 = saved_metadata (metadata d) /\
  strip_all (board_zones (tree res.2)) = strip_all (board_zones (tree d)) /\
  commander_copies (tree res.2) = commander_copies (tree d) /\
  (forall key, find_plan key (sideboardPlans res.2) =
     match find_plan key (sideboardPlans d) with
     | Some p => Some p
     | None => find_plan key (sideboardPlans d0)
     end).
Proof.
  destruct (load_native d0 d Hd Hp H0) as (t' & -> & _ & E1 & E2 & _). cbn zeta.
  split_and!; try done. intros key. apply find_insert_plans, Hp.
Qed.

(** ** History *)

Definition deck_ok (d : DeckList) : Prop := savable (tree d) /\ plans_ok (sideboardPlans d).

Lemma strip_numbers ks ks' : strip_all ks = strip_all ks' ->
  Forall (fun c => 0 <= number c) (all_cards ks') -> Forall (fun c => 0 <= number c) (all_cards ks).
Proof.
  intros E Hk. assert (H1 : Forall (fun c => 0 <= number c) (all_cards (strip_all ks))).
  { rewrite E, strip_all_cards, Forall_map. exact Hk. }
  rewrite strip_all_cards, Forall_map in H1. exact H1.
Qed.

(** A tree read back can be saved again. *)
Lemma loaded_savable t t' : savable t -> shape_ok t' ->
  strip_all (board_zones t') = strip_all (board_zones t) -> commander_copies t' = commander_copies t ->
  Forall (fun c => 0 <= number c) (getCardNodes [DECK_ZONE_COMMANDER] t') -> savable t'.
Proof.
  intros Hsv Ht' Hb Hc Hn. destruct (same_names _ _ Hb) as (N1 & N2 & N3).
  destruct (savable_counts t Hsv) as (C1 & C2 & C3).
  assert (Hn' : Forall (fun c => 0 <= number c) (all_cards (root t'))).
  { rewrite (split_cards t' Ht'). apply Forall_app. split; [by eapply strip_numbers|done]. }
  constructor; [done|rewrite N1, N2; apply Hsv|rewrite N2; apply Hsv|done|].
  rewrite count_all_cards, (perm_count _ _ (split_cards t' Ht')), map_app, zsum_app.
  rewrite <- count_all_cards, N3, <- card_copies_length by done. fold (commander_copies t'). by rewrite Hc.
Qed.

(** The numbers of a playmat are kept from the second saving on. *)
Hypothesis params_stable : forall p, saved_params (saved_params p) = saved_params p.

Lemma saved_metadata_again m : saved_metadata (saved_metadata m) = saved_metadata m.
Proof.
  unfold saved_metadata, with_playmat. cbn. f_equal. unfold saved_playmat.
  destruct (CardRef_isEmpty (playmat_card (playmat m))) eqn:E; cbn.
  - done.
  - by rewrite E, params_stable.
Qed.

Notation createMemento := (createMemento number_text fromStdString).
Notation restoreMemento := (restoreMemento toInt toStdString).
Notation undo := (undo number_text toInt toStdString fromStdString).
Notation redo := (redo number_text toInt toStdString fromStdString).

(** *** The abstract history: a sequence of contents with a present *)

(** What a deck with content [now] is turned into by bringing the content [c] back: all
    of [c], and the plans of [now] under names [c] has no plan for. *)
Definition brought_back (c now : Content) : Content :=
  {| content_metadata := content_metadata c; content_boards := content_boards c;
     content_commanders := content_commanders c;
     content_plans := content_plans c ∪ content_plans now |}.

(** A memento of a deck brings its content back, whatever the deck has become. *)
Lemma restore_content why d d0 : deck_ok d -> deck_ok d0 ->
  content (restoreMemento (createMemento why d) d0) = brought_back (content d) (content d0) /\
  deck_ok (restoreMemento (createMemento why d) d0).
Proof.
  intros [Hd Hp] [H0 Hp0]. unfold DeckList.restoreMemento, DeckList.createMemento. cbn [memento].
  destruct (load_native (cleanList false d0) d Hd Hp) as (t' & -> & E1 & E2 & E3 & E4 & _);
    [by apply (clear_shape false), H0|]. cbn [snd]. split.
  - unfold content, brought_back. cbn. rewrite saved_metadata_again, E2, E3. f_equal.
    apply map_eq. intros key. rewrite lookup_union, !lookup_plans, find_insert_plans by apply Hp.
    by destruct (find_plan key (sideboardPlans d)), (find_plan key (sideboardPlans d0)).
  - split; [by apply (loaded_savable (tree d))|]. by apply insert_plans_ok.
Qed.

Record Timeline : Type := { past : list Content; present : Content; future : list Content }.

Inductive command : Type :=
| Change (why : text) (d : DeckList)
| Undo
| Redo.

Definition timeline_run (tl : Timeline) (c : command) : Timeline :=
  match c with
  | Change _ d => {| past := present tl :: past tl; present := content d; future := [] |}
  | Undo =>
      match past tl with
      | [] => tl
      | c :: cs => {| past := cs; present := brought_back c (present tl); future := present tl :: future tl |}
      end
  | Redo =>
      match future tl with
      | [] => tl
      | c :: cs => {| past := present tl :: past tl; present := brought_back c (present tl); future := cs |}
      end
  end.

(** What the program does: before a change it saves a memento. *)
Definition history_run (st : History * DeckList) (c : command) : History * DeckList :=
  match c with
  | Change why d => (save (createMemento why st.2) st.1, d)
  | Undo => undo st
  | Redo => redo st
  end.

Definition remembers (m : DeckListMemento) (c : Content) : Prop :=
  exists d, memento m = write_deck d /\ deck_ok d /\ content d = c.

Record refines (st : History * DeckList) (tl : Timeline) : Prop := {
  rf_past : Forall2 remembers (undoStack st.1) (past tl);
  rf_future : Forall2 remembers (redoStack st.1) (future tl);
  rf_present : content st.2 = present tl;
  rf_ok : deck_ok st.2
}.

Lemma remembers_now why d c : deck_ok d -> content d = c -> remembers (createMemento why d) c.
Proof. intros Hd E. by exists d. Qed.

Lemma restore_remembered m c d0 : remembers m c -> deck_ok d0 ->
  content (restoreMemento m d0) = brought_back c (content d0) /\ deck_ok (restoreMemento m d0).
Proof.
  intros (d & Em & Hd & <-) H0. destruct (restore_content [] d d0 Hd H0) as [R1 R2].
  unfold DeckList.restoreMemento in *. cbn [memento DeckList.createMemento] in *. by rewrite Em.
Qed.

Lemma history_step st tl c : refines st tl ->
  (forall why d, c = Change why d -> deck_ok d) -> refines (history_run st c) (timeline_run tl c).
Proof.
  destruct st as [[u r] d], tl as [p n f]. intros [H1 H2 H3 H4] Hc. cbn in *. subst n.
  destruct c as [why d'| |]; cbn.
  - constructor; cbn; [|done|done|by eapply Hc]. constructor; [by apply remembers_now|done].
  - unfold DeckList.undo. cbn. destruct H1 as [|m c1 u p Hm H1]; cbn; [by constructor|].
    destruct (restore_remembered m c1 d Hm H4) as [R1 R2].
    constructor; cbn; [done| |done|done]. constructor; [by apply remembers_now|done].
  - unfold DeckList.redo. cbn. destruct H2 as [|m c1 r f Hm H2]; cbn; [by constructor|].
    destruct (restore_remembered m c1 d Hm H4) as [R1 R2].
    constructor; cbn; [|done|done|done]. constructor; [by apply remembers_now|done].
Qed.

(** C10. The undo history is a timeline of contents: after any sequence of changes,
    each saved first, and of undo and redo, the deck has the content of the
    timeline's present, and there is as much to undo and to redo as the timeline
    has past and future. On the timeline an undo or redo brings back the
    metadata, the boards, the commanders and the plans that were remembered, although
    they are read from files; of what the deck had then only the sideboard plans
    with names the remembered content has no plan for are left, and these stay. *)
Theorem history_refines (d0 : DeckList) (cs : list command) (H0 : deck_ok d0)
    (Hcs : forall why d, Change why d ∈ cs -> deck_ok d) :
  let st := fold_left history_run cs ({| undoStack := []; redoStack := [] |}, d0) in
  let tl := fold_left timeline_run cs {| past := []; present := content d0; future := [] |} in
  content st.2 = present tl /\
  length (undoStack st.1) = length (past tl) /\ length (redoStack st.1) = length (future tl).
Proof.
  assert (Hg : forall cs st tl, refines st tl -> (forall why d, Change why d ∈ cs -> deck_ok d) ->
    refines (fold_left history_run cs st) (fold_left timeline_run cs tl)).
  { clear cs Hcs. induction cs as [|c cs IH]; intros st tl Hr Hcs; [done|]. cbn [fold_left]. apply IH.
    - apply history_step; [done|]. intros why d ->. apply (Hcs why). by left.
    - intros why d Hin. apply (Hcs why). by right. }
  destruct (Hg cs ({| undoStack := []; redoStack := [] |}, d0) {| past := []; present := content d0; future := [] |})
    as [G1 G2 G3 _]; [by constructor|done|].
  cbn zeta. split; [done|]. split; by eapply Forall2_length.
Qed.
End Codec.

(** The trees careful operations build can be saved. *)
Lemma reachable_savable int t : built int false true t -> savable t.
Proof.
  intros Hr. pose proof (built_shape _ _ _ _ Hr) as A. pose proof (built_names _ _ _ _ Hr eq_refl) as B.
  pose proof (built_budget _ _ _ _ Hr eq_refl) as C.
  destruct (board_names t B) as [D2 D1]. constructor; [done|done| |apply C|].
  - intros Hin. rewrite Forall_forall in D2. by specialize (D2 _ Hin).
  - etrans; apply C.
Qed.

(** ** Samples *)

(** Numbers written as one character, with four decimals kept exactly. *)
Definition sample_doubles : Doubles :=
  {| double := Z;
     toDouble := fun s => match s with [z] => Some z | _ => None end;
     number_f4 := fun z => [z];
     qBound := fun min z max => Z.max min (Z.min z max);
     literal := fun n d => n * 10000 / d |}.

Definition sample_number (n : Z) : text := [n].
Definition sample_toInt (s : text) : Z := match s with [n] => n | _ => 0 end.

Lemma sample_codec n : 0 <= n <= MAX_DECK_SIZE -> sample_toInt (sample_number n) = n.
Proof. done. Qed.

Lemma sample_params_stable (p : @PlaymatParams sample_doubles) :
  @saved_params sample_doubles (@saved_params sample_doubles p) = @saved_params sample_doubles p.
Proof.
  destruct p as [a b c e]. unfold saved_params, read_params, parseClampedParam. cbn in a, b, c, e |- *.
  f_equal; dlia.
Qed.

Definition sample_metadata : @Metadata sample_doubles :=
  {| deckname := str "Zoo"; comments := []; gameFormat := str "modern";
     bannerCard := {| ref_name := str "Kird Ape"; ref_providerId := [] |};
     tags := [str "aggro"; str "fast"]; lastLoadedTimestamp := [];
     playmat := {| playmat_card := {| ref_name := str "Plains"; ref_providerId := str "p1" |};
                   params := @Build_PlaymatParams sample_doubles 12 20000 3300 0 |} |}.

Definition sample_plan (name : String.string) : SideboardPlan :=
  {| plan_name := str name;
     moveList := [{| move_card_name := str "Duress"; start_zone := str "side"; target_zone := str "main" |}] |}.

Definition sample_deck (t : DecklistNodeTree) (plans : PlanMap) : @DeckList sample_doubles :=
  {| metadata := sample_metadata; sideboardPlans := plans; tree := t; cachedDeckHash := [] |}.

(** Commanders, a main board with a zone of its own, a sideboard. *)
Definition sample_deck_tree : DecklistNodeTree :=
  edits [sample_add "Kird Ape" 4 DECK_ZONE_MAIN; OpAddCustomZone DECK_ZONE_MAIN (str "Ramp");
         sample_add "Forest" 4 (str "Ramp"); sample_add "Tasigur" 2 DECK_ZONE_COMMANDER;
         sample_add "Tasigur" 1 DECK_ZONE_COMMANDER; sample_add "Duress" 2 DECK_ZONE_SIDE] empty_tree.

Lemma sample_deck_tree_savable : savable sample_deck_tree.
Proof.
  apply (reachable_savable sample_toInt), built_edits; [apply built_new|vm_compute; reflexivity].
Qed.

Definition sample_saved : @DeckList sample_doubles :=
  sample_deck sample_deck_tree [(str "vs Burn", sample_plan "vs Burn")].

Definition sample_other : @DeckList sample_doubles :=
  sample_deck empty_tree [(str "old", sample_plan "old")].

Lemma sample_plans_ok name : plans_ok id id [(str name, sample_plan name)].
Proof. split; [repeat constructor|]. constructor; [|done]. split; [done|]. by repeat constructor. Qed.

Lemma native_roundtrip_witness :
  let res := loadFromString_Native sample_toInt id (write_deck sample_number id sample_saved) sample_other in
  res.1 = true /\
  strip_all (board_zones (tree res.2)) = strip_all (board_zones (tree sample_saved)) /\
  map getName (root (tree res.2)) = [DECK_ZONE_MAIN; DECK_ZONE_SIDE; DECK_ZONE_COMMANDER] /\
  number <$> getCardNodes [DECK_ZONE_COMMANDER] (tree res.2) = [3] /\
  is_Some (find_plan (str "old") (sideboardPlans res.2)).
Proof.
  pose proof (@native_roundtrip sample_doubles sample_number sample_toInt id id sample_codec
    sample_saved sample_other sample_deck_tree_savable (sample_plans_ok "vs Burn") empty_shape) as H.
  destruct H as (H1 & _ & H2 & _ & H3). split; [exact H1|]. split; [exact H2|].
  split; [vm_compute; reflexivity|]. split; [vm_compute; reflexivity|].
  rewrite H3. exists (sample_plan "old"). vm_compute. reflexivity.
Defined.

Lemma sample_deck_ok : deck_ok id id sample_saved /\ deck_ok id id sample_other.
Proof.
  split; (split; [|apply sample_plans_ok]); [exact sample_deck_tree_savable|].
  apply (reachable_savable sample_toInt), built_new.
Qed.

(** A deck is emptied, changed again, and everything undone and redone. *)
Definition sample_commands : list (@command sample_doubles) :=
  [Change (str "clear") sample_other; Change (str "back") sample_saved; Undo; Undo; Redo].

Lemma sample_commands_ok why d : Change why d ∈ sample_commands -> deck_ok id id d.
Proof.
  assert (Hc : Forall (fun c => match c with Change _ d => deck_ok id id d | _ => True end) sample_commands).
  { unfold sample_commands. repeat (apply Forall_cons_2; [first [exact I|apply sample_deck_ok]|]). apply Forall_nil_2. }
  intros Hd. rewrite Forall_forall in Hc. exact (Hc _ Hd).
Qed.

(** The boards are those of the deck that is brought back; the plan it did not have is
    still there. *)
Lemma history_refines_witness :
  let st := fold_left (history_run sample_number sample_toInt id id) sample_commands
              ({| undoStack := []; redoStack := [] |}, sample_saved) in
  content_boards (content st.2) = strip_all (board_zones (tree sample_other)) /\
  content_plans (content st.2) !! str "old" = Some (sample_plan "old") /\
  content_plans (content st.2) !! str "vs Burn" = Some (sample_plan "vs Burn") /\
  length (undoStack st.1) = 1%nat /\ length (redoStack st.1) = 1%nat.
Proof.
  destruct (@history_refines sample_doubles sample_number sample_toInt id id sample_codec sample_params_stable
    sample_saved sample_commands (proj1 sample_deck_ok) sample_commands_ok) as (H1 & H2 & H3).
  cbn zeta. rewrite H1. split_and!; [vm_compute; reflexivity..|exact H2|exact H3].
Defined.

(** A negative number in a file makes room for more cards than a deck may hold. *)
Lemma negative_number_lifts_cap :
  let card n := empty_element (str "card") [(str "number", [n]); (str "name", str "Forest")] in
  let t := (readZoneElement sample_toInt [(str "name", DECK_ZONE_MAIN)]
              (card (-50) ++ card 100050 ++ [EndElement (str "zone")]) empty_tree).1 in
  map number (all_cards (root t)) = [-50; 100050] /\ totalCards t = MAX_DECK_SIZE.
Proof. by vm_compute. Qed.

(** The budget of a copy starts at nothing. *)
Lemma copy_forgets_budget :
  totalCards sample_deck_tree = 13 /\ totalCards (copy_tree (fun _ => true) sample_deck_tree) = 0 /\
  strip_all (root (copy_tree (fun _ => true) sample_deck_tree)) = strip_all (root sample_deck_tree).
Proof. by vm_compute. Qed.
