(* ===== verification/Regex.v ===== *)
(** * Regular expressions, as far as the plain text format of decks uses them

    The pattern constructs of [QRegularExpression] in [deck_list_plain_text_parser.cpp]
    as a tree, with the leftmost, greedy, backtracking match that
    Perl-compatible expressions have: alternatives in their order, repetition
    as long as it can be, the first way that succeeds as a whole. A subject is
    the list of its characters.

    [matches] says which prefixes an expression can take at all, whatever the
    order; [run_sound] and [run_complete] relate the search to it. *)
From S2P Require Import Prelude.
Open Scope cockatrice_scope.
Local Open Scope Z_scope.

(** ** Expressions *)

Inductive regex : Type :=
| Eps
| Cls (p : Z -> bool)
| Seq (r q : regex)
| Alt (r q : regex)
| Star (r : regex)
| Grp (n : nat) (r : regex)
| Bol
| Eol
| WordB.

Definition Opt (r : regex) : regex := Alt r Eps.
Definition Plus (r : regex) : regex := Seq r (Star r).

Fixpoint seqs (l : list regex) : regex :=
  match l with
  | [] => Eps
  | [r] => r
  | r :: l => Seq r (seqs l)
  end.

Fixpoint alts (l : list regex) : regex :=
  match l with
  | [] => Eps
  | [r] => r
  | r :: l => Alt r (alts l)
  end.

(** ** Characters *)

Definition ascii_digit (c : Z) : bool := (48 <=? c) && (c <=? 57).
Definition ascii_upper (c : Z) : bool := (65 <=? c) && (c <=? 90).
Definition ascii_lower (c : Z) : bool := (97 <=? c) && (c <=? 122).
(** Tab to carriage return, and the space. *)
Definition ascii_space (c : Z) : bool := ((9 <=? c) && (c <=? 13)) || (c =? 32).
Definition ascii_word (c : Z) : bool :=
  ascii_digit c || ascii_upper c || ascii_lower c || (c =? 95).
Definition to_lower (c : Z) : Z := if ascii_upper c then c + 32 else c.
Definition to_upper (c : Z) : Z := if ascii_lower c then c - 32 else c.

Definition one_of (s : text) (c : Z) : bool := existsb (Z.eqb c) s.
Definition any (c : Z) : bool := negb (c =? 10).

Definition word_at (s : text) : bool := match s with c :: _ => ascii_word c | [] => false end.
Definition word_before (prev : option Z) : bool :=
  match prev with Some c => ascii_word c | None => false end.

(** ** The match *)

(** The texts of the groups, the last match of a group first. *)
Definition caps : Type := list (nat * text).

Definition captured (n : nat) (cs : caps) : text :=
  match List.find (fun g => Nat.eqb g.1 n) cs with Some g => g.2 | None => [] end.

(** What an expression takes at [s], behind the character [prev], is handed with
    the rest to [k], which fails or ends the match. *)
Definition cont (R : Type) : Type := option Z -> text -> caps -> option R.

(** The iterations of a repetition, each taking something: first as many as [k]
    allows, then fewer. *)
Definition iterate {R} (body : option Z -> text -> caps -> cont R -> option R) (k : cont R)
    : nat -> cont R :=
  fix star n prev s cs :=
    match n with
    | O => k prev s cs
    | S n =>
        match body prev s cs
                (fun prev' s' cs' =>
                   if Nat.ltb (length s') (length s) then star n prev' s' cs' else None) with
        | Some x => Some x
        | None => k prev s cs
        end
    end.

Fixpoint run {R} (r : regex) (prev : option Z) (s : text) (cs : caps) (k : cont R) : option R :=
  match r with
  | Eps => k prev s cs
  | Cls p => match s with c :: s' => if p c then k (Some c) s' cs else None | [] => None end
  | Seq r q => run r prev s cs (fun prev s cs => run q prev s cs k)
  | Alt r q =>
      match run r prev s cs k with
      | Some x => Some x
      | None => run q prev s cs k
      end
  | Star r => iterate (run r) k (length s) prev s cs
  | Grp n r =>
      run r prev s cs
        (fun prev' s' cs' => k prev' s' ((n, take (length s - length s')%nat s) :: cs'))
  | Bol => match prev with None => k prev s cs | Some _ => None end
  | Eol =>
      match s with
      | [] => k prev s cs
      | c :: s' => if (c =? 10) && bool_decide (s' = []) then k prev s cs else None
      end
  | WordB => if xorb (word_before prev) (word_at s) then k prev s cs else None
  end.

(** [QRegularExpressionMatch]: where the leftmost match starts, and its groups,
    the whole match as group 0. *)
Record Match : Type := { capturedStart : nat; groups : caps }.

Fixpoint search_from (r : regex) (n : nat) (prev : option Z) (s : text) : option Match :=
  match run (Grp 0 r) prev s [] (fun _ _ cs => Some {| capturedStart := n; groups := cs |}) with
  | Some m => Some m
  | None => match s with [] => None | c :: s' => search_from r (S n) (Some c) s' end
  end.

(** [re.match(s)] *)
Definition search (r : regex) (s : text) : option Match := search_from r 0 None s.

(** [s.contains(re)], [re.match(s).hasMatch()] *)
Definition contains (r : regex) (s : text) : bool :=
  match search r s with Some _ => true | None => false end.

(** [re.match(s).captured(n)] *)
Definition captured_in (m : option Match) (n : nat) : text :=
  match m with Some m => captured n (groups m) | None => [] end.

(** The match of the whole subject, as [QStringList::indexOf] asks for it. *)
Definition exact (r : regex) (s : text) : bool :=
  match run r None s [] (fun _ s' _ => if bool_decide (s' = []) then Some tt else None) with
  | Some _ => true
  | None => false
  end.

(** ** What an expression can take *)

Inductive matches : regex -> option Z -> text -> option Z -> text -> Prop :=
| matches_eps prev s : matches Eps prev s prev s
| matches_cls p prev c s : p c = true -> matches (Cls p) prev (c :: s) (Some c) s
| matches_seq r q prev s prev1 s1 prev2 s2 :
    matches r prev s prev1 s1 -> matches q prev1 s1 prev2 s2 -> matches (Seq r q) prev s prev2 s2
| matches_left r q prev s prev1 s1 : matches r prev s prev1 s1 -> matches (Alt r q) prev s prev1 s1
| matches_right r q prev s prev1 s1 : matches q prev s prev1 s1 -> matches (Alt r q) prev s prev1 s1
| matches_stop r prev s : matches (Star r) prev s prev s
| matches_more r prev s prev1 s1 prev2 s2 :
    matches r prev s prev1 s1 -> (length s1 < length s)%nat ->
    matches (Star r) prev1 s1 prev2 s2 -> matches (Star r) prev s prev2 s2
| matches_grp n r prev s prev1 s1 : matches r prev s prev1 s1 -> matches (Grp n r) prev s prev1 s1
| matches_bol s : matches Bol None s None s
| matches_end prev : matches Eol prev [] prev []
| matches_newline prev : matches Eol prev [10] prev [10]
| matches_word prev s :
    xorb (word_before prev) (word_at s) = true -> matches WordB prev s prev s.

Lemma matches_length r prev s prev' s' :
  matches r prev s prev' s' -> (length s' <= length s)%nat.
Proof. induction 1; cbn [length] in *; lia. Qed.

Lemma iterate_sound {R} r (k : cont R) n prev s cs x :
  (forall prev s cs (k : cont R) x, run r prev s cs k = Some x ->
     exists prev' s' cs', matches r prev s prev' s' /\ k prev' s' cs' = Some x) ->
  iterate (run r) k n prev s cs = Some x ->
  exists prev' s' cs', matches (Star r) prev s prev' s' /\ k prev' s' cs' = Some x.
Proof.
  intros IH. revert prev s cs. induction n as [|n IHn]; intros prev s cs; cbn [iterate].
  { intros H. exists prev, s, cs. split; [constructor|done]. }
  destruct (run r prev s cs _) as [y|] eqn:E.
  - intros [= ->]. apply IH in E as (prev1 & s1 & cs1 & Hm & Hk).
    destruct (Nat.ltb_spec (length s1) (length s)) as [Hl|]; [|done].
    destruct (IHn _ _ _ Hk) as (prev2 & s2 & cs2 & Hm2 & Hk2).
    exists prev2, s2, cs2. split; [|done]. by eapply matches_more.
  - intros H. exists prev, s, cs. split; [constructor|done].
Qed.

(** A match that is found is one. *)
Lemma run_sound {R} r prev s cs (k : cont R) x :
  run r prev s cs k = Some x ->
  exists prev' s' cs', matches r prev s prev' s' /\ k prev' s' cs' = Some x.
Proof.
  revert prev s cs k x. induction r; intros prev s cs k x; cbn [run].
  - intros H. exists prev, s, cs. split; [constructor|done].
  - destruct s as [|c s]; [done|]. destruct (p c) eqn:Hp; [|done].
    intros H. exists (Some c), s, cs. split; [by constructor|done].
  - intros (prev1 & s1 & cs1 & H1 & H)%IHr1. apply IHr2 in H as (prev2 & s2 & cs2 & H2 & H).
    exists prev2, s2, cs2. split; [by eapply matches_seq|done].
  - destruct (run r1 prev s cs k) as [y|] eqn:E.
    + intros [= ->]. apply IHr1 in E as (prev1 & s1 & cs1 & H1 & H).
      exists prev1, s1, cs1. split; [by apply matches_left|done].
    + intros (prev1 & s1 & cs1 & H1 & H)%IHr2.
      exists prev1, s1, cs1. split; [by apply matches_right|done].
  - by apply iterate_sound.
  - intros (prev1 & s1 & cs1 & H1 & H)%IHr. eexists prev1, s1, _. split; [by constructor|done].
  - destruct prev; [done|]. intros H. exists None, s, cs. split; [constructor|done].
  - destruct s as [|c s].
    + intros H. exists prev, [], cs. split; [constructor|done].
    + destruct ((c =? 10) && bool_decide (s = [])) eqn:E; [|done].
      apply andb_true_iff in E as [->%Z.eqb_eq ->%bool_decide_eq_true].
      intros H. exists prev, [10], cs. split; [constructor|done].
  - destruct (xorb _ _) eqn:E; [|done]. intros H. exists prev, s, cs. split; [by constructor|done].
Qed.

Lemma iterate_complete {R} r (k : cont R) n prev s prev' s' cs :
  (forall prev s prev' s' cs (k : cont R), matches r prev s prev' s' ->
     (forall cs', is_Some (k prev' s' cs')) -> is_Some (run r prev s cs k)) ->
  matches (Star r) prev s prev' s' -> (length s <= n)%nat -> (forall cs', is_Some (k prev' s' cs')) ->
  is_Some (iterate (run r) k n prev s cs).
Proof.
  intros IH. revert prev s cs. induction n as [|n IHn]; intros prev s cs Hm Hn Hk; cbn [iterate];
    inversion Hm; subst; [done|lia|by destruct (run r prev' s' cs _)|].
  edestruct (IH prev s prev1 s1 cs) as [y Hy]; [done| |by rewrite Hy].
  intros cs'. cbv beta. rewrite (proj2 (Nat.ltb_lt _ _)) by done. apply IHn; [done|lia|done].
Qed.

(** Whatever can be taken is found, when the rest of the match accepts it. *)
Lemma run_complete {R} r prev s prev' s' cs (k : cont R) :
  matches r prev s prev' s' -> (forall cs', is_Some (k prev' s' cs')) -> is_Some (run r prev s cs k).
Proof.
  revert prev s prev' s' cs k. induction r; intros prev s prev' s' cs k Hm Hk; cbn [run];
    inversion Hm; subst.
  - done.
  - by rewrite H0.
  - eapply IHr1; [done|]. intros cs'. by eapply IHr2.
  - match goal with H : matches _ _ _ _ _ |- _ => by destruct (IHr1 _ _ _ _ cs k H Hk) as [y ->] end.
  - destruct (run r1 prev s cs k); [done|]. by eapply IHr2.
  - by eapply iterate_complete.
  - by eapply iterate_complete.
  - eapply IHr; [done|]. intros cs'. apply Hk.
  - done.
  - done.
  - apply Hk.
  - match goal with H : xorb _ _ = true |- _ => rewrite H; apply Hk end.
Qed.

(** ** Searching *)

Lemma search_from_anchored r n prev s : search_from (Seq Bol r) n (Some prev) s = None.
Proof.
  revert n prev. induction s as [|c s IH]; intros n prev; [done|].
  cbn [search_from]. apply (IH (S n) c).
Qed.

(** An expression that begins with [^] is tried once. *)
Lemma search_anchored r s :
  search (Seq Bol r) s =
  run (Grp 0 (Seq Bol r)) None s [] (fun _ _ cs => Some {| capturedStart := 0; groups := cs |}).
Proof.
  unfold search. destruct s as [|c s]; cbn [search_from]; [by destruct (run _ _ _ _)|].
  rewrite search_from_anchored. cbn [run]. by destruct (run r None (c :: s) [] _).
Qed.

Lemma run_grp {R} n r prev s cs (k : cont R) :
  run (Grp n r) prev s cs k =
  run r prev s cs (fun prev' s' cs' => k prev' s' ((n, take (length s - length s')%nat s) :: cs')).
Proof. done. Qed.

Lemma contains_anchored r s :
  contains (Seq Bol r) s = true <-> exists prev' s', matches (Seq Bol r) None s prev' s'.
Proof.
  unfold contains. rewrite search_anchored. split.
  - destruct (run (Grp 0 (Seq Bol r)) None s [] _) eqn:E; [|done]. intros _. apply run_sound in E as (prev' & s' & _ & Hm & _).
    inversion Hm; subst. eauto.
  - intros (prev' & s' & Hm).
    destruct (run_complete (Grp 0 (Seq Bol r)) None s prev' s' []
      (fun _ _ cs => Some {| capturedStart := 0; groups := cs |})) as [m ->]; [by constructor|eauto|done].
Qed.

Lemma exact_matches r s : exact r s = true <-> exists prev', matches r None s prev' [].
Proof.
  unfold exact. split.
  - destruct (run r None s [] _) as [[]|] eqn:E; [|done]. intros _.
    apply run_sound in E as (prev' & s' & cs & Hm & Hk).
    case_bool_decide; [|done]. subst. eauto.
  - intros (prev' & Hm).
    by destruct (run_complete r None s prev' [] []
      (fun _ s' _ => if bool_decide (s' = []) then Some tt else None) Hm) as [[] ->].
Qed.

(** ** Repeated classes *)

Definition last_of (prev : option Z) (s : text) : option Z :=
  match last s with Some c => Some c | None => prev end.

Lemma last_of_cons prev c s : last_of prev (c :: s) = last_of (Some c) s.
Proof. unfold last_of. rewrite last_cons. by destruct (last s). Qed.

Lemma matches_cls_inv p prev s prev' s' :
  matches (Cls p) prev s prev' s' -> exists c, s = c :: s' /\ p c = true /\ prev' = Some c.
Proof. inversion 1; eauto. Qed.

Lemma matches_star_cls p prev s prev' s' :
  matches (Star (Cls p)) prev s prev' s' <->
  exists a, s = a ++ s' /\ Forall (fun c => p c = true) a /\ prev' = last_of prev a.
Proof.
  split.
  - remember (Star (Cls p)) as r eqn:Er. induction 1; try discriminate; injection Er as ->.
    { by exists []. }
    apply matches_cls_inv in H as (c & -> & Hp & ->). destruct (IHmatches2 eq_refl) as (a & -> & Ha & ->).
    exists (c :: a). split_and!; [done|by constructor|by rewrite last_of_cons].
  - intros (a & -> & Ha & ->). revert prev. induction Ha as [|c a Hc Ha IH]; intros prev; [constructor|].
    cbn [app]. apply matches_more with (Some c) (a ++ s'); [by constructor|cbn; lia|].
    rewrite last_of_cons. apply IH.
Qed.

(** A repetition whose rest accepts what is left behind all the characters of the
    class takes them all. *)
Lemma iterate_cls {R} p a b prev cs (k : cont R) n x :
  Forall (fun c => p c = true) a -> (length a <= n)%nat ->
  match b with c :: _ => p c = false | [] => True end ->
  k (last_of prev a) b cs = Some x ->
  iterate (run (Cls p)) k n prev (a ++ b) cs = Some x.
Proof.
  revert prev n. induction a as [|c a IH]; intros prev n Ha Hn Hb Hk.
  - cbn [app]. destruct n as [|n]; cbn [iterate]; [done|].
    destruct b as [|d b]; cbn [run]; [done|]. by rewrite Hb.
  - destruct n as [|n]; [cbn in Hn; lia|]. apply Forall_cons in Ha as [Hc Ha].
    change (iterate (run (Cls p)) k (S n) prev ((c :: a) ++ b) cs) with
      (match (if p c then if Nat.ltb (length (a ++ b)) (length (c :: a ++ b))
                          then iterate (run (Cls p)) k n (Some c) (a ++ b) cs else None else None)
       with Some y => Some y | None => k prev (c :: a ++ b) cs end).
    rewrite Hc. rewrite (proj2 (Nat.ltb_lt _ _)) by (cbn; lia).
    rewrite (IH (Some c) n); [done|done|cbn in Hn; lia|done|by rewrite <- (last_of_cons prev)].
Qed.

Lemma run_star_cls {R} p a b prev cs (k : cont R) x :
  Forall (fun c => p c = true) a -> match b with c :: _ => p c = false | [] => True end ->
  k (last_of prev a) b cs = Some x ->
  run (Star (Cls p)) prev (a ++ b) cs k = Some x.
Proof. intros. apply iterate_cls; try done. rewrite length_app. lia. Qed.

(** A repetition at a character outside its class is passed. *)
Lemma run_star_none {R} p b prev cs (k : cont R) :
  match b with c :: _ => p c = false | [] => True end ->
  run (Star (Cls p)) prev b cs k = k prev b cs.
Proof.
  intros Hb. destruct b as [|c b]; [done|]. cbn [run length iterate]. by rewrite Hb.
Qed.

(** ** One step of a match *)

Section Steps.
Context {R : Type} (cs : caps) (k : cont R).

Lemma run_seq r q prev s :
  run (Seq r q) prev s cs k = run r prev s cs (fun prev s cs => run q prev s cs k).
Proof. done. Qed.

Lemma run_bol s : run Bol None s cs k = k None s cs.
Proof. done. Qed.

Lemma run_eol prev : run Eol prev [] cs k = k prev [] cs.
Proof. done. Qed.

Lemma run_cls p prev c s : p c = true -> run (Cls p) prev (c :: s) cs k = k (Some c) s cs.
Proof. intros Hp. cbn [run]. by rewrite Hp. Qed.

Lemma run_opt_some r prev s x : run r prev s cs k = Some x -> run (Opt r) prev s cs k = Some x.
Proof. intros E. unfold Opt. cbn [run]. by rewrite E. Qed.
End Steps.

(** A class once and then as often as possible, up to the end of [a]. *)
Lemma run_plus_cls {R} p a b prev cs (k : cont R) x :
  a <> [] -> Forall (fun c => p c = true) a -> match b with c :: _ => p c = false | [] => True end ->
  k (last_of prev a) b cs = Some x -> run (Plus (Cls p)) prev (a ++ b) cs k = Some x.
Proof.
  intros Hne Ha Hb Hk. destruct Ha as [|c a Hc Ha]; [done|]. unfold Plus. cbn [app].
  rewrite run_seq, run_cls by done. apply run_star_cls; [done|done|by rewrite <- (last_of_cons prev)].
Qed.

(** ** Searches that find nothing *)

(** An expression that does not look behind. *)
Fixpoint forward (r : regex) : bool :=
  match r with
  | Seq r q | Alt r q => forward r && forward q
  | Star r | Grp _ r => forward r
  | Bol | WordB => false
  | _ => true
  end.

Lemma matches_forward r prev s prev' s' p :
  matches r prev s prev' s' -> forward r = true -> exists p', matches r p s p' s'.
Proof.
  intros Hm. revert p. induction Hm; intros q0; cbn [forward]; rewrite ?andb_true_iff; intros Hf;
    try done; try (by eexists; constructor).
  - destruct (IHHm1 q0) as [p1 H1]; [apply Hf|]. destruct (IHHm2 p1) as [p2 H2]; [apply Hf|].
    exists p2. by apply matches_seq with p1 s1.
  - destruct (IHHm q0) as [p1 H1]; [apply Hf|]. exists p1. by apply matches_left.
  - destruct (IHHm q0) as [p1 H1]; [apply Hf|]. exists p1. by apply matches_right.
  - destruct (IHHm1 q0 Hf) as [p1 H1]. destruct (IHHm2 p1 Hf) as [p2 H2].
    exists p2. by apply matches_more with p1 s1.
  - destruct (IHHm q0 Hf) as [p1 H1]. exists p1. by constructor.
Qed.

Lemma search_from_None r n prev s :
  search_from r n prev s = None <->
  forall a b prev' s', s = a ++ b -> ~ matches r (last_of prev a) b prev' s'.
Proof.
  assert (Hrun : forall n prev s, run (Grp 0 r) prev s []
      (fun _ _ cs => Some {| capturedStart := n; groups := cs |}) = None <->
    forall prev' s', ~ matches r prev s prev' s').
  { clear. intros n prev s. split.
    - intros E prev' s' Hm. destruct (run_complete (Grp 0 r) prev s prev' s' []
        (fun _ _ cs => Some {| capturedStart := n; groups := cs |})) as [m Hr]; [by constructor|eauto|].
      by rewrite Hr in E.
    - intros Hn. destruct (run _ _ _ _ _) as [m|] eqn:E; [|done].
      apply run_sound in E as (prev' & s' & _ & Hm & _). inversion Hm; subst. by destruct (Hn prev' s'). }
  revert n prev. induction s as [|c s IH]; intros n prev; cbn [search_from].
  - specialize (Hrun n prev []). destruct (run _ _ _ _ _) as [m|].
    + split; [done|]. intros Hn. apply Hrun. intros p' s'. by apply (Hn [] []).
    + split; [|done]. intros _ a b p' s' E. symmetry in E. apply app_nil in E as [-> ->].
      by apply Hrun.
  - specialize (Hrun n prev (c :: s)). destruct (run _ _ _ _ _) as [m|].
    + split; [done|]. intros Hn. apply Hrun. intros p' s'. by apply (Hn [] (c :: s)).
    + rewrite IH. split.
      * intros Hs [|x a] b p' s' E; [cbn in E; subst b; by apply Hrun|].
        injection E as <- E. rewrite last_of_cons. by apply Hs.
      * intros Hs a b p' s' ->. rewrite <- (last_of_cons prev). by apply (Hs (c :: a)).
Qed.

(** Characters the first symbol of an expression is not hide no match. *)
Lemma search_behind p r a s :
  forward r = true -> Forall (fun c => p c = false) a ->
  search (Seq (Cls p) r) s = None -> search (Seq (Cls p) r) (a ++ s) = None.
Proof.
  intros Hf Ha Hs. unfold search in *. apply search_from_None.
  intros u v prev' s' E Hm. symmetry in E. apply app_eq_inv in E as [(k & -> & ->)|(k & -> & ->)].
  - eapply matches_forward with (p := last_of None k) in Hm as [p' Hm]; [|done].
    by apply (proj1 (search_from_None _ _ _ _) Hs k v p' s').
  - destruct k as [|c k].
    + eapply matches_forward with (p := None) in Hm as [p' Hm]; [|done].
      by apply (proj1 (search_from_None _ _ _ _) Hs [] s p' s').
    + inversion Hm; subst. match goal with H : matches (Cls _) _ _ _ _ |- _ => inversion H; subst end.
      apply Forall_app in Ha as [_ Ha]. apply Forall_cons in Ha as [Ha _]. congruence.
Qed.
