(* ===== verification/PlainText.v ===== *)
(** * Decks as plain text: [deck_list_plain_text_parser.cpp], [saveToStream_Plain]

    The text form of a deck that players paste and share: one card per line, with
    optional counts, sections, marks, comments and printings. The parser is
    [parse], the loop over the lines [parse_lines]; the writer is
    [saveToStream_Plain]. A text is here the list of its characters, as regular
    expressions see it; what Unicode says beyond ASCII is an argument. *)
From S2P Require Import Prelude Text Regex DeckTree DeckList.
Open Scope cockatrice_scope.
Local Open Scope Z_scope.

(** ** Characters and strings of Qt *)

(** Character classes, case folding and case conversion outside ASCII. *)
Class Unicode : Type := {
  other_word : Z -> bool;
  other_space : Z -> bool;
  other_qspace : Z -> bool;
  other_fold : Z -> Z;
  other_lower : text -> text;
  other_upper : text -> text
}.

Section Strings.
Context `{Unicode}.

Definition is_ascii (c : Z) : bool := c <? 128.
Definition word (c : Z) : bool := if is_ascii c then ascii_word c else other_word c.
Definition space (c : Z) : bool := if is_ascii c then ascii_space c else other_space c.
(** [QChar::isSpace] *)
Definition isSpace (c : Z) : bool := if is_ascii c then ascii_space c else other_qspace c.
Definition fold (c : Z) : Z := if is_ascii c then to_lower c else other_fold c.

Definition toLower (s : text) : text := if forallb is_ascii s then map to_lower s else other_lower s.
Definition toUpper (s : text) : text := if forallb is_ascii s then map to_upper s else other_upper s.

Definition trimmed (s : text) : text := rev (drop_while isSpace (rev (drop_while isSpace s))).

(** The runs of characters that are no spaces. *)
Fixpoint words (s : text) : list text :=
  match s with
  | [] => []
  | c :: s' =>
      if isSpace c then words s'
      else
        match s' with
        | d :: _ =>
            if isSpace d then [c] :: words s'
            else match words s' with w :: ws => (c :: w) :: ws | [] => [[c]] end
        | [] => [[c]]
        end
  end.

Definition simplified (s : text) : text := join (str " ") (words s).

Definition chop (n : nat) (s : text) : text := take (length s - n) s.

Definition startsWith (prefix s : text) : bool := bool_decide (take (length prefix) s = prefix).

(** [endsWith(suffix, Qt::CaseInsensitive)] *)
Definition endsWith_fold (suffix s : text) : bool :=
  bool_decide (map fold (drop (length s - length suffix) s) = map fold suffix).

(** [toInt], which is asked for ASCII digits only: 0 where the number is no [int]. *)
Definition toInt (digits : text) : Z :=
  if forallb ascii_digit digits then
    let n := fold_left (fun n c => n * 10 + (c - 48)) digits 0 in
    if n <=? i32_max then n else 0
  else 0.

(** ** The expressions *)

Definition lit (s : string) : regex := seqs (map (fun c => Cls (Z.eqb c)) (str s)).
(** Under [CaseInsensitiveOption]. *)
Definition ilit (s : string) : regex := seqs (map (fun c => Cls (fun x => fold x =? fold c)) (str s)).

Definition sp : regex := Cls ascii_space.

Definition reSection : regex :=
  seqs [Bol; Star sp; Opt (Alt (seqs [lit "//"; Star sp]) (lit "["));
        Grp 1 (alts [Seq (ilit "commander") (Opt (ilit "s")); ilit "command zone"; ilit "sideboard";
                     ilit "deck"; ilit "mainboard"; ilit "maindeck"]);
        Opt (lit "]"); Opt (lit ":"); Star sp; Eol].

Definition reCommanderMark : regex :=
  seqs [Bol; Star sp; Alt (ilit "CM") (ilit "Commander"); lit ":"; Star sp;
        Grp 1 (Plus (Cls any)); Eol].

Definition card_start (c : Z) : bool := word c || one_of (str "[({") c.

Definition reCardLine : regex := seqs [Bol; Star (Cls space); Cls card_start; Star (Cls any); Eol].
Definition reEmpty : regex := seqs [Bol; Star sp; Eol].
Definition reComment : regex := seqs [Cls card_start; Star (Cls any); Eol].
Definition reSBMark : regex :=
  seqs [Bol; Star sp; ilit "sb:"; Star sp; Grp 1 (Plus (Cls any))].
Definition reSBComment : regex := seqs [Bol; ilit "sideboard"; WordB; Star (Cls any); Eol].
Definition reDeckComment : regex :=
  seqs [Bol;
        Grp 1 (Alt (seqs [Opt (Grp 2 (ilit "main")); ilit "deck"; Opt (Grp 3 (ilit "list"))])
                   (ilit "mainboard"));
        WordB].

Definition reMultiplier : regex :=
  seqs [Bol; Star (Cls (one_of (str "xX(["))); Grp 1 (Plus (Cls ascii_digit));
        Star (Cls (one_of (str "xX*)]"))); Opt (lit " "); Grp 2 (Plus (Cls any))].
Definition reTabQuantity : regex :=
  seqs [Bol; Plus (Cls ascii_digit); Opt (Cls (one_of (str "xX"))); Eol].

(** [\w{3,}] *)
Definition word3 : regex :=
  seqs [Cls ascii_word; Cls ascii_word; Cls ascii_word; Star (Cls ascii_word)].
(** [\d+[^\w\s]*] *)
Definition collector : regex :=
  Seq (Plus (Cls ascii_digit)) (Star (Cls (fun c => negb (ascii_word c || ascii_space c)))).

Definition reHyphenFormat : regex :=
  seqs [lit "("; Grp 1 word3; lit ")"; Plus sp; Grp 2 word3; lit "-"; Grp 3 collector].
Definition reRegularFormat : regex :=
  seqs [lit "("; Grp 1 word3; lit ")"; Plus sp; Grp 2 collector].

(** [DeckFileFormat::getFormatFromName] *)
Inductive Format : Type := PlainText | Cockatrice.

Definition getFormatFromName (fileName : text) : Format :=
  if endsWith_fold (str ".cod") fileName then Cockatrice else PlainText.

(** ** Lines *)

(** [QStringList::indexOf(re, from)]: the first line from [from] on that matches as
    a whole, or -1. *)
Definition indexOf (re : regex) (inputs : list text) (from : Z) : Z :=
  let from := if from <? 0 then Z.max (from + Z.of_nat (length inputs)) 0 else from in
  match list_find (fun s => exact re s = true) (drop (Z.to_nat from) inputs) with
  | Some (i, _) => from + Z.of_nat i
  | None => -1
  end.

(** [QStringList::lastIndexOf(re, from)]: the last one up to [from]. *)
Definition lastIndexOf (re : regex) (inputs : list text) (from : Z) : Z :=
  let size := Z.of_nat (length inputs) in
  let from := if from <? 0 then from + size else Z.min from (size - 1) in
  match list_find (fun s => exact re s = true) (rev (take (Z.to_nat (from + 1)) inputs)) with
  | Some (i, _) => from - Z.of_nat i
  | None => -1
  end.

(** The first empty line before the first card line; [None] where there is
    neither a card nor a comment. *)
Definition find_deckStart (inputs : list text) : option Z :=
  let deckStart := indexOf reCardLine inputs 0 in
  if deckStart =? -1 then
    if indexOf reComment inputs 0 =? -1 then None else Some (Z.of_nat (length inputs))
  else
    let deckStart := lastIndexOf reEmpty inputs deckStart in
    Some (if deckStart =? -1 then 0 else deckStart).

(** The line behind which unsectioned cards are in the sideboard. *)
Definition find_sBStart (inputs : list text) (deckStart : Z) : Z :=
  let max_line := Z.of_nat (length inputs) in
  if negb (indexOf reSBMark inputs deckStart =? -1) then -1
  else
    let sBStart := indexOf reSBComment inputs deckStart in
    if negb (sBStart =? -1) then sBStart
    else
      let sBStart := indexOf reEmpty inputs (deckStart + 1) in
      let sBStart := if sBStart =? -1 then max_line else sBStart in
      let nextCard := indexOf reCardLine inputs (sBStart + 1) in
      if negb (indexOf reEmpty inputs (nextCard + 1) =? -1) then max_line else sBStart.
End Strings.

(** ** The parser *)

Inductive DeckSection : Type := Legacy | Main | Side | Commander.

#[export] Instance DeckSection_eq_dec : EqDecision DeckSection.
Proof. solve_decision. Defined.

(** The variables of the loop over the lines. *)
Record Parsing : Type := {
  section : DeckSection;
  declarationsSeen : bool;
  commanderCopies : Z;
  parsed : DecklistNodeTree
}.

Definition with_section (s : DeckSection) (st : Parsing) : Parsing :=
  {| section := s; declarationsSeen := declarationsSeen st; commanderCopies := commanderCopies st;
     parsed := parsed st |}.

Definition beginDeclarations (st : Parsing) : Parsing :=
  if declarationsSeen st then st
  else {| section := section st; declarationsSeen := true; commanderCopies := commanderCopies st;
          parsed := clearCommanders (parsed st) |}.

Section Parser.
Context `{Unicode}.
Context (cardNameNormalizer : text -> text).

Definition section_of_label (label : text) : DeckSection :=
  let label := toLower label in
  if startsWith (str "command") label then Commander
  else if bool_decide (label = str "sideboard") then Side
  else Main.

(** The loop over the empty fields at the beginning of a record. *)
Fixpoint skip_fields (fields : list text) : list text :=
  match fields with
  | [] => []
  | f :: fields' => if bool_decide (trimmed f = []) then skip_fields fields' else fields
  end.

(** Quantity and name of a tabular record. *)
Definition tab_record (rawLine : text) : option (Z * text) :=
  match skip_fields (split_char 9 rawLine) with
  | quantity :: name :: _ =>
      let quantity := trimmed quantity in
      if contains reTabQuantity quantity then
        let digits := match last quantity with
                      | Some c => if one_of (str "xX") c then chop 1 quantity else quantity
                      | None => quantity
                      end in
        Some (toInt digits, simplified name)
      else None
  | _ => None
  end.

(** Name, set code and collector number. *)
Definition split_printing (cardName : text) : text * text * text :=
  match search reHyphenFormat cardName with
  | Some m => (trimmed (take (capturedStart m) cardName), toUpper (captured 2 (groups m)),
               captured 3 (groups m))
  | None =>
      match search reRegularFormat cardName with
      | Some m => (trimmed (take (capturedStart m) cardName), toUpper (captured 1 (groups m)),
                   captured 2 (groups m))
      | None => (cardName, [], [])
      end
  end.

Definition split_amount (amount : Z) (cardName : text) : Z * text :=
  match search reMultiplier cardName with
  | Some m => (toInt (captured 1 (groups m)), captured 2 (groups m))
  | None => (amount, cardName)
  end.

(** From the place of a card to its entry; [false] ends the parse. *)
Definition enter_card (commander sideboard hasTabQuantity : bool) (amount : Z) (cardName : text)
    (st : Parsing) : bool * Parsing :=
  let cardName := if endsWith_fold (str "*F*") cardName then chop 3 cardName else cardName in
  let '(cardName, setCode, collectorNumber) := split_printing cardName in
  let '(amount, cardName) :=
    if hasTabQuantity then (amount, cardName) else split_amount amount cardName in
  let cardName := cardNameNormalizer cardName in
  if commander && ((amount <? 1) || (10000 - commanderCopies st <? amount)
                   || bool_decide (cardName = []))
  then (false, st)
  else
    let zoneName :=
      if commander then DECK_ZONE_COMMANDER else if sideboard then DECK_ZONE_SIDE else DECK_ZONE_MAIN in
    (true,
     {| section := section st; declarationsSeen := declarationsSeen st;
        commanderCopies := if commander then commanderCopies st + amount else commanderCopies st;
        parsed := (addCard cardName amount zoneName (-1) setCode collectorNumber [] true (parsed st)).2 |}).

Definition parse_card (sBStart index : Z) (rawLine : text) (st : Parsing) : bool * Parsing :=
  let cardName := simplified rawLine in
  let '(commander, st, cardName) :=
    match search reCommanderMark cardName with
    | Some m => (true, beginDeclarations st, captured 1 (groups m))
    | None => (bool_decide (section st = Commander), st, cardName)
    end in
  let '(hasTabQuantity, amount, cardName) :=
    match tab_record rawLine with
    | Some (amount, name) => (true, amount, name)
    | None => (false, 1, cardName)
    end in
  match search reSBMark cardName with
  | Some m => enter_card commander true hasTabQuantity amount (captured 1 (groups m)) st
  | None =>
      if bool_decide (section st = Legacy) && (0 <=? sBStart) then
        if index =? sBStart then (true, st)
        else enter_card commander (sBStart <? index) hasTabQuantity amount cardName st
      else enter_card commander (bool_decide (section st = Side)) hasTabQuantity amount cardName st
  end.

(** One line of the list. *)
Definition parse_line (sBStart index : Z) (input : text) (st : Parsing) : bool * Parsing :=
  let line := trimmed input in
  let st := if bool_decide (line = []) && bool_decide (section st = Commander)
            then with_section Main st else st in
  match search reSection line with
  | Some m =>
      let st := with_section (section_of_label (captured 1 (groups m))) st in
      (true, if bool_decide (section st = Commander) then beginDeclarations st else st)
  | None =>
      match search reCardLine input with
      | None => (true, st)
      | Some m => parse_card sBStart index (captured 0 (groups m)) st
      end
  end.

Fixpoint parse_lines (sBStart index : Z) (inputs : list text) (st : Parsing) : bool * Parsing :=
  match inputs with
  | [] => (true, st)
  | input :: inputs =>
      let '(ok, st) := parse_line sBStart index input st in
      if ok then parse_lines sBStart (index + 1) inputs st else (false, st)
  end.

(** The loop that stops behind the line of the name: the lines left. *)
Fixpoint read_name (inputs : list text) : option text * list text :=
  match inputs with
  | [] => (None, [])
  | current :: inputs =>
      if contains reEmpty current then read_name inputs
      else (Some (captured_in (search reComment current) 0), inputs)
  end.

Definition read_comments (inputs : list text) (comments : text) : text :=
  chop 1
    (fold_left (fun comments current =>
       if contains reEmpty current then comments
       else comments ++ captured_in (search reComment current) 0 ++ [10]) inputs comments).

(** [while (index < max_line && inputs.at(index).contains(reEmpty)) ++index] *)
Fixpoint skip_empty (index : Z) (inputs : list text) : Z * list text :=
  match inputs with
  | [] => (index, [])
  | input :: inputs' =>
      if contains reEmpty input then skip_empty (index + 1) inputs' else (index, inputs)
  end.

Section Deck.
Context `{Doubles}.

(** [DeckListPlainText::parse]; [None] where a line behind the last one is read. *)
Definition parse (input : text) (m : Metadata) (t : DecklistNodeTree)
    : option (bool * Metadata * DecklistNodeTree) :=
  let inputs := split_char 10 (trimmed input) in
  match find_deckStart inputs with
  | None => Some (false, m, t)
  | Some deckStart =>
      let sBStart := find_sBStart inputs deckStart in
      let '(name, rest) := read_name (take (Z.to_nat deckStart) inputs) in
      let m := match name with Some name => with_deckname name m | None => m end in
      let m := with_comments (read_comments rest (comments m)) m in
      let '(index, lines) := skip_empty deckStart (drop (Z.to_nat deckStart) inputs) in
      match lines with
      | [] => None
      | line :: lines' =>
          let '(index, lines) :=
            if contains reDeckComment line then (index + 1, lines') else (index, lines) in
          let '(ok, st) :=
            parse_lines sBStart index lines
              {| section := Legacy; declarationsSeen := false; commanderCopies := 0; parsed := t |} in
          Some (ok, m, parsed st)
      end
  end.

(** [DeckList::loadFromStream_Plain] *)
Definition loadFromStream_Plain (input : text) (preserveMetadata : bool) (d : DeckList)
    : option (bool * DeckList) :=
  let d := cleanList preserveMetadata d in
  match parse input (metadata d) (tree d) with
  | Some (ok, m, t) => Some (ok, refreshDeckHash (with_tree t (with_metadata m d)))
  | None => None
  end.
End Deck.
End Parser.

(** ** The writer *)

(** [QString::number] of an [int]. *)
Definition number_text (n : Z) : text := if n <? 0 then str "-" ++ dec_u32 (- n) else dec_u32 n.

(** [replace] of two slashes by one, from the left. *)
Fixpoint slash_once (s : text) : text :=
  match s with
  | c :: ((d :: s'') as s') =>
      if (c =? 47) && (d =? 47) then 47 :: slash_once s'' else c :: slash_once s'
  | _ => s
  end.

Section Writer.
Context `{Doubles}.
Context (prefixSideboardCards slashTappedOutSplitCards : bool).

Definition entry_line (c : Card) : text :=
  number_text (number c) ++ str " " ++
  (if slashTappedOutSplitCards then slash_once (card_name c) else card_name c) ++ [10].

(** [writeToStream] *)
Definition write_entry (e : node * Card) : text :=
  if bool_decide (getName e.1 = DECK_ZONE_MAYBEBOARD) || bool_decide (getName e.1 = DECK_ZONE_COMMANDER)
  then []
  else (if prefixSideboardCards && bool_decide (getName e.1 = DECK_ZONE_SIDE) then str "SB: " else [])
       ++ entry_line e.2.

Definition saveToStream_Plain (d : DeckList) : text :=
  let commanders := getCardNodes [DECK_ZONE_COMMANDER] (tree d) in
  let in_main (e : node * Card) := bool_decide (getName e.1 = DECK_ZONE_MAIN) in
  (if bool_decide (commanders = []) then []
   else str "Commander" ++ [10] ++ concat (map entry_line commanders) ++ [10] ++ str "Deck" ++ [10]) ++
  concat (map write_entry (List.filter in_main (forEachCard (tree d)))) ++
  concat (map write_entry (List.filter (fun e => negb (in_main e)) (forEachCard (tree d)))).
End Writer.
