(* ===== verification/PlainTextCorrect.v ===== *)
(** * Plain text decks: what is written is read back *)
From S2P Require Import Prelude Text Regex DeckTree DeckTreeCorrect DeckList DeckListCorrect PlainText.
Open Scope cockatrice_scope.
Local Open Scope Z_scope.

(** ** Texts *)

Section Texts.
Context `{Unicode}.

Definition spaceless (w : text) : Prop := w <> [] /\ Forall (fun c => isSpace c = false) w.

Lemma words_spaceless s : Forall spaceless (words s).
Proof.
  induction s as [|c s IH]; cbn [words]; [done|].
  destruct (isSpace c) eqn:Hc; [done|]. destruct s as [|d s].
  { constructor; [|done]. split; [done|]. by constructor. }
  destruct (isSpace d); [constructor; [|done]; split; [done|by constructor]|].
  destruct (words (d :: s)) as [|w ws]; [constructor; [|done]; split; [done|by constructor]|].
  apply Forall_cons in IH as [[_ Hw] Hws]. constructor; [|done]. split; [done|by constructor].
Qed.

Lemma isSpace_space : isSpace 32 = true.
Proof. reflexivity. Qed.

Lemma words_spaceless_app w s : spaceless w ->
  match s with c :: _ => isSpace c = true | [] => True end -> words (w ++ s) = w :: words s.
Proof.
  intros [Hne Hw] Hs. induction Hw as [|c w Hc Hw IH]; [done|].
  destruct w as [|d w].
  - cbn [app words]. rewrite Hc. destruct s as [|e s]; [done|]. cbn [words]. by rewrite Hs.
  - change ((c :: d :: w) ++ s) with (c :: d :: w ++ s). cbn [words]. rewrite Hc.
    apply Forall_cons in Hw as Hd. destruct Hd as [Hd _]. rewrite Hd.
    change (d :: w ++ s) with ((d :: w) ++ s).
    assert (E : words ((d :: w) ++ s) = (d :: w) :: words s) by (by apply IH).
    cbn [app words] in E. rewrite Hd in E. by rewrite E.
Qed.

Lemma join_cons sep (w : text) ws : ws <> [] -> join sep (w :: ws) = w ++ sep ++ join sep ws.
Proof. destruct ws as [|v ws]; [done|]. intros _. cbn [join map concat]. by rewrite <- (app_assoc sep). Qed.

Lemma words_join ws : Forall spaceless ws -> words (join (str " ") ws) = ws.
Proof.
  induction 1 as [|w ws Hw Hws IH]; [done|]. destruct ws as [|v ws].
  { cbn [join map concat]. rewrite words_spaceless_app; done. }
  rewrite join_cons by done. rewrite words_spaceless_app by done. f_equal.
  change (words (str " " ++ join (str " ") (v :: ws))) with (words (join (str " ") (v :: ws))).
  exact IH.
Qed.

Lemma simplified_words s : simplified s = s -> words s <> [] \/ s = [].
Proof. unfold simplified. destruct (words s); [|by left]. cbn. by right. Qed.

(** A word in front of a simplified text. *)
Lemma simplified_cons w s : spaceless w -> simplified s = s -> s <> [] ->
  words (w ++ str " " ++ s) = w :: words s /\ simplified (w ++ str " " ++ s) = w ++ str " " ++ s.
Proof.
  intros Hw Hs Hne. assert (E : words (w ++ str " " ++ s) = w :: words s)
    by (rewrite words_spaceless_app by done; reflexivity).
  split; [done|]. unfold simplified at 1. rewrite E, join_cons.
  - f_equal. f_equal. exact Hs.
  - destruct (simplified_words s Hs); done.
Qed.

Definition no_space_at (o : option Z) : Prop := match o with Some c => isSpace c = false | None => False end.

Lemma trimmed_id s : no_space_at (head s) -> no_space_at (last s) -> trimmed s = s.
Proof.
  unfold trimmed. destruct s as [|c s]; [done|]. intros Hc Hl. cbn in Hc.
  assert (E : drop_while isSpace (c :: s) = c :: s) by (cbn [drop_while]; by rewrite Hc).
  rewrite E. clear E Hc. assert (Hne : c :: s <> []) by done.
  destruct (exists_last Hne) as (r & d & E). rewrite E in Hl |- *. rewrite last_snoc in Hl. cbn in Hl.
  rewrite rev_app_distr. cbn [rev app drop_while]. rewrite Hl. cbn [rev].
  by rewrite rev_involutive.
Qed.

Lemma simplified_ends s : simplified s = s -> s <> [] -> no_space_at (head s) /\ no_space_at (last s).
Proof.
  intros Hs Hne. assert (Hw := words_spaceless s). unfold simplified in Hs.
  destruct (words s) as [|w ws]; [by rewrite <- Hs in Hne|]. rewrite <- Hs. clear Hs Hne s. split.
  - apply Forall_cons in Hw as [[Hne Hw] _]. destruct w as [|c w]; [done|].
    apply Forall_cons in Hw as [Hc _]. cbn. by destruct ws.
  - revert w Hw. induction ws as [|v ws IH]; intros w Hw.
    + apply Forall_cons in Hw as [[Hne Hw] _]. cbn [join map concat]. rewrite app_nil_r.
      destruct (exists_last Hne) as (w' & c & ->). apply Forall_app in Hw as [_ Hc].
      apply Forall_cons in Hc as [Hc _]. rewrite last_snoc. exact Hc.
    + apply Forall_cons in Hw as [_ Hw]. rewrite join_cons by done. rewrite app_assoc, last_app.
      specialize (IH v Hw). destruct (last _); [done|done].
Qed.

Lemma trimmed_simplified s : simplified s = s -> s <> [] -> trimmed s = s.
Proof. intros Hs Hne. destruct (simplified_ends s Hs Hne). by apply trimmed_id. Qed.

(** No character of a simplified text is a space other than the blank. *)
Lemma simplified_no s c : simplified s = s -> isSpace c = true -> c <> 32 -> c ∉ s.
Proof.
  intros Hs Hc H32. rewrite <- Hs. unfold simplified. assert (Hw := words_spaceless s).
  induction Hw as [|w ws [_ Hw] Hws IH]; [cbn; set_solver|].
  assert (Hn : c ∉ w).
  { intros Hin. rewrite Forall_forall in Hw. specialize (Hw c Hin). cbn in Hw. congruence. }
  destruct ws as [|v ws]; [cbn [join map concat]; by rewrite app_nil_r|].
  rewrite join_cons by done. rewrite !not_elem_of_app. split_and!; [done| |done].
  cbn. set_solver.
Qed.

Lemma toInt_digits acc s n : 0 <= acc -> digits_u32 acc s = Some n ->
  fold_left (fun n c => n * 10 + (c - 48)) s acc = n.
Proof.
  revert acc. induction s as [|c s IH]; cbn [digits_u32 fold_left]; intros acc Ha; [congruence|].
  destruct ((48 <=? c) && (c <=? 57)) eqn:Hc; [|done]. destruct (_ <=? u32_max); [|done].
  apply IH. lia.
Qed.

Lemma toInt_dec n : 0 <= n <= i32_max -> toInt (dec_u32 n) = n.
Proof.
  intros Hn. assert (Hp := parse_u32_dec n ltac:(mlia)).
  assert (Hd : Forall is_digit (dec_u32 n)) by (by apply dec_aux_digits; [lia|]).
  unfold toInt. rewrite (proj2 (forallb_forall _ _)).
  - destruct (dec_u32_head n) as (c & r & E & Hc); [lia|]. rewrite E in Hp. rewrite parse_u32_digit in Hp by done.
    rewrite <- E in Hp. rewrite (toInt_digits 0 (dec_u32 n) n) by (done || lia).
    by rewrite (proj2 (Z.leb_le _ _)) by lia.
  - intros c Hc%list_elem_of_In. rewrite Forall_forall in Hd. specialize (Hd c Hc).
    unfold is_digit, ascii_digit in *. lia.
Qed.

Lemma toInt_nonneg s : 0 <= toInt s.
Proof.
  unfold toInt. destruct (forallb ascii_digit s) eqn:Hs; [|lia].
  assert (H0 : forall n, 0 <= n -> 0 <= fold_left (fun n c => n * 10 + (c - 48)) s n).
  { induction s as [|c s IH]; cbn [fold_left]; intros n Hn; [done|]. cbn [forallb] in Hs.
    apply andb_true_iff in Hs as [Hc Hs]. unfold ascii_digit in Hc. apply IH; [done|lia]. }
  specialize (H0 0 ltac:(lia)). destruct (_ <=? i32_max); lia.
Qed.

Lemma number_text_dec n : 0 <= n -> number_text n = dec_u32 n.
Proof. intros Hn. unfold number_text. by rewrite (proj2 (Z.ltb_ge _ _)). Qed.
End Texts.

(** ** Expressions at the beginning of a written line *)

Ltac digit_cases c Hc :=
  unfold is_digit in Hc;
  assert (c = 48 \/ c = 49 \/ c = 50 \/ c = 51 \/ c = 52 \/ c = 53 \/ c = 54 \/
          c = 55 \/ c = 56 \/ c = 57) as Hc' by lia;
  clear Hc; destruct_or! Hc'; subst c.

Section Expressions.
Context `{Unicode}.

(** A line of the list begins with a digit or with the mark of the sideboard. *)
Inductive starts_entry : text -> Prop :=
| starts_digit c s : is_digit c -> starts_entry (c :: s)
| starts_mark s : starts_entry (str "SB: " ++ s).

Lemma entry_no_section s : starts_entry s -> search reSection s = None.
Proof.
  unfold reSection. cbn [seqs]. rewrite search_anchored.
  intros [c t Hc|t]; [digit_cases c Hc|]; vm_compute; reflexivity.
Qed.

Lemma entry_no_commander s : starts_entry s -> search reCommanderMark s = None.
Proof.
  unfold reCommanderMark. cbn [seqs]. rewrite search_anchored.
  intros [c t Hc|t]; [digit_cases c Hc|]; vm_compute; reflexivity.
Qed.

Lemma entry_not_empty s : starts_entry s -> exact reEmpty s = false.
Proof. intros [c t Hc|t]; [digit_cases c Hc|]; vm_compute; reflexivity. Qed.

Lemma entry_contains_empty s : starts_entry s -> contains reEmpty s = false.
Proof.
  unfold contains, reEmpty. cbn [seqs]. rewrite search_anchored.
  intros [c t Hc|t]; [digit_cases c Hc|]; vm_compute; reflexivity.
Qed.

Lemma entry_no_sb_comment s : starts_entry s -> exact reSBComment s = false.
Proof. intros [c t Hc|t]; [digit_cases c Hc|]; vm_compute; reflexivity. Qed.

Lemma entry_no_deck_comment s : starts_entry s -> contains reDeckComment s = false.
Proof.
  unfold contains, reDeckComment. cbn [seqs]. rewrite search_anchored.
  intros [c t Hc|t]; [digit_cases c Hc|]; vm_compute; reflexivity.
Qed.

Lemma digit_no_mark c s : is_digit c -> search reSBMark (c :: s) = None.
Proof.
  unfold reSBMark. cbn [seqs]. rewrite search_anchored.
  intros Hc. digit_cases c Hc; vm_compute; reflexivity.
Qed.
(** A line that begins as a card is one, as a whole. *)
Lemma any_not_newline (s : text) : 10 ∉ s -> Forall (fun c => any c = true) s.
Proof.
  intros Hs. apply Forall_forall. intros c Hc. unfold any.
  destruct (Z.eqb_spec c 10) as [->|]; done.
Qed.

Lemma run_card_line {R} c s cs (k : cont R) x :
  space c = false -> card_start c = true -> 10 ∉ s ->
  k (last_of (Some c) s) [] cs = Some x -> run reCardLine None (c :: s) cs k = Some x.
Proof.
  intros Hsp Hc Hs Hk. unfold reCardLine. cbn [seqs].
  rewrite run_seq, run_bol, run_seq, run_star_none by done.
  rewrite run_seq, run_cls by done. rewrite run_seq. rewrite <- (app_nil_r s).
  apply run_star_cls; [by apply any_not_newline|done|done].
Qed.

Lemma card_line_found c s : space c = false -> card_start c = true -> 10 ∉ s ->
  exact reCardLine (c :: s) = true /\
  search reCardLine (c :: s) = Some {| capturedStart := 0; groups := [(0%nat, c :: s)] |}.
Proof.
  intros Hsp Hc Hs. split.
  - unfold exact. by rewrite (run_card_line c s [] _ tt).
  - unfold reCardLine. cbn [seqs]. rewrite search_anchored, run_grp.
    apply (run_card_line c s []); [done..|]. cbn [length]. by rewrite Nat.sub_0_r, take_ge.
Qed.

Lemma starts_entry_head s : starts_entry s ->
  exists c t, s = c :: t /\ space c = false /\ card_start c = true /\ isSpace c = false.
Proof.
  intros [c t Hc|t]; [digit_cases c Hc|]; eexists _, _; (split; [reflexivity|done]).
Qed.

Lemma entry_card_line s : starts_entry s -> 10 ∉ s ->
  exact reCardLine s = true /\
  search reCardLine s = Some {| capturedStart := 0; groups := [(0%nat, s)] |}.
Proof.
  intros (c & t & -> & Hsp & Hc & _)%starts_entry_head [_ Hs]%not_elem_of_cons.
  by apply card_line_found.
Qed.

(** The mark of the sideboard is taken off. *)
Lemma run_mark {R} s cs (k : cont R) x :
  s <> [] -> 10 ∉ s -> ascii_space (List.hd 0 s) = false ->
  k (last_of (Some 32) s) [] ((1%nat, s) :: cs) = Some x ->
  run reSBMark None (str "SB: " ++ s) cs k = Some x.
Proof.
  intros Hne Hs Hh Hk. unfold reSBMark, ilit, sp. cbn [seqs map str app].
  rewrite run_seq, run_bol, run_seq, run_star_none by done.
  rewrite run_seq, run_seq, run_cls by done. rewrite run_seq, run_cls by done. rewrite run_cls by done.
  rewrite run_seq. change (Z.of_nat _ :: s) with ([32] ++ s).
  apply run_star_cls; [by constructor|by destruct s|]. cbv beta. rewrite run_grp.
  rewrite <- (app_nil_r s). apply run_plus_cls; [done|by apply any_not_newline|done|]. cbv beta.
  rewrite app_nil_r. cbn [length]. rewrite Nat.sub_0_r, take_ge by lia. exact Hk.
Qed.

Lemma mark_found s : s <> [] -> 10 ∉ s -> ascii_space (List.hd 0 s) = false ->
  exact reSBMark (str "SB: " ++ s) = true /\
  exists m, search reSBMark (str "SB: " ++ s) = Some m /\ captured 1 (groups m) = s.
Proof.
  intros Hne Hs Hh. split.
  - unfold exact. by rewrite (run_mark s [] _ tt).
  - eexists. split.
    + unfold reSBMark. cbn [seqs]. rewrite search_anchored, run_grp. by apply (run_mark s []).
    + done.
Qed.

(** A number, a blank and a name are told apart. *)
Lemma run_multiplier {R} ds s cs (k : cont R) x :
  ds <> [] -> Forall is_digit ds -> s <> [] -> 10 ∉ s ->
  k (last_of (Some 32) s) [] ((2%nat, s) :: (1%nat, ds) :: cs) = Some x ->
  run reMultiplier None (ds ++ str " " ++ s) cs k = Some x.
Proof.
  intros Hd Hds Hne Hs Hk. unfold reMultiplier. cbn [seqs].
  rewrite run_seq, run_bol, run_seq, run_star_none.
  2:{ destruct Hds as [|d ds Hc _]; [done|]. cbn [app]. by digit_cases d Hc. }
  rewrite run_seq, run_grp.
  apply run_plus_cls; [done| |done|].
  { eapply Forall_impl; [done|]. cbn. intros c Hc. unfold ascii_digit, is_digit in *. lia. }
  cbv beta. rewrite length_app, Nat.add_sub, take_app_length.
  rewrite run_seq, run_star_none by done. rewrite run_seq. apply run_opt_some. cbn [str app lit seqs map].
  rewrite run_cls by done. rewrite run_grp. rewrite <- (app_nil_r s) at 1.
  apply run_plus_cls; [done|by apply any_not_newline|done|]. cbv beta.
  rewrite ?app_nil_r. cbn [length]. rewrite Nat.sub_0_r, take_ge by lia. exact Hk.
Qed.

Lemma multiplier_found ds s : ds <> [] -> Forall is_digit ds -> s <> [] -> 10 ∉ s ->
  exists m, search reMultiplier (ds ++ str " " ++ s) = Some m /\
    captured 1 (groups m) = ds /\ captured 2 (groups m) = s.
Proof.
  intros Hd Hds Hne Hs. eexists. split; [|split].
  - unfold reMultiplier. cbn [seqs]. rewrite search_anchored, run_grp.
    by apply (run_multiplier ds s []).
  - done.
  - done.
Qed.
End Expressions.

(** ** One line *)

Section Lines.
Context `{Unicode} (norm : text -> text).

(** Names that need no quoting: single blanks, none of the marks for foil cards
    and printings, and nothing for the normalizer to do. *)
Record plain_name (s : text) : Prop := {
  pn_simplified : simplified s = s;
  pn_nonempty : s <> [];
  pn_not_foil : endsWith_fold (str "*F*") s = false;
  pn_no_hyphen : search reHyphenFormat s = None;
  pn_no_regular : search reRegularFormat s = None;
  pn_normal : norm s = s
}.

Definition entry_text (e : text * Z) : text := number_text e.2 ++ str " " ++ e.1.
Definition plain_entry (e : text * Z) : Prop := plain_name e.1 /\ 1 <= e.2 <= i32_max.

(** A card with its count, put where it belongs. *)
Definition enter (commander sideboard : bool) (e : text * Z) (st : Parsing) : bool * Parsing :=
  if commander && (10000 - commanderCopies st <? e.2) then (false, st)
  else
    (true,
     {| section := section st; declarationsSeen := declarationsSeen st;
        commanderCopies := if commander then commanderCopies st + e.2 else commanderCopies st;
        parsed := (addCard e.1 e.2 (if commander then DECK_ZONE_COMMANDER
                                    else if sideboard then DECK_ZONE_SIDE else DECK_ZONE_MAIN)
                     (-1) [] [] [] true (parsed st)).2 |}).

Lemma digits_spaceless ds : ds <> [] -> Forall is_digit ds -> spaceless ds.
Proof.
  intros Hne Hds. split; [done|]. eapply Forall_impl; [done|]. cbn. intros c Hc. by digit_cases c Hc.
Qed.

Lemma number_digits n : 1 <= n -> number_text n <> [] /\ Forall is_digit (number_text n).
Proof.
  intros Hn. rewrite number_text_dec by lia. split; [apply dec_aux_S_nonempty|].
  apply dec_aux_digits; [lia|done].
Qed.

Lemma entry_simplified e : plain_entry e -> simplified (entry_text e) = entry_text e.
Proof.
  intros [Hp Hn]. destruct (number_digits e.2) as [Hne Hds]; [lia|].
  apply simplified_cons; [by apply digits_spaceless|apply Hp..].
Qed.

Lemma entry_starts e : plain_entry e -> starts_entry (entry_text e).
Proof.
  intros [_ Hn]. unfold entry_text. destruct (number_digits e.2) as [Hne Hds]; [lia|].
  destruct Hds as [|c ds Hc Hds]; [done|]. by constructor.
Qed.

Lemma entry_no_control e c : plain_entry e -> ascii_space c = true -> c <> 32 -> c ∉ entry_text e.
Proof.
  intros He Hc H32. apply simplified_no; [by apply entry_simplified| |done].
  unfold isSpace, is_ascii. by rewrite (proj2 (Z.ltb_lt _ _)) by (unfold ascii_space in Hc; lia).
Qed.

(** The end of a line is the end of its name. *)
Lemma entry_not_foil e : plain_entry e -> endsWith_fold (str "*F*") (entry_text e) = false.
Proof.
  intros [Hp Hn]. unfold entry_text. destruct (number_digits e.2) as [Hne Hds]; [lia|].
  assert (Hf := pn_not_foil _ Hp). assert (Hs := pn_nonempty _ Hp).
  unfold endsWith_fold in *. apply bool_decide_eq_false. intros E.
  apply bool_decide_eq_false in Hf. apply Hf. clear Hf.
  destruct (exists_last Hne) as (ds & d & Ed). rewrite Ed in E. clear Ed.
  destruct e.1 as [|a [|b [|c s]]] eqn:En; [done|..].
  - replace ((ds ++ [d]) ++ str " " ++ [a]) with (ds ++ [d; 32; a]) in E by by rewrite <- app_assoc.
    rewrite length_app, Nat.add_sub, drop_app_length in E. by injection E.
  - replace ((ds ++ [d]) ++ str " " ++ [a; b]) with ((ds ++ [d]) ++ [32; a; b]) in E by done.
    rewrite length_app, Nat.add_sub, drop_app_length in E. by injection E.
  - rewrite <- E. f_equal. rewrite app_assoc, length_app.
    change (length (str "*F*")) with 3%nat. rewrite drop_app_ge by (cbn; lia). f_equal. cbn. lia.
Qed.

Lemma enter_card_entry commander sideboard e st : plain_entry e ->
  enter_card norm commander sideboard false 1 (entry_text e) st = enter commander sideboard e st.
Proof.
  intros He. unfold enter_card. rewrite entry_not_foil by done.
  destruct He as [Hp Hn]. destruct (number_digits e.2) as [Hne Hds]; [lia|].
  assert (Hpre : Forall (fun c => (Z.eqb 40 c) = false) (number_text e.2 ++ str " ")).
  { apply Forall_app. split; [|by repeat constructor].
    eapply Forall_impl; [done|]. cbn. intros c Hc. by digit_cases c Hc. }
  assert (Hsplit : split_printing (entry_text e) = (entry_text e, [], [])).
  { unfold split_printing, entry_text. rewrite app_assoc.
    assert (search reHyphenFormat ((number_text e.2 ++ str " ") ++ e.1) = None) as ->
      by (eapply (search_behind (Z.eqb 40)); [|exact Hpre|exact (pn_no_hyphen _ Hp)]; reflexivity).
    assert (search reRegularFormat ((number_text e.2 ++ str " ") ++ e.1) = None) as ->
      by (eapply (search_behind (Z.eqb 40)); [|exact Hpre|exact (pn_no_regular _ Hp)]; reflexivity).
    done. }
  rewrite Hsplit. unfold split_amount.
  assert (Hnl : 10 ∉ e.1) by (by apply simplified_no; [apply Hp| |]).
  destruct (multiplier_found (number_text e.2) e.1 Hne Hds (pn_nonempty _ Hp) Hnl) as (m & Hm & H1 & H2).
  unfold entry_text. rewrite Hm, H1, H2, (pn_normal _ Hp), number_text_dec, toInt_dec by lia.
  unfold enter. rewrite (proj2 (Z.ltb_ge _ _)) by lia.
  rewrite (bool_decide_eq_false_2 (e.1 = [])) by apply Hp. by rewrite orb_false_r.
Qed.
Lemma no_tab_record s : trimmed s <> [] -> 9 ∉ s -> tab_record s = None.
Proof.
  intros Hne Ht. unfold tab_record. rewrite split_char_notin by done. cbn [skip_fields].
  by rewrite bool_decide_eq_false_2.
Qed.

(** What the parser makes of a line that begins an entry. *)
Lemma parse_line_entry sBStart index s st : starts_entry s -> simplified s = s -> 10 ∉ s -> 9 ∉ s ->
  parse_line norm sBStart index s st =
  match search reSBMark s with
  | Some m => enter_card norm (bool_decide (section st = Commander)) true false 1
                (captured 1 (groups m)) st
  | None =>
      if bool_decide (section st = Legacy) && (0 <=? sBStart) then
        if index =? sBStart then (true, st)
        else enter_card norm (bool_decide (section st = Commander)) (sBStart <? index) false 1 s st
      else enter_card norm (bool_decide (section st = Commander)) (bool_decide (section st = Side))
             false 1 s st
  end.
Proof.
  intros Hs Hsimp H10 H9. assert (Hne : s <> []) by (destruct Hs; done).
  unfold parse_line. rewrite trimmed_simplified by done.
  rewrite (bool_decide_eq_false_2 (s = [])) by done. cbn [andb].
  rewrite entry_no_section by done. destruct (entry_card_line s Hs H10) as [_ ->].
  unfold parse_card. cbn [groups]. change (captured 0 [(0%nat, s)]) with s.
  rewrite Hsimp, entry_no_commander by done.
  by rewrite no_tab_record by (rewrite ?trimmed_simplified; done).
Qed.

Lemma parse_plain_line sBStart index e st : plain_entry e ->
  parse_line norm sBStart index (entry_text e) st =
  if bool_decide (section st = Legacy) && (0 <=? sBStart) then
    if index =? sBStart then (true, st)
    else enter (bool_decide (section st = Commander)) (sBStart <? index) e st
  else enter (bool_decide (section st = Commander)) (bool_decide (section st = Side)) e st.
Proof.
  intros He. rewrite parse_line_entry;
    [|by apply entry_starts|by apply entry_simplified|by apply entry_no_control..].
  assert (search reSBMark (entry_text e) = None) as ->.
  { destruct He as [_ Hn]. unfold entry_text. destruct (number_digits e.2) as [Hne Hds]; [lia|].
    destruct Hds as [|c ds Hc Hds]; [done|]. by apply digit_no_mark. }
  by rewrite !enter_card_entry.
Qed.

Lemma marked_simplified e : plain_entry e ->
  simplified (str "SB: " ++ entry_text e) = str "SB: " ++ entry_text e.
Proof.
  intros He. change (str "SB: " ++ entry_text e) with (str "SB:" ++ str " " ++ entry_text e).
  apply simplified_cons; [|by apply entry_simplified|].
  - split; [done|]. by repeat constructor.
  - by destruct (entry_starts e He).
Qed.

Lemma entry_head e : plain_entry e -> ascii_space (List.hd 0 (entry_text e)) = false.
Proof.
  intros [_ Hn]. unfold entry_text. destruct (number_digits e.2) as [Hne Hds]; [lia|].
  destruct Hds as [|c ds Hc Hds]; [done|]. cbn. by digit_cases c Hc.
Qed.

Lemma parse_marked_line sBStart index e st : plain_entry e ->
  parse_line norm sBStart index (str "SB: " ++ entry_text e) st =
  enter (bool_decide (section st = Commander)) true e st.
Proof.
  intros He. assert (Hno : forall c, ascii_space c = true -> c <> 32 -> c ∉ str "SB: " ++ entry_text e).
  { intros c Hc H32. rewrite not_elem_of_app. split; [|by apply entry_no_control].
    intros Hin. vm_compute in Hin. repeat (apply elem_of_cons in Hin as [->|Hin]; [done|]).
    by apply not_elem_of_nil in Hin. }
  rewrite parse_line_entry; [|apply starts_mark|by apply marked_simplified|by apply Hno..].
  destruct (mark_found (entry_text e)) as [_ (m & -> & ->)].
  - by destruct (entry_starts e He).
  - by apply entry_no_control.
  - by apply entry_head.
  - by rewrite enter_card_entry.
Qed.
End Lines.

(** ** The tree of a text *)

Definition entry_of (c : Card) : text * Z := (card_name c, number c).

Definition board (zone : text) (t : DecklistNodeTree) : list (text * Z) :=
  map entry_of (getCardNodes [zone] t).

(** Board zones that hold cards only. *)
Definition flat_zone (next : nat) (n : node) : Prop :=
  is_inner n = true /\ Forall (fun k => is_inner k = false) (children_of n) /\ (node_id n < next)%nat.

Record flat (t : DecklistNodeTree) : Prop := {
  flat_zones : Forall (flat_zone (next_id t)) (root t);
  flat_ids : NoDup (map node_id (root t));
  flat_names : NoDup (map getName (root t))
}.

Definition cards_in (zone : text) (ks : list node) : list Card :=
  concat (map collectCardsRecursive
    (List.filter (fun n => is_inner n && bool_decide (getName n = zone)) ks)).

Lemma getCardNodes_in zone t : getCardNodes [zone] t = cards_in zone (root t).
Proof.
  unfold getCardNodes, getZoneNodes, cards_in. f_equal. f_equal. apply List.filter_ext. intros n.
  rewrite (bool_decide_eq_false_2 ([zone] = [])) by done. cbn [orb]. f_equal.
  apply bool_decide_ext. apply list_elem_of_singleton.
Qed.

Lemma cards_in_app zone k l : cards_in zone (k ++ l) = cards_in zone k ++ cards_in zone l.
Proof. unfold cards_in. by rewrite List.filter_app, map_app, concat_app. Qed.

Lemma cards_in_absent zone ks : zone ∉ map getName ks -> cards_in zone ks = [].
Proof.
  unfold cards_in. induction ks as [|n ks IH]; [done|]. cbn [map List.filter].
  intros [Hn Hks]%not_elem_of_cons. rewrite (bool_decide_eq_false_2 (getName n = zone)) by done.
  rewrite andb_false_r. by apply IH.
Qed.

Lemma cards_in_zone zone i m name cs :
  cards_in zone [InnerNode i m name cs] =
  if bool_decide (name = zone) then concat (map collectCardsRecursive cs) else [].
Proof. unfold cards_in. cbn. case_bool_decide; cbn; [by rewrite app_nil_r|done]. Qed.

Lemma on_children_flat z f next n : flat_zone next n -> node_id n <> z -> on_children z f n = n.
Proof.
  intros (Hi & Hc & _) Hz. destruct n as [|i m name ks]; [done|]. cbn [on_children node_id children_of] in *.
  rewrite (proj2 (Nat.eqb_neq i z)) by done. f_equal. clear Hi.
  induction Hc as [|k ks Hk _ IH]; [done|]. cbn [map]. rewrite IH. by destruct k.
Qed.

Lemma map_on_children_flat z f next ks :
  Forall (flat_zone next) ks -> z ∉ map node_id ks -> map (on_children z f) ks = ks.
Proof.
  induction 1 as [|k ks Hk _ IH]; [done|]. cbn [map]. intros [Hne Hz]%not_elem_of_cons.
  rewrite (on_children_flat z f next k) by done. by rewrite IH.
Qed.

Lemma on_children_zone z f m name cs : Forall (fun k => is_inner k = false) cs ->
  on_children z f (InnerNode z m name cs) = InnerNode z m name (f cs).
Proof.
  intros Hc. cbn [on_children]. rewrite Nat.eqb_refl. f_equal. f_equal.
  induction Hc as [|k ks Hk _ IH]; [done|]. cbn [map]. rewrite IH. by destruct k.
Qed.

Lemma flat_no_custom t name : flat t -> findCustomZoneByName name t = None.
Proof.
  intros [Hz _ _]. unfold findCustomZoneByName. apply first_inner_None.
  induction Hz as [|n ks (_ & Hc & _) _ IH]; [cbn; set_solver|].
  cbn [map concat]. unfold inner_names in *. rewrite List.filter_app, map_app, not_elem_of_app.
  split; [|done]. clear -Hc. induction Hc as [|k ks Hk _ IH]; [cbn; set_solver|]. cbn. by rewrite Hk.
Qed.

(** The zone to use: the one of that name, or a new one at the end. *)
Lemma zone_object t zone : flat t ->
  exists i m cs l1 l2, let res := getZoneObjFromName zone t in
    res.1 = i /\ root res.2 = l1 ++ InnerNode i m zone cs :: l2 /\ totalCards res.2 = totalCards t /\
    flat res.2 /\ (forall z, cards_in z (root res.2) = cards_in z (root t)) /\
    forall x, x ∈ map getName (root res.2) -> x ∈ map getName (root t) \/ x = zone.
Proof.
  intros Ht. assert (Hno := flat_no_custom t zone Ht). unfold getZoneObjFromName. rewrite Hno.
  destruct (first_inner zone (root t)) as [n|] eqn:Hf.
  - apply first_inner_Some in Hf as (i & m & cs & l1 & l2 & -> & Hr & _).
    exists i, m, cs, l1, l2. split_and!; try done. by left.
  - exists (next_id t), Default, [], (root t), []. cbn [new_zone fst snd fresh set_root root totalCards].
    split_and!; try done.
    + destruct Ht as [Hz Hi Hn]. constructor; cbn [new_zone snd fresh set_root root next_id].
      * apply Forall_app. split.
        { eapply Forall_impl; [done|]. intros n (A & B & C). split_and!; [done|done|cbn in C |- *; lia]. }
        constructor; [|done]. split_and!; [done|done|cbn; lia].
      * rewrite map_app. apply NoDup_app. split_and!; [done| |apply NoDup_singleton].
        intros x (n & -> & Hin)%list_elem_of_fmap Hx. cbn in Hx. apply list_elem_of_singleton in Hx.
        rewrite Forall_forall in Hz. destruct (Hz n Hin) as (_ & _ & Hlt). lia.
      * rewrite map_app. apply NoDup_app. split_and!; [done| |apply NoDup_singleton].
        intros x Hin Hx. cbn in Hx. apply list_elem_of_singleton in Hx. subst x.
        apply first_inner_None in Hf. rewrite all_inner_names in Hf; [done|].
        eapply Forall_impl; [done|]. intros n Hn'. apply Hn'.
    + intros z. cbn [new_zone snd fresh set_root root]. rewrite cards_in_app, cards_in_zone. cbn [map concat].
      by destruct (bool_decide _); rewrite app_nil_r.
    + intros x. cbn [new_zone snd fresh set_root root]. rewrite map_app. intros [Hx|Hx]%elem_of_app; [by left|].
      right. by apply list_elem_of_singleton in Hx.
Qed.

(** An added card is the last one of its board; the other boards keep theirs. *)
Lemma addCard_clipped name amount zone set num provider legal t : flat t ->
  let t' := (addCard name amount zone (-1) set num provider legal t).2 in
  let amount := Z.min amount (MAX_DECK_SIZE - totalCards t) in
  flat t' /\ totalCards t' = totalCards t + amount /\
  (forall z, board z t' = board z t ++ (if bool_decide (zone = z) then [(name, amount)] else [])) /\
  forall x, x ∈ map getName (root t') -> x ∈ map getName (root t) \/ x = zone.
Proof.
  intros Ht. unfold addCard. set (amount' := Z.min amount _). clearbody amount'. cbn zeta.
  set (t0 := set_total (totalCards t + amount') t).
  assert (Ht0 : flat t0) by (by destruct Ht).
  destruct (zone_object t0 zone Ht0) as (i & m & cs & l1 & l2 & Hi & Hr & Htot & Hflat & Hcards & Hsub).
  destruct (getZoneObjFromName zone t0) as [z1 t1]. cbn [fst snd] in *. subst z1.
  destruct Hflat as [Hz Hids Hnames]. rewrite Hr in Hz, Hids, Hnames.
  set (c := CardNode (next_id t1) Default _).
  assert (Hroot : root (fresh (update i (place (-1) c) t1)) = l1 ++ InnerNode i m zone (cs ++ [c]) :: l2).
  { unfold fresh, update, set_root. cbn [root]. rewrite Hr, map_app. cbn [map].
    rewrite map_app in Hids. cbn [map node_id] in Hids.
    apply NoDup_app in Hids as (_ & H1 & H2%NoDup_cons). apply Forall_app in Hz as [Hz1 Hz2].
    apply Forall_cons in Hz2 as [(_ & Hcs & _) Hz2].
    rewrite !(map_on_children_flat i _ (next_id t1)), on_children_zone; try done; [apply H2|].
    intros Hin. by apply (H1 i Hin); left. }
  split_and!.
  - constructor; rewrite Hroot.
    + cbn [fresh update set_root next_id]. apply Forall_app in Hz as [Hz1 Hz2].
      apply Forall_cons in Hz2 as [(_ & Hcs & Hlt) Hz2].
      assert (Hup : forall ks, Forall (flat_zone (next_id t1)) ks -> Forall (flat_zone (S (next_id t1))) ks).
      { intros ks H. eapply Forall_impl; [done|]. intros n (A & B & C). split_and!; [done|done|lia]. }
      apply Forall_app. split; [by apply Hup|]. constructor; [|by apply Hup].
      split_and!; [done| |cbn in *; lia]. apply Forall_app. split; [done|by repeat constructor].
    + by rewrite map_app in Hids |- *.
    + by rewrite map_app in Hnames |- *.
  - cbn [fresh update set_root totalCards]. by rewrite Htot.
  - intros z. unfold board. rewrite !getCardNodes_in, Hroot.
    change (cards_in z (root t)) with (cards_in z (root t0)). rewrite <- Hcards, Hr.
    change (InnerNode i m zone (cs ++ [c]) :: l2) with ([InnerNode i m zone (cs ++ [c])] ++ l2).
    change (InnerNode i m zone cs :: l2) with ([InnerNode i m zone cs] ++ l2).
    rewrite !cards_in_app, !cards_in_zone. case_bool_decide as Hzone; [|by rewrite app_nil_r].
    subst z. rewrite map_app in Hnames. cbn [map getName] in Hnames.
    apply NoDup_app in Hnames as (_ & H1 & [H2 _]%NoDup_cons).
    rewrite (cards_in_absent zone l1), (cards_in_absent zone l2); [|done|].
    + cbn [app]. rewrite !app_nil_r, map_app, concat_app, map_app. done.
    + intros Hin. by apply (H1 zone Hin); left.
  - intros x. rewrite Hroot, map_app. intros Hx. apply Hsub. by rewrite Hr, map_app.
Qed.

Lemma addCard_board name amount zone set num provider legal t : flat t ->
  totalCards t + amount <= MAX_DECK_SIZE ->
  let t' := (addCard name amount zone (-1) set num provider legal t).2 in
  flat t' /\ totalCards t' = totalCards t + amount /\
  forall z, board z t' = board z t ++ (if bool_decide (zone = z) then [(name, amount)] else []).
Proof.
  intros Ht Hmax. destruct (addCard_clipped name amount zone set num provider legal t Ht) as (H1 & H2 & H3 & _).
  rewrite Z.min_l in H2, H3 by lia. done.
Qed.

(** ** The lines of a deck *)

Section Decks.
Context `{Unicode} (norm : text -> text).

(** A line of the list: whether it has the mark of the sideboard, and its entry. *)
Definition line_of (it : bool * (text * Z)) : text := (if it.1 then str "SB: " else []) ++ entry_text it.2.
Definition zone_of (it : bool * (text * Z)) : text := if it.1 then DECK_ZONE_SIDE else DECK_ZONE_MAIN.
Definition in_zone (zone : text) (items : list (bool * (text * Z))) : list (text * Z) :=
  map snd (List.filter (fun it => bool_decide (zone_of it = zone)) items).
Definition plain_item (it : bool * (text * Z)) : Prop := plain_entry norm it.2.

Lemma zone_of_if b e : zone_of (b, e) = if b then DECK_ZONE_SIDE else DECK_ZONE_MAIN.
Proof. done. Qed.

(** An entry outside the commanders' section goes to its board. *)
Lemma parse_item sBStart index it st : plain_item it -> section st <> Commander -> section st <> Side ->
  (section st = Legacy -> 0 <= sBStart -> index < sBStart) ->
  parse_line norm sBStart index (line_of it) st = enter false it.1 it.2 st.
Proof.
  intros Hit Hc Hs Hl. destruct it as [b e]. unfold plain_item, line_of in *. cbn [fst snd] in *.
  destruct b; [rewrite parse_marked_line by done|cbn [app]; rewrite parse_plain_line by done];
    rewrite (bool_decide_eq_false_2 (section st = Commander)) by done; [done|].
  rewrite (bool_decide_eq_false_2 (section st = Side)) by done.
  case_bool_decide as HL; cbn [andb]; [|done]. destruct (Z.leb_spec 0 sBStart) as [H0|]; [|done].
  specialize (Hl HL H0). rewrite (proj2 (Z.eqb_neq _ _)), (proj2 (Z.ltb_ge _ _)) by lia. done.
Qed.

Lemma parse_items sBStart items index st : Forall plain_item items ->
  section st <> Commander -> section st <> Side ->
  (section st = Legacy -> 0 <= sBStart -> index + Z.of_nat (length items) <= sBStart) ->
  flat (parsed st) -> totalCards (parsed st) + zsum (map (fun it => it.2.2) items) <= MAX_DECK_SIZE ->
  exists st', parse_lines norm sBStart index (map line_of items) st = (true, st') /\
    flat (parsed st') /\ forall z, board z (parsed st') = board z (parsed st) ++ in_zone z items.
Proof.
  intros Hit. revert index st. induction Hit as [|it items Hit Hits IH]; intros index st Hc Hs Hl Hf Hmax.
  { exists st. split_and!; [done..|]. intros z. cbn. by rewrite app_nil_r. }
  cbn [map parse_lines]. cbn [length map zsum] in Hl, Hmax.
  rewrite parse_item by (try done; intros; specialize (Hl ltac:(done) ltac:(done)); lia).
  assert (Hn : 1 <= it.2.2) by apply Hit.
  assert (Hrest : 0 <= zsum (map (fun it => it.2.2) items)).
  { apply zsum_nonneg. apply Forall_map. eapply Forall_impl; [exact Hits|]. intros x Hx.
    assert (1 <= x.2.2) by apply Hx. cbn. lia. }
  unfold enter. cbn [andb].
  destruct (addCard_board it.2.1 it.2.2 (zone_of it) [] [] [] true (parsed st) Hf) as (Hf' & Ht' & Hb); [lia|].
  edestruct (IH (index + 1)) as (st' & E & Hf2 & Hb2); [..|exists st'; split; [exact E|split; [done|]]].
  - done.
  - done.
  - cbn [section]. intros H1 H2. specialize (Hl H1 H2). lia.
  - exact Hf'.
  - cbn [parsed]. change (if it.1 then DECK_ZONE_SIDE else DECK_ZONE_MAIN) with (zone_of it). lia.
  - intros z. rewrite Hb2. cbn [parsed].
    change (if it.1 then DECK_ZONE_SIDE else DECK_ZONE_MAIN) with (zone_of it). rewrite Hb.
    unfold in_zone. cbn [List.filter]. case_bool_decide; cbn [map app].
    + rewrite <- app_assoc. destruct it as [b [name n]]. done.
    + by rewrite app_nil_r.
Qed.

Lemma parse_lines_app sBStart l1 l2 index st :
  parse_lines norm sBStart index (l1 ++ l2) st =
  let '(ok, st') := parse_lines norm sBStart index l1 st in
  if ok then parse_lines norm sBStart (index + Z.of_nat (length l1)) l2 st' else (false, st').
Proof.
  revert index st. induction l1 as [|l l1 IH]; intros index st; cbn [app parse_lines length].
  - by rewrite Z.add_0_r.
  - destruct (parse_line _ _ _ _ _) as [[] st1]; [|done]. rewrite IH.
    by replace (index + Z.of_nat (S (length l1))) with (index + 1 + Z.of_nat (length l1)) by lia.
Qed.

(** The section of the commanders. *)
Lemma parse_commanders sBStart es index st : Forall (plain_entry norm) es -> section st = Commander ->
  commanderCopies st + zsum (map snd es) <= 10000 ->
  flat (parsed st) -> totalCards (parsed st) + zsum (map snd es) <= MAX_DECK_SIZE ->
  exists st', parse_lines norm sBStart index (map entry_text es) st = (true, st') /\
    section st' = Commander /\ flat (parsed st') /\
    totalCards (parsed st') = totalCards (parsed st) + zsum (map snd es) /\
    forall z, board z (parsed st') =
      board z (parsed st) ++ (if bool_decide (DECK_ZONE_COMMANDER = z) then es else []).
Proof.
  intros Hes. revert index st. induction Hes as [|e es He Hes IH]; intros index st Hs Hc Hf Hmax.
  { exists st. cbn. split_and!; [done..|lia|]. intros z. destruct (bool_decide _); by rewrite app_nil_r. }
  cbn [map zsum parse_lines] in *. assert (Hn : 1 <= e.2) by apply He.
  assert (Hrest : 0 <= zsum (map snd es)).
  { apply zsum_nonneg, Forall_map. eapply Forall_impl; [exact Hes|]. intros x Hx.
    assert (1 <= x.2) by apply Hx. cbn. lia. }
  rewrite parse_plain_line by done. rewrite Hs.
  rewrite (bool_decide_eq_false_2 (Commander = Legacy)), (bool_decide_eq_true_2 (Commander = Commander)) by done.
  cbn [andb]. unfold enter. rewrite (proj2 (Z.ltb_ge _ _)) by lia. cbn [andb].
  destruct (addCard_board e.1 e.2 DECK_ZONE_COMMANDER [] [] [] true (parsed st) Hf) as (Hf' & Ht' & Hb); [lia|].
  edestruct (IH (index + 1)) as (st' & E & Hs2 & Hf2 & Ht2 & Hb2); cycle 4;
    [exists st'; split; [exact E|]|..]; cbn [section commanderCopies parsed]; [|done|lia|done|lia].
  split_and!; [done|done|rewrite Ht2; cbn [parsed]; lia|].
  intros z. rewrite Hb2. cbn [parsed]. rewrite Hb. case_bool_decide; rewrite <- app_assoc; [|done].
  by destruct e.
Qed.
(** *** What is written *)

Definition exported (e : node * Card) : bool :=
  negb (bool_decide (getName e.1 = DECK_ZONE_MAYBEBOARD) || bool_decide (getName e.1 = DECK_ZONE_COMMANDER)).

Definition item_of (e : node * Card) : bool * (text * Z) :=
  (bool_decide (getName e.1 = DECK_ZONE_SIDE), entry_of e.2).

(** The items of a deck: those of the main board first. *)
Definition items_of (t : DecklistNodeTree) : list (bool * (text * Z)) :=
  let in_main (e : node * Card) := bool_decide (getName e.1 = DECK_ZONE_MAIN) in
  map item_of (List.filter exported
    (List.filter in_main (forEachCard t) ++ List.filter (fun e => negb (in_main e)) (forEachCard t))).

Definition commander_lines (es : list (text * Z)) : list text :=
  match es with
  | [] => []
  | _ => str "Commander" :: map entry_text es ++ [[]; str "Deck"]
  end.

Definition lines_of (t : DecklistNodeTree) : list text :=
  commander_lines (board DECK_ZONE_COMMANDER t) ++ map line_of (items_of t).

Definition unlines (ls : list text) : text := concat (map (fun l => l ++ [10]) ls).

Lemma unlines_app l1 l2 : unlines (l1 ++ l2) = unlines l1 ++ unlines l2.
Proof. unfold unlines. by rewrite map_app, concat_app. Qed.

Lemma write_entries l : concat (map (write_entry true false) l) =
  unlines (map line_of (map item_of (List.filter exported l))).
Proof.
  induction l as [|e l IH]; [done|]. cbn [map concat List.filter]. rewrite IH.
  unfold write_entry at 1, exported at 2. destruct (_ || _); cbn [negb]; [done|].
  cbn [map andb]. unfold unlines. cbn [map concat]. unfold line_of at 2, entry_line, entry_text. unfold item_of at 2 3. cbn [entry_of fst snd].
  by rewrite <- !app_assoc.
Qed.

Lemma saved_lines `{Doubles} (d : DeckList) :
  saveToStream_Plain true false d = unlines (lines_of (tree d)).
Proof.
  unfold saveToStream_Plain, lines_of, items_of. rewrite !write_entries, unlines_app.
  f_equal.
  - unfold commander_lines, board. destruct (getCardNodes [DECK_ZONE_COMMANDER] (tree d)) as [|c cs]; [done|].
    rewrite bool_decide_eq_false_2 by done. set (l := c :: cs).
    change (map entry_of (c :: cs)) with (map entry_of l).
    assert (E : concat (map (entry_line false) l) = unlines (map entry_text (map entry_of l))).
    { clearbody l. induction l as [|x l IH]; [done|]. cbn [map concat]. rewrite IH.
      unfold unlines. cbn [map concat]. unfold entry_line, entry_text. cbn [entry_of fst snd].
      by rewrite <- !app_assoc. }
    rewrite E. unfold l at 2. cbn [map]. change (entry_of c :: map entry_of cs) with (map entry_of l).
    change (str "Commander" :: map entry_text (map entry_of l) ++ [[]; str "Deck"])
      with ([str "Commander"] ++ map entry_text (map entry_of l) ++ [[]; str "Deck"]).
    rewrite !unlines_app. cbn [unlines map concat app]. by rewrite <- ?app_assoc.
  - rewrite List.filter_app, !map_app, unlines_app. done.
Qed.

(** *** The lines read back *)

Lemma unlines_join ls : ls <> [] -> unlines ls = join [10] ls ++ [10].
Proof.
  intros Hne. induction ls as [|l ls IH]; [done|]. destruct ls as [|k ls].
  - cbn. by rewrite !app_nil_r.
  - rewrite join_cons by done. unfold unlines in *. cbn [map concat] in *. rewrite IH by done.
    by rewrite <- !app_assoc.
Qed.

Lemma split_join ls : ls <> [] -> Forall (fun l => 10 ∉ l) ls -> split_char 10 (join [10] ls) = ls.
Proof.
  intros Hne Hls. induction Hls as [|l ls Hl Hls IH]; [done|]. destruct ls as [|k ls].
  - cbn [join map concat]. rewrite app_nil_r. by apply split_char_notin.
  - rewrite join_cons by done. change ([10] ++ join [10] (k :: ls)) with (10 :: join [10] (k :: ls)).
    rewrite split_char_app by done. by rewrite IH.
Qed.

Lemma trimmed_end s : no_space_at (head s) -> no_space_at (last s) -> trimmed (s ++ [10]) = s.
Proof.
  intros Hh Hl. assert (E := trimmed_id s Hh Hl). unfold trimmed in *.
  destruct s as [|c s]; [done|]. cbn in Hh. cbn [app drop_while] in *. rewrite Hh in *.
  change (c :: s ++ [10]) with ((c :: s) ++ [10]). rewrite rev_app_distr. cbn [rev app drop_while].
  exact E.
Qed.

Lemma inputs_of_unlines ls l1 : ls <> [] -> Forall (fun l => 10 ∉ l) ls ->
  head ls = Some l1 -> no_space_at (head l1) ->
  (exists l2, last ls = Some l2 /\ no_space_at (last l2)) ->
  split_char 10 (trimmed (unlines ls)) = ls.
Proof.
  intros Hne Hls Hh Hc (l2 & Hl & Hd). rewrite unlines_join, trimmed_end, split_join; try done.
  - destruct ls as [|l ls]; [done|]. injection Hh as ->. destruct l1 as [|c l1]; [done|].
    destruct ls as [|k ls]; [by cbn [join map concat]; rewrite app_nil_r|by rewrite join_cons].
  - clear Hh Hc Hne. induction Hls as [|l ls Hl' Hls IH]; [done|]. destruct ls as [|k ls].
    + injection Hl as ->. cbn [join map concat]. by rewrite app_nil_r.
    + rewrite join_cons, app_assoc, last_app by done. specialize (IH Hl).
      destruct (last (join [10] (k :: ls))); [done|]. done.
Qed.
(** *** Where the list begins *)

Lemma indexOf_none re ls from : Forall (fun l => exact re l = false) ls -> indexOf re ls from = -1.
Proof.
  intros Hls. unfold indexOf. destruct (list_find _ _) as [[i l]|] eqn:E; [|done].
  apply list_find_Some in E as (Hl & Hx & _). eapply Forall_lookup_1 in Hl; [|by apply Forall_drop].
  cbn in Hl. congruence.
Qed.

Lemma start_at_first l ls : exact reCardLine l = true -> exact reEmpty l = false ->
  find_deckStart (l :: ls) = Some 0.
Proof.
  intros Hc He. unfold find_deckStart.
  assert (indexOf reCardLine (l :: ls) 0 = 0) as ->.
  { unfold indexOf. change (drop _ (l :: ls)) with (l :: ls). cbn [list_find].
    by rewrite decide_True by done. }
  assert (lastIndexOf reEmpty (l :: ls) 0 = -1) as ->; [|done].
  unfold lastIndexOf. rewrite (proj2 (Z.ltb_ge 0 0)), Z.min_l by (cbn [length]; lia).
  change (rev (take (Z.to_nat (0 + 1)) (l :: ls))) with [l]. cbn [list_find].
  by rewrite decide_False by congruence.
Qed.

Lemma line_starts it : plain_item it -> starts_entry (line_of it).
Proof.
  destruct it as [[] e]; intros Hit; unfold line_of; cbn [fst snd].
  - apply starts_mark.
  - by apply (entry_starts norm).
Qed.

Lemma line_no_newline it : plain_item it -> 10 ∉ line_of it.
Proof.
  intros Hit. unfold line_of. rewrite not_elem_of_app. split.
  - destruct it.1; [|set_solver]. apply (bool_decide_eq_true (10 ∉ str "SB: ")). vm_compute. done.
  - by apply (entry_no_control norm).
Qed.

Lemma line_last it : plain_item it -> no_space_at (last (line_of it)).
Proof.
  intros Hit. unfold line_of. destruct (simplified_ends (entry_text it.2)) as [_ Hl].
  - by apply (entry_simplified norm).
  - by destruct (entry_starts norm it.2 Hit).
  - rewrite last_app. by destruct (last (entry_text it.2)).
Qed.

(** Without sections the sideboard is begun nowhere in front of the end. *)
Lemma items_sBStart items : Forall (plain_item) items ->
  let ls := map line_of items in
  find_sBStart ls 0 = -1 \/ find_sBStart ls 0 = Z.of_nat (length ls).
Proof.
  intros Hit ls. assert (Hls : Forall starts_entry ls).
  { apply Forall_map. eapply Forall_impl; [exact Hit|]. intros it. apply line_starts. }
  assert (Hsb : Forall (fun l => exact reSBComment l = false) ls)
    by (eapply Forall_impl; [exact Hls|]; intros l; apply entry_no_sb_comment).
  assert (Hem : Forall (fun l => exact reEmpty l = false) ls)
    by (eapply Forall_impl; [exact Hls|]; intros l; apply entry_not_empty).
  unfold find_sBStart. destruct (negb _); [by left|right].
  rewrite (indexOf_none reSBComment) by done. cbn [Z.eqb negb].
  rewrite !(indexOf_none reEmpty) by done. reflexivity.
Qed.

(** *** The whole text *)

Lemma parse_commander_line sBStart index st :
  parse_line norm sBStart index (str "Commander") st = (true, beginDeclarations (with_section Commander st)).
Proof. by destruct st as [[] [] c t]. Qed.

Lemma parse_deck_line sBStart index st :
  parse_line norm sBStart index (str "Deck") st = (true, with_section Main st).
Proof. by destruct st as [[] [] c t]. Qed.

Lemma parse_blank_line sBStart index st : section st = Commander ->
  parse_line norm sBStart index [] st = (true, with_section Main st).
Proof. destruct st as [[] [] c t]; intros [=]; done. Qed.

Lemma flat_empty n : flat {| root := []; totalCards := 0; next_id := n |}.
Proof. constructor; cbn; [done|constructor|constructor]. Qed.
Lemma items_last ls items : Forall plain_item items -> items <> [] ->
  exists l, last (ls ++ map line_of items) = Some l /\ no_space_at (last l).
Proof.
  intros Hit Hne. destruct (exists_last Hne) as (its & x & ->).
  apply Forall_app in Hit as [_ [Hx _]%Forall_cons]. exists (line_of x). split; [|by apply line_last].
  rewrite map_app. cbn [map]. by rewrite app_assoc, last_snoc.
Qed.

Lemma items_no_newline items : Forall plain_item items -> Forall (fun l => 10 ∉ l) (map line_of items).
Proof.
  intros Hit. apply Forall_map. eapply Forall_impl; [exact Hit|]. intros x. apply line_no_newline.
Qed.

Lemma items_count items : Forall plain_item items -> 0 <= zsum (map (fun it => it.2.2) items).
Proof.
  intros Hit. apply zsum_nonneg, Forall_map. eapply Forall_impl; [exact Hit|]. intros x Hx.
  assert (1 <= x.2.2) by apply Hx. cbn. lia.
Qed.

Definition begin_parse (t : DecklistNodeTree) : Parsing :=
  {| section := Legacy; declarationsSeen := false; commanderCopies := 0; parsed := t |}.

(** A text that begins with its first card or section. *)
Lemma parse_from_first `{Doubles} input l ls m t :
  split_char 10 (trimmed input) = l :: ls -> exact reCardLine l = true -> exact reEmpty l = false ->
  contains reEmpty l = false -> contains reDeckComment l = false ->
  parse norm input m t =
  let '(ok, st) := parse_lines norm (find_sBStart (l :: ls) 0) 0 (l :: ls) (begin_parse t) in
  Some (ok, with_comments (chop 1 (comments m)) m, parsed st).
Proof.
  intros Hin Hc He He' Hd. unfold parse. rewrite Hin, (start_at_first l ls) by done.
  change (take (Z.to_nat 0) (l :: ls)) with (@nil text).
  change (drop (Z.to_nat 0) (l :: ls)) with (l :: ls).
  cbn [read_name skip_empty]. rewrite He', Hd. reflexivity.
Qed.

Lemma parse_items_text `{Doubles} items m t : flat t -> Forall plain_item items -> items <> [] ->
  totalCards t + zsum (map (fun it => it.2.2) items) <= MAX_DECK_SIZE ->
  exists t', parse norm (unlines (map line_of items)) m t =
      Some (true, with_comments (chop 1 (comments m)) m, t') /\
    forall z, board z t' = board z t ++ in_zone z items.
Proof.
  intros Hf Hit Hne Hmax. destruct items as [|it items]; [done|]. apply Forall_cons in Hit as Hit'.
  destruct Hit' as [Hit1 _]. assert (Hst := line_starts it Hit1).
  destruct (starts_entry_head _ Hst) as (c & r & E & _ & _ & Hsp).
  destruct (parse_items (find_sBStart (map line_of (it :: items)) 0) (it :: items) 0 (begin_parse t))
    as (st & Ep & _ & Hb); try done.
  { intros _ Hsb. destruct (items_sBStart (it :: items) Hit) as [E1|E1]; cbn zeta in E1; rewrite E1 in *;
      [lia|]. rewrite length_map. lia. }
  exists (parsed st). split; [|done].
  rewrite (parse_from_first _ (line_of it) (map line_of items)).
  - change (line_of it :: map line_of items) with (map line_of (it :: items)). by rewrite Ep.
  - apply (inputs_of_unlines _ (line_of it)); [done|by apply items_no_newline|done|by rewrite E|].
    exact (items_last [] (it :: items) Hit Hne).
  - apply entry_card_line; [done|by apply line_no_newline].
  - by apply entry_not_empty.
  - by apply entry_contains_empty.
  - by apply entry_no_deck_comment.
Qed.

Lemma parse_commander_text `{Doubles} es items m t : flat t -> clearCommanders t = t ->
  Forall (plain_entry norm) es -> Forall plain_item items -> es <> [] -> zsum (map snd es) <= 10000 ->
  totalCards t + zsum (map snd es) + zsum (map (fun it => it.2.2) items) <= MAX_DECK_SIZE ->
  exists t', parse norm (unlines (commander_lines es ++ map line_of items)) m t =
      Some (true, with_comments (chop 1 (comments m)) m, t') /\
    forall z, board z t' =
      board z t ++ (if bool_decide (DECK_ZONE_COMMANDER = z) then es else []) ++ in_zone z items.
Proof.
  intros Hf Hcl Hes Hit Hne Hcop Hmax.
  assert (Hrest := items_count items Hit).
  set (ls := map entry_text es ++ [[]; str "Deck"] ++ map line_of items).
  assert (Els : commander_lines es ++ map line_of items = str "Commander" :: ls).
  { unfold ls. destruct es; [done|]. cbn [commander_lines app]. by rewrite <- app_assoc. }
  rewrite Els. set (sb := find_sBStart (str "Commander" :: ls) 0).
  set (st0 := beginDeclarations (with_section Commander (begin_parse t))).
  assert (Hp0 : parsed st0 = t) by (unfold st0, beginDeclarations; cbn; done).
  destruct (parse_commanders sb es 1 st0) as (st1 & E1 & Hs1 & Hf1 & Ht1 & Hb1);
    rewrite ?Hp0; try done; [lia|].
  set (i2 := 1 + Z.of_nat (length (map entry_text es))).
  set (st2 := with_section Main (with_section Main st1)).
  destruct (parse_items sb items (i2 + 1 + 1) st2) as (st3 & E3 & _ & Hb3); try done.
  { cbn [st2 with_section parsed]. rewrite Ht1, Hp0. lia. }
  exists (parsed st3). split.
  - rewrite (parse_from_first _ (str "Commander") ls); try done.
    + fold sb. cbn [parse_lines]. rewrite parse_commander_line. fold st0. change (0 + 1) with 1.
      unfold ls. rewrite parse_lines_app, E1. fold i2. cbn [app parse_lines].
      rewrite parse_blank_line, parse_deck_line by done. fold st2. by rewrite E3.
    + apply (inputs_of_unlines _ (str "Commander")); [done| |done|done|].
      * constructor; [by apply (bool_decide_eq_true (10 ∉ str "Commander"))|]. unfold ls.
        rewrite !Forall_app. split_and!.
        { apply Forall_map. eapply Forall_impl; [exact Hes|]. intros e He. by apply (entry_no_control norm). }
        { repeat constructor; [by apply (bool_decide_eq_true (10 ∉ []))|].
          by apply (bool_decide_eq_true (10 ∉ str "Deck")). }
        by apply items_no_newline.
      * unfold ls. rewrite !app_assoc, app_comm_cons. destruct (decide (items = [])) as [->|Hi].
        { exists (str "Deck"). split; [|done]. cbn [map]. rewrite app_nil_r, app_comm_cons.
          change [[]; str "Deck"] with ([[]] ++ [str "Deck"]). by rewrite app_assoc, last_snoc. }
        by apply items_last.
  - intros z. rewrite Hb3. cbn [st2 with_section parsed]. by rewrite Hb1, Hp0, <- app_assoc.
Qed.
(** *** The boards of a deck *)

Definition in_named (zone : text) (e : node * Card) : bool := bool_decide (getName e.1 = zone).
Definition entry_at (e : node * Card) : text * Z := entry_of e.2.

(** Cards under other names than those of the four boards. *)
Definition elsewhere (e : node * Card) : bool :=
  exported e && negb (in_named DECK_ZONE_MAIN e) && negb (in_named DECK_ZONE_SIDE e).

Definition others (t : DecklistNodeTree) : list (text * Z) :=
  map entry_at (List.filter elsewhere (forEachCard t)).

Lemma forEachCardInNode_spec b n :
  Forall (fun e => e.1 = b) (forEachCardInNode b n) /\
  map snd (forEachCardInNode b n) = collectCardsRecursive n.
Proof.
  induction n as [i m c|i m name ks IH] using node_tree_ind; cbn [forEachCardInNode collectCardsRecursive].
  { by repeat constructor. }
  induction IH as [|k ks [Hk Ek] _ [IH1 IH2]]; [done|]. cbn [map concat].
  rewrite map_app, Ek, IH2. split; [|done]. by apply Forall_app.
Qed.

Lemma filter_named zone b l : Forall (fun e : node * Card => e.1 = b) l ->
  List.filter (in_named zone) l = if bool_decide (getName b = zone) then l else [].
Proof.
  induction 1 as [|e l He _ IH]; [by destruct (bool_decide _)|].
  cbn [List.filter]. unfold in_named at 1. rewrite He, IH. by destruct (bool_decide _).
Qed.

Lemma board_each zone t : board zone t = map entry_at (List.filter (in_named zone) (forEachCard t)).
Proof.
  unfold board. rewrite getCardNodes_in. unfold cards_in, forEachCard.
  induction (root t) as [|n ks IH]; [done|]. cbn [List.filter]. destruct (is_inner n); [|done].
  cbn [map concat andb]. destruct (forEachCardInNode_spec n n) as [H1 H2].
  rewrite List.filter_app, (filter_named zone n), map_app, <- IH by done.
  case_bool_decide; [|done]. cbn [map concat]. rewrite map_app. f_equal.
  unfold entry_at. by rewrite <- H2, map_map.
Qed.

(** A card is in the main board, in the sideboard, elsewhere or not exported. *)
Lemma kind_of e :
  let main := in_named DECK_ZONE_MAIN e in
  let side := in_named DECK_ZONE_SIDE e in
  (main = true /\ side = false /\ exported e = true /\ elsewhere e = false) \/
  (main = false /\ side = true /\ exported e = true /\ elsewhere e = false) \/
  (main = false /\ side = false /\ exported e = true /\ elsewhere e = true) \/
  (main = false /\ side = false /\ exported e = false /\ elsewhere e = false).
Proof.
  cbn zeta. unfold elsewhere, exported, in_named.
  destruct (decide (getName e.1 = DECK_ZONE_MAIN)) as [->|Hm]; [left; done|].
  destruct (decide (getName e.1 = DECK_ZONE_SIDE)) as [->|Hs]; [right; left; done|].
  rewrite (bool_decide_eq_false_2 _ Hm), (bool_decide_eq_false_2 _ Hs).
  destruct (_ || _); cbn; tauto.
Qed.

(** Settles an equation between the classes of a card. *)
Ltac by_kind e :=
  destruct (kind_of e) as [(H1 & H2 & H3 & H4)|[(H1 & H2 & H3 & H4)|[(H1 & H2 & H3 & H4)|(H1 & H2 & H3 & H4)]]];
  cbn zeta in H1, H2; rewrite ?H1, ?H2, ?H3, ?H4; try reflexivity.

Lemma zone_of_item e zone :
  bool_decide (zone_of (item_of e) = zone) =
  bool_decide ((if in_named DECK_ZONE_SIDE e then DECK_ZONE_SIDE else DECK_ZONE_MAIN) = zone).
Proof. done. Qed.

Lemma filter_items P F :
  List.filter P (map item_of (List.filter exported (List.filter (in_named DECK_ZONE_MAIN) F ++
    List.filter (fun e => negb (in_named DECK_ZONE_MAIN e)) F))) =
  map item_of
    (List.filter (fun e => in_named DECK_ZONE_MAIN e && exported e && P (item_of e)) F ++
     List.filter (fun e => negb (in_named DECK_ZONE_MAIN e) && exported e && P (item_of e)) F).
Proof.
  rewrite List.filter_app, map_app, List.filter_app, map_app. f_equal;
    (induction F as [|e F IH]; [done|]; cbn [List.filter];
     destruct (in_named DECK_ZONE_MAIN e); cbn [negb andb List.filter];
     try exact IH; destruct (exported e); cbn [map List.filter andb]; try exact IH;
     destruct (P (item_of e)); cbn [map]; rewrite IH; done).
Qed.

Lemma snd_item_of l : map snd (map item_of l) = map entry_at l.
Proof. by rewrite map_map. Qed.

Lemma filter_none {A} (P : A -> bool) l : (forall x, P x = false) -> List.filter P l = [].
Proof. intros HP. induction l as [|x l IH]; [done|]. cbn. by rewrite HP. Qed.

Lemma filter_true_id {A} (l : list A) : List.filter (fun _ => true) l = l.
Proof. induction l as [|x l IH]; [done|]. cbn. by rewrite IH. Qed.

Lemma items_boards t :
  in_zone DECK_ZONE_MAIN (items_of t) = board DECK_ZONE_MAIN t ++ others t /\
  in_zone DECK_ZONE_SIDE (items_of t) = board DECK_ZONE_SIDE t /\
  map snd (items_of t) ≡ₚ board DECK_ZONE_MAIN t ++ board DECK_ZONE_SIDE t ++ others t.
Proof.
  unfold in_zone, items_of, others. rewrite !board_each.
  change (fun e : node * Card => bool_decide (getName e.1 = DECK_ZONE_MAIN)) with (in_named DECK_ZONE_MAIN).
  change (fun e : node * Card => negb (bool_decide (getName e.1 = DECK_ZONE_MAIN)))
    with (fun e => negb (in_named DECK_ZONE_MAIN e)).
  set (F := forEachCard t). rewrite !filter_items, !snd_item_of. split_and!.
  - rewrite map_app. f_equal; f_equal; apply List.filter_ext; intros e; rewrite zone_of_item; by_kind e.
  - rewrite (filter_none (fun e => in_named DECK_ZONE_MAIN e && _ && _)); cbn [app].
    + f_equal. apply List.filter_ext. intros e. rewrite zone_of_item. by_kind e.
    + intros e. rewrite zone_of_item. by_kind e.
  - rewrite <- snd_item_of, <- (filter_true_id (map item_of _)), filter_items, snd_item_of, map_app. apply Permutation_app.
    + match goal with |- ?a ≡ₚ ?b => assert (a = b) as ->; [|done] end. f_equal. apply List.filter_ext. intros e. by_kind e.
    + rewrite <- map_app. apply Permutation_map. induction F as [|e F IH]; [done|]. cbn [List.filter].
      by_kind e; cbn [negb andb]; rewrite IH; [done|done|solve_Permutation|done].
Qed.
(** ** Theorems *)

(** C11. What a deck saves as plain text, with the sideboard marked, is what any deck loads from it:
    commanders and sideboard as they were, the cards of other zones behind the main board, names and
    counts in order, no metadata. The names are plain, the counts those of a deck. *)
Theorem plain_roundtrip `{Doubles} (d d' : DeckList) :
  let commanders := board DECK_ZONE_COMMANDER (tree d) in
  let cards := board DECK_ZONE_MAIN (tree d) ++ board DECK_ZONE_SIDE (tree d) ++ others (tree d) in
  Forall (plain_entry norm) (commanders ++ cards) -> commanders ++ cards <> [] ->
  zsum (map snd commanders) <= 10000 -> zsum (map snd (commanders ++ cards)) <= MAX_DECK_SIZE ->
  exists e, loadFromStream_Plain norm (saveToStream_Plain true false d) false d' = Some (true, e) /\
    board DECK_ZONE_COMMANDER (tree e) = commanders /\
    board DECK_ZONE_MAIN (tree e) = board DECK_ZONE_MAIN (tree d) ++ others (tree d) /\
    board DECK_ZONE_SIDE (tree e) = board DECK_ZONE_SIDE (tree d) /\
    metadata e = empty_metadata /\ sideboardPlans e = sideboardPlans d'.
Proof.
  intros commanders cards Hplain Hne Hcop Hmax.
  destruct (items_boards (tree d)) as (Hm & Hs & Hperm).
  assert (Hit : Forall plain_item (items_of (tree d))).
  { apply (Forall_map snd (plain_entry norm)). rewrite Hperm. by apply Forall_app in Hplain as [_ ?]. }
  assert (Hsum : zsum (map (fun it : bool * (text * Z) => it.2.2) (items_of (tree d))) = zsum (map snd cards)).
  { rewrite <- (map_map snd snd). by apply zsum_perm, Permutation_map. }
  assert (Hload : exists t', parse norm (unlines (lines_of (tree d))) empty_metadata
      (clear false (tree d')) = Some (true, empty_metadata, t') /\
    forall z, board z t' = (if bool_decide (DECK_ZONE_COMMANDER = z) then commanders else []) ++
      in_zone z (items_of (tree d))).
  { unfold lines_of. fold commanders. rewrite map_app, zsum_app in Hmax. apply Forall_app in Hplain as [Hes _].
    destruct (decide (commanders = [])) as [Ec|Ec].
    - rewrite Ec in *. edestruct parse_items_text as (t' & Hp & Hb); [apply flat_empty|exact Hit| | |].
      + intros E. rewrite E in Hperm. by apply Permutation_nil_l in Hperm.
      + cbn [totalCards]. rewrite Hsum. cbn in Hmax. lia.
      + exists t'. split; [exact Hp|]. intros z. rewrite Hb. by destruct (bool_decide _).
    - edestruct (parse_commander_text commanders (items_of (tree d)) empty_metadata (clear false (tree d')))
        as (t' & Hp & Hb); try done; [apply flat_empty|cbn [clear set_total totalCards]; lia|].
      exists t'. split; [exact Hp|]. intros z. by rewrite Hb. }
  destruct Hload as (t' & Hp & Hb). unfold loadFromStream_Plain. rewrite saved_lines.
  cbn [cleanList refreshDeckHash with_metadata with_tree metadata tree] in *. rewrite Hp.
  eexists. split; [reflexivity|]. cbn [refreshDeckHash with_metadata with_tree metadata tree sideboardPlans].
  rewrite !Hb, Hm, Hs. split_and!; try done.
  unfold in_zone. rewrite filter_none; [by rewrite app_nil_r|]. by intros [[] e'].
Qed.
End Decks.
