(* ===== verification/PlainTextSafe.v ===== *)
(** * Plain text decks: what any text is read as

    Whatever the text, the parser stays within its lines, and what it loads is a
    deck within the limits; and where loading over a deck goes wrong. *)
From S2P Require Import Prelude Text Regex DeckTree DeckTreeCorrect DeckList DeckListCorrect PlainText.
From S2P Require Import PlainTextCorrect.
Open Scope cockatrice_scope.
Local Open Scope Z_scope.

Section Safe.
Context `{Unicode} (norm : text -> text).

(** ** Lines *)

(** Spaces at the beginning, and nothing else but a last newline. *)
Lemma empty_line_spaces l : contains reEmpty l = true -> Forall (fun c => ascii_space c = true) l.
Proof.
  unfold reEmpty. cbn [seqs]. rewrite contains_anchored. intros (p & s' & Hm).
  inversion Hm as [| |? ? ? ? ? ? ? ? H1 H2| | | | | | | | |]; subst. inversion H1; subst.
  inversion H2 as [| |? ? ? ? ? ? ? ? H3 H4| | | | | | | | |]; subst.
  apply matches_star_cls in H3 as (a & -> & Ha & _). apply Forall_app. split; [done|].
  inversion H4; subst; [done|]. by repeat constructor.
Qed.

Lemma card_line_not_empty l : exact reCardLine l = true -> contains reEmpty l = false.
Proof.
  intros Hc. destruct (contains reEmpty l) eqn:He; [|done]. apply empty_line_spaces in He.
  apply exact_matches in Hc as (p & Hm). unfold reCardLine in Hm. cbn [seqs] in Hm.
  inversion Hm as [| |? ? ? ? ? ? ? ? H1 H2| | | | | | | | |]; subst. inversion H1; subst.
  inversion H2 as [| |? ? ? ? ? ? ? ? H3 H4| | | | | | | | |]; subst.
  apply matches_star_cls in H3 as (a & -> & _ & _).
  inversion H4 as [| |? ? ? ? ? ? ? ? H5 H6| | | | | | | | |]; subst.
  apply matches_cls_inv in H5 as (c & -> & Hc & _).
  apply Forall_app in He as [_ [Hs _]%Forall_cons].
  cbn beta in Hs. assert (c = 9 \/ c = 10 \/ c = 11 \/ c = 12 \/ c = 13 \/ c = 32) as Hcs
    by (unfold ascii_space in Hs; lia).
  by destruct_or! Hcs; subst c.
Qed.

(** A line that is a comment as a whole begins as a card does. *)
Lemma comment_is_card l : exact reComment l = true -> exact reCardLine l = true.
Proof.
  rewrite !exact_matches. intros (p & Hm). exists p. unfold reCardLine. cbn [seqs].
  eapply matches_seq; [constructor|]. eapply matches_seq; [apply matches_stop|]. exact Hm.
Qed.

Lemma indexOf_from_0 re ls :
  (indexOf re ls 0 = -1 /\ Forall (fun l => exact re l = false) ls) \/
  exists i l, indexOf re ls 0 = Z.of_nat i /\ ls !! i = Some l /\ exact re l = true.
Proof.
  unfold indexOf. change (drop _ ls) with ls.
  destruct (list_find _ ls) as [[i l]|] eqn:E.
  - right. apply list_find_Some in E as (Hl & He & _). by exists i, l.
  - left. split; [done|]. apply list_find_None in E. eapply Forall_impl; [exact E|].
    intros l Hl. cbn in Hl. by destruct (exact re l).
Qed.

Lemma lastIndexOf_le re ls from : 0 <= from -> -1 <= lastIndexOf re ls from <= from.
Proof.
  intros Hf. unfold lastIndexOf. rewrite (proj2 (Z.ltb_ge _ _)) by done.
  destruct (list_find _ _) as [[i l]|] eqn:E; [|lia].
  apply list_find_Some in E as (Hl & _ & _). apply lookup_lt_Some in Hl.
  rewrite length_rev, length_take in Hl. lia.
Qed.

(** The list begins in front of a card, or there is no card. *)
Lemma find_deckStart_spec ls :
  (find_deckStart ls = None /\ Forall (fun l => exact reCardLine l = false) ls) \/
  exists k i l, find_deckStart ls = Some k /\ 0 <= k <= Z.of_nat i /\ ls !! i = Some l /\
    exact reCardLine l = true.
Proof.
  unfold find_deckStart.
  destruct (indexOf_from_0 reCardLine ls) as [[-> Hno]|(i & l & -> & Hl & Hc)]; cbn [Z.eqb].
  - left. rewrite indexOf_none; [done|]. eapply Forall_impl; [exact Hno|]. intros l Hl. cbn beta in Hl |- *.
    destruct (exact reComment l) eqn:E; [|done]. apply comment_is_card in E. congruence.
  - right. rewrite (proj2 (Z.eqb_neq _ _)) by lia. eexists _, i, l. split; [reflexivity|].
    assert (Hle := lastIndexOf_le reEmpty ls (Z.of_nat i) ltac:(lia)).
    split; [destruct (Z.eqb_spec (lastIndexOf reEmpty ls (Z.of_nat i)) (-1)); lia|done].
Qed.

Lemma skip_empty_some index ls l : l ∈ ls -> contains reEmpty l = false -> (skip_empty index ls).2 <> [].
Proof.
  revert index. induction ls as [|k ls IH]; intros index Hin Hl; [by apply not_elem_of_nil in Hin|].
  cbn [skip_empty]. destruct (contains reEmpty k) eqn:Hk; [|done].
  apply IH; [|done]. apply elem_of_cons in Hin as [->|]; [congruence|done].
Qed.
(** ** The cards *)

Definition loaded (t : DecklistNodeTree) : list (text * Z) :=
  board DECK_ZONE_COMMANDER t ++ board DECK_ZONE_MAIN t ++ board DECK_ZONE_SIDE t.

(** What holds between the lines: the counts are no negative numbers and add up
    to the budget used, the commanders stay within theirs, and there are none in
    front of the first declaration. *)
Record parsing_ok (st : Parsing) : Prop := {
  po_flat : flat (parsed st);
  po_counts : Forall (fun e => 0 <= e.2) (loaded (parsed st));
  po_total : zsum (map snd (loaded (parsed st))) = totalCards (parsed st);
  po_max : totalCards (parsed st) <= MAX_DECK_SIZE;
  po_commanders : zsum (map snd (board DECK_ZONE_COMMANDER (parsed st))) <= commanderCopies st;
  po_copies : 0 <= commanderCopies st <= 10000;
  po_undeclared : declarationsSeen st = false -> DECK_ZONE_COMMANDER ∉ map getName (root (parsed st));
  po_section : section st = Commander -> declarationsSeen st = true
}.

Lemma clearCommanders_none t : DECK_ZONE_COMMANDER ∉ map getName (root t) -> clearCommanders t = t.
Proof.
  intros Hn. unfold clearCommanders, findBoardZone.
  assert (findChild DECK_ZONE_COMMANDER (root t) = None) as ->; [|done].
  induction (root t) as [|k ks IH]; [done|]. cbn [map] in Hn. apply not_elem_of_cons in Hn as [Hk Hks].
  cbn [findChild]. rewrite bool_decide_eq_false_2 by congruence. by apply IH.
Qed.

Lemma beginDeclarations_ok st : parsing_ok st ->
  parsing_ok (beginDeclarations st) /\ declarationsSeen (beginDeclarations st) = true /\
  section (beginDeclarations st) = section st.
Proof.
  intros Hst. unfold beginDeclarations. destruct (declarationsSeen st) eqn:Hd; [done|].
  split; [|done]. destruct Hst. constructor; cbn [section declarationsSeen commanderCopies parsed];
    rewrite ?clearCommanders_none by auto; done.
Qed.

Lemma with_section_ok s st : parsing_ok st -> (s = Commander -> declarationsSeen st = true) ->
  parsing_ok (with_section s st).
Proof. intros [] Hs. by constructor. Qed.

(** An entry of the parser, clipped by the budget of the deck. *)
Lemma entered_ok (commander : bool) name amount zone set num st :
  parsing_ok st -> zone ∈ [DECK_ZONE_MAIN; DECK_ZONE_SIDE] \/ (commander = true /\ zone = DECK_ZONE_COMMANDER) ->
  (commander = true -> declarationsSeen st = true /\ amount <= 10000 - commanderCopies st) -> 0 <= amount ->
  parsing_ok
    {| section := section st; declarationsSeen := declarationsSeen st;
       commanderCopies := if commander then commanderCopies st + amount else commanderCopies st;
       parsed := (addCard name amount zone (-1) set num [] true (parsed st)).2 |}.
Proof.
  intros [Hf Hc Ht Hm Hcm Hcp Hu Hs] Hzone Hcom Ha.
  destruct (addCard_clipped name amount zone set num [] true (parsed st) Hf) as (F1 & F2 & F3 & F4).
  set (t' := (addCard _ _ _ _ _ _ _ _ _).2) in *. set (amount' := Z.min amount _) in *.
  assert (H0 : 0 <= amount' <= amount) by lia.
  assert (Hl : loaded t' ≡ₚ (name, amount') :: loaded (parsed st)).
  { unfold loaded. rewrite !F3. destruct Hzone as [Hz|[_ ->]].
    - assert (zone = DECK_ZONE_MAIN \/ zone = DECK_ZONE_SIDE) as [->| ->] by set_solver; cbn;
        rewrite ?app_nil_r; solve_Permutation.
    - cbn. rewrite ?app_nil_r. solve_Permutation. }
  constructor; cbn [section declarationsSeen commanderCopies parsed]; try done.
  - rewrite Hl. constructor; [cbn; lia|done].
  - rewrite F2. rewrite (zsum_perm _ _ (Permutation_map snd Hl)). cbn [map zsum snd]. lia.
  - lia.
  - rewrite F3, map_app, zsum_app. destruct commander.
    + destruct (bool_decide _); cbn; lia.
    + destruct Hzone as [Hz|[? _]]; [|done].
      rewrite bool_decide_eq_false_2 by (intros ->; set_solver). cbn [map zsum]. lia.
  - destruct commander; [|done]. destruct (Hcom eq_refl). lia.
  - intros Hd Hin. apply F4 in Hin as [Hin| <-]; [by apply Hu|].
    destruct Hzone as [Hz|[-> _]]; [|destruct (Hcom eq_refl); congruence]. set_solver.
Qed.

Lemma enter_card_ok commander sideboard hasTab amount name st :
  parsing_ok st -> (commander = true -> declarationsSeen st = true) -> 0 <= amount ->
  parsing_ok (enter_card norm commander sideboard hasTab amount name st).2.
Proof.
  intros Hst Hcom Ha. unfold enter_card. destruct (split_printing _) as [[n set] num].
  set (r := if hasTab then (amount, n) else split_amount amount n).
  assert (Hr : 0 <= r.1).
  { unfold r, split_amount. destruct hasTab; [done|]. destruct (search _ _); [apply toInt_nonneg|done]. }
  destruct r as [a n']. cbn [fst] in Hr.
  destruct (commander && _) eqn:Hbad; [done|]. cbn [snd]. apply entered_ok; [done| | |done].
  - destruct commander; [by right|]. left. destruct sideboard; set_solver.
  - intros ->. split; [by apply Hcom|]. cbn [andb] in Hbad. lia.
Qed.

Lemma parse_card_ok sBStart index raw st :
  parsing_ok st -> parsing_ok (parse_card norm sBStart index raw st).2.
Proof.
  intros Hst. unfold parse_card.
  set (r := match search reCommanderMark (simplified raw) with Some m => _ | None => _ end).
  assert (Hr : parsing_ok r.1.2 /\ (r.1.1 = true -> declarationsSeen r.1.2 = true)).
  { unfold r. destruct (search _ _); cbn [fst snd].
    - destruct (beginDeclarations_ok st Hst) as (H1 & H2 & _). done.
    - split; [done|]. intros E%bool_decide_eq_true. by apply (po_section _ Hst). }
  destruct r as [[commander st'] name]. cbn [fst snd] in Hr. destruct Hr as [Hst' Hcom].
  set (q := match tab_record raw with Some _ => _ | None => _ end).
  assert (Hq : 0 <= q.1.2).
  { unfold q. destruct (tab_record raw) as [[a n]|] eqn:E; [|done]. cbn. unfold tab_record in E.
    destruct (skip_fields _) as [|f [|g l]]; [done..|]. destruct (contains _ _); [|done].
    injection E as <- _. apply toInt_nonneg. }
  destruct q as [[hasTab amount] name']. cbn [fst snd] in Hq.
  destruct (search reSBMark name'); [by apply enter_card_ok|].
  destruct (_ && _); [|by apply enter_card_ok]. destruct (_ =? _); [done|by apply enter_card_ok].
Qed.

Lemma parse_line_ok sBStart index l st :
  parsing_ok st -> parsing_ok (parse_line norm sBStart index l st).2.
Proof.
  intros Hst. unfold parse_line.
  set (st1 := if _ && _ then _ else _). assert (H1 : parsing_ok st1).
  { unfold st1. destruct (_ && _); [|done]. by apply with_section_ok. }
  clearbody st1. destruct (search reSection _) as [m|].
  - cbn [snd]. set (s := section_of_label _). cbn [with_section section]. case_bool_decide as E.
    + rewrite E. unfold beginDeclarations. cbn [with_section declarationsSeen].
      destruct (declarationsSeen st1) eqn:Hd; [by apply with_section_ok|].
      destruct (beginDeclarations_ok st1 H1) as (H2 & H3 & _). unfold beginDeclarations in H2, H3.
      rewrite Hd in H2, H3. by apply (with_section_ok Commander) in H2.
    + by apply with_section_ok.
  - destruct (search reCardLine l); [by apply parse_card_ok|done].
Qed.

Lemma parse_lines_ok sBStart index ls st :
  parsing_ok st -> parsing_ok (parse_lines norm sBStart index ls st).2.
Proof.
  revert index st. induction ls as [|l ls IH]; intros index st Hst; [done|]. cbn [parse_lines].
  assert (H1 := parse_line_ok sBStart index l st Hst).
  destruct (parse_line _ _ _ _ _) as [[] st']; [by apply IH|done].
Qed.

(** What additions and the removal of commanders keep, a parse keeps. *)
Lemma parse_keeps `{Doubles} (P : DecklistNodeTree -> Prop) input m t ok m' t' :
  (forall name amount zone set num t, P t -> P (addCard name amount zone (-1) set num [] true t).2) ->
  (forall t, P t -> P (clearCommanders t)) ->
  parse norm input m t = Some (ok, m', t') -> P t -> P t'.
Proof.
  intros Hadd Hclear Hp Ht.
  assert (Hbegin : forall st, P (parsed st) -> P (parsed (beginDeclarations st)))
    by (intros st Hst; unfold beginDeclarations; destruct (declarationsSeen st); cbn; auto).
  assert (Henter : forall co si tab a n st, P (parsed st) -> P (parsed (enter_card norm co si tab a n st).2)).
  { intros co si tab a n st Hst. unfold enter_card. destruct (split_printing _) as [[n1 s1] c1].
    destruct (if tab then _ else _) as [a1 n2]. destruct (co && _); cbn [snd parsed]; auto. }
  assert (Hline : forall sb index l st, P (parsed st) -> P (parsed (parse_line norm sb index l st).2)).
  { intros sb index l st Hst. unfold parse_line.
    set (st1 := if _ && _ then _ else _). assert (H1 : P (parsed st1)) by (unfold st1; by destruct (_ && _)).
    clearbody st1. destruct (search reSection _); cbn [snd]; [destruct (bool_decide _); [by apply Hbegin|done]|].
    destruct (search reCardLine l); [|done]. unfold parse_card.
    destruct (search reCommanderMark _); destruct (tab_record _) as [[a n]|]; cbn zeta iota;
      (destruct (search reSBMark _); [by apply Henter, Hbegin || by apply Henter|]);
      (destruct (_ && _); [destruct (_ =? _); cbn [snd]|]); auto. }
  assert (Hlines : forall sb ls index st, P (parsed st) -> P (parsed (parse_lines norm sb index ls st).2)).
  { intros sb ls. induction ls as [|l ls IH]; intros index st Hst; [done|]. cbn [parse_lines].
    specialize (Hline sb index l st Hst). destruct (parse_line _ _ _ _ _) as [[] st']; [by apply IH|done]. }
  unfold parse in Hp. destruct (find_deckStart _) as [k|]; [|by injection Hp as <- <- <-].
  destruct (read_name _) as [name rest]. destruct (skip_empty _ _) as [index [|line lines]]; [done|].
  destruct (if contains reDeckComment line then _ else _) as [index' lines'].
  specialize (Hlines (find_sBStart (split_char 10 (trimmed input)) k) lines' index' (begin_parse t) Ht).
  fold (begin_parse t) in Hp. destruct (parse_lines _ _ _ _ _) as [ok' st]. by injection Hp as <- <- <-.
Qed.

(** C12. No text makes the parser look behind its last line, and what it loads is a deck: without a
    card line the load fails and the deck is empty; in any case the counts are no negative numbers,
    the commanders are at most ten thousand, the whole deck is within the limit. *)
Theorem load_plain_safe `{Doubles} input d :
  let no_card := Forall (fun l => exact reCardLine l = false) (split_char 10 (trimmed input)) in
  exists ok e, loadFromStream_Plain norm input false d = Some (ok, e) /\
    (no_card -> ok = false /\ loaded (tree e) = [] /\ metadata e = empty_metadata) /\
    Forall (fun e => 0 <= e.2) (loaded (tree e)) /\
    zsum (map snd (board DECK_ZONE_COMMANDER (tree e))) <= 10000 /\
    zsum (map snd (loaded (tree e))) <= MAX_DECK_SIZE.
Proof.
  intros no_card. unfold loadFromStream_Plain.
  cbn [cleanList refreshDeckHash with_metadata with_tree metadata tree].
  set (t := clear false (tree d)). assert (Ht : parsing_ok (begin_parse t)).
  { constructor; [apply flat_empty|constructor|done|done|done|done|intros _; apply not_elem_of_nil|done]. }
  unfold parse. set (ls := split_char 10 (trimmed input)) in *.
  destruct (find_deckStart_spec ls) as [[-> Hno]|(k & i & l & -> & Hk & Hl & Hc)].
  - eexists false, _. split; [reflexivity|]. split; [done|]. split_and!; cbn; [done|lia|unfold MAX_DECK_SIZE; lia].
  - destruct (read_name _) as [name rest].
    assert (Hin : l ∈ drop (Z.to_nat k) ls).
    { apply list_elem_of_lookup. exists (i - Z.to_nat k)%nat. rewrite lookup_drop.
      replace (Z.to_nat k + (i - Z.to_nat k))%nat with i by lia. done. }
    assert (Hs := skip_empty_some k _ l Hin (card_line_not_empty l Hc)).
    destruct (skip_empty k _) as [index [|line lines]]; [done|].
    destruct (if contains reDeckComment line then _ else _) as [index' lines'].
    assert (Hok := parse_lines_ok (find_sBStart ls k) index' lines' _ Ht). fold (begin_parse t).
    destruct (parse_lines _ _ _ _ _) as [ok st]. cbn [snd] in Hok. destruct Hok.
    eexists ok, _. split; [reflexivity|]. cbn [refreshDeckHash with_metadata with_tree metadata tree].
    split; [|split_and!; [done|lia|lia]].
    intros Hno. eapply Forall_lookup_1 in Hno; [|done]. cbn beta in Hno. congruence.
Qed.
End Safe.

(** ** Texts of the tests, and a deck *)

Definition sample_unicode : Unicode :=
  {| other_word := fun c => c =? 198; other_space := fun _ => false; other_qspace := fun _ => false;
     other_fold := fun c => c; other_lower := fun s => s; other_upper := fun s => s |}.

#[local] Existing Instance sample_unicode.
#[local] Existing Instance sample_doubles.

Definition text_of (l : list string) : text := unlines (map str l).

Definition blank_deck : DeckList :=
  {| metadata := empty_metadata; sideboardPlans := []; tree := empty_tree; cachedDeckHash := [] |}.

(** Result, name, comments, main board, sideboard and commanders of a text. *)
Definition read_text_deck (l : list string)
    : option (bool * text * text * (list (text * Z) * list (text * Z) * list (text * Z))) :=
  match loadFromStream_Plain (fun s => s) (text_of l) false blank_deck with
  | Some (ok, d) =>
      Some (ok, deckname (metadata d), DeckList.comments (metadata d),
            (board DECK_ZONE_MAIN (tree d), board DECK_ZONE_SIDE (tree d),
             board DECK_ZONE_COMMANDER (tree d)))
  | None => None
  end.

Definition entries (l : list (string * Z)) : list (text * Z) := map (fun e => (str e.1, e.2)) l.

Section Tests.
#[local] Open Scope string_scope.

(** [EdgeCaseTesting], without the normalizer and the characters beyond ASCII. *)
Example edge_cases :
  read_text_deck
    [""; "// DeckName"; ""; "   // Comment 1"; ""; "//"; "//Comment [two]"; "//(test) | / (3)"; ""; "";
     "// Mainboard (11 cards)"; "2x Fire // Ice"; "1 Minsc & Boo, Timeless Heroes";
     "4X [B] Forest (3)"; ""; ""; "// Sideboard (11 cards)"; ""; "5x [WTH] Nature's Resurgence";
     "6X Gaea's Skyfolk"; "7  B.F.M. (Big Furry Monster)"; ""; ""]
  = Some (true, str "DeckName",
          (str "Comment 1" ++ [10; 10] ++ str "Comment [two]" ++ [10] ++ str "(test) | / (3)")%list,
          (entries [("Fire // Ice", 2); ("Minsc & Boo, Timeless Heroes", 1); ("[B] Forest (3)", 4)],
           entries [("[WTH] Nature's Resurgence", 5); ("Gaea's Skyfolk", 6);
                    ("B.F.M. (Big Furry Monster)", 7)], [])).
Proof. vm_compute. reflexivity. Qed.

(** [PlainTextUnderstandsCommanderSectionsAndPerCardPrefixes] *)
Example commander_sections :
  read_text_deck ["Commander"; "1 Alpha"; "1 Beta"; ""; "Deck"; "98 Forest"; ""; "Sideboard"; "1 Island"]
  = read_text_deck ["CM: 1 Alpha"; "CM: 1 Beta"; "98 Forest"; "SB: 1 Island"] /\
  read_text_deck ["CM: 1 Alpha"; "CM: 1 Beta"; "98 Forest"; "SB: 1 Island"]
  = Some (true, [], [], (entries [("Forest", 98)], entries [("Island", 1)],
                         entries [("Alpha", 1); ("Beta", 1)])).
Proof. vm_compute. done. Qed.

(** A blank line parts the sideboard, several do not. *)
Example blank_lines :
  read_text_deck ["1x Algae Gharial"; "3x Opt"; ""; "2x Phelddagrif"]
  = Some (true, [], [], (entries [("Algae Gharial", 1); ("Opt", 3)], entries [("Phelddagrif", 2)], [])) /\
  read_text_deck ["1x Algae Gharial"; "3x Opt"; ""; "2x Phelddagrif"; ""; "3 Giant Growth"]
  = Some (true, [], [],
          (entries [("Algae Gharial", 1); ("Opt", 3); ("Phelddagrif", 2); ("Giant Growth", 3)], [], [])).
Proof. vm_compute. done. Qed.

(** Too many commanders end the parse. *)
Example too_many_commanders : read_text_deck ["CM: 10001 Alpha"] = Some (false, [], [], ([], [], [])).
Proof. vm_compute. reflexivity. Qed.

(** A text that only has comments is refused, and its comments are not read. *)
Lemma only_comments_refused : read_text_deck ["// My deck"] = Some (false, [], [], ([], [], [])).
Proof. vm_compute. reflexivity. Qed.

(** Loading over a deck while keeping its metadata takes the last character of its comments, and
    adds the comments of the text to those it has. *)
Lemma kept_comments_chopped :
  let d := with_metadata (with_comments (str "wins on turn 4") empty_metadata) blank_deck in
  let after l := (fun r => DeckList.comments (metadata r.2))
                 <$> loadFromStream_Plain (fun s => s) (text_of l) true d in
  after ["4 Shock"] = Some (str "wins on turn ") /\
  after ["// Burn"; "// fast"; ""; "4 Shock"] = Some (str "wins on turn 4fast").
Proof. vm_compute. done. Qed.

Definition sample_cards : list (string * Z * text) :=
  [("Krenko, Mob Boss", 1, DECK_ZONE_COMMANDER); ("Mountain", 35, DECK_ZONE_MAIN);
   ("Fire // Ice", 2, DECK_ZONE_MAIN); ("Shock", 3, DECK_ZONE_SIDE); ("Goblin", 4, DECK_ZONE_TOKENS);
   ("Opt", 1, DECK_ZONE_MAYBEBOARD)].
End Tests.

Definition sample_deck : DeckList :=
  with_tree (fold_left (fun t c => (addCard (str c.1.1) c.1.2 c.2 (-1) [] [] [] true t).2)
               sample_cards empty_tree) blank_deck.

Lemma sample_boards :
  board DECK_ZONE_COMMANDER (tree sample_deck) = [(str "Krenko, Mob Boss", 1)] /\
  board DECK_ZONE_MAIN (tree sample_deck) = [(str "Mountain", 35); (str "Fire // Ice", 2)] /\
  board DECK_ZONE_SIDE (tree sample_deck) = [(str "Shock", 3)] /\
  others (tree sample_deck) = [(str "Goblin", 4)].
Proof. vm_compute. done. Qed.

Ltac plain_sample :=
  split; [constructor; [vm_compute; reflexivity|discriminate|vm_compute; reflexivity..]|cbn; mlia].

Lemma plain_roundtrip_witness :
  exists e, loadFromStream_Plain (fun s => s) (saveToStream_Plain true false sample_deck) false sample_deck
    = Some (true, e) /\
    board DECK_ZONE_MAIN (tree e) = [(str "Mountain", 35); (str "Fire // Ice", 2); (str "Goblin", 4)].
Proof.
  destruct sample_boards as (E1 & E2 & E3 & E4).
  destruct (plain_roundtrip (fun s => s) sample_deck sample_deck) as (e & Hload & _ & Hmain & _).
  - rewrite E1, E2, E3, E4. cbn [app]. repeat (apply Forall_cons; split); try (by apply Forall_nil); plain_sample.
  - by rewrite E1.
  - rewrite E1. vm_compute. discriminate.
  - rewrite E1, E2, E3, E4. vm_compute. discriminate.
  - exists e. split; [exact Hload|]. rewrite Hmain, E2, E4. reflexivity.
Defined.
