(* ===== verification/DeckCache.v ===== *)
(** * The cached deck hash

    The deck computes its hash once and keeps it until an operation that changes
    the cards forgets it. Whatever the operations of the deck do, the hash it
    answers is the hash of its tree. *)
From stdpp Require Import sorting relations.
From S2P Require Import Prelude DeckTree DeckTreeCorrect DeckOrder DeckFile DeckList DeckListCorrect.
From S2P Require Import PlainText PlainTextCorrect PlainTextSafe.
Open Scope cockatrice_scope.
Local Open Scope Z_scope.

(** ** Changes to the commanders *)

(** The zones of the boards other than the commanders' are untouched. *)
Definition same_boards_but_commander (t t' : DecklistNodeTree) : Prop :=
  board_zones t = board_zones t'.

Lemma board_cards name t : name <> DECK_ZONE_COMMANDER ->
  getCardNodes [name] t =
  concat (map collectCardsRecursive
    (List.filter (fun n => is_inner n && bool_decide (getName n = name)) (board_zones t))).
Proof.
  intros Hname. unfold getCardNodes, getZoneNodes, board_zones. f_equal. f_equal.
  induction (root t) as [|n ks IH]; [done|]. cbn [List.filter].
  rewrite (bool_decide_eq_false_2 ([name] = [])) by done. cbn [orb].
  rewrite (bool_decide_ext (getName n ∈ [name]) (getName n = name)) by apply list_elem_of_singleton.
  destruct (bool_decide_reflect (getName n = DECK_ZONE_COMMANDER)) as [E|E]; cbn [negb List.filter].
  - rewrite (bool_decide_eq_false_2 (getName n = name)) by congruence. by rewrite andb_false_r.
  - destruct (is_inner n && _); [by f_equal|done].
Qed.

Lemma same_boards_hash toLower sha1 t t' : same_boards_but_commander t t' ->
  computeDeckHash toLower sha1 t = computeDeckHash toLower sha1 t'.
Proof.
  intros E. unfold computeDeckHash. by rewrite !board_cards, E by done.
Qed.

Lemma board_zones_middle l1 i m cs l2 total next :
  board_zones {| root := l1 ++ InnerNode i m DECK_ZONE_COMMANDER cs :: l2; totalCards := total; next_id := next |}
  = board_zones {| root := l1 ++ l2; totalCards := total; next_id := next |}.
Proof. unfold board_zones. cbn [root]. by rewrite !List.filter_app. Qed.

Lemma board_zones_root t t' : root t = root t' -> board_zones t = board_zones t'.
Proof. unfold board_zones. by intros ->. Qed.

Lemma clearCommanders_boards t : shape_ok t -> same_boards_but_commander (clearCommanders t) t.
Proof.
  intros Ht. unfold clearCommanders. destruct (findBoardZone DECK_ZONE_COMMANDER t) as [zone|] eqn:Hz; [|done].
  apply findBoardZone_Some in Hz as (i & m & cs & l1 & l2 & -> & Hr & _).
  rewrite (deleteNode_top _ l1 (InnerNode i m DECK_ZONE_COMMANDER cs) l2); [|by destruct Ht|done].
  unfold same_boards_but_commander. destruct t as [r total next]. cbn in Hr. subst r.
  rewrite board_zones_middle. by apply board_zones_root.
Qed.

Lemma add_commander_boards name amount position set num provider legal t : shape_ok t -> names_ok t ->
  same_boards_but_commander (addCard name amount DECK_ZONE_COMMANDER position set num provider legal t).2 t.
Proof.
  intros Ht Hn. unfold addCard. set (t0 := set_total _ t).
  assert (Hg : exists l1 m cs l2, let g := getZoneObjFromName DECK_ZONE_COMMANDER t0 in
    root g.2 = l1 ++ InnerNode g.1 m DECK_ZONE_COMMANDER cs :: l2 /\
    NoDup (all_ids (root g.2)) /\ board_zones g.2 = board_zones t).
  { unfold getZoneObjFromName. destruct (first_inner DECK_ZONE_COMMANDER (root t0)) as [n|] eqn:Hf.
    - apply first_inner_Some in Hf as (i & m & cs & l1 & l2 & -> & Hr & _). exists l1, m, cs, l2.
      split; [done|]. split; [apply Ht|done].
    - unfold findCustomZoneByName. rewrite (proj2 (first_inner_None _ _)).
      2:{ intros Hin. pose proof (no_reserved _ Hn) as Hres. rewrite Forall_forall in Hres.
          by specialize (Hres _ Hin). }
      exists (root t), Default, [], []. split; [done|].
      split; [apply (new_zone_shape DECK_ZONE_COMMANDER t0); by destruct Ht|].
      unfold board_zones. cbn. by rewrite List.filter_app, app_nil_r. }
  destruct Hg as (l1 & m & cs & l2 & Hg). destruct (getZoneObjFromName _ t0) as [z t1]. cbn [fst snd] in *.
  destruct Hg as (Hr & Hnd & Hb). unfold same_boards_but_commander. rewrite <- Hb.
  unfold fresh, update, set_root. cbn [root]. rewrite Hr in Hnd |- *. rewrite update_top by done.
  rewrite board_zones_middle. destruct t1 as [r total next]. cbn in Hr. subst r.
  rewrite board_zones_middle. by apply board_zones_root.
Qed.

Section Cache.
Context `{Doubles}.
Context (number_text : Z -> text) (toInt : text -> Z) (toStdString fromStdString : text -> text).
Context (toLower : text -> text) (sha1 : text -> list Z).
Hypothesis number_codec : forall n, 0 <= n <= MAX_DECK_SIZE -> toInt (number_text n) = n.

Notation hash := (computeDeckHash toLower sha1).

(** ** The operations of a deck *)

(** A deck that can be saved and whose zone names are in order. *)
Definition stored_ok (d : DeckList) : Prop :=
  savable (tree d) /\ plans_ok toStdString fromStdString (sideboardPlans d) /\ names_ok (tree d).

Inductive deck_op : DeckList -> DeckList -> Prop :=
| op_addCards name amount zone position set num provider legal d :
    deck_op d (addCards name amount zone position set num provider legal d).2
| op_setCommanders commanders d : deck_op d (setCommanders commanders d)
| op_cleanList b d : deck_op d (cleanList b d)
| op_getDeckHash d : deck_op d (getDeckHash toLower sha1 d).2
| op_metadata m d : deck_op d (with_metadata m d)
| op_plan plan d : deck_op d (setCurrentSideboardPlan plan d)
| op_load saved d : stored_ok saved ->
    deck_op d (loadFromString_Native toInt toStdString (write_deck number_text fromStdString saved) d).2
| op_load_plain (U : Unicode) normalizer input b d ok d' :
    loadFromStream_Plain normalizer input b d = Some (ok, d') -> deck_op d d'.

Definition empty_deck : DeckList :=
  {| metadata := empty_metadata; sideboardPlans := []; tree := empty_tree; cachedDeckHash := [] |}.

Record cache_ok (d : DeckList) : Prop := {
  ca_shape : shape_ok (tree d);
  ca_names : names_ok (tree d);
  ca_hash : cachedDeckHash d = [] \/ cachedDeckHash d = hash (tree d)
}.

Lemma setCommanders_ok commanders t : shape_ok t -> names_ok t ->
  let t' := fold_left (fun t c =>
    (addCard (ref_name c) 1 DECK_ZONE_COMMANDER (-1) [] [] (ref_providerId c) true t).2) commanders t in
  shape_ok t' /\ names_ok t' /\ same_boards_but_commander t' t.
Proof.
  revert t. induction commanders as [|c cs IH]; intros t Ht Hn; [done|]. cbn [fold_left].
  pose proof (addCard_adds (ref_name c) 1 DECK_ZONE_COMMANDER (-1) [] [] (ref_providerId c) true t Ht) as Ha.
  destruct (IH _ (ad_shape _ _ _ _ Ha) (ad_names _ _ _ _ Ha Hn)) as (H1 & H2 & H3).
  split_and!; [done|done|]. etrans; [exact H3|]. by apply add_commander_boards.
Qed.

(** The steps of a plain text keep the tree in order. *)
Lemma plain_edit_add name amount zone set num t : shape_ok t /\ names_ok t ->
  let t' := (addCard name amount zone (-1) set num [] true t).2 in shape_ok t' /\ names_ok t'.
Proof.
  intros [Ht Hn] t'. assert (Ha := addCard_adds name amount zone (-1) set num [] true t Ht).
  split; [apply Ha|by apply Ha].
Qed.

Lemma plain_edit_clear t : shape_ok t /\ names_ok t ->
  shape_ok (clearCommanders t) /\ names_ok (clearCommanders t).
Proof.
  intros [Ht Hn]. split; [by apply (edit_shape OpClearCommanders)|by apply (edit_names OpClearCommanders)].
Qed.

Lemma op_cache_ok d d' : deck_op d d' -> cache_ok d -> cache_ok d'.
Proof using number_codec.
  intros Hop [C1 C2 C3]. destruct Hop as [name amount zone position set num provider legal d|cs d|b d|d|m d|plan d|saved d Hs
    |U normalizer input b d ok d' Hload].
  - unfold addCards. destruct (amount <=? 0); [done|].
    pose proof (addCard_adds name amount zone position set num provider legal (tree d) C1) as Ha.
    destruct (addCard _ _ _ _ _ _ _ _ _) as [z t]. constructor; cbn; [apply Ha|by apply Ha|by left].
  - assert (S1 : shape_ok (clearCommanders (tree d))) by by apply (edit_shape OpClearCommanders).
    assert (S2 : names_ok (clearCommanders (tree d))) by by apply (edit_names OpClearCommanders).
    destruct (setCommanders_ok cs _ S1 S2) as (H1 & H2 & H3).
    constructor; cbn; [done|done|]. destruct C3 as [C3|C3]; [by left|]. right. rewrite C3.
    apply same_boards_hash. symmetry. etrans; [exact H3|]. by apply clearCommanders_boards.
  - assert (S1 : shape_ok (clear b (tree d))) by (by apply clear_shape).
    assert (S2 : names_ok (clear b (tree d))) by by apply (edit_names (OpClear b)).
    unfold cleanList. by destruct b; constructor; [|  |left| | |left].
  - unfold getDeckHash. destruct (negb _); constructor; cbn; auto.
  - by constructor.
  - by constructor.
  - destruct Hs as (V1 & V2 & V3).
    destruct (load_native number_text toInt toStdString fromStdString number_codec d saved V1 V2 C1)
      as (t' & -> & E1 & _ & _ & _ & E2). constructor; cbn; [done|by apply E2|by left].
  - unfold loadFromStream_Plain in Hload. destruct (parse _ _ _ _) as [[[ok' m] t']|] eqn:Hp; [|done].
    injection Hload as <- <-.
    destruct (parse_keeps normalizer (fun t => shape_ok t /\ names_ok t) _ _ _ _ _ _ plain_edit_add
      plain_edit_clear Hp) as [H1 H2]; [|constructor; cbn; [done|done|by left]].
    assert (tree (cleanList b d) = clear b (tree d)) as -> by (unfold cleanList; by destruct b).
    split; [by apply clear_shape|]. by apply (edit_names (OpClear b)).
Qed.

(** C34. In every deck the operations reach (adding cards, setting commanders,
    clearing, loading saved decks and plain texts, changing metadata and plans, asking for the
    hash) the hash it answers is the hash of its tree, cached or not. *)
Theorem deck_hash_coherent (d : DeckList) (Hd : rtc deck_op empty_deck d) :
  (getDeckHash toLower sha1 d).1 = hash (tree d).
Proof.
  assert (Hg : forall d0, rtc deck_op d0 d -> cache_ok d0 -> cache_ok d).
  { clear Hd. induction 1 as [|d0 d1 d2 Hop _ IH]; [done|]. intros Hc. apply IH. by eapply op_cache_ok. }
  destruct (Hg _ Hd) as [_ _ Hc].
  { constructor; [apply empty_shape|apply empty_names|by left]. }
  unfold getDeckHash. case_bool_decide as Ec; cbn [negb fst]; [done|]. destruct Hc as [Hc|Hc]; [by destruct Ec|done].
Qed.
End Cache.

(** A deck with a cached hash and a commander set after it was computed. *)
Definition cached_deck : @DeckList sample_doubles :=
  setCommanders [{| ref_name := str "Tasigur"; ref_providerId := [] |}]
    (getDeckHash ascii_lower id
      (addCards (str "Forest") 4 DECK_ZONE_MAIN (-1) [] [] [] true (@empty_deck sample_doubles)).2).2.

Lemma deck_hash_coherent_witness :
  cachedDeckHash cached_deck = str "cpnn4pbj" /\
  getCommanders cached_deck = [{| ref_name := str "Tasigur"; ref_providerId := [] |}] /\
  (getDeckHash ascii_lower id cached_deck).1 = computeDeckHash ascii_lower id (tree cached_deck).
Proof.
  split; [vm_compute; reflexivity|]. split; [vm_compute; reflexivity|].
  apply (@deck_hash_coherent sample_doubles sample_number sample_toInt id id ascii_lower id sample_codec).
  unfold cached_deck. do 3 (eapply rtc_r; [|constructor]). apply rtc_refl.
Defined.
