(* ===== verification/RawJson.v ===== *)
(** * The raw JSON scanner of the Oracle importer: [oracle/src/raw_json_scanner.cpp]

    The walk over a JSON document that splits it into one byte range per card
    set without building a tree. A document is the list of its bytes; a pointer
    [p] into it is the list of the bytes from [p] to the [end] it is bounded by,
    and [after] counts the bytes behind that [end], which gives the absolute
    offset for the progress reports.

    [QChar::isLetter] and [isDigit] of a [char] are the ASCII classes: a byte
    above 127 is a negative [char], outside every class. [QString::fromUtf8] is
    an argument. *)
From S2P Require Import Prelude.
Open Scope cockatrice_scope.
Local Open Scope Z_scope.

Abbreviation bytes := (list Z).

Definition kMaxNestingDepth : Z := 1024.

(** ** Progress *)

(** [ScanProgress]; [reports] are the offsets the callback was called with, the
    latest first. *)
Record ScanProgress : Type := {
  size : Z;
  callback : bool;
  step : Z;
  lastReported : Z;
  reports : list Z
}.

(** [ScanProgress::report]. *)
Definition report (after : Z) (p : bytes) (scan : ScanProgress) : ScanProgress :=
  if negb (callback scan) then scan
  else
    let offset := size scan - (Z.of_nat (length p) + after) in
    if offset =? lastReported scan then scan
    else
      let reportingStep :=
        if size scan - step scan <=? offset then Z.max 1 (step scan / 16) else step scan in
      if (offset - lastReported scan <? reportingStep) && (offset <? size scan) then scan
      else {| size := size scan; callback := callback scan; step := step scan;
              lastReported := offset; reports := offset :: reports scan |}.

(** ** Bytes *)

Definition isWhitespace (c : Z) : bool := (c =? 32) || (c =? 9) || (c =? 13) || (c =? 10).

Fixpoint skipWhitespace (p : bytes) : bytes :=
  match p with
  | c :: r => if isWhitespace c then skipWhitespace r else p
  | [] => []
  end.

Definition isDigit (c : Z) : bool := (48 <=? c) && (c <=? 57).

Definition isHexDigit (c : Z) : bool :=
  isDigit c || ((97 <=? c) && (c <=? 102)) || ((65 <=? c) && (c <=? 70)).

Definition hexValue (c : Z) : Z :=
  if isDigit c then c - 48
  else if (97 <=? c) && (c <=? 102) then c - 97 + 10
  else c - 65 + 10.

Definition isLetter (c : Z) : bool := ((65 <=? c) && (c <=? 90)) || ((97 <=? c) && (c <=? 122)).

(** [memchr]: the index of the first occurrence. *)
Fixpoint memchr (c : Z) (p : bytes) : option nat :=
  match p with
  | [] => None
  | x :: r => if x =? c then Some O else S <$> memchr c r
  end.

(** The loop over the four digits of an escape, with the length check. *)
Definition hex4 (p : bytes) : option (Z * bytes) :=
  match p with
  | a :: b :: c :: d :: r =>
      if isHexDigit a && isHexDigit b && isHexDigit c && isHexDigit d
      then Some (((hexValue a * 16 + hexValue b) * 16 + hexValue c) * 16 + hexValue d, r)
      else None
  | _ => None
  end.

Definition is_high (u : Z) : bool := (55296 <=? u) && (u <=? 56319).
Definition is_low (u : Z) : bool := (56320 <=? u) && (u <=? 57343).

(** ** Strings *)

(** The [\u] escape of [skipString]; [p] is behind the [u]. *)
Definition skip_unicode (p : bytes) : option bytes :=
  '(codepoint, p) ← hex4 p;
  if is_high codepoint then
    match p with
    | a :: b :: p' =>
        if (a =? 92) && (b =? 117) then
          '(low, p) ← hex4 p';
          if is_low low then Some p else None
        else None
    | _ => None
    end
  else if is_low codepoint then None
  else Some p.

(** The escapes of one character: a quote, a backslash, a slash, b, f, n, r, t. *)
Definition simple_escape (c : Z) : bool :=
  bool_decide (c ∈ [34; 92; 47; 98; 102; 110; 114; 116]).

(** The loop of [skipString], behind the opening quote. *)
Fixpoint skip_string_loop (fuel : nat) (p : bytes) : option bytes :=
  match fuel with
  | O => None
  | S f =>
      quote ← memchr 34 p;
      match memchr 92 (take quote p) with
      | None => Some (drop (S quote) p)
      | Some b =>
          match drop (S b) p with
          | e :: d =>
              if e =? 117 then p ← skip_unicode d; skip_string_loop f p
              else if simple_escape e then skip_string_loop f d else None
          | [] => None
          end
      end
  end.

Definition skipString (p : bytes) : option bytes :=
  skip_string_loop (S (length p)) (tail p).

Section Decode.
Context (fromUtf8 : bytes -> text).

(** The [\u] escape of [decodeString]: the code units it adds. *)
Definition decode_unicode (p : bytes) : option (text * bytes) :=
  '(codepoint, p) ← hex4 p;
  if is_high codepoint then
    match p with
    | a :: b :: p' =>
        if (a =? 92) && (b =? 117) then
          '(low, p) ← hex4 p';
          if is_low low then Some ([codepoint; low], p) else None
        else None
    | _ => None
    end
  else if is_low codepoint then None
  else Some ([codepoint], p).

Definition decode_escape (e : Z) : option Z :=
  match e with
  | 34 => Some 34
  | 92 => Some 92
  | 47 => Some 47
  | 98 => Some 8
  | 102 => Some 12
  | 110 => Some 10
  | 114 => Some 13
  | 116 => Some 9
  | _ => None
  end.

(** The lambda [flush]; the pending bytes are in reverse. *)
Definition flush (utf8 : bytes) (out : text) : text :=
  if bool_decide (utf8 = []) then out else out ++ fromUtf8 (rev utf8).

Fixpoint decode_loop (fuel : nat) (p utf8 : bytes) (out : text) : option (text * bytes) :=
  match fuel with
  | O => None
  | S f =>
      match p with
      | [] => None
      | c :: r =>
          if c =? 92 then
            match r with
            | [] => None
            | e :: d =>
                if e =? 117 then
                  '(units, p) ← decode_unicode d;
                  decode_loop f p [] (flush utf8 out ++ units)
                else
                  u ← decode_escape e;
                  decode_loop f d [] (flush utf8 out ++ [u])
            end
          else if c =? 34 then Some (flush utf8 out, r)
          else decode_loop f r (c :: utf8) out
      end
  end.

Definition decodeString (p : bytes) : option (text * bytes) :=
  decode_loop (S (length p)) (tail p) [] [].

(** [decodeStringMember]: the value, if any, that replaces the field. *)
Definition decodeStringMember (v : bytes) : option (option text) :=
  match v with
  | [] => None
  | c :: _ =>
      if c =? 34 then '(t, _) ← decodeString v; Some (Some t) else Some None
  end.
End Decode.

(** ** Other primitives *)

Definition matchLiteral (p literal : bytes) : option bytes :=
  if bool_decide (take (length literal) p = literal) then
    let after := drop (length literal) p in
    match after with
    | c :: _ => if isLetter c || isDigit c || (c =? 95) then None else Some after
    | [] => Some after
    end
  else None.

Fixpoint skip_digits (p : bytes) : bytes :=
  match p with
  | c :: r => if isDigit c then skip_digits r else p
  | [] => []
  end.

(** One digit, then the loop over the others. *)
Definition digits1 (p : bytes) : option bytes :=
  match p with
  | c :: r => if isDigit c then Some (skip_digits r) else None
  | [] => None
  end.

Definition skip_sign (p : bytes) : bytes :=
  match p with c :: r => if c =? 45 then r else p | [] => p end.

Definition skip_int (p : bytes) : option bytes :=
  match p with
  | c :: r =>
      if c =? 48 then Some r
      else if (49 <=? c) && (c <=? 57) then Some (skip_digits r)
      else None
  | [] => None
  end.

Definition skip_frac (p : bytes) : option bytes :=
  match p with c :: r => if c =? 46 then digits1 r else Some p | [] => Some p end.

Definition skip_exp_sign (p : bytes) : bytes :=
  match p with c :: r => if (c =? 43) || (c =? 45) then r else p | [] => p end.

Definition skip_exp (p : bytes) : option bytes :=
  match p with
  | c :: r => if (c =? 101) || (c =? 69) then digits1 (skip_exp_sign r) else Some p
  | [] => Some p
  end.

Definition skipNumber (p : bytes) : option bytes :=
  p ← skip_int (skip_sign p);
  p ← skip_frac p;
  skip_exp p.

Definition skipPrimitive (p : bytes) : option bytes :=
  match p with
  | [] => None
  | c :: _ =>
      if c =? 34 then skipString p
      else if c =? 116 then matchLiteral p [116; 114; 117; 101]
      else if c =? 102 then matchLiteral p [102; 97; 108; 115; 101]
      else if c =? 110 then matchLiteral p [110; 117; 108; 108]
      else if (c =? 45) || isDigit c then skipNumber p
      else None
  end.

(** ** Values

    The three functions of the source call each other; their two loops are
    functions of their own. Out of fuel is a failure; the walk of [n] bytes
    takes at most [walk_fuel n] nested calls. *)

(** The guard [p >= end || *p != c] of an early return. *)
Definition at_char (c : Z) (p : bytes) : option bytes :=
  match p with x :: _ => if x =? c then Some p else None | [] => None end.

Fixpoint skipValue (fuel : nat) (after depth : Z) (p : bytes) (scan : ScanProgress)
    : option bytes * ScanProgress :=
  match fuel with
  | O => (None, scan)
  | S f =>
      match skipWhitespace p with
      | [] => (None, scan)
      | (c :: r) as p =>
          if c =? 123 then skipObject f after depth r scan
          else if c =? 91 then skipArray f after depth r scan
          else (skipPrimitive p, scan)
      end
  end
with skipObject (fuel : nat) (after depth : Z) (p : bytes) (scan : ScanProgress)
    : option bytes * ScanProgress :=
  match fuel with
  | O => (None, scan)
  | S f =>
      if depth <=? 0 then (None, scan)
      else
        let p := skipWhitespace p in
        match at_char 125 p with
        | Some p => (Some (tail p), scan)
        | None => object_loop f after depth p scan
        end
  end
with object_loop (fuel : nat) (after depth : Z) (p : bytes) (scan : ScanProgress)
    : option bytes * ScanProgress :=
  match fuel with
  | O => (None, scan)
  | S f =>
      match (p ← at_char 34 (skipWhitespace p); p ← skipString p; at_char 58 (skipWhitespace p)) with
      | None => (None, scan)
      | Some p =>
          match skipValue f after (depth - 1) (tail p) scan with
          | (None, scan) => (None, scan)
          | (Some p, scan) =>
              let scan := report after p scan in
              match skipWhitespace p with
              | c :: p =>
                  if c =? 44 then object_loop f after depth p scan
                  else if c =? 125 then (Some p, scan) else (None, scan)
              | [] => (None, scan)
              end
          end
      end
  end
with skipArray (fuel : nat) (after depth : Z) (p : bytes) (scan : ScanProgress)
    : option bytes * ScanProgress :=
  match fuel with
  | O => (None, scan)
  | S f =>
      if depth <=? 0 then (None, scan)
      else
        let p := skipWhitespace p in
        match at_char 93 p with
        | Some p => (Some (tail p), scan)
        | None => array_loop f after depth p scan
        end
  end
with array_loop (fuel : nat) (after depth : Z) (p : bytes) (scan : ScanProgress)
    : option bytes * ScanProgress :=
  match fuel with
  | O => (None, scan)
  | S f =>
      match skipValue f after (depth - 1) p scan with
      | (None, scan) => (None, scan)
      | (Some p, scan) =>
          let scan := report after p scan in
          match skipWhitespace p with
          | c :: p =>
              if c =? 44 then array_loop f after depth p scan
              else if c =? 93 then (Some p, scan) else (None, scan)
          | [] => (None, scan)
          end
      end
  end.

Definition walk_fuel (p : bytes) : nat := 3 * length p + 3.

(** ** Members and elements *)

(** [memberCallback]: the key, the bytes of the value, the bytes behind it, and
    the variables it captures, which it may assign even when it fails. *)
Abbreviation member_callback A :=
  (text -> bytes -> Z -> A * ScanProgress -> bool * (A * ScanProgress)).

(** The loop of [forEachObjectMember]. *)
Fixpoint member_loop {A} (fromUtf8 : bytes -> text) (fuel : nat) (after depth : Z)
    (memberCallback : member_callback A) (p : bytes) (st : A * ScanProgress)
    : option bytes * (A * ScanProgress) :=
  match fuel with
  | O => (None, st)
  | S f =>
      match (p ← at_char 34 (skipWhitespace p);
             '(key, p) ← decodeString fromUtf8 p;
             p ← at_char 58 (skipWhitespace p);
             Some (key, p)) with
      | None => (None, st)
      | Some (key, p) =>
          let valueStart := skipWhitespace (tail p) in
          match skipValue (walk_fuel valueStart) after (depth - 1) valueStart st.2 with
          | (None, scan) => (None, (st.1, scan))
          | (Some valueEnd, scan) =>
              let value := take (length valueStart - length valueEnd) valueStart in
              let after' := after + Z.of_nat (length valueEnd) in
              match memberCallback key value after' (st.1, scan) with
              | (false, st) => (None, st)
              | (true, st) =>
                  match skipWhitespace valueEnd with
                  | c :: p =>
                      if c =? 44 then member_loop fromUtf8 f after depth memberCallback p st
                      else if c =? 125 then (Some p, st) else (None, st)
                  | [] => (None, st)
                  end
              end
          end
      end
  end.

Definition forEachObjectMember {A} (fromUtf8 : bytes -> text) (after depth : Z)
    (memberCallback : member_callback A) (p : bytes) (st : A * ScanProgress)
    : option bytes * (A * ScanProgress) :=
  if depth <=? 0 then (None, st)
  else
    let p := skipWhitespace (tail p) in
    match at_char 125 p with
    | Some p => (Some (tail p), st)
    | None => member_loop fromUtf8 (S (length p)) after depth memberCallback p st
    end.

(** The loop of [countArrayElements]; [None] is the result -1. *)
Fixpoint count_loop (fuel : nat) (after depth : Z) (p : bytes) (count : Z) (scan : ScanProgress)
    : option Z * ScanProgress :=
  match fuel with
  | O => (None, scan)
  | S f =>
      match skipValue (walk_fuel p) after (depth - 1) p scan with
      | (None, scan) => (None, scan)
      | (Some p, scan) =>
          let scan := report after p scan in
          match skipWhitespace p with
          | c :: p =>
              if c =? 44 then count_loop f after depth p (count + 1) scan
              else if c =? 93 then (Some (count + 1), scan) else (None, scan)
          | [] => (None, scan)
          end
      end
  end.

Definition countArrayElements (after depth : Z) (p : bytes) (scan : ScanProgress)
    : option Z * ScanProgress :=
  if depth <=? 0 then (None, scan)
  else
    let p := skipWhitespace (tail p) in
    match at_char 93 p with
    | Some _ => (Some 0, scan)
    | None => count_loop (S (length p)) after depth p 0 scan
    end.

(** ** The scan *)

Record SetDataRange : Type := { start : Z; data_length : Z; cardCount : Z }.

Record SetRange : Type := {
  dataRange : SetDataRange;
  code : text;
  set_name : text;
  set_type : text;
  releaseDate : text
}.

Definition with_code (t : text) (r : SetRange) : SetRange :=
  {| dataRange := dataRange r; code := t; set_name := set_name r; set_type := set_type r;
     releaseDate := releaseDate r |}.

Definition with_name (t : text) (r : SetRange) : SetRange :=
  {| dataRange := dataRange r; code := code r; set_name := t; set_type := set_type r;
     releaseDate := releaseDate r |}.

Definition with_type (t : text) (r : SetRange) : SetRange :=
  {| dataRange := dataRange r; code := code r; set_name := set_name r; set_type := t;
     releaseDate := releaseDate r |}.

Definition with_releaseDate (t : text) (r : SetRange) : SetRange :=
  {| dataRange := dataRange r; code := code r; set_name := set_name r; set_type := set_type r;
     releaseDate := t |}.

Definition with_cardCount (n : Z) (r : SetRange) : SetRange :=
  {| dataRange := {| start := start (dataRange r); data_length := data_length (dataRange r);
                     cardCount := n |};
     code := code r; set_name := set_name r; set_type := set_type r;
     releaseDate := releaseDate r |}.

(** The variables the callbacks of [scanSetRanges] share. *)
Record ScanState : Type := {
  ranges : list SetRange;
  foundData : bool;
  malformedSetData : bool
}.

(** [ScanError], by the message it carries. *)
Inductive ScanError : Type :=
| EmptyDocument
| NotAnObject
| MalformedSetData
| MalformedJson
| TrailingContent
| MissingData
| NoSets.

Section Scan.
Context (fromUtf8 : bytes -> text).

(** A metadata field: its value replaces the old one when it is a string. *)
Definition string_field (set : text -> SetRange -> SetRange) (v : bytes)
    (st : SetRange * ScanProgress) : bool * (SetRange * ScanProgress) :=
  match decodeStringMember fromUtf8 v with
  | None => (false, st)
  | Some None => (true, st)
  | Some (Some t) => (true, (set t st.1, st.2))
  end.

(** The innermost callback: one field of a set. *)
Definition field_callback : member_callback SetRange := fun field v after st =>
  if bool_decide (field = str "code") then string_field with_code v st
  else if bool_decide (field = str "name") then string_field with_name v st
  else if bool_decide (field = str "type") then string_field with_type v st
  else if bool_decide (field = str "releaseDate") then string_field with_releaseDate v st
  else if bool_decide (field = str "cards") then
    match v with
    | [] => (false, st)
    | c :: _ =>
        if negb (c =? 91) then (true, st)
        else
          match countArrayElements after (kMaxNestingDepth - 2) v st.2 with
          | (Some n, scan) => (true, (with_cardCount n st.1, scan))
          | (None, scan) => (false, (st.1, scan))
          end
    end
  else (true, st).

Definition malformed (st : ScanState) : ScanState :=
  {| ranges := ranges st; foundData := foundData st; malformedSetData := true |}.

(** The callback on the members of [data]: one set. *)
Definition set_callback (total : Z) : member_callback ScanState := fun setCode v after st =>
  match at_char 123 v with
  | Some v =>
      let range :=
        {| dataRange := {| start := total - (Z.of_nat (length v) + after);
                           data_length := Z.of_nat (length v); cardCount := 0 |};
           code := setCode; set_name := []; set_type := []; releaseDate := [] |} in
      match forEachObjectMember fromUtf8 after (kMaxNestingDepth - 2) field_callback v
              (range, st.2) with
      | (Some _, (range, scan)) =>
          (true, ({| ranges := ranges st.1 ++ [range]; foundData := foundData st.1;
                     malformedSetData := malformedSetData st.1 |}, scan))
      | (None, (_, scan)) => (false, (malformed st.1, scan))
      end
  | None => (false, (malformed st.1, st.2))
  end.

(** [topLevelCallback]. *)
Definition top_callback (total : Z) : member_callback ScanState := fun key v after st =>
  if bool_decide (key = str "data") then
    let st := ({| ranges := ranges st.1; foundData := true;
                  malformedSetData := malformedSetData st.1 |}, st.2) in
    match at_char 123 v with
    | Some v =>
        match forEachObjectMember fromUtf8 after (kMaxNestingDepth - 1) (set_callback total) v st with
        | (Some _, st) => (true, st)
        | (None, st) => (false, (malformed st.1, st.2))
        end
    | None => (false, (malformed st.1, st.2))
    end
  else (true, st).

(** The result and the final state of the progress reports. *)
Definition scanSetRanges (json : bytes) (progress : bool)
    : result (list SetRange) ScanError * ScanProgress :=
  let total := Z.of_nat (length json) in
  let scan := {| size := total; callback := progress; step := Z.max 1 (total / 100);
                 lastReported := 0; reports := [] |} in
  if total <=? 0 then (Err EmptyDocument, scan)
  else
    match at_char 123 (skipWhitespace json) with
    | Some p =>
        match forEachObjectMember fromUtf8 0 kMaxNestingDepth (top_callback total) p
                ({| ranges := []; foundData := false; malformedSetData := false |}, scan) with
        | (None, (st, scan)) =>
            (Err (if malformedSetData st then MalformedSetData else MalformedJson), scan)
        | (Some p, (st, scan)) =>
            if negb (bool_decide (skipWhitespace p = [])) then
              (Err TrailingContent, scan)
            else if negb (foundData st) then (Err MissingData, scan)
            else if bool_decide (ranges st = []) then (Err NoSets, scan)
            else (Ok (ranges st), report 0 [] scan)
        end
    | None => (Err NotAnObject, scan)
    end.
End Scan.
