(* ===== verification/RawJsonCorrect.v ===== *)
(** * Correctness of the raw JSON scanner

    The JSON grammar on bytes, with the nesting depth as an index, and the
    scanner against it: the walk accepts exactly the values of the grammar, the
    string decoder accepts exactly the strings the walk skips, and the scan of a
    document returns exactly the sets of its [data] objects. *)
From Stdlib Require Import Sorted.
From S2P Require Import Prelude RawJson.
Open Scope cockatrice_scope.
Local Open Scope Z_scope.

(** ** The grammar *)

Definition ws (w : bytes) : Prop := Forall (fun c => isWhitespace c = true) w.

(** The bytes between the quotes of a string. *)
Inductive string_body : bytes -> Prop :=
| sb_nil : string_body []
| sb_char c b : c <> 34 -> c <> 92 -> string_body b -> string_body (c :: b)
| sb_simple e b : simple_escape e = true -> string_body b -> string_body (92 :: e :: b)
| sb_unit d u b :
    hex4 d = Some (u, []) -> is_high u = false -> is_low u = false -> string_body b ->
    string_body (92 :: 117 :: d ++ b)
| sb_pair d h d' l b :
    hex4 d = Some (h, []) -> is_high h = true -> hex4 d' = Some (l, []) -> is_low l = true ->
    string_body b -> string_body (92 :: 117 :: d ++ 92 :: 117 :: d' ++ b).

Definition json_string (v : bytes) : Prop := exists b, v = 34 :: b ++ [34] /\ string_body b.

Definition digits (l : bytes) : Prop := Forall (fun c => isDigit c = true) l.

Definition json_int (l : bytes) : Prop :=
  l = [48] \/ exists c ds, l = c :: ds /\ 49 <= c <= 57 /\ digits ds.

Definition json_frac (l : bytes) : Prop :=
  l = [] \/ exists ds, l = 46 :: ds /\ ds <> [] /\ digits ds.

Definition json_exp (l : bytes) : Prop :=
  l = [] \/ exists e sg ds, l = e :: sg ++ ds /\ e ∈ [101; 69] /\ sg ∈ [[]; [43]; [45]] /\
    ds <> [] /\ digits ds.

Definition json_number (v : bytes) : Prop :=
  exists sg i f e, v = sg ++ i ++ f ++ e /\ sg ∈ [[]; [45]] /\
    json_int i /\ json_frac f /\ json_exp e.

(** [true], [false] and [null]. *)
Definition literals : list bytes :=
  [[116; 114; 117; 101]; [102; 97; 108; 115; 101]; [110; 117; 108; 108]].

Definition json_primitive (v : bytes) : Prop :=
  json_string v \/ json_number v \/ v ∈ literals.

(** A member of an object: its key, its value and the number of bytes of the
    object's text behind the value. *)
Record member : Type := Member { key : bytes; value : bytes; behind : Z }.

Inductive json_value : Z -> bytes -> Prop :=
| jv_primitive d v : json_primitive v -> json_value d v
| jv_object d v ms : json_object d v ms -> json_value d v
| jv_array d v vs : json_array d v vs -> json_value d v
with json_object : Z -> bytes -> list member -> Prop :=
| jo_empty d w : 0 < d -> ws w -> json_object d (123 :: w ++ [125]) []
| jo_members d b ms : 0 < d -> json_members d b ms -> json_object d (123 :: b ++ [125]) ms
with json_members : Z -> bytes -> list member -> Prop :=
| jm_last d w1 k w2 w3 v w4 :
    ws w1 -> json_string k -> ws w2 -> ws w3 -> json_value (d - 1) v -> ws w4 ->
    json_members d (w1 ++ k ++ w2 ++ 58 :: w3 ++ v ++ w4)
      [Member k v (Z.of_nat (length w4) + 1)]
| jm_next d w1 k w2 w3 v w4 b ms :
    ws w1 -> json_string k -> ws w2 -> ws w3 -> json_value (d - 1) v -> ws w4 ->
    json_members d b ms ->
    json_members d (w1 ++ k ++ w2 ++ 58 :: w3 ++ v ++ w4 ++ 44 :: b)
      (Member k v (Z.of_nat (length (w4 ++ 44 :: b)) + 1) :: ms)
with json_array : Z -> bytes -> list bytes -> Prop :=
| ja_empty d w : 0 < d -> ws w -> json_array d (91 :: w ++ [93]) []
| ja_elements d b vs : 0 < d -> json_elements d b vs -> json_array d (91 :: b ++ [93]) vs
with json_elements : Z -> bytes -> list bytes -> Prop :=
| je_last d w1 v w2 :
    ws w1 -> json_value (d - 1) v -> ws w2 -> json_elements d (w1 ++ v ++ w2) [v]
| je_next d w1 v w2 b vs :
    ws w1 -> json_value (d - 1) v -> ws w2 -> json_elements d b vs ->
    json_elements d (w1 ++ v ++ w2 ++ 44 :: b) (v :: vs).

Scheme json_value_mut := Minimality for json_value Sort Prop
with json_object_mut := Minimality for json_object Sort Prop
with json_members_mut := Minimality for json_members Sort Prop
with json_array_mut := Minimality for json_array Sort Prop
with json_elements_mut := Minimality for json_elements Sort Prop.
Combined Scheme json_ind from
  json_value_mut, json_object_mut, json_members_mut, json_array_mut, json_elements_mut.

(** What may follow a number or a literal. *)
Definition delim (r : bytes) : Prop :=
  match r with [] => True | c :: _ => isWhitespace c = true \/ c = 44 \/ c = 93 \/ c = 125 end.

(** ** Whitespace *)

Lemma skipWhitespace_spec p : exists w, ws w /\ p = w ++ skipWhitespace p.
Proof.
  induction p as [|c p (w & Hw & IH)]; cbn [skipWhitespace]; [by exists []; split; [constructor|]|].
  destruct (isWhitespace c) eqn:Hc.
  - exists (c :: w). split; [by constructor|]. cbn [app]. by f_equal.
  - by exists []; split; [constructor|].
Qed.

Lemma skipWhitespace_app w p : ws w -> skipWhitespace (w ++ p) = skipWhitespace p.
Proof. induction 1 as [|c w Hc Hw IH]; [done|]. cbn. by rewrite Hc. Qed.

Lemma skipWhitespace_head c p : isWhitespace c = false -> skipWhitespace (c :: p) = c :: p.
Proof. intros Hc. cbn. by rewrite Hc. Qed.

Lemma skipWhitespace_nil w : ws w -> skipWhitespace w = [].
Proof. intros Hw. rewrite <- (app_nil_r w). by rewrite skipWhitespace_app. Qed.

Lemma ws_head c p w : isWhitespace c = false -> ws w -> skipWhitespace (w ++ c :: p) = c :: p.
Proof. intros Hc Hw. rewrite skipWhitespace_app by done. by apply skipWhitespace_head. Qed.

Lemma skipWhitespace_idem p : skipWhitespace (skipWhitespace p) = skipWhitespace p.
Proof.
  induction p as [|c p IH]; [done|]. cbn [skipWhitespace].
  destruct (isWhitespace c) eqn:Hc; [done|]. by apply skipWhitespace_head.
Qed.

(** What a match on the byte after whitespace tells. *)
Lemma skipWhitespace_cons p c r :
  skipWhitespace p = c :: r -> exists w, ws w /\ p = w ++ c :: r.
Proof. intros Hp. destruct (skipWhitespace_spec p) as (w & Hw & E). exists w. by rewrite <- Hp. Qed.

(** ** Strings *)

Definition plain (l : bytes) : Prop := Forall (fun c => c <> 34 /\ c <> 92) l.

Lemma plain_body l b : plain l -> string_body b -> string_body (l ++ b).
Proof. induction 1 as [|c l [? ?]]; [done|]. intros Hb. cbn. constructor; auto. Qed.

Lemma memchr_None c p : memchr c p = None <-> c ∉ p.
Proof.
  induction p as [|x p IH]; cbn [memchr]; [set_solver|].
  destruct (Z.eqb_spec x c) as [->|Hx]; [set_solver|]. rewrite fmap_None, IH. set_solver.
Qed.

Lemma memchr_Some c p q :
  memchr c p = Some q <-> c ∉ take q p /\ p = take q p ++ c :: drop (S q) p.
Proof.
  revert q. induction p as [|x p IH]; intros q; cbn [memchr].
  { split; [done|]. intros [_ He]. apply (f_equal length) in He.
    rewrite length_app in He. cbn in He. lia. }
  destruct (Z.eqb_spec x c) as [->|Hx].
  - split; [intros [= <-]; split; [set_solver|done]|]. intros [Hn He]. destruct q as [|q]; [done|].
    exfalso. apply Hn. cbn. left.
  - rewrite fmap_Some. split.
    + intros (q' & Hq & ->). apply IH in Hq as [H1 H2]. cbn [take drop app].
      split; [set_solver|]. by f_equal.
    + destruct q as [|q]; cbn [take drop app]; [intros [_ [= He]]; congruence|].
      intros [Hn [= He]]. exists q. split; [|done]. apply IH. split; [set_solver|done].
Qed.

Lemma memchr_app c l p : c ∉ l -> memchr c (l ++ c :: p) = Some (length l).
Proof.
  intros Hl. apply memchr_Some. rewrite take_app_length. split; [done|].
  rewrite drop_app_ge by lia. by replace (S (length l) - length l)%nat with 1%nat by lia.
Qed.

Lemma hex4_length d u r : hex4 d = Some (u, r) -> exists h, d = h ++ r /\ hex4 h = Some (u, []) /\
  length h = 4%nat.
Proof.
  destruct d as [|a [|b [|c [|e d]]]]; try done. cbn [hex4]. destruct (_ && _) eqn:He; [|done].
  intros [= <- <-]. exists [a; b; c; e]. cbn [hex4]. by rewrite He.
Qed.

Lemma hex4_app d u r : hex4 d = Some (u, []) -> hex4 (d ++ r) = Some (u, r).
Proof.
  intros Hd. destruct (hex4_length _ _ _ Hd) as (h & -> & _ & Hl). rewrite app_nil_r in *.
  destruct h as [|a [|b [|c [|e [|]]]]]; try done. cbn [hex4 app] in *. destruct (_ && _); [|done].
  by simplify_eq.
Qed.

(** An escape of four digits or of a surrogate pair, behind its [\u], and the
    units it stands for. *)
Definition unicode_body (d : bytes) (us : text) : Prop :=
  (exists u, hex4 d = Some (u, []) /\ is_high u = false /\ is_low u = false /\ us = [u]) \/
  (exists d1 h d2 l, d = d1 ++ 92 :: 117 :: d2 /\ hex4 d1 = Some (h, []) /\ is_high h = true /\
     hex4 d2 = Some (l, []) /\ is_low l = true /\ us = [h; l]).

Lemma decode_unicode_spec p us r :
  decode_unicode p = Some (us, r) <-> exists d, p = d ++ r /\ unicode_body d us.
Proof.
  unfold decode_unicode. split.
  - intros ((u & q) & Hu & Hq)%bind_Some. apply hex4_length in Hu as (h & -> & Hh & _).
    destruct (is_high u) eqn:Hhi.
    + destruct q as [|a [|b q']]; try done. destruct (Z.eqb_spec a 92), (Z.eqb_spec b 117); try done.
      cbn [andb] in Hq. apply bind_Some in Hq as ((l & q) & Hl & Hq).
      apply hex4_length in Hl as (h' & -> & Hh' & _). destruct (is_low l) eqn:Hlo; [|done].
      simplify_eq. exists (h ++ 92 :: 117 :: h').
      split; [by rewrite <- app_assoc|]. right. by exists h, u, h', l.
    + destruct (is_low u) eqn:Hlo; [done|]. simplify_eq. exists h. split; [done|]. left. by exists u.
  - intros (d & -> & [(u & Hu & H1 & H2 & ->)|(d1 & h & d2 & l & -> & H1 & H2 & H3 & H4 & ->)]).
    + rewrite (hex4_app _ _ r Hu). cbn [mbind option_bind]. by rewrite H1, H2.
    + rewrite <- app_assoc, (hex4_app _ _ _ H1). cbn [mbind option_bind app]. rewrite H2.
      cbn [Z.eqb Pos.eqb andb]. rewrite (hex4_app _ _ _ H3). cbn [mbind option_bind]. by rewrite H4.
Qed.

Lemma skip_decode_unicode p : skip_unicode p = snd <$> decode_unicode p.
Proof.
  unfold skip_unicode, decode_unicode. destruct (hex4 p) as [[u q]|]; [|done].
  cbn [mbind option_bind]. destruct (is_high u); [|by destruct (is_low u)].
  destruct q as [|a [|b q]]; try done. destruct (_ && _); [|done].
  destruct (hex4 q) as [[l q']|]; [|done]. cbn [mbind option_bind]. by destruct (is_low l).
Qed.

(** The grammar of string bodies by runs, as [skipString] reads them. *)
Inductive string_runs : bytes -> Prop :=
| sr_plain l : plain l -> string_runs l
| sr_simple l e b : plain l -> simple_escape e = true -> string_runs b ->
    string_runs (l ++ 92 :: e :: b)
| sr_unicode l d us b : plain l -> unicode_body d us -> string_runs b ->
    string_runs (l ++ 92 :: 117 :: d ++ b).

Lemma string_runs_body b : string_runs b <-> string_body b.
Proof.
  split.
  - induction 1 as [l Hl|l e b Hl He _ IH|l d us b Hl Hd _ IH].
    + rewrite <- (app_nil_r l). apply plain_body; [done|constructor].
    + apply plain_body; [done|]. by constructor.
    + apply plain_body; [done|].
      destruct Hd as [(u & Hu & H1 & H2 & _)|(d1 & h & d2 & l' & -> & H1 & H2 & H3 & H4 & _)].
      * by econstructor.
      * rewrite <- app_assoc. by eapply sb_pair.
  - assert (Hcons : forall c b, c <> 34 -> c <> 92 -> string_runs b -> string_runs (c :: b)).
    { intros c b0 H1 H2 [l Hl|l e b' Hl He Hb|l d us b' Hl Hd Hb].
      - apply sr_plain. by constructor.
      - apply (sr_simple (c :: l)); [by constructor|done|done].
      - eapply (sr_unicode (c :: l)); [by constructor|done|done]. }
    induction 1 as [|c b H1 H2 _ IH|e b He _ IH|d u b H1 H2 H3 _ IH|d h d' l b H1 H2 H3 H4 _ IH].
    + apply sr_plain. constructor.
    + by apply Hcons.
    + apply (sr_simple []); [constructor|done|done].
    + apply (sr_unicode [] d [u]); [constructor| |done]. left. by exists u.
    + change (92 :: 117 :: d ++ 92 :: 117 :: d' ++ b) with
        ([] ++ 92 :: 117 :: d ++ (92 :: 117 :: d') ++ b). rewrite (app_assoc d).
      apply (sr_unicode [] _ [h; l]); [constructor| |done]. right. by exists d, h, d', l.
Qed.

Lemma plain_take (p : bytes) q b :
  34 ∉ take q p -> 92 ∉ take b (take q p) -> plain (take b (take q p)).
Proof.
  intros H1 H2. apply Forall_forall. intros c Hc. split; intros ->; [|done].
  apply H1. by apply (subseteq_take b).
Qed.

Lemma memchr_inside p q b :
  memchr 34 p = Some q -> memchr 92 (take q p) = Some b ->
  exists l, p = l ++ 92 :: drop (S b) p /\ plain l.
Proof.
  intros [Hq Hp]%memchr_Some [Hb Hpb]%memchr_Some. exists (take b (take q p)).
  split; [|by apply plain_take].
  assert (Hlen : length (take b (take q p)) = b).
  { apply (f_equal length) in Hpb. rewrite length_app in Hpb. cbn in Hpb.
    rewrite length_drop, !length_take in Hpb. rewrite !length_take. lia. }
  revert Hp Hpb Hlen. generalize (take b (take q p)) as l. generalize (drop (S b) (take q p)) as t.
  intros t l Hp Hpb <-. rewrite Hpb, <- app_assoc in Hp. cbn in Hp. rewrite Hp at 1. f_equal. f_equal.
  rewrite Hp at 2. rewrite drop_app_ge by lia.
  by replace (S (length l) - length l)%nat with 1%nat by lia.
Qed.

Lemma skip_string_loop_sound f p r :
  skip_string_loop f p = Some r -> exists b, p = b ++ 34 :: r /\ string_body b.
Proof.
  revert p r. induction f as [|f IH]; intros p r; cbn [skip_string_loop]; [done|].
  intros (q & Hq0 & H)%bind_Some. pose proof (proj1 (memchr_Some _ _ _) Hq0) as [Hq Hp].
  destruct (memchr 92 (take q p)) as [b|] eqn:Hb.
  - destruct (memchr_inside p q b Hq0 Hb) as (l & He & Hl).
    destruct (drop (S b) p) as [|e d]; [done|]. destruct (Z.eqb_spec e 117) as [->|Hne].
    + rewrite skip_decode_unicode in H. apply bind_Some in H as (d' & Hd & H).
      apply fmap_Some in Hd as ([us d''] & Hd & ->). apply decode_unicode_spec in Hd as (x & -> & Hx).
      apply IH in H as (b' & E & Hb'). cbn in E. subst d''.
      exists (l ++ 92 :: 117 :: x ++ b').
      split; [rewrite He, <- app_assoc; cbn [app]; by rewrite <- app_assoc|].
      apply string_runs_body. eapply sr_unicode; [done|done|]. by apply string_runs_body.
    + destruct (simple_escape e) eqn:Hs; [|done]. apply IH in H as (b' & -> & Hb').
      exists (l ++ 92 :: e :: b'). split; [rewrite He; by rewrite <- app_assoc|].
      apply string_runs_body. apply sr_simple; [done|done|]. by apply string_runs_body.
  - simplify_eq. exists (take q p). split; [done|]. rewrite <- (app_nil_r (take q p)).
    apply plain_body; [|constructor]. apply memchr_None in Hb. apply Forall_forall.
    intros c Hc. split; by intros ->.
Qed.

Lemma plain_notin l : plain l -> 34 ∉ l /\ 92 ∉ l.
Proof. unfold plain. rewrite Forall_forall. intros Hl. split; intros Hc; by apply Hl in Hc as []. Qed.

(** The first quote of a body behind a plain run is behind the run. *)
Lemma memchr_beyond l x p q :
  34 ∉ l -> x <> 34 -> memchr 34 (l ++ x :: p) = Some q -> take q (l ++ x :: p) = l ++ x ::
    take (q - S (length l)) p.
Proof.
  intros Hl Hx Hq. apply memchr_Some in Hq as [Hn He].
  assert (Hlen : (S (length l) <= q)%nat).
  { destruct (decide (S (length l) <= q)%nat) as [|Hlt]; [done|]. exfalso.
    assert (Hlk : (l ++ x :: p) !! q = Some 34).
    { rewrite He at 1. apply (list_lookup_middle); rewrite length_take.
      apply (f_equal length) in He. rewrite !length_app, length_take in He. cbn in He.
      rewrite !length_app. cbn. lia. }
    destruct (decide (q = length l)) as [->|Hne].
    - rewrite list_lookup_middle in Hlk by done. congruence.
    - rewrite lookup_app_l in Hlk by lia. apply Hl. by eapply list_elem_of_lookup_2. }
  rewrite take_app_ge by lia. replace (q - length l)%nat with (S (q - S (length l))) by lia. done.
Qed.

Lemma memchr_exists c p : c ∈ p -> exists q, memchr c p = Some q.
Proof. intros Hc. destruct (memchr c p) eqn:E; [by eexists|]. by apply memchr_None in E. Qed.

Lemma skip_string_loop_complete f b r :
  string_body b -> (length b < f)%nat -> skip_string_loop f (b ++ 34 :: r) = Some r.
Proof.
  intros Hb. apply string_runs_body in Hb. revert f.
  assert (Hesc : forall l e d, plain l -> exists q, memchr 34 (l ++ 92 :: e :: d ++ 34 :: r) = Some q /\
    memchr 92 (take q (l ++ 92 :: e :: d ++ 34 :: r)) = Some (length l)).
  { intros l e d [Hl Hl']%plain_notin.
    destruct (memchr_exists 34 (l ++ 92 :: e :: d ++ 34 :: r)) as [q Hq]; [set_solver|].
    exists q. split; [done|]. rewrite (memchr_beyond l 92 _ q Hl ltac:(done) Hq). by apply memchr_app. }
  induction Hb as [l Hl|l e b Hl He _ IH|l d us b Hl Hd _ IH]; intros [|f] Hf; try lia;
    cbn [skip_string_loop].
  - apply plain_notin in Hl as [Hl Hl']. rewrite memchr_app by done. cbn [mbind option_bind].
    rewrite take_app_length, (proj2 (memchr_None 92 l) Hl').
    rewrite drop_app_ge by lia. by replace (S (length l) - length l)%nat with 1%nat by lia.
  - destruct (Hesc l e b Hl) as (q & Hq & Hb). rewrite <- app_assoc. cbn [app].
    rewrite Hq. cbn [mbind option_bind]. rewrite Hb, drop_app_ge by lia.
    replace (S (length l) - length l)%nat with 1%nat by lia. cbn [drop].
    destruct (Z.eqb_spec e 117) as [->|_]; [by vm_compute in He|]. rewrite He.
    apply IH. rewrite length_app in Hf. cbn in Hf. lia.
  - destruct (Hesc l 117 (d ++ b) Hl) as (q & Hq & Hb). rewrite <- app_assoc. cbn [app].
    rewrite Hq. cbn [mbind option_bind]. rewrite Hb, drop_app_ge by lia.
    replace (S (length l) - length l)%nat with 1%nat by lia. cbn [drop Z.eqb Pos.eqb].
    rewrite skip_decode_unicode, <- app_assoc.
    rewrite (proj2 (decode_unicode_spec (d ++ b ++ 34 :: r) us (b ++ 34 :: r))) by by exists d.
    cbn [fmap option_fmap option_map snd mbind option_bind].
    apply IH. rewrite length_app in Hf. cbn in Hf. rewrite length_app in Hf. lia.
Qed.

Lemma skipString_spec p r :
  at_char 34 p = Some p ->
  skipString p = Some r <-> exists v, p = v ++ r /\ json_string v.
Proof.
  destruct p as [|c p]; [done|]. cbn [at_char]. destruct (Z.eqb_spec c 34) as [->|]; [|done]. intros _.
  unfold skipString. cbn [tail]. split.
  - intros (b & -> & Hb)%skip_string_loop_sound. exists (34 :: b ++ [34]).
    split; [by cbn; rewrite <- app_assoc|]. by exists b.
  - intros (v & E & b & -> & Hb). cbn in E. rewrite <- app_assoc in E. cbn in E. simplify_eq.
    apply skip_string_loop_complete; [done|]. cbn. rewrite length_app. lia.
Qed.

Section Strings.
Context (fromUtf8 : bytes -> text).

Lemma decode_escape_simple e : simple_escape e = true <-> exists u, decode_escape e = Some u.
Proof.
  unfold simple_escape. rewrite bool_decide_eq_true, !elem_of_cons, elem_of_nil. split.
  - intros Hc. by destruct_or?; subst; eexists.
  - intros [u Hu]. destruct e as [|e|e]; try done.
    do 7 (destruct e as [e|e|]; try done; try tauto).
Qed.

Lemma decode_loop_sound f p utf8 out t r :
  decode_loop fromUtf8 f p utf8 out = Some (t, r) -> exists b, p = b ++ 34 :: r /\ string_body b.
Proof.
  revert p utf8 out. induction f as [|f IH]; intros p utf8 out; cbn [decode_loop]; [done|].
  destruct p as [|c p]; [done|]. destruct (Z.eqb_spec c 92) as [->|Hc].
  - destruct p as [|e p]; [done|]. destruct (Z.eqb_spec e 117) as [->|He].
    + intros ([us q] & Hu & H)%bind_Some. apply decode_unicode_spec in Hu as (d & -> & Hd).
      apply IH in H as (b & -> & Hb). exists (92 :: 117 :: d ++ b).
      split; [cbn; by rewrite <- app_assoc|]. apply string_runs_body.
      apply (sr_unicode [] d us); [constructor|done|by apply string_runs_body].
    + intros (u & Hu & H)%bind_Some. apply IH in H as (b & -> & Hb). exists (92 :: e :: b).
      split; [done|]. constructor; [|done]. apply decode_escape_simple. by exists u.
  - destruct (Z.eqb_spec c 34) as [->|Hc'].
    + intros [= <- <-]. exists []. split; [done|constructor].
    + intros (b & -> & Hb)%IH. exists (c :: b). split; [done|]. by constructor.
Qed.

Lemma decode_loop_complete b utf8 out :
  string_body b -> exists t, forall f r, (length b < f)%nat ->
    decode_loop fromUtf8 f (b ++ 34 :: r) utf8 out = Some (t, r).
Proof.
  revert utf8 out. induction b as [b IH] using (induction_ltof1 _ (@length Z)). intros utf8 out Hb.
  assert (Hdone : forall utf8' out' b', (length b' < length b)%nat -> string_body b' ->
    (forall f r, decode_loop fromUtf8 (S f) (b ++ 34 :: r) utf8 out =
       decode_loop fromUtf8 f (b' ++ 34 :: r) utf8' out') ->
    exists t, forall f r, (length b < f)%nat ->
      decode_loop fromUtf8 f (b ++ 34 :: r) utf8 out = Some (t, r)).
  { intros utf8' out' b' Hlt Hb' Heq. destruct (IH b' Hlt utf8' out' Hb') as [t Ht]. exists t.
    intros [|f] r Hf; [lia|]. rewrite Heq. apply Ht. lia. }
  destruct Hb as [|c b H1 H2 Hb|e b He Hb|d u b H1 H2 H3 Hb|d h d' l b H1 H2 H3 H4 Hb].
  - exists (flush fromUtf8 utf8 out). intros [|f] r Hf; [lia|]. done.
  - apply (Hdone (c :: utf8) out b); [cbn; lia|done|]. intros f r. cbn [decode_loop app].
    by rewrite (proj2 (Z.eqb_neq c 92) H2), (proj2 (Z.eqb_neq c 34) H1).
  - apply decode_escape_simple in He as [u Hu].
    apply (Hdone [] (flush fromUtf8 utf8 out ++ [u]) b); [cbn; lia|done|].
    intros f r. cbn [decode_loop app Z.eqb Pos.eqb].
    destruct (Z.eqb_spec e 117) as [->|_]; [by vm_compute in Hu|]. by rewrite Hu.
  - apply (Hdone [] (flush fromUtf8 utf8 out ++ [u]) b);
      [cbn; rewrite length_app; lia|done|].
    intros f r. cbn [decode_loop app Z.eqb Pos.eqb]. rewrite <- app_assoc.
    rewrite (proj2 (decode_unicode_spec (d ++ b ++ 34 :: r) [u] (b ++ 34 :: r))); [done|].
    exists d. split; [done|]. left. by exists u.
  - apply (Hdone [] (flush fromUtf8 utf8 out ++ [h; l]) b);
      [cbn; rewrite !length_app; cbn; rewrite length_app; lia|done|].
    intros f r. cbn [decode_loop app Z.eqb Pos.eqb].
    rewrite <- app_assoc. cbn [app]. rewrite <- app_assoc.
    rewrite (proj2 (decode_unicode_spec (d ++ 92 :: 117 :: d' ++ b ++ 34 :: r) [h; l] (b ++ 34 :: r)));
      [done|]. exists (d ++ 92 :: 117 :: d'). split; [by rewrite <- app_assoc|]. right.
    by exists d, h, d', l.
Qed.

(** The decoder stops where the string ends, whatever follows. *)
Lemma decodeString_complete v :
  json_string v -> exists t, forall r, decodeString fromUtf8 (v ++ r) = Some (t, r).
Proof.
  intros (b & -> & Hb). destruct (decode_loop_complete b [] [] Hb) as [t Ht]. exists t. intros r.
  unfold decodeString. cbn [tail app length]. rewrite <- app_assoc. apply Ht.
  rewrite !length_app. lia.
Qed.

Lemma decodeString_sound p t r :
  at_char 34 p = Some p -> decodeString fromUtf8 p = Some (t, r) ->
  exists v, p = v ++ r /\ json_string v /\ forall r', decodeString fromUtf8 (v ++ r') = Some (t, r').
Proof.
  destruct p as [|c p]; [done|]. cbn [at_char]. destruct (Z.eqb_spec c 34) as [->|]; [|done].
  intros _ Hd. pose proof Hd as (b & E & Hb)%decode_loop_sound. cbn [tail] in E. subst p.
  assert (Hv : json_string (34 :: b ++ [34])) by by exists b.
  exists (34 :: b ++ [34]). split; [cbn; by rewrite <- app_assoc|]. split; [done|].
  destruct (decodeString_complete _ Hv) as [t' Ht']. intros r'. rewrite Ht'. f_equal. f_equal.
  specialize (Ht' r). cbn [app] in Ht'. rewrite <- app_assoc in Ht'. cbn [app] in Ht'. congruence.
Qed.
End Strings.

(** ** Numbers and literals *)

Lemma skip_digits_spec p :
  exists ds, p = ds ++ skip_digits p /\ digits ds /\
    (forall c r, skip_digits p = c :: r -> isDigit c = false).
Proof.
  induction p as [|c p (ds & E & Hd & Hn)]; cbn [skip_digits]; [by exists []; split_and!; [|constructor|]|].
  destruct (isDigit c) eqn:Hc.
  - exists (c :: ds). cbn [app]. split_and!; [by f_equal|by constructor|done].
  - exists []. split_and!; [done|constructor|]. by intros c' r [= <- <-].
Qed.

Lemma delim_not_digit c r : delim (c :: r) -> isDigit c = false /\ isLetter c = false /\ c <> 95 /\
  c <> 46 /\ c <> 101 /\ c <> 69.
Proof.
  cbn [delim]. unfold isWhitespace. rewrite !orb_true_iff, !Z.eqb_eq.
  intros Hc. destruct_or?; subst; by split_and!.
Qed.

Lemma skip_digits_app ds r : digits ds -> (forall c r', r = c :: r' -> isDigit c = false) ->
  skip_digits (ds ++ r) = r.
Proof.
  induction 1 as [|c ds Hc _ IH]; intros Hr; cbn [app skip_digits].
  - destruct r as [|c r]; [done|]. cbn [skip_digits]. by rewrite (Hr c r).
  - rewrite Hc. by apply IH.
Qed.

Lemma digits1_sound p r : digits1 p = Some r -> exists ds, p = ds ++ r /\ ds <> [] /\ digits ds.
Proof.
  destruct p as [|c p]; [done|]. cbn [digits1]. destruct (isDigit c) eqn:Hc; [|done]. intros [= <-].
  destruct (skip_digits_spec p) as (ds & E & Hd & _). exists (c :: ds).
  cbn [app]. split_and!; [by f_equal|done|by constructor].
Qed.

Lemma digits1_complete ds r :
  ds <> [] -> digits ds -> (forall c r', r = c :: r' -> isDigit c = false) ->
  digits1 (ds ++ r) = Some r.
Proof.
  intros Hne Hd Hr. destruct Hd as [|c ds Hc Hd]; [done|]. cbn [app digits1]. rewrite Hc.
  by rewrite skip_digits_app.
Qed.

Lemma skipNumber_sound p r : skipNumber p = Some r -> exists v, p = v ++ r /\ json_number v.
Proof.
  unfold skipNumber. intros (p1 & H1 & (p2 & H2 & H3)%bind_Some)%bind_Some.
  assert (Hs : exists sg, p = sg ++ skip_sign p /\ sg ∈ [[]; [45]]).
  { destruct p as [|c p]; [by exists []; split; [|left]|]. cbn [skip_sign].
    destruct (Z.eqb_spec c 45) as [->|]; [exists [45]|exists []]; split; set_solver. }
  destruct Hs as (sg & Ep & Hsg).
  assert (Hi : exists i, skip_sign p = i ++ p1 /\ json_int i).
  { destruct (skip_sign p) as [|c q]; [done|]. cbn [skip_int] in H1.
    destruct (Z.eqb_spec c 48) as [->|]; [simplify_eq; exists [48]; by split; [|left]|].
    destruct (Z.leb_spec 49 c), (Z.leb_spec c 57); try done. cbn in H1. simplify_eq.
    destruct (skip_digits_spec q) as (ds & E & Hd & _). exists (c :: ds). cbn [app].
    split; [by f_equal|]. right. exists c, ds. split_and!; [done|lia|lia|done]. }
  destruct Hi as (i & Ei & Hi).
  assert (Hf : exists f, p1 = f ++ p2 /\ json_frac f).
  { destruct p1 as [|c q]; cbn [skip_frac] in H2; [simplify_eq; exists []; by split; [|left]|].
    destruct (Z.eqb_spec c 46) as [->|]; [|simplify_eq; exists []; by split; [|left]].
    apply digits1_sound in H2 as (ds & -> & Hne & Hd). exists (46 :: ds).
    split; [done|]. right. by exists ds. }
  destruct Hf as (f & Ef & Hf).
  assert (He : exists e, p2 = e ++ r /\ json_exp e).
  { destruct p2 as [|c q]; cbn [skip_exp] in H3; [simplify_eq; exists []; by split; [|left]|].
    destruct (_ || _) eqn:Hc; [|simplify_eq; exists []; by split; [|left]].
    rewrite orb_true_iff, !Z.eqb_eq in Hc. apply digits1_sound in H3 as (ds & Eq & Hne & Hd).
    assert (Hs : exists s, q = s ++ skip_exp_sign q /\ s ∈ [[]; [43]; [45]]).
    { destruct q as [|c' q]; [by exists []; split; [|left]|]. cbn [skip_exp_sign].
      destruct (Z.eqb_spec c' 43) as [->|]; [exists [43]; split; set_solver|].
      destruct (Z.eqb_spec c' 45) as [->|]; [exists [45]; split; set_solver|].
      exists []. split; set_solver. }
    destruct Hs as (s & Es & Hs). exists (c :: s ++ ds). rewrite Es, Eq. cbn [app].
    split; [by rewrite <- app_assoc|]. right. exists c, s, ds. split_and!; try done. set_solver. }
  destruct He as (e & Ee & He). exists (sg ++ i ++ f ++ e).
  split; [|by exists sg, i, f, e]. rewrite Ep, Ei, Ef, Ee. by rewrite <- !app_assoc.
Qed.

Lemma skipNumber_complete v r : json_number v -> delim r -> skipNumber (v ++ r) = Some r.
Proof.
  intros (sg & i & f & e & -> & Hsg & Hi & Hf & He) Hr.
  assert (Hdig : forall c r', r = c :: r' -> isDigit c = false).
  { intros c r' ->. by apply (delim_not_digit c r'). }
  assert (He' : forall c r', e ++ r = c :: r' -> isDigit c = false /\ c <> 46).
  { intros c r' E. destruct He as [->|(x & s & ds & -> & Hx & _)]; cbn in E.
    - subst r. destruct (delim_not_digit c r' Hr) as (? & ? & ? & ? & ?). done.
    - simplify_eq. apply list_elem_of_In in Hx. cbn in Hx. by destruct_or?; subst. }
  assert (Hf' : forall c r', f ++ e ++ r = c :: r' -> isDigit c = false).
  { intros c r' E. destruct Hf as [->|(ds & -> & _)]; cbn in E; [by apply (He' c r')|].
    by simplify_eq. }
  rewrite <- !app_assoc. unfold skipNumber.
  assert (E1 : skip_sign (sg ++ i ++ f ++ e ++ r) = i ++ f ++ e ++ r).
  { apply list_elem_of_In in Hsg. cbn in Hsg. destruct Hsg as [<-|[<-|[]]]; [|done].
    destruct Hi as [->|(c & ds & -> & Hc & _)]; [done|]. cbn.
    by rewrite (proj2 (Z.eqb_neq c 45)) by lia. }
  assert (E2 : skip_int (i ++ f ++ e ++ r) = Some (f ++ e ++ r)).
  { destruct Hi as [->|(c & ds & -> & Hc & Hd)]; [done|]. cbn.
    rewrite (proj2 (Z.eqb_neq c 48)), (proj2 (Z.leb_le 49 c)), (proj2 (Z.leb_le c 57)) by lia.
    cbn. by rewrite skip_digits_app. }
  rewrite E1, E2. cbn [mbind option_bind].
  assert (E3 : skip_frac (f ++ e ++ r) = Some (e ++ r)).
  { destruct Hf as [->|(ds & -> & Hne & Hd)].
    - cbn [app]. destruct (e ++ r) as [|c q] eqn:E; [done|]. cbn.
      by rewrite (proj2 (Z.eqb_neq c 46)) by by apply (He' c q).
    - cbn. apply digits1_complete; [done|done|]. intros c r' E. by apply (He' c r'). }
  rewrite E3. cbn [mbind option_bind]. destruct He as [->|(x & s & ds & -> & Hx & Hs & Hne & Hd)].
  - cbn [app]. destruct r as [|c r]; [done|]. cbn.
    destruct (delim_not_digit c r Hr) as (? & ? & ? & ? & ? & ?).
    by rewrite (proj2 (Z.eqb_neq c 101)), (proj2 (Z.eqb_neq c 69)) by done.
  - cbn. assert (Hx' : (x =? 101) || (x =? 69) = true).
    { apply list_elem_of_In in Hx. cbn in Hx. by destruct Hx as [<-|[<-|[]]]. }
    rewrite Hx', <- app_assoc. assert (E4 : skip_exp_sign (s ++ ds ++ r) = ds ++ r).
    { apply list_elem_of_In in Hs. cbn in Hs. destruct Hs as [<-|[<-|[<-|[]]]]; [|done|done].
      destruct Hd as [|c ds Hc Hd]; [done|]. cbn. unfold isDigit in Hc.
      by rewrite (proj2 (Z.eqb_neq c 43)), (proj2 (Z.eqb_neq c 45)) by lia. }
    rewrite E4. by apply digits1_complete.
Qed.

Lemma matchLiteral_sound p l r : matchLiteral p l = Some r -> p = l ++ r.
Proof.
  unfold matchLiteral. case_bool_decide as Hl; [|done]. intros H. rewrite <- Hl at 1.
  assert (drop (length l) p = r) as <-; [|by rewrite take_drop].
  by destruct (drop (length l) p); repeat case_match; simplify_eq.
Qed.

Lemma matchLiteral_complete l r : delim r -> matchLiteral (l ++ r) l = Some r.
Proof.
  intros Hr. unfold matchLiteral. rewrite take_app_length, drop_app_length.
  rewrite bool_decide_eq_true_2 by done. destruct r as [|c r]; [done|].
  destruct (delim_not_digit c r Hr) as (-> & -> & H & _). by rewrite (proj2 (Z.eqb_neq c 95)).
Qed.

Lemma number_head v : json_number v ->
  exists c v', v = c :: v' /\ ((c =? 45) || isDigit c = true) /\
    c <> 34 /\ c <> 116 /\ c <> 102 /\ c <> 110 /\ c <> 123 /\ c <> 91 /\ isWhitespace c = false.
Proof.
  intros (sg & i & f & e & -> & Hsg & Hi & _).
  assert (Hc : exists c v', (sg ++ i ++ f ++ e) = c :: v' /\ (c = 45 \/ 48 <= c <= 57)).
  { apply list_elem_of_In in Hsg. cbn in Hsg. destruct Hsg as [<-|[<-|[]]].
    - destruct Hi as [->|(c & ds & -> & Hc & _)]; cbn; eexists _, _; (split; [done|lia]).
    - cbn. eexists _, _. split; [done|lia]. }
  destruct Hc as (c & v' & -> & Hc). exists c, v'. split; [done|].
  unfold isDigit, isWhitespace. rewrite orb_true_iff, andb_true_iff, !orb_false_iff, !Z.eqb_eq,
    !Z.eqb_neq, !Z.leb_le. lia.
Qed.

Lemma skipPrimitive_sound p r :
  skipPrimitive p = Some r -> exists v, p = v ++ r /\ json_primitive v.
Proof.
  destruct p as [|c p]; [done|]. cbn [skipPrimitive].
  assert (Hlit : forall l, l ∈ literals -> matchLiteral (c :: p) l = Some r ->
    exists v, c :: p = v ++ r /\ json_primitive v).
  { intros l Hl H%matchLiteral_sound. exists l. split; [done|]. by right; right. }
  destruct (Z.eqb_spec c 34) as [->|_].
  { intros (v & E & Hv)%skipString_spec; [|done]. exists v. split; [done|]. by left. }
  destruct (c =? 116); [apply Hlit; set_solver|]. destruct (c =? 102); [apply Hlit; set_solver|].
  destruct (c =? 110); [apply Hlit; set_solver|]. destruct (_ || _); [|done].
  intros (v & E & Hv)%skipNumber_sound. exists v. split; [done|]. by right; left.
Qed.

(** A value does not start with whitespace. *)
Definition value_head (v : bytes) : Prop := exists c v', v = c :: v' /\ isWhitespace c = false.

Lemma skipPrimitive_complete v r :
  json_primitive v -> delim r -> skipPrimitive (v ++ r) = Some r /\
  exists c v', v = c :: v' /\ isWhitespace c = false /\ c <> 123 /\ c <> 91.
Proof.
  intros [Hv|[Hv|Hv]] Hr.
  - destruct Hv as (b & -> & Hb). split; [|by exists 34, (b ++ [34])].
    change (skipPrimitive ((34 :: b ++ [34]) ++ r)) with (skipString ((34 :: b ++ [34]) ++ r)).
    apply skipString_spec; [done|]. exists (34 :: b ++ [34]). split; [done|]. by exists b.
  - destruct (number_head v Hv) as (c & v' & -> & H1 & H2 & H3 & H4 & H5 & H6 & H7 & H8).
    split; [|by exists c, v']. cbn [app skipPrimitive].
    rewrite (proj2 (Z.eqb_neq _ _) H2), (proj2 (Z.eqb_neq _ _) H3), (proj2 (Z.eqb_neq _ _) H4),
      (proj2 (Z.eqb_neq _ _) H5), H1. by apply (skipNumber_complete (c :: v')).
  - apply list_elem_of_In in Hv. cbn in Hv.
    destruct Hv as [<-|[<-|[<-|[]]]]; (split; [by apply matchLiteral_complete|]);
      by eexists _, _.
Qed.

(** ** The walk *)

Lemma at_char_Some c p q : at_char c p = Some q <-> exists r, p = c :: r /\ q = p.
Proof.
  destruct p as [|x p]; cbn [at_char]; [naive_solver|].
  destruct (Z.eqb_spec x c) as [->|]; naive_solver.
Qed.

Lemma at_char_head c p : at_char c (c :: p) = Some (c :: p).
Proof. cbn [at_char]. by rewrite Z.eqb_refl. Qed.

(** What precedes the value of a member. *)
Definition member_head (p : bytes) : option bytes :=
  p ← at_char 34 (skipWhitespace p); p ← skipString p; at_char 58 (skipWhitespace p).

Lemma member_head_sound p q :
  member_head p = Some q -> exists w1 k w2 r, ws w1 /\ json_string k /\ ws w2 /\
    p = w1 ++ k ++ w2 ++ 58 :: r /\ q = 58 :: r.
Proof.
  unfold member_head. intros (p1 & H1 & (p2 & H2 & H3)%bind_Some)%bind_Some.
  apply at_char_Some in H1 as (p1' & E1 & ->). rewrite E1 in H2.
  apply skipString_spec in H2 as (k & Ek & Hk); [|done].
  apply at_char_Some in H3 as (r & E3 & ->). apply skipWhitespace_cons in E3 as (w2 & Hw2 & ->).
  apply skipWhitespace_cons in E1 as (w1 & Hw1 & ->). exists w1, k, w2, r. rewrite Ek.
  rewrite ws_head by done. done.
Qed.

Lemma json_string_head k r : json_string k -> at_char 34 (k ++ r) = Some (k ++ r) /\
  skipWhitespace (k ++ r) = k ++ r.
Proof. by intros (b & -> & _). Qed.

Lemma member_head_complete p k w2 r :
  skipWhitespace p = k ++ w2 ++ 58 :: r -> json_string k -> ws w2 ->
  member_head p = Some (58 :: r).
Proof.
  intros Hp Hk Hw. unfold member_head. rewrite Hp.
  destruct (json_string_head k (w2 ++ 58 :: r) Hk) as [-> _]. cbn [mbind option_bind].
  rewrite (proj2 (skipString_spec _ (w2 ++ 58 :: r) (proj1 (json_string_head k _ Hk)))) by by exists k.
  cbn [mbind option_bind]. rewrite ws_head by done. apply at_char_head.
Qed.

Lemma json_value_head d v : json_value d v ->
  exists c v', v = c :: v' /\ isWhitespace c = false /\ c <> 93.
Proof.
  intros [? ? [Hv|[Hv|Hv]]|? ? ? Hv|? ? ? Hv].
  - destruct Hv as (b & -> & _). by eexists _, _.
  - destruct (number_head _ Hv) as (c & v' & -> & H1 & H). exists c, v'. split_and!; try done; [tauto|].
    intros ->. done.
  - apply list_elem_of_In in Hv. cbn in Hv. destruct Hv as [<-|[<-|[<-|[]]]]; by eexists _, _.
  - destruct Hv; by eexists _, _.
  - destruct Hv; by eexists _, _.
Qed.

Lemma members_head d b ms r : json_members d b ms -> exists q, skipWhitespace (b ++ r) = 34 :: q.
Proof.
  destruct 1 as [d w1 k w2 w3 v w4 H1 (x & -> & _)|d w1 k w2 w3 v w4 b ms H1 (x & -> & _)];
    rewrite <- app_assoc, skipWhitespace_app by done; by eexists.
Qed.

Lemma elements_head d b vs r : json_elements d b vs ->
  exists c q, skipWhitespace (b ++ r) = c :: q /\ c <> 93.
Proof.
  destruct 1 as [d w1 v w2 H1 (c & v' & -> & Hc & Hn)%json_value_head|
                 d w1 v w2 b vs H1 (c & v' & -> & Hc & Hn)%json_value_head];
    rewrite <- app_assoc, skipWhitespace_app by done; cbn [app];
    rewrite skipWhitespace_head by done; by eexists _, _.
Qed.

(** What the walk with a given fuel skips: the induction over the fuel, one lemma
    per function. *)
Definition walk_sound_at (f : nat) : Prop :=
  (forall af d p sc r, (skipValue f af d p sc).1 = Some r ->
     exists w v, ws w /\ p = w ++ v ++ r /\ json_value d v) /\
  (forall af d p sc r, (skipObject f af d p sc).1 = Some r ->
     exists v ms, 123 :: p = v ++ r /\ json_object d v ms) /\
  (forall af d p sc r, (object_loop f af d p sc).1 = Some r ->
     exists b ms, p = b ++ 125 :: r /\ json_members d b ms) /\
  (forall af d p sc r, (skipArray f af d p sc).1 = Some r ->
     exists v vs, 91 :: p = v ++ r /\ json_array d v vs) /\
  (forall af d p sc r, (array_loop f af d p sc).1 = Some r ->
     exists b vs, p = b ++ 93 :: r /\ json_elements d b vs).

Lemma walk_sound_value f : walk_sound_at f ->
  forall af d p sc r, (skipValue (S f) af d p sc).1 = Some r ->
  exists w v, ws w /\ p = w ++ v ++ r /\ json_value d v.
Proof.
  intros (IHv & IHo & _ & IHa & _) af d p sc r. cbn [skipValue]. destruct (skipWhitespace_spec p) as (w & Hw & Ep).
  destruct (skipWhitespace p) as [|c q] eqn:Eq; [done|].
  destruct (Z.eqb_spec c 123) as [->|_].
  - intros (v & ms & E & Hv)%IHo. exists w, v. rewrite Ep, E. split_and!; [done..|]. by eapply jv_object.
  - destruct (Z.eqb_spec c 91) as [->|_].
    + intros (v & vs & E & Hv)%IHa. exists w, v. rewrite Ep, E. split_and!; [done..|].
      by eapply jv_array.
    + cbn [fst]. intros (v & E & Hv)%skipPrimitive_sound. exists w, v. rewrite Ep, E.
      split_and!; [done..|]. by apply jv_primitive.
Qed.

Lemma walk_sound_object f : walk_sound_at f ->
  forall af d p sc r, (skipObject (S f) af d p sc).1 = Some r ->
  exists v ms, 123 :: p = v ++ r /\ json_object d v ms.
Proof.
  intros (_ & _ & IHol & _) af d p sc r. cbn [skipObject]. destruct (Z.leb_spec d 0); [done|]. cbv zeta.
  destruct (at_char 125 _) as [q|] eqn:Hc.
  - apply at_char_Some in Hc as (q' & Eq & ->). rewrite Eq. intros [= <-].
    apply skipWhitespace_cons in Eq as (w & Hw & ->). exists (123 :: w ++ [125]), [].
    split; [cbn; by rewrite <- app_assoc|]. by constructor.
  - destruct (skipWhitespace_spec p) as (w & Hw & Ep).
    intros (b & ms & E & Hb)%IHol. rewrite E in Ep.
    assert (Hb' : json_members d (w ++ b) (ms)).
    { destruct Hb as [d' w1 k w2 w3 v w4|d' w1 k w2 w3 v w4 b' ms]; rewrite (app_assoc w w1);
        constructor; try done; by apply Forall_app. }
    exists (123 :: (w ++ b) ++ [125]), ms. rewrite Ep.
    split; [cbn; by rewrite <- !app_assoc|]. by constructor.
Qed.

Lemma walk_sound_object_loop f : walk_sound_at f ->
  forall af d p sc r, (object_loop (S f) af d p sc).1 = Some r ->
  exists b ms, p = b ++ 125 :: r /\ json_members d b ms.
Proof.
  intros (IHv & _ & IHol & _) af d p sc r. cbn [object_loop]. fold (member_head p). destruct (member_head p) as [q|] eqn:Hh; [|done].
  apply member_head_sound in Hh as (w1 & k & w2 & q' & Hw1 & Hk & Hw2 & -> & ->). cbn [tail].
  destruct (skipValue f af (d - 1) q' sc) as [[q|] sc'] eqn:Hs; [|done].
  assert (Hv : (skipValue f af (d - 1) q' sc).1 = Some q) by by rewrite Hs.
  apply IHv in Hv as (w3 & v & Hw3 & -> & Hv).
  destruct (skipWhitespace q) as [|c q''] eqn:Eq; [done|].
  apply skipWhitespace_cons in Eq as (w4 & Hw4 & ->). destruct (Z.eqb_spec c 44) as [->|_].
  - intros (b & ms & -> & Hb)%IHol. eexists (w1 ++ k ++ w2 ++ 58 :: w3 ++ v ++ w4 ++ 44 :: b), _.
    split; [|by constructor]. repeat (rewrite <- app_assoc; cbn [app]). done.
  - destruct (Z.eqb_spec c 125) as [->|_]; [|done]. intros [= <-].
    eexists (w1 ++ k ++ w2 ++ 58 :: w3 ++ v ++ w4), _.
    split; [|by constructor]. repeat (rewrite <- app_assoc; cbn [app]). done.
Qed.

Lemma walk_sound_array f : walk_sound_at f ->
  forall af d p sc r, (skipArray (S f) af d p sc).1 = Some r ->
  exists v vs, 91 :: p = v ++ r /\ json_array d v vs.
Proof.
  intros (_ & _ & _ & _ & IHal) af d p sc r. cbn [skipArray]. destruct (Z.leb_spec d 0); [done|]. cbv zeta.
  destruct (at_char 93 _) as [q|] eqn:Hc.
  - apply at_char_Some in Hc as (q' & Eq & ->). rewrite Eq. intros [= <-].
    apply skipWhitespace_cons in Eq as (w & Hw & ->). exists (91 :: w ++ [93]), [].
    split; [cbn; by rewrite <- app_assoc|]. by constructor.
  - destruct (skipWhitespace_spec p) as (w & Hw & Ep).
    intros (b & vs & E & Hb)%IHal. rewrite E in Ep.
    assert (Hb' : json_elements d (w ++ b) vs).
    { destruct Hb as [d' w1 v w2|d' w1 v w2 b' vs]; rewrite (app_assoc w w1);
        constructor; try done; by apply Forall_app. }
    exists (91 :: (w ++ b) ++ [93]), vs. rewrite Ep.
    split; [cbn; by rewrite <- !app_assoc|]. by constructor.
Qed.

Lemma walk_sound_array_loop f : walk_sound_at f ->
  forall af d p sc r, (array_loop (S f) af d p sc).1 = Some r ->
  exists b vs, p = b ++ 93 :: r /\ json_elements d b vs.
Proof.
  intros (IHv & _ & _ & _ & IHal) af d p sc r. cbn [array_loop]. destruct (skipValue f af (d - 1) p sc) as [[q|] sc'] eqn:Hs; [|done].
  assert (Hv : (skipValue f af (d - 1) p sc).1 = Some q) by by rewrite Hs.
  apply IHv in Hv as (w1 & v & Hw1 & -> & Hv).
  destruct (skipWhitespace q) as [|c q''] eqn:Eq; [done|].
  apply skipWhitespace_cons in Eq as (w4 & Hw4 & ->). destruct (Z.eqb_spec c 44) as [->|_].
  - intros (b & vs & -> & Hb)%IHal. exists (w1 ++ v ++ w4 ++ 44 :: b), (v :: vs).
    split; [|by constructor]. repeat (rewrite <- app_assoc; cbn [app]). done.
  - destruct (Z.eqb_spec c 93) as [->|_]; [|done]. intros [= <-].
    exists (w1 ++ v ++ w4), [v].
    split; [|by constructor]. repeat (rewrite <- app_assoc; cbn [app]). done.
Qed.

Lemma walk_sound f : walk_sound_at f.
Proof.
  induction f as [|f IH]; [by split_and!|].
  split_and!; [apply walk_sound_value|apply walk_sound_object|apply walk_sound_object_loop|
               apply walk_sound_array|apply walk_sound_array_loop]; exact IH.
Qed.

Lemma delim_sep w c r : ws w -> c = 44 \/ c = 93 \/ c = 125 -> delim (w ++ c :: r).
Proof. intros [|x w' Hx _] Hc; cbn; [by right|by left]. Qed.

(** The walk reads the value [v], whatever follows it. *)
Definition skips_value (d : Z) (v : bytes) : Prop := forall f af sc p r,
  skipWhitespace p = v ++ r -> delim r -> (3 * length v + 1 <= f)%nat ->
  (skipValue f af d p sc).1 = Some r.

(** One turn of the loop over members, up to the separator [c] behind the value. *)
Lemma object_loop_step f af d p sc k w2 w3 v w4 c rest :
  skipWhitespace p = k ++ w2 ++ 58 :: w3 ++ v ++ w4 ++ c :: rest ->
  json_string k -> ws w2 -> ws w3 -> json_value (d - 1) v -> skips_value (d - 1) v -> ws w4 ->
  c = 44 \/ c = 125 -> (3 * length v + 1 <= f)%nat ->
  exists sc', object_loop (S f) af d p sc = if c =? 44 then object_loop f af d rest sc' else (Some rest, sc').
Proof.
  intros Hq Hk Hw2 Hw3 Hv IH Hw4 Hc Hf. cbn [object_loop]. fold (member_head p).
  rewrite (member_head_complete p k w2 _ Hq Hk Hw2). cbn [tail].
  specialize (IH f af sc (w3 ++ v ++ w4 ++ c :: rest) (w4 ++ c :: rest)).
  destruct (skipValue f af (d - 1) _ sc) as [o sc'] eqn:Hs. cbn [fst] in IH.
  rewrite IH; [|rewrite skipWhitespace_app by done|apply delim_sep; [done|lia]|lia].
  - exists (report af (w4 ++ c :: rest) sc'). by destruct Hc as [-> | ->]; rewrite ws_head by done.
  - destruct (json_value_head _ _ Hv) as (x & v' & -> & Hx & _). cbn. by rewrite Hx.
Qed.

(** The same for elements. *)
Lemma array_loop_step f af d p sc v w2 c rest :
  skipWhitespace p = v ++ w2 ++ c :: rest ->
  skips_value (d - 1) v -> ws w2 -> c = 44 \/ c = 93 -> (3 * length v + 1 <= f)%nat ->
  exists sc', array_loop (S f) af d p sc = if c =? 44 then array_loop f af d rest sc' else (Some rest, sc').
Proof.
  intros Hq IH Hw2 Hc Hf. cbn [array_loop]. specialize (IH f af sc p (w2 ++ c :: rest)).
  destruct (skipValue f af (d - 1) p sc) as [o sc'] eqn:Hs. cbn [fst] in IH.
  rewrite IH; [|done|apply delim_sep; [done|lia]|lia]. exists (report af (w2 ++ c :: rest) sc').
  by destruct Hc as [-> | ->]; rewrite ws_head by done.
Qed.

Lemma walk_complete :
  (forall d v, json_value d v -> skips_value d v) /\
  (forall d v ms, json_object d v ms -> forall f af sc r,
     (3 * length v <= f)%nat -> (skipObject f af d (tail v ++ r) sc).1 = Some r) /\
  (forall d b ms, json_members d b ms -> forall f af sc p r,
     skipWhitespace p = skipWhitespace (b ++ 125 :: r) -> (3 * length b + 2 <= f)%nat ->
     (object_loop f af d p sc).1 = Some r) /\
  (forall d v vs, json_array d v vs -> forall f af sc r,
     (3 * length v <= f)%nat -> (skipArray f af d (tail v ++ r) sc).1 = Some r) /\
  (forall d b vs, json_elements d b vs -> forall f af sc p r,
     skipWhitespace p = skipWhitespace (b ++ 93 :: r) -> (3 * length b + 2 <= f)%nat ->
     (array_loop f af d p sc).1 = Some r).
Proof.
  apply json_ind.
  - intros d v Hv f af sc p r Hp Hr Hf. destruct f as [|f]; [lia|]. cbn [skipValue]. rewrite Hp.
    destruct (skipPrimitive_complete v r Hv Hr) as (Hs & c & v' & -> & _ & H1 & H2).
    cbn [app] in *. by rewrite (proj2 (Z.eqb_neq _ _) H1), (proj2 (Z.eqb_neq _ _) H2).
  - intros d v ms Hv IH f af sc p r Hp Hr Hf. destruct f as [|f]; [lia|]. cbn [skipValue]. rewrite Hp.
    specialize (IH f af sc r ltac:(lia)). by destruct Hv.
  - intros d v vs Hv IH f af sc p r Hp Hr Hf. destruct f as [|f]; [lia|]. cbn [skipValue]. rewrite Hp.
    specialize (IH f af sc r ltac:(lia)). by destruct Hv.
  - intros d w Hd Hw f af sc r Hf. destruct f as [|f]; [cbn in Hf; lia|]. cbn [skipObject tail].
    rewrite (proj2 (Z.leb_gt _ _) Hd), <- app_assoc. cbn [app].
    by rewrite ws_head, at_char_head by done.
  - intros d b ms Hd Hb IH f af sc r Hf. cbn in Hf. rewrite length_app in Hf. cbn in Hf.
    destruct f as [|f]; [lia|]. cbn [skipObject tail].
    rewrite (proj2 (Z.leb_gt _ _) Hd), <- app_assoc. cbn [app].
    destruct (members_head d b ms (125 :: r) Hb) as [q Hq]. rewrite Hq. cbn [at_char Z.eqb Pos.eqb].
    apply IH; [|lia]. rewrite Hq. by apply skipWhitespace_head.
  - intros d w1 k w2 w3 v w4 Hw1 Hk Hw2 Hw3 Hv IH Hw4 f af sc p r Hp Hf.
    rewrite !length_app in Hf. cbn in Hf. rewrite !length_app in Hf. destruct f as [|f]; [lia|].
    destruct (object_loop_step f af d p sc k w2 w3 v w4 125 r) as [sc' ->]; try done; [|by right|lia].
    rewrite Hp. repeat (rewrite <- app_assoc; cbn [app]). rewrite skipWhitespace_app by done.
    by apply json_string_head.
  - intros d w1 k w2 w3 v w4 b ms Hw1 Hk Hw2 Hw3 Hv IH Hw4 Hb IHb f af sc p r Hp Hf.
    rewrite !length_app in Hf. cbn in Hf. rewrite !length_app in Hf. cbn in Hf. destruct f as [|f]; [lia|].
    destruct (object_loop_step f af d p sc k w2 w3 v w4 44 (b ++ 125 :: r)) as [sc' ->]; try done; [|by left|lia|].
    + rewrite Hp. repeat (rewrite <- app_assoc; cbn [app]). rewrite skipWhitespace_app by done.
      by apply json_string_head.
    + apply IHb; [done|lia].
  - intros d w Hd Hw f af sc r Hf. destruct f as [|f]; [cbn in Hf; lia|]. cbn [skipArray tail].
    rewrite (proj2 (Z.leb_gt _ _) Hd), <- app_assoc. cbn [app].
    by rewrite ws_head, at_char_head by done.
  - intros d b vs Hd Hb IH f af sc r Hf. cbn in Hf. rewrite length_app in Hf. cbn in Hf.
    destruct f as [|f]; [lia|]. cbn [skipArray tail].
    rewrite (proj2 (Z.leb_gt _ _) Hd), <- app_assoc. cbn [app].
    destruct (elements_head d b vs (93 :: r) Hb) as (c & q & Hq & Hc). rewrite Hq. cbn [at_char].
    rewrite (proj2 (Z.eqb_neq _ _) Hc). rewrite <- Hq. apply IH; [apply skipWhitespace_idem|lia].
  - intros d w1 v w2 Hw1 Hv IH Hw2 f af sc p r Hp Hf.
    rewrite !length_app in Hf. destruct f as [|f]; [lia|].
    destruct (array_loop_step f af d p sc v w2 93 r) as [sc' ->]; try done; [|by right|lia].
    rewrite Hp. repeat (rewrite <- app_assoc; cbn [app]). rewrite skipWhitespace_app by done.
    destruct (json_value_head _ _ Hv) as (c & v' & -> & Hc & _). cbn. by rewrite Hc.
  - intros d w1 v w2 b vs Hw1 Hv IH Hw2 Hb IHb f af sc p r Hp Hf.
    rewrite !length_app in Hf. cbn in Hf. destruct f as [|f]; [lia|].
    destruct (array_loop_step f af d p sc v w2 44 (b ++ 93 :: r)) as [sc' ->]; try done; [|by left|lia|].
    + rewrite Hp. repeat (rewrite <- app_assoc; cbn [app]). rewrite skipWhitespace_app by done.
      destruct (json_value_head _ _ Hv) as (c & v' & -> & Hc & _). cbn. by rewrite Hc.
    + apply IHb; [done|lia].
Qed.

(** ** Members, elements and the scan *)

Lemma value_skip_sound f af d p sc r :
  (skipValue f af d (skipWhitespace p) sc).1 = Some r ->
  exists v, skipWhitespace p = v ++ r /\ json_value d v.
Proof.
  intros H. destruct (walk_sound f) as (Hv & _). apply Hv in H as (w & v & Hw & E & Hjv).
  exists v. split; [|done]. pose proof (json_value_head _ _ Hjv) as (c & v' & Ev & Hc & _).
  rewrite <- (skipWhitespace_idem p), E, skipWhitespace_app, Ev by done. cbn. by rewrite Hc.
Qed.

Lemma value_skip_complete af d p v sc r :
  json_value d v -> skipWhitespace p = v ++ r -> delim r ->
  (skipValue (walk_fuel (skipWhitespace p)) af d (skipWhitespace p) sc).1 = Some r.
Proof.
  intros Hv Hp Hr. destruct walk_complete as (Hc & _).
  apply (Hc d v); [done|by rewrite skipWhitespace_idem|done|].
  unfold walk_fuel. rewrite Hp, length_app. lia.
Qed.

Lemma take_value (v r : bytes) : take (length (v ++ r) - length r) (v ++ r) = v.
Proof. rewrite length_app, Nat.add_sub. apply take_app_length. Qed.

Lemma skipWhitespace_length p : (length (skipWhitespace p) <= length p)%nat.
Proof. induction p as [|c p IH]; cbn [skipWhitespace]; [lia|]. destruct (isWhitespace c); cbn; lia. Qed.

Lemma members_length d b ms :
  json_members d b ms -> forall r, (length ms <= length (skipWhitespace (b ++ r)))%nat.
Proof.
  induction 1 as [d w1 k w2 w3 v w4 Hw1 Hk Hw2 Hw3 Hv Hw4|
                  d w1 k w2 w3 v w4 b ms Hw1 Hk Hw2 Hw3 Hv Hw4 Hb IH]; intros r;
    repeat (rewrite <- app_assoc; cbn [app]); rewrite skipWhitespace_app by done;
    rewrite (proj2 (json_string_head k _ Hk)), !length_app; cbn [length]; [lia|].
  specialize (IH []). rewrite app_nil_r in IH. pose proof (skipWhitespace_length b).
  rewrite !length_app. cbn [length]. rewrite length_app. lia.
Qed.

Section Members.
Context (fromUtf8 : bytes -> text).

Definition decodes (k : bytes) (t : text) : Prop := decodeString fromUtf8 k = Some (t, []).

(** The members of an object are processed in order; [tail] bytes follow the
    object. *)
Fixpoint run {A} (R : text -> bytes -> Z -> A -> A -> Prop) (tail : Z) (ms : list member)
    (a a' : A) : Prop :=
  match ms with
  | [] => a' = a
  | m :: ms =>
      exists t a1, decodes (key m) t /\ R t (value m) (tail + behind m) a a1 /\ run R tail ms a1 a'
  end.

(** The verdict of a callback and the variables it leaves when it succeeds. *)
Definition succeeds {A B} (r : bool * (A * B)) (a : A) : Prop := r.1 = true /\ r.2.1 = a.

Definition finishes {A B} (r : option bytes * (A * B)) (rest : bytes) (a : A) : Prop :=
  r.1 = Some rest /\ r.2.1 = a.

(** A callback does, on values of the grammar, what the relation says. *)
Definition implements {A} (d : Z) (cb : member_callback A)
    (R : text -> bytes -> Z -> A -> A -> Prop) : Prop :=
  forall t v af a sc a', json_value d v -> succeeds (cb t v af (a, sc)) a' <-> R t v af a a'.

Definition decoded_head (p : bytes) : option (text * bytes) :=
  p ← at_char 34 (skipWhitespace p);
  '(key, p) ← decodeString fromUtf8 p;
  p ← at_char 58 (skipWhitespace p);
  Some (key, p).

Lemma decoded_head_sound p t q :
  decoded_head p = Some (t, q) -> exists w1 k w2 r, ws w1 /\ json_string k /\ decodes k t /\ ws w2 /\
    p = w1 ++ k ++ w2 ++ 58 :: r /\ q = 58 :: r.
Proof.
  unfold decoded_head. intros (p1 & H1 & H)%bind_Some. apply bind_Some in H as ([t' p2] & H2 & H3).
  apply bind_Some in H3 as (p3 & H3 & [= <- <-]).
  apply at_char_Some in H1 as (p1' & E1 & ->). rewrite E1 in H2.
  apply decodeString_sound in H2 as (k & Ek & Hk & Hd); [|done].
  apply at_char_Some in H3 as (r & E3 & ->). apply skipWhitespace_cons in E3 as (w2 & Hw2 & ->).
  apply skipWhitespace_cons in E1 as (w1 & Hw1 & ->). exists w1, k, w2, r. rewrite Ek.
  rewrite ws_head by done. split_and!; try done. specialize (Hd []). by rewrite app_nil_r in Hd.
Qed.

Lemma decoded_head_complete p k t w2 r :
  skipWhitespace p = k ++ w2 ++ 58 :: r -> json_string k -> decodes k t -> ws w2 ->
  decoded_head p = Some (t, 58 :: r).
Proof.
  intros Hp Hk Ht Hw. unfold decoded_head. rewrite Hp.
  destruct (json_string_head k (w2 ++ 58 :: r) Hk) as [-> _]. cbn [mbind option_bind].
  destruct (decodeString_complete fromUtf8 k Hk) as [t' Ht']. unfold decodes in Ht.
  specialize (Ht' []) as Hn. rewrite app_nil_r, Ht in Hn. simplify_eq. rewrite Ht'.
  cbn [mbind option_bind]. by rewrite ws_head, at_char_head.
Qed.

Section Loop.
Context {A : Type} (d : Z) (cb : member_callback A) (R : text -> bytes -> Z -> A -> A -> Prop).
Hypothesis (Hcb : implements (d - 1) cb R).

Lemma member_loop_sound f af p a sc r a' :
  finishes (member_loop fromUtf8 f af d cb p (a, sc)) r a' ->
  exists b ms, p = b ++ 125 :: r /\ json_members d b ms /\ run R (af + Z.of_nat (length r)) ms a a'.
Proof.
  revert p a sc. induction f as [|f IH]; intros p a sc; cbn [member_loop]; [by intros []|].
  fold (decoded_head p). destruct (decoded_head p) as [[t q]|] eqn:Hh; [|by intros []].
  apply decoded_head_sound in Hh as (w1 & k & w2 & q' & Hw1 & Hk & Ht & Hw2 & -> & ->).
  cbn [tail snd fst]. destruct (skipValue _ _ _ _ _) as [[q|] sc'] eqn:Hs; [|by intros []].
  pose proof (f_equal fst Hs) as Hv. cbn [fst] in Hv. apply value_skip_sound in Hv as (v & Ev & Hv).
  rewrite Ev, take_value.
  destruct (skipWhitespace_spec q') as (w3 & Hw3 & Eq'). rewrite Ev in Eq'. subst q'.
  destruct (cb t v _ _) as [[] [a1 sc1]] eqn:Hc; [|by intros []].
  assert (HR : R t v (af + Z.of_nat (length q)) a a1).
  { apply (Hcb t v _ a sc'); [done|]. by rewrite Hc. }
  destruct (skipWhitespace q) as [|c q''] eqn:Eq; [by intros []|].
  apply skipWhitespace_cons in Eq as (w4 & Hw4 & ->). destruct (Z.eqb_spec c 44) as [->|_].
  - intros (b & ms & -> & Hb & Hrun)%IH.
    eexists (w1 ++ k ++ w2 ++ 58 :: w3 ++ v ++ w4 ++ 44 :: b), _.
    split; [repeat (rewrite <- app_assoc; cbn [app]); done|]. split; [by constructor|].
    cbn [run]. exists t, a1. split_and!; [done| |done]. cbn [value behind key].
    rewrite !length_app in *. cbn [length] in *. rewrite !length_app in *. cbn [length] in *.
    refine (eq_ind _ (fun n => R t v n a a1) HR _ _). lia.
  - destruct (Z.eqb_spec c 125) as [->|_]; [|by intros []]. intros [[= <-] <-].
    eexists (w1 ++ k ++ w2 ++ 58 :: w3 ++ v ++ w4), _.
    split; [repeat (rewrite <- app_assoc; cbn [app]); done|]. split; [by constructor|].
    cbn [run]. exists t, a1. split_and!; [done| |done]. cbn [value behind key].
    rewrite !length_app in HR. cbn [length] in HR.
    refine (eq_ind _ (fun n => R t v n a a1) HR _ _). lia.
Qed.

Lemma member_loop_complete b ms r af :
  json_members d b ms -> forall f p a sc a',
    skipWhitespace p = skipWhitespace (b ++ 125 :: r) -> (length ms <= f)%nat ->
    run R (af + Z.of_nat (length r)) ms a a' ->
    finishes (member_loop fromUtf8 f af d cb p (a, sc)) r a'.
Proof using Hcb.
  intros Hms. remember d as d' eqn:Ed in Hms. revert Ed. induction Hms as [d' w1 k w2 w3 v w4 Hw1 Hk Hw2 Hw3 Hv Hw4|
                  d' w1 k w2 w3 v w4 b ms Hw1 Hk Hw2 Hw3 Hv Hw4 Hb IH];
    intros Ed f p a sc a' Hp Hf (t & a1 & Ht & HR & Hrun); cbn [key value behind length] in *;
    subst d'; (destruct f as [|f]; [lia|]); cbn [member_loop]; fold (decoded_head p).
  - set (rest := w4 ++ 125 :: r).
    assert (Hq : skipWhitespace p = k ++ w2 ++ 58 :: w3 ++ v ++ rest).
    { rewrite Hp. unfold rest. repeat (rewrite <- app_assoc; cbn [app]).
      rewrite skipWhitespace_app by done. by apply json_string_head. }
    rewrite (decoded_head_complete p k t w2 _ Hq Hk Ht Hw2). cbn [tail fst snd].
    assert (Hvs : skipWhitespace (w3 ++ v ++ rest) = v ++ rest).
    { rewrite skipWhitespace_app by done. destruct (json_value_head _ _ Hv) as (c & v' & -> & Hc & _).
      cbn. by rewrite Hc. }
    pose proof (value_skip_complete af (d - 1) _ v sc rest Hv Hvs
      (delim_sep w4 125 r Hw4 ltac:(lia))) as Hskip.
    destruct (skipValue _ _ _ _ _) as [o sc'] eqn:Hs. cbn [fst] in Hskip. subst o.
    rewrite Hvs, take_value. cbn [run] in Hrun. subst a'.
    assert (HR' : R t v (af + Z.of_nat (length rest)) a a1).
    { refine (eq_ind _ (fun n => R t v n a a1) HR _ _). unfold rest. rewrite length_app. cbn. lia. }
    apply (Hcb t v _ a sc') in HR'; [|done]. destruct HR' as [Hok Ha].
    destruct (cb t v _ _) as [ok [a2 sc2]]. cbn in Hok, Ha. subst. unfold rest.
    by rewrite ws_head.
  - set (rest := w4 ++ 44 :: b ++ 125 :: r).
    assert (Hq : skipWhitespace p = k ++ w2 ++ 58 :: w3 ++ v ++ rest).
    { rewrite Hp. unfold rest. repeat (rewrite <- app_assoc; cbn [app]).
      rewrite skipWhitespace_app by done. by apply json_string_head. }
    rewrite (decoded_head_complete p k t w2 _ Hq Hk Ht Hw2). cbn [tail fst snd].
    assert (Hvs : skipWhitespace (w3 ++ v ++ rest) = v ++ rest).
    { rewrite skipWhitespace_app by done. destruct (json_value_head _ _ Hv) as (c & v' & -> & Hc & _).
      cbn. by rewrite Hc. }
    pose proof (value_skip_complete af (d - 1) _ v sc rest Hv Hvs
      (delim_sep w4 44 _ Hw4 ltac:(lia))) as Hskip.
    destruct (skipValue _ _ _ _ _) as [o sc'] eqn:Hs. cbn [fst] in Hskip. subst o.
    rewrite Hvs, take_value.
    assert (HR' : R t v (af + Z.of_nat (length rest)) a a1).
    { refine (eq_ind _ (fun n => R t v n a a1) HR _ _). unfold rest.
      rewrite !length_app. cbn. rewrite length_app. cbn. lia. }
    apply (Hcb t v _ a sc') in HR'; [|done]. destruct HR' as [Hok Ha].
    destruct (cb t v _ _) as [ok [a2 sc2]]. cbn in Hok, Ha. subst. unfold rest.
    rewrite ws_head by done. cbn [Z.eqb Pos.eqb]. apply IH; [done|done|lia|done].
Qed.

(** [forEachObjectMember] at an opening brace: it succeeds exactly when an
    object starts there and the callback succeeds on its members in turn. *)
Lemma forEachObjectMember_spec af p a sc r a' :
  finishes (forEachObjectMember fromUtf8 af d cb (123 :: p) (a, sc)) r a' <->
  exists o ms, 123 :: p = o ++ r /\ json_object d o ms /\
    run R (af + Z.of_nat (length r)) ms a a'.
Proof using Hcb.
  unfold forEachObjectMember. cbn [tail]. split.
  - destruct (Z.leb_spec d 0) as [|Hd]; [by intros []|]. destruct (at_char 125 _) as [q|] eqn:Hc.
    + apply at_char_Some in Hc as (q' & Eq & ->). rewrite Eq. intros [[= <-] <-].
      apply skipWhitespace_cons in Eq as (w & Hw & ->). exists (123 :: w ++ [125]), [].
      split; [cbn; by rewrite <- app_assoc|]. split; [by constructor|done].
    + destruct (skipWhitespace_spec p) as (w & Hw & Ep).
      intros (b & ms & E & Hb & Hrun)%member_loop_sound. rewrite E in Ep.
      assert (Hb' : json_members d (w ++ b) ms).
      { destruct Hb; rewrite (app_assoc w w1); constructor; try done; by apply Forall_app. }
      exists (123 :: (w ++ b) ++ [125]), ms. rewrite Ep.
      split; [cbn; by rewrite <- !app_assoc|]. split; [by constructor|done].
  - intros (o & ms & E & Ho & Hrun). inversion Ho as [? w Hd Hw|? b ? Hd Hb]; subst;
      cbn [app] in E; injection E as ->; rewrite (proj2 (Z.leb_gt _ _) Hd), <- app_assoc; cbn [app].
    + rewrite ws_head, at_char_head by done. by cbn in Hrun.
    + destruct (members_head d b ms (125 :: r) Hb) as [q Hq]. rewrite Hq. cbn [at_char Z.eqb Pos.eqb].
      rewrite <- Hq. eapply member_loop_complete; [done|apply skipWhitespace_idem| |done].
      pose proof (members_length _ _ _ Hb (125 :: r)). lia.
Qed.
End Loop.
End Members.

(** ** What a document says *)

Section Document.
Context (fromUtf8 : bytes -> text).

(** A metadata field that is a string replaces the value read so far, any other
    value leaves it. *)
Definition string_rel (set : text -> SetRange -> SetRange) (v : bytes) (r r' : SetRange) : Prop :=
  (exists t, json_string v /\ decodes fromUtf8 v t /\ r' = set t r) \/ (~ json_string v /\ r' = r).

(** One field of a set: the four strings, and the number of elements of the
    array of cards. *)
Definition field_rel (field : text) (v : bytes) (_ : Z) (r r' : SetRange) : Prop :=
  if bool_decide (field = str "code") then string_rel with_code v r r'
  else if bool_decide (field = str "name") then string_rel with_name v r r'
  else if bool_decide (field = str "type") then string_rel with_type v r r'
  else if bool_decide (field = str "releaseDate") then string_rel with_releaseDate v r r'
  else if bool_decide (field = str "cards") then
    (exists vs, json_array (kMaxNestingDepth - 3) v vs /\
       r' = with_cardCount (Z.of_nat (length vs)) r) \/
    ((forall vs, ~ json_array (kMaxNestingDepth - 3) v vs) /\ r' = r)
  else r' = r.

Definition new_range (total : Z) (setCode : text) (v : bytes) (after : Z) : SetRange :=
  {| dataRange := {| start := total - (Z.of_nat (length v) + after);
                     data_length := Z.of_nat (length v); cardCount := 0 |};
     code := setCode; set_name := []; set_type := []; releaseDate := [] |}.

(** One member of [data]: an object, whose range and fields are appended. *)
Definition set_rel (total : Z) (setCode : text) (v : bytes) (after : Z) (st st' : ScanState) : Prop :=
  exists fs r, json_object (kMaxNestingDepth - 2) v fs /\
    run fromUtf8 field_rel after fs (new_range total setCode v after) r /\
    st' = {| ranges := ranges st ++ [r]; foundData := foundData st;
             malformedSetData := malformedSetData st |}.

(** One member of the document: the sets of an object [data]. *)
Definition top_rel (total : Z) (k : text) (v : bytes) (after : Z) (st st' : ScanState) : Prop :=
  if bool_decide (k = str "data") then
    exists ms, json_object (kMaxNestingDepth - 1) v ms /\
      run fromUtf8 (set_rel total) after ms
        {| ranges := ranges st; foundData := true; malformedSetData := malformedSetData st |} st'
  else st' = st.

(** [json] is a JSON object with whitespace around it, with at least one member
    [data], and [rs] are the sets of its members [data] in their order, at least
    one. *)
Definition document (json : bytes) (rs : list SetRange) : Prop :=
  exists w1 o w2 ms st, json = w1 ++ o ++ w2 /\ ws w1 /\ ws w2 /\
    json_object kMaxNestingDepth o ms /\
    run fromUtf8 (top_rel (Z.of_nat (length json))) (Z.of_nat (length w2)) ms
      {| ranges := []; foundData := false; malformedSetData := false |} st /\
    foundData st = true /\ ranges st = rs /\ rs <> [].

End Document.

Lemma value_head_string d v : json_value d (34 :: v) -> json_string (34 :: v).
Proof.
  inversion 1 as [? ? [Hv|[Hv|Hv]]|? ? ? Hv|? ? ? Hv]; subst; [done| | |by inversion Hv..].
  - destruct (number_head _ Hv) as (c & v' & [= <- _] & _ & Hn & _). done.
  - apply list_elem_of_In in Hv. cbn in Hv. by destruct_or?.
Qed.

Lemma value_head_object d v : json_value d (123 :: v) -> exists ms, json_object d (123 :: v) ms.
Proof.
  inversion 1 as [? ? [Hv|[Hv|Hv]]|? ? ms Hv|? ? ? Hv]; subst; [| | |by exists ms|by inversion Hv].
  - by destruct Hv as (b & [=] & _).
  - destruct (number_head _ Hv) as (c & v' & [= <- _] & _ & _ & _ & _ & _ & Hn & _). done.
  - apply list_elem_of_In in Hv. cbn in Hv. by destruct_or?.
Qed.

Lemma value_head_array d v : json_value d (91 :: v) -> exists vs, json_array d (91 :: v) vs.
Proof.
  inversion 1 as [? ? [Hv|[Hv|Hv]]|? ? ? Hv|? ? vs Hv]; subst; [| | |by inversion Hv|by exists vs].
  - by destruct Hv as (b & [=] & _).
  - destruct (number_head _ Hv) as (c & v' & [= <- _] & _ & _ & _ & _ & _ & _ & Hn & _). done.
  - apply list_elem_of_In in Hv. cbn in Hv. by destruct_or?.
Qed.

(** A deeper allowance accepts the same texts. *)
Lemma depth_mono :
  (forall d v, json_value d v -> forall d', d <= d' -> json_value d' v) /\
  (forall d v ms, json_object d v ms -> forall d', d <= d' -> json_object d' v ms) /\
  (forall d b ms, json_members d b ms -> forall d', d <= d' -> json_members d' b ms) /\
  (forall d v vs, json_array d v vs -> forall d', d <= d' -> json_array d' v vs) /\
  (forall d b vs, json_elements d b vs -> forall d', d <= d' -> json_elements d' b vs).
Proof.
  apply json_ind; intros; try (econstructor; try done; (lia || (match goal with
    | IH : forall d', _ -> json_value d' ?v |- json_value _ ?v => apply IH; lia
    | _ => by auto end))).
Qed.

Lemma object_prefix d o r ms ms' : json_object d o ms -> json_object d (o ++ r) ms' -> r = [].
Proof.
  intros Ho Hor. destruct walk_complete as (_ & Hc & _).
  pose proof (Hc d o ms Ho (3 * length (o ++ r))%nat 0
    {| size := 0; callback := false; step := 0; lastReported := 0; reports := [] |} r) as H1.
  pose proof (Hc d (o ++ r) ms' Hor (3 * length (o ++ r))%nat 0
    {| size := 0; callback := false; step := 0; lastReported := 0; reports := [] |} []) as H2.
  rewrite app_nil_r in H2. assert (tail (o ++ r) = tail o ++ r) as E by by destruct Ho.
  rewrite E in H2. rewrite H1 in H2 by (rewrite length_app; lia).
  specialize (H2 ltac:(lia)). congruence.
Qed.

Lemma elements_length d b vs :
  json_elements d b vs -> forall r, (length vs <= length (skipWhitespace (b ++ r)))%nat.
Proof.
  induction 1 as [d w1 v w2 Hw1 Hv Hw2|d w1 v w2 b vs Hw1 Hv Hw2 Hb IH]; intros r;
    destruct (json_value_head _ _ Hv) as (c & v' & -> & Hc & _);
    repeat (rewrite <- app_assoc; cbn [app]); rewrite skipWhitespace_app by done;
    rewrite skipWhitespace_head by done; cbn [length]; [lia|].
  specialize (IH []). rewrite app_nil_r in IH. pose proof (skipWhitespace_length b).
  rewrite !length_app. cbn [length]. rewrite length_app. lia.
Qed.

Lemma count_loop_complete d b vs r af :
  json_elements d b vs -> forall f p n sc,
    skipWhitespace p = skipWhitespace (b ++ 93 :: r) -> (length vs <= f)%nat ->
    (count_loop f af d p n sc).1 = Some (n + Z.of_nat (length vs)).
Proof.
  induction 1 as [d w1 v w2 Hw1 Hv Hw2|d w1 v w2 b vs Hw1 Hv Hw2 Hb IH]; intros f p n sc Hp Hf;
    cbn [length] in *; (destruct f as [|f]; [lia|]); cbn [count_loop];
    destruct (json_value_head _ _ Hv) as (c & v' & Ev & Hc & _).
  - assert (Hq : skipWhitespace p = v ++ w2 ++ 93 :: r).
    { rewrite Hp. repeat (rewrite <- app_assoc; cbn [app]). rewrite skipWhitespace_app by done.
      rewrite Ev. cbn. by rewrite Hc. }
    destruct walk_complete as (Hw & _).
    specialize (Hw _ _ Hv (walk_fuel p) af sc p _ Hq (delim_sep w2 93 r Hw2 ltac:(lia))).
    destruct (skipValue _ _ _ _ _) as [o sc']. cbn [fst] in Hw. rewrite Hw.
    + by rewrite ws_head.
    + pose proof (skipWhitespace_length p) as Hl. rewrite Hq, length_app in Hl. unfold walk_fuel. lia.
  - assert (Hq : skipWhitespace p = v ++ w2 ++ 44 :: b ++ 93 :: r).
    { rewrite Hp. repeat (rewrite <- app_assoc; cbn [app]). rewrite skipWhitespace_app by done.
      rewrite Ev. cbn. by rewrite Hc. }
    destruct walk_complete as (Hw & _).
    specialize (Hw _ _ Hv (walk_fuel p) af sc p _ Hq (delim_sep w2 44 _ Hw2 ltac:(lia))).
    destruct (skipValue _ _ _ _ _) as [o sc']. cbn [fst] in Hw. rewrite Hw.
    + rewrite ws_head by done. cbn [Z.eqb Pos.eqb]. rewrite IH by (done || lia). f_equal. lia.
    + pose proof (skipWhitespace_length p) as Hl. rewrite Hq, length_app in Hl. unfold walk_fuel. lia.
Qed.

Lemma countArrayElements_complete d v vs af sc :
  json_array d v vs -> (countArrayElements af d v sc).1 = Some (Z.of_nat (length vs)).
Proof.
  unfold countArrayElements. destruct 1 as [d w Hd Hw|d b vs Hd Hb];
    rewrite (proj2 (Z.leb_gt _ _) Hd); cbn [tail].
  - by rewrite ws_head, at_char_head.
  - destruct (elements_head d b vs [93] Hb) as (c & q & Hq & Hc). cbv zeta. rewrite Hq.
    cbn [at_char]. rewrite (proj2 (Z.eqb_neq _ _) Hc), <- Hq.
    rewrite (count_loop_complete d b vs [] af Hb); [done|apply skipWhitespace_idem|].
    pose proof (elements_length d b vs Hb [93]). lia.
Qed.

Section ScanCorrect.
Context (fromUtf8 : bytes -> text).

Lemma string_field_rel d set v r sc r' :
  json_value d v -> succeeds (string_field fromUtf8 set v (r, sc)) r' <->
  string_rel fromUtf8 set v r r'.
Proof.
  intros Hv. unfold string_field, decodeStringMember, string_rel.
  destruct (json_value_head _ _ Hv) as (c & v' & -> & _).
  destruct (Z.eqb_spec c 34) as [->|Hc].
  - pose proof (value_head_string _ _ Hv) as Hs.
    destruct (decodeString_complete fromUtf8 _ Hs) as [t Ht]. specialize (Ht []).
    rewrite app_nil_r in Ht. rewrite Ht. cbn [mbind option_bind]. unfold succeeds. cbn [fst snd].
    split.
    + intros [_ <-]. left. by exists t.
    + intros [(t' & _ & Ht' & ->)|[Hn _]]; [|done]. unfold decodes in Ht'. simplify_eq. done.
  - assert (Hn : ~ json_string (c :: v')) by by intros (b & [= ->] & _).
    unfold succeeds. cbn [fst snd]. split.
    + intros [_ <-]. by right.
    + intros [(t' & Hs & _)|[_ ->]]; done.
Qed.

Lemma field_callback_rel :
  implements (kMaxNestingDepth - 2 - 1) (field_callback fromUtf8) (field_rel fromUtf8).
Proof.
  intros t v af r sc r' Hv. unfold field_callback, field_rel.
  repeat (case_bool_decide; [by eapply string_field_rel|]).
  case_bool_decide; [|unfold succeeds; cbn; split; [by intros [_ ->]|by intros ->]].
  destruct (json_value_head _ _ Hv) as (c & v' & -> & _).
  destruct (Z.eqb_spec c 91) as [->|Hc]; cbn [negb].
  - assert (Hcount : forall vs, json_array (kMaxNestingDepth - 3) (91 :: v') vs ->
      (countArrayElements af (kMaxNestingDepth - 2) (91 :: v') sc).1 = Some (Z.of_nat (length vs))).
    { intros vs Hvs. apply countArrayElements_complete. destruct depth_mono as (_ & _ & _ & Hm & _).
      by apply (Hm _ _ _ Hvs). }
    destruct (value_head_array _ _ Hv) as [vs Hvs]. change (kMaxNestingDepth - 2 - 1)
      with (kMaxNestingDepth - 3) in Hvs.
    pose proof (Hcount vs Hvs) as Hn. cbn [snd fst].
    destruct (countArrayElements _ _ _ _) as [o sc']. cbn [fst] in *. subst o.
    unfold succeeds. cbn [fst snd]. split.
    + intros [_ <-]. left. by exists vs.
    + intros [(vs' & Hvs' & ->)|[Hno _]]; [|by apply Hno in Hvs].
      apply Hcount in Hvs'. simplify_eq. by rewrite Hvs'.
  - unfold succeeds. cbn [fst snd]. split.
    + intros [_ <-]. right. split; [|done]. intros vs Hvs. inversion Hvs; congruence.
    + intros [(vs & Hvs & _)|[_ ->]]; [|done]. inversion Hvs; congruence.
Qed.

(** A callback that descends into an object value. *)
Lemma descend_spec {A} d (cb : member_callback A) R v af a sc a' :
  implements (d - 1) cb R -> json_value d v ->
  (exists q p, at_char 123 v = Some q /\
     finishes (forEachObjectMember fromUtf8 af d cb v (a, sc)) p a') <->
  exists ms, json_object d v ms /\ run fromUtf8 R af ms a a'.
Proof.
  intros Hcb Hv. destruct (json_value_head _ _ Hv) as (c & v' & -> & _). cbn [at_char].
  destruct (Z.eqb_spec c 123) as [->|Hc].
  - destruct (value_head_object _ _ Hv) as [ms' Hms'].
    split.
    + intros (q & p & _ & Hf). apply (forEachObjectMember_spec _ _ _ _ Hcb) in Hf
        as (o & ms & E & Ho & Hrun). rewrite E in Hms'. pose proof (object_prefix _ _ _ _ _ Ho Hms').
      subst p. rewrite app_nil_r in E. subst o. rewrite Z.add_0_r in Hrun. by exists ms.
    + intros (ms & Ho & Hrun). eexists _, []. split; [done|].
      apply (forEachObjectMember_spec _ _ _ _ Hcb). exists (123 :: v'), ms.
      rewrite app_nil_r, Z.add_0_r. done.
  - split; [by intros (? & ? & ? & _)|]. intros (ms & Ho & _). inversion Ho; congruence.
Qed.

Lemma set_callback_rel total :
  implements (kMaxNestingDepth - 1 - 1) (set_callback fromUtf8 total) (set_rel fromUtf8 total).
Proof.
  intros t v af st sc st' Hv. unfold set_callback, set_rel.
  pose proof (fun r => descend_spec (kMaxNestingDepth - 2) (field_callback fromUtf8) _ v af
    (new_range total t v af) sc r field_callback_rel Hv) as Hd.
  destruct (at_char 123 v) as [q|] eqn:Hq.
  - apply at_char_Some in Hq as Hq'. destruct Hq' as (v' & _ & ->). fold (new_range total t v af).
    cbn [snd]. destruct (forEachObjectMember _ _ _ _ _ _) as [[p|] [r sc']] eqn:Hf.
    + unfold succeeds. cbn [fst snd]. split.
      * intros [_ <-]. destruct (proj1 (Hd r)) as (fs & Ho & Hrun); [by eexists _, p|].
        by exists fs, r.
      * intros (fs & r' & Ho & Hrun & ->). split; [done|].
        destruct (proj2 (Hd r')) as (_ & p' & _ & [_ Hr]); [by exists fs|]. cbn in Hr. by subst.
    + split; [by intros []|]. intros (fs & r' & Ho & Hrun & ->).
      destruct (proj2 (Hd r')) as (_ & p' & _ & [Hn _]); [by exists fs|]. done.
  - split; [by intros []|]. intros (fs & r' & Ho & Hrun & ->).
    destruct (proj2 (Hd r')) as (? & ? & ? & _); [by exists fs|]. done.
Qed.

Lemma top_callback_rel total :
  implements (kMaxNestingDepth - 1) (top_callback fromUtf8 total) (top_rel fromUtf8 total).
Proof.
  intros t v af st sc st' Hv. unfold top_callback, top_rel. cbn [fst snd].
  case_bool_decide; [|unfold succeeds; cbn; split; [by intros [_ ->]|by intros ->]].
  set (st0 := {| ranges := ranges st; foundData := true; malformedSetData := malformedSetData st |}).
  pose proof (fun r => descend_spec (kMaxNestingDepth - 1) (set_callback fromUtf8 total) _ v af
    st0 sc r (set_callback_rel total) Hv) as Hd.
  destruct (at_char 123 v) as [q|] eqn:Hq.
  - apply at_char_Some in Hq as Hq'. destruct Hq' as (v' & _ & ->).
    destruct (forEachObjectMember _ _ _ _ _ _) as [[p|] [r sc']] eqn:Hf.
    + rewrite <- Hd. unfold succeeds, finishes. cbn [fst snd]. split.
      * intros [_ <-]. by eexists _, p.
      * by intros (_ & _ & _ & _ & <-).
    + rewrite <- Hd. split; [by intros []|]. by intros (_ & p & _ & [Hn _]).
  - rewrite <- Hd. split; [by intros []|]. by intros (? & ? & ? & _).
Qed.

Lemma scan_document json progress rs :
  (scanSetRanges fromUtf8 json progress).1 = Ok rs <-> document fromUtf8 json rs.
Proof.
  unfold scanSetRanges. set (sc := {| size := _ |}).
  destruct (Z.leb_spec (Z.of_nat (length json)) 0) as [Hz|Hz].
  { destruct json; [|cbn in Hz; lia]. split; [done|]. intros (w1 & o & w2 & ms & st & E & _ & _ & Ho & _).
    by destruct w1, Ho. }
  set (st0 := {| ranges := []; foundData := false; malformedSetData := false |}).
  pose proof (fun p r st => forEachObjectMember_spec fromUtf8 kMaxNestingDepth
    (top_callback fromUtf8 (Z.of_nat (length json))) _ (top_callback_rel (Z.of_nat (length json)))
    0 p st0 sc r st) as Hspec.
  split.
  - destruct (at_char 123 _) as [p|] eqn:Hp; [|done]. apply at_char_Some in Hp as (q & Eq & ->).
    rewrite Eq. apply skipWhitespace_cons in Eq as (w1 & Hw1 & Ej).
    destruct (forEachObjectMember _ _ _ _ _ _) as [[p|] [st sc']] eqn:Hf; [|done].
    destruct (proj1 (Hspec q p st)) as (o & ms & Eo & Ho & Hrun); [by rewrite Hf|].
    case_bool_decide as Hw; [|done]. destruct (foundData st) eqn:Hfd; [|done].
    case_bool_decide as Hne; [done|]. cbn. intros [= <-].
    destruct (skipWhitespace_spec p) as (w2 & Hw2 & Ep). rewrite Hw, app_nil_r in Ep. subst p.
    exists w1, o, w2, ms, st. rewrite Ej at 1. rewrite Eo. done.
  - intros (w1 & o & w2 & ms & st & Ej & Hw1 & Hw2 & Ho & Hrun & Hfd & <- & Hne).
    assert (exists o', o = 123 :: o') as [o' Eo] by (destruct Ho; by eexists).
    assert (Hsk : skipWhitespace json = 123 :: o' ++ w2).
    { rewrite Ej, skipWhitespace_app, Eo by done. cbn [app]. by rewrite skipWhitespace_head. }
    rewrite Hsk, at_char_head.
    destruct (proj2 (Hspec (o' ++ w2) w2 st)) as [H1 H2];
      [exists o, ms; by rewrite Eo in *|].
    destruct (forEachObjectMember _ _ _ _ _ _) as [p [st' sc']]. cbn in H1, H2. subst.
    rewrite skipWhitespace_nil by done. cbn. rewrite Hfd, bool_decide_eq_false_2 by done. done.
Qed.
End ScanCorrect.

(** ** Where the sets are *)

Section Ranges.
Context (fromUtf8 : bytes -> text) (json : bytes).
Let total := Z.of_nat (length json).

(** [v] stands in the document with [after] bytes behind it. *)
Definition located (v : bytes) (after : Z) : Prop :=
  exists pre suf, json = pre ++ v ++ suf /\ Z.of_nat (length suf) = after.

Definition slice (r : SetRange) : bytes :=
  take (Z.to_nat (data_length (dataRange r))) (drop (Z.to_nat (start (dataRange r))) json).

Definition range_end (r : SetRange) : Z := start (dataRange r) + data_length (dataRange r).

(** The slice of a range is an object, with its cards counted. *)
Definition set_range_ok (r : SetRange) : Prop :=
  (exists fs, json_object (kMaxNestingDepth - 2) (slice r) fs) /\ 0 <= cardCount (dataRange r).

(** Ranges in document order, apart from each other, between two offsets. *)
Definition in_region (lo hi : Z) (rs : list SetRange) : Prop :=
  Forall (fun r => lo <= start (dataRange r) /\ range_end r <= hi /\ set_range_ok r) rs /\
  StronglySorted (fun r r' => range_end r <= start (dataRange r')) rs.

Lemma in_region_weaken lo lo' hi hi' rs :
  in_region lo hi rs -> lo' <= lo -> hi <= hi' -> in_region lo' hi' rs.
Proof.
  intros [Hf Hs] H1 H2. split; [|done]. eapply Forall_impl; [exact Hf|]. cbn.
  intros r (? & ? & ?). split_and!; try done; lia.
Qed.

Lemma in_region_app lo mid hi rs1 rs2 :
  in_region lo mid rs1 -> in_region mid hi rs2 -> lo <= mid -> mid <= hi ->
  in_region lo hi (rs1 ++ rs2).
Proof.
  intros [Hf1 Hs1] [Hf2 Hs2] H1 H2. split.
  - apply Forall_app. split; (eapply Forall_impl; [eassumption|]); cbn;
      intros r (? & ? & ?); split_and!; try done; lia.
  - clear H1 H2. induction Hs1 as [|r rs1 Hs1 IH Hr]; [done|]. cbn [app].
    apply Forall_cons in Hf1 as [(_ & He & _) Hf1]. constructor; [by apply IH|].
    apply Forall_app. split; [done|]. eapply Forall_impl; [exact Hf2|]. cbn. intros r' (? & _). lia.
Qed.

Lemma in_region_nil lo hi : in_region lo hi [].
Proof. split; constructor. Qed.

(** A relation on the values of an object appends the ranges it finds there. *)
Definition appends (R : text -> bytes -> Z -> ScanState -> ScanState -> Prop) : Prop :=
  forall t v af st st', located v af -> R t v af st st' ->
    exists rs, ranges st' = ranges st ++ rs /\
      in_region (total - (Z.of_nat (length v) + af)) (total - af) rs.

Lemma located_app v1 v v2 af :
  located (v1 ++ v ++ v2) af -> located v (Z.of_nat (length v2) + af).
Proof.
  intros (pre & suf & E & Hl). exists (pre ++ v1), (v2 ++ suf).
  rewrite length_app, E. repeat rewrite <- app_assoc. split; [done|lia].
Qed.

Lemma run_members_region R d b ms : json_members d b ms -> appends R -> forall af st st',
  located b (af + 1) -> run fromUtf8 R af ms st st' ->
  exists rs, ranges st' = ranges st ++ rs /\
    in_region (total - (Z.of_nat (length b) + (af + 1))) (total - (af + 1)) rs.
Proof.
  intros Hms HR. induction Hms as [d w1 k w2 w3 v w4 Hw1 Hk Hw2 Hw3 Hv Hw4|
    d w1 k w2 w3 v w4 b ms Hw1 Hk Hw2 Hw3 Hv Hw4 Hb IH]; intros af st st' Hl (t & st1 & _ & Hst & Hrun);
    cbn [value behind] in Hst.
  - cbn [run] in Hrun. subst st'.
    assert (E : w1 ++ k ++ w2 ++ 58 :: w3 ++ v ++ w4 = (w1 ++ k ++ w2 ++ 58 :: w3) ++ v ++ w4)
      by (repeat (rewrite <- app_assoc; cbn [app]); done).
    rewrite E in *. pose proof (located_app _ _ _ _ Hl) as Hv'.
    edestruct (HR t v) as (rs & Hrs & Hr); [|exact Hst|];
      [refine (eq_ind _ (located v) Hv' _ _); lia|].
    exists rs. split; [done|]. eapply in_region_weaken; [exact Hr| |].
    + rewrite !length_app. lia.
    + lia.
  - assert (E : w1 ++ k ++ w2 ++ 58 :: w3 ++ v ++ w4 ++ 44 :: b =
      (w1 ++ k ++ w2 ++ 58 :: w3) ++ v ++ (w4 ++ 44 :: b))
      by (repeat (rewrite <- app_assoc; cbn [app]); done).
    rewrite E in *. pose proof (located_app _ _ _ _ Hl) as Hv'.
    edestruct (HR t v) as (rs & Hrs & Hr); [|exact Hst|];
      [refine (eq_ind _ (located v) Hv' _ _); lia|].
    assert (Hb' : located b (af + 1)).
    { replace (_ ++ v ++ w4 ++ 44 :: b) with
        (((w1 ++ k ++ w2 ++ 58 :: w3) ++ v ++ w4 ++ [44]) ++ b ++ []) in Hl
        by (repeat (rewrite <- ?app_assoc; cbn [app]); by rewrite app_nil_r).
      by apply located_app in Hl. }
    destruct (IH af st1 st' Hb' Hrun) as (rs' & Hrs' & Hr'). exists (rs ++ rs').
    rewrite Hrs', Hrs, app_assoc. split; [done|].
    apply (in_region_app _ (total - (Z.of_nat (length b) + (af + 1))));
      [eapply in_region_weaken; [exact Hr| |]|exact Hr'| |];
      repeat (rewrite !length_app; cbn [length]); lia.
Qed.

Lemma run_object_region R d o ms af st st' :
  json_object d o ms -> appends R -> located o af -> run fromUtf8 R af ms st st' ->
  exists rs, ranges st' = ranges st ++ rs /\
    in_region (total - (Z.of_nat (length o) + af)) (total - af) rs.
Proof.
  intros Ho HR Hl Hrun. destruct Ho as [d w Hd Hw|d b ms Hd Hb].
  - cbn [run] in Hrun. subst st'. exists []. rewrite app_nil_r. split; [done|apply in_region_nil].
  - assert (Hb' : located b (af + 1)).
    { change (123 :: b ++ [125]) with ([123] ++ b ++ [125]) in Hl. apply located_app in Hl.
      refine (eq_ind _ (located b) Hl _ _). cbn. lia. }
    destruct (run_members_region R d b ms Hb HR af st st' Hb' Hrun) as (rs & Hrs & Hr).
    exists rs. split; [done|]. eapply in_region_weaken; [exact Hr| |];
      cbn [length]; rewrite ?length_app; cbn; lia.
Qed.

Lemma run_field_range af fs r r' :
  run fromUtf8 (field_rel fromUtf8) af fs r r' -> 0 <= cardCount (dataRange r) ->
  start (dataRange r') = start (dataRange r) /\
  data_length (dataRange r') = data_length (dataRange r) /\ 0 <= cardCount (dataRange r').
Proof.
  revert r. induction fs as [|m fs IH]; intros r; cbn [run]; [by intros ->|].
  intros (t & r1 & _ & Hr & Hrun) Hc.
  assert (H1 : start (dataRange r1) = start (dataRange r) /\
    data_length (dataRange r1) = data_length (dataRange r) /\ 0 <= cardCount (dataRange r1)).
  { unfold field_rel, string_rel in Hr. repeat case_bool_decide; try (by subst);
      destruct Hr as [(x & Hr)|[_ ->]]; destruct_and?; subst; cbn; try done; split_and!; try done; lia. }
  destruct H1 as (E1 & E2 & E3). destruct (IH r1 Hrun E3) as (E4 & E5 & E6).
  split_and!; [congruence|congruence|done].
Qed.

Lemma set_rel_appends : appends (set_rel fromUtf8 total).
Proof.
  intros t v af st st' Hl (fs & r & Ho & Hrun & ->). exists [r]. split; [done|].
  apply run_field_range in Hrun as (Es & El & Hc); [|done].
  unfold new_range in Es, El. cbn [dataRange start data_length] in Es, El.
  destruct Hl as (pre & suf & Ej & Hsuf).
  assert (Ht : total = Z.of_nat (length pre) + Z.of_nat (length v) + af).
  { unfold total. rewrite Ej, !length_app. lia. }
  split; [|repeat constructor]. constructor; [|constructor]. unfold range_end. rewrite Es, El.
  split_and!; [lia|lia|]. split; [|done]. exists fs. unfold slice. rewrite Es, El.
  replace (Z.to_nat (total - (Z.of_nat (length v) + af))) with (length pre) by lia.
  rewrite Ej, drop_app_length, Nat2Z.id. by rewrite take_app_length.
Qed.

Lemma top_rel_appends : appends (top_rel fromUtf8 total).
Proof.
  intros t v af st st' Hl. unfold top_rel. case_bool_decide.
  - intros (ms & Ho & Hrun).
    exact (run_object_region _ _ _ _ _ _ _ Ho set_rel_appends Hl Hrun).
  - intros ->. exists []. rewrite app_nil_r. split; [done|apply in_region_nil].
Qed.

Lemma document_ranges rs : document fromUtf8 json rs -> in_region 0 total rs.
Proof.
  intros (w1 & o & w2 & ms & st & Ej & _ & _ & Ho & Hrun & _ & <- & _).
  assert (Hl : located o (Z.of_nat (length w2))) by by exists w1, w2.
  destruct (run_object_region _ _ _ _ _ _ _ Ho top_rel_appends Hl Hrun) as (rs & -> & Hr).
  cbn [ranges app]. eapply in_region_weaken; [exact Hr| |]; [|lia].
  unfold total. rewrite Ej, !length_app. lia.
Qed.
End Ranges.

(** ** Escapes *)

Definition hex_char (n : Z) : Z := if n <? 10 then 48 + n else 87 + n.

(** A code unit as an escape of four digits. *)
Definition escape_unit (u : Z) : bytes :=
  [92; 117; hex_char (u / 4096); hex_char (u / 256 mod 16); hex_char (u / 16 mod 16);
   hex_char (u mod 16)].

Definition escape (t : text) : bytes := 34 :: concat (map escape_unit t) ++ [34].

(** Sequences of UTF-16 units without a lone surrogate. *)
Inductive wf_utf16 : text -> Prop :=
| utf16_nil : wf_utf16 []
| utf16_unit u t : 0 <= u < 65536 -> is_high u = false -> is_low u = false -> wf_utf16 t ->
    wf_utf16 (u :: t)
| utf16_pair h l t : is_high h = true -> is_low l = true -> wf_utf16 t -> wf_utf16 (h :: l :: t).

Lemma hex_char_spec n : 0 <= n < 16 -> isHexDigit (hex_char n) = true /\ hexValue (hex_char n) = n.
Proof.
  intros Hn. unfold hex_char, isHexDigit, hexValue, isDigit.
  destruct (Z.ltb_spec n 10).
  - rewrite (proj2 (Z.leb_le 48 _)), (proj2 (Z.leb_le _ 57)) by lia. cbn. split; [done|lia].
  - rewrite (proj2 (Z.leb_gt (87 + n) 57)), andb_false_r by lia.
    rewrite (proj2 (Z.leb_le 97 _)), (proj2 (Z.leb_le _ 102)) by lia. cbn. split; [done|lia].
Qed.

Lemma hex4_escape u r : 0 <= u < 65536 -> hex4 (drop 2 (escape_unit u) ++ r) = Some (u, r).
Proof.
  intros Hu. cbn [escape_unit drop app hex4].
  assert (Hd : 0 <= u / 4096 < 16) by (split; [apply Z.div_pos|apply Z.div_lt_upper_bound]; lia).
  assert (Hm : forall x, 0 <= x mod 16 < 16) by (intros x; apply Z.mod_pos_bound; lia).
  destruct (hex_char_spec (u / 4096) Hd) as [-> ->].
  destruct (hex_char_spec (u / 256 mod 16) (Hm _)) as [-> ->].
  destruct (hex_char_spec (u / 16 mod 16) (Hm _)) as [-> ->].
  destruct (hex_char_spec (u mod 16) (Hm _)) as [-> ->]. cbn [andb]. f_equal. f_equal.
  dlia.
Qed.

Lemma surrogate_range u : is_high u = true \/ is_low u = true -> 0 <= u < 65536.
Proof. unfold is_high, is_low. lia. Qed.

Lemma decode_loop_escape fromUtf8 t : wf_utf16 t -> forall f r out,
  (length t < f)%nat ->
  decode_loop fromUtf8 f (concat (map escape_unit t) ++ 34 :: r) [] out = Some (out ++ t, r).
Proof.
  induction 1 as [|u t Hu H1 H2 Ht IH|h l t H1 H2 Ht IH]; intros [|f] r out Hf; try (cbn in Hf; lia).
  - cbn. by rewrite app_nil_r.
  - cbn [map concat]. change (escape_unit u) with (92 :: 117 :: drop 2 (escape_unit u)).
    rewrite <- app_assoc. cbn [app decode_loop Z.eqb Pos.eqb]. unfold decode_unicode.
    rewrite hex4_escape by done. cbn [mbind option_bind]. rewrite H1, H2.
    cbn [mbind option_bind]. rewrite IH by (cbn in Hf; lia). unfold flush. by rewrite bool_decide_eq_true_2, <- app_assoc by done.
  - cbn [map concat]. change (escape_unit h) with (92 :: 117 :: drop 2 (escape_unit h)).
    change (escape_unit l) with (92 :: 117 :: drop 2 (escape_unit l)).
    rewrite <- !app_assoc. cbn [app decode_loop Z.eqb Pos.eqb]. unfold decode_unicode.
    rewrite hex4_escape by (apply surrogate_range; auto). cbn [mbind option_bind]. rewrite H1.
    cbn [app Z.eqb Pos.eqb andb]. rewrite <- ?app_assoc. cbn [app Z.eqb Pos.eqb andb].
    rewrite hex4_escape by (apply surrogate_range; auto). cbn [mbind option_bind]. rewrite H2.
    cbn [mbind option_bind]. rewrite IH by (cbn in Hf; lia). unfold flush. by rewrite bool_decide_eq_true_2, <- app_assoc by done.
Qed.

(** ** Progress reports *)

Definition reportingStep (scan : ScanProgress) : Z := Z.max 1 (step scan / 16).

(** At most this many reports lead to an offset. *)
Definition report_budget (scan : ScanProgress) : Z :=
  let early := size scan - step scan in
  if lastReported scan <? early then lastReported scan / step scan
  else early / step scan + 1 + (lastReported scan - early) / reportingStep scan +
       (if lastReported scan =? size scan then 1 else 0).

(** The reports so far: increasing offsets of the document, the last of them
    remembered, within the budget. *)
Record progress_ok (total : Z) (progress : bool) (scan : ScanProgress) : Prop := {
  po_callback : callback scan = progress;
  po_silent : progress = false -> reports scan = [];
  po_size : size scan = total;
  po_step : step scan = Z.max 1 (total / 100);
  po_sorted : StronglySorted (fun a b => b < a) (reports scan);
  po_bounds : Forall (fun a => 0 < a <= total) (reports scan);
  po_last : lastReported scan = default 0 (head (reports scan));
  po_count : Z.of_nat (length (reports scan)) <= report_budget scan
}.

Lemma report_budget_step scan offset :
  0 < step scan <= size scan -> 0 <= lastReported scan < offset -> offset <= size scan ->
  (offset < size scan ->
     (if size scan - step scan <=? offset then reportingStep scan else step scan) <=
     offset - lastReported scan) ->
  forall scan', size scan' = size scan -> step scan' = step scan -> lastReported scan' = offset ->
  report_budget scan + 1 <= report_budget scan'.
Proof.
  intros Hs Hl Ho Hinc scan' E1 E2 E3. unfold report_budget, reportingStep in *.
  rewrite E1, E2, E3. set (s := step scan) in *. set (n := size scan) in *.
  set (q := Z.max 1 (s / 16)) in *. assert (Hq : 1 <= q) by lia. set (a := lastReported scan) in *.
  assert (Hdiv : forall x y z, 0 < z -> x + z <= y -> x / z + 1 <= y / z).
  { intros x y z Hz Hxy. rewrite <- Z.div_add by lia. apply Z.div_le_mono; lia. }
  destruct (Z.ltb_spec a (n - s)), (Z.ltb_spec offset (n - s)), (Z.leb_spec (n - s) offset); try lia.
  - apply Hdiv; lia.
  - pose proof (Z.div_le_mono a (n - s) s). pose proof (Z.div_pos (offset - (n - s)) q).
    destruct (offset =? n); lia.
  - rewrite (proj2 (Z.eqb_neq a n)) by lia. destruct (Z.eqb_spec offset n) as [->|Hne].
    + pose proof (Z.div_le_mono (a - (n - s)) (n - (n - s)) q). lia.
    + pose proof (Hdiv (a - (n - s)) (offset - (n - s)) q). lia.
Qed.

Lemma report_ok total progress after p scan :
  progress_ok total progress scan -> 0 < total -> 0 <= after -> Z.of_nat (length p) + after <= total ->
  progress_ok total progress (report after p scan).
Proof.
  intros Hok Ht Ha Hp. unfold report. destruct (callback scan) eqn:Hcb; cbn [negb]; [|done].
  destruct Hok as [P0 PS P1 P2 P3 P4 P5 P6]. set (offset := size scan - _). assert (0 <= offset <= total) by lia.
  assert (Hlast : 0 <= lastReported scan <= total).
  { rewrite P5. destruct P4; cbn; lia. }
  destruct (Z.eqb_spec offset (lastReported scan)); [by constructor|].
  destruct (_ && _) eqn:Hskip; [by constructor|].
  assert (Hsz : 0 < step scan <= size scan) by (rewrite P1, P2; dlia).
  assert (Hgt : lastReported scan < offset /\ (offset < size scan ->
     (if size scan - step scan <=? offset then reportingStep scan else step scan) <=
     offset - lastReported scan)).
  { apply andb_false_iff in Hskip. rewrite !Z.ltb_ge in Hskip. unfold reportingStep.
    destruct (size scan - step scan <=? offset), Hskip; lia. }
  destruct Hgt as [Hgt Hinc]. constructor; cbn [callback size step reports lastReported]; try (done || congruence).
  - constructor; [done|]. rewrite P5 in Hgt. destruct P3 as [|x l P3 Hx]; [constructor|]. cbn in Hgt.
    constructor; [done|]. eapply Forall_impl; [exact Hx|]. cbn. lia.
  - constructor; [|done]. lia.
  - cbn [length]. pose proof (report_budget_step scan offset Hsz ltac:(lia) ltac:(lia) Hinc
      {| size := size scan; callback := true; step := step scan; lastReported := offset;
         reports := offset :: reports scan |} eq_refl eq_refl eq_refl). lia.
Qed.

Lemma budget_bound total progress scan : progress_ok total progress scan -> 0 < total ->
  Z.of_nat (length (reports scan)) <= 231.
Proof.
  intros [P0 PS P1 P2 P3 P4 P5 P6] Ht. etransitivity; [exact P6|]. unfold report_budget, reportingStep.
  assert (Hlast : 0 <= lastReported scan <= total) by (rewrite P5; destruct P4; cbn; lia).
  rewrite P1. assert (Hs : 0 < step scan <= total) by (rewrite P2; dlia).
  assert (Hd : total / step scan <= 199).
  { rewrite P2. destruct (Z.max_spec 1 (total / 100)) as [[Hc ->]|[Hc ->]]; [|rewrite Z.div_1_r; dlia].
    apply Z.div_le_upper_bound; dlia. }
  assert (Hd' : forall x, 0 <= x <= step scan -> x / Z.max 1 (step scan / 16) <= 31).
  { intros x Hx. destruct (Z.max_spec 1 (step scan / 16)) as [[Hc ->]|[Hc ->]];
      [apply Z.div_le_upper_bound; dlia|rewrite Z.div_1_r; dlia]. }
  destruct (Z.ltb_spec (lastReported scan) (total - step scan)).
  - pose proof (Z.div_le_mono (lastReported scan) total (step scan)). lia.
  - specialize (Hd' (lastReported scan - (total - step scan)) ltac:(lia)).
    replace (total - step scan) with (total + (-1) * step scan) at 1 by lia.
    rewrite Z.div_add by lia. destruct (_ =? _); lia.
Qed.

Section Progress.
Context (total : Z) (progress : bool).
Hypothesis (Htotal : 0 < total).

(** A walk keeps the reports in order and does not move backwards. *)
Definition keeps (p : bytes) (res : option bytes * ScanProgress) : Prop :=
  progress_ok total progress res.2 /\ forall r, res.1 = Some r -> (length r <= length p)%nat.

Definition inside (af : Z) (p : bytes) : Prop := 0 <= af /\ Z.of_nat (length p) + af <= total.

Lemma keeps_fail p sc : progress_ok total progress sc -> keeps p (None, sc).
Proof. by split. Qed.

Lemma keeps_some p r sc : progress_ok total progress sc -> (length r <= length p)%nat -> keeps p (Some r, sc).
Proof. split; [done|]. by intros ? [= <-]. Qed.

Lemma keeps_mono p p' res : keeps p' res -> (length p' <= length p)%nat -> keeps p res.
Proof. intros [H1 H2] Hl. split; [done|]. intros r Hr. specialize (H2 r Hr). lia. Qed.

Lemma tail_length (p : bytes) : (length (tail p) <= length p)%nat.
Proof. destruct p; cbn; lia. Qed.

Lemma at_char_length c p q : at_char c p = Some q -> q = p.
Proof. by intros (r & _ & ->)%at_char_Some. Qed.

Lemma inside_le af p q : inside af p -> (length q <= length p)%nat -> inside af q.
Proof. unfold inside. lia. Qed.

(** What follows a value: a separator and the rest, or the closing bracket. *)
Lemma separator_keeps af p q sc c1 (k : bytes -> ScanProgress -> option bytes * ScanProgress) :
  progress_ok total progress sc -> inside af p -> (length q <= length p)%nat ->
  (forall q sc, progress_ok total progress sc -> inside af q -> keeps q (k q sc)) ->
  keeps p (let sc := report af q sc in
           match skipWhitespace q with
           | c :: r => if c =? 44 then k r sc else if c =? c1 then (Some r, sc) else (None, sc)
           | [] => (None, sc)
           end).
Proof using Htotal.
  intros Hsc Hp Hq Hk. pose proof (skipWhitespace_length q) as Hw.
  assert (Hsc' : progress_ok total progress (report af q sc)) by (apply report_ok; unfold inside in *; lia || done).
  destruct (skipWhitespace q) as [|c r]; [by apply keeps_fail|]. cbn in Hw.
  destruct (c =? 44); [|destruct (c =? c1); [apply keeps_some; [done|lia]|by apply keeps_fail]].
  apply (keeps_mono _ r); [|lia]. apply Hk; [done|]. apply (inside_le af p); [done|lia].
Qed.

Lemma walk_keeps f :
  (forall af d p sc, progress_ok total progress sc -> inside af p -> keeps p (skipValue f af d p sc)) /\
  (forall af d p sc, progress_ok total progress sc -> inside af p -> keeps p (skipObject f af d p sc)) /\
  (forall af d p sc, progress_ok total progress sc -> inside af p -> keeps p (object_loop f af d p sc)) /\
  (forall af d p sc, progress_ok total progress sc -> inside af p -> keeps p (skipArray f af d p sc)) /\
  (forall af d p sc, progress_ok total progress sc -> inside af p -> keeps p (array_loop f af d p sc)).
Proof using Htotal.
  induction f as [|f (IHv & IHo & IHol & IHa & IHal)]; [by split_and!; intros; apply keeps_fail|].
  split_and!; intros af d p sc Hsc Hp.
  - cbn [skipValue]. pose proof (skipWhitespace_length p) as Hw.
    destruct (skipWhitespace p) as [|c r]; [by apply keeps_fail|]. cbn [length] in Hw.
    destruct (c =? 123); [|destruct (c =? 91)].
    + apply (keeps_mono _ r); [|lia]. apply IHo; [done|]. apply (inside_le af p); [done|lia].
    + apply (keeps_mono _ r); [|lia]. apply IHa; [done|]. apply (inside_le af p); [done|lia].
    + split; [done|]. cbn [fst]. intros r' (v & E & _)%skipPrimitive_sound.
      apply (f_equal length) in E. rewrite length_app in E. cbn in E. lia.
  - cbn [skipObject]. destruct (d <=? 0); [by apply keeps_fail|]. cbv zeta.
    pose proof (skipWhitespace_length p). destruct (at_char 125 _) as [q|] eqn:Hq.
    + apply at_char_length in Hq as ->. apply keeps_some; [done|].
      pose proof (tail_length (skipWhitespace p)). lia.
    + apply (keeps_mono _ (skipWhitespace p)); [|done]. apply IHol; [done|].
      by apply (inside_le af p).
  - cbn [object_loop]. fold (member_head p). destruct (member_head p) as [q|] eqn:Hh;
      [|by apply keeps_fail].
    apply member_head_sound in Hh as (w1 & k & w2 & r & _ & _ & _ & E & ->). cbn [tail].
    assert (Hl : (length r <= length p)%nat)
      by (rewrite E; repeat (rewrite !length_app; cbn [length]); lia).
    destruct (IHv af (d - 1) r sc Hsc (inside_le _ _ _ Hp Hl)) as [H1 H2].
    destruct (skipValue f af (d - 1) r sc) as [[q|] sc']; [|by apply keeps_fail].
    specialize (H2 q eq_refl). cbn [snd] in H1.
    apply (separator_keeps af p q sc' 125 (fun q sc => object_loop f af d q sc)); [done|done|lia|].
    intros. by apply IHol.
  - cbn [skipArray]. destruct (d <=? 0); [by apply keeps_fail|]. cbv zeta.
    pose proof (skipWhitespace_length p). destruct (at_char 93 _) as [q|] eqn:Hq.
    + apply at_char_length in Hq as ->. apply keeps_some; [done|].
      pose proof (tail_length (skipWhitespace p)). lia.
    + apply (keeps_mono _ (skipWhitespace p)); [|done]. apply IHal; [done|].
      by apply (inside_le af p).
  - cbn [array_loop]. destruct (IHv af (d - 1) p sc Hsc Hp) as [H1 H2].
    destruct (skipValue f af (d - 1) p sc) as [[q|] sc']; [|by apply keeps_fail].
    specialize (H2 q eq_refl). cbn [snd] in H1.
    apply (separator_keeps af p q sc' 93 (fun q sc => array_loop f af d q sc)); [done|done|lia|].
    intros. by apply IHal.
Qed.

Lemma count_loop_keeps f : forall af d p n sc, progress_ok total progress sc -> inside af p ->
  progress_ok total progress (count_loop f af d p n sc).2.
Proof using Htotal.
  induction f as [|f IH]; intros af d p n sc Hsc Hp; cbn [count_loop]; [done|].
  destruct (walk_keeps (walk_fuel p)) as (Hw & _). destruct (Hw af (d - 1) p sc Hsc Hp) as [H1 H2].
  destruct (skipValue _ _ _ _ _) as [[q|] sc']; [|done]. specialize (H2 q eq_refl). cbn [snd] in H1.
  assert (H3 : progress_ok total progress (report af q sc')) by (apply report_ok; unfold inside in *; lia || done).
  pose proof (skipWhitespace_length q) as Hl. destruct (skipWhitespace q) as [|c r]; [done|].
  cbn in Hl. destruct (c =? 44); [|by destruct (c =? 93)]. apply IH; [done|]. unfold inside in *. lia.
Qed.

Lemma count_keeps af d p sc : progress_ok total progress sc -> inside af p ->
  progress_ok total progress (countArrayElements af d p sc).2.
Proof using Htotal.
  intros Hsc Hp. unfold countArrayElements. destruct (d <=? 0); [done|]. cbv zeta.
  destruct (at_char 93 _); [done|]. apply count_loop_keeps; [done|].
  pose proof (skipWhitespace_length (tail p)). pose proof (tail_length p). unfold inside in *. lia.
Qed.

(** A callback keeps the reports in order. *)
Definition cb_keeps {A} (cb : member_callback A) : Prop :=
  forall t v af a sc, progress_ok total progress sc -> inside af v -> progress_ok total progress (cb t v af (a, sc)).2.2.

Lemma member_loop_keeps {A} fromUtf8 (cb : member_callback A) f : cb_keeps cb ->
  forall af d p a sc, progress_ok total progress sc -> inside af p ->
  progress_ok total progress (member_loop fromUtf8 f af d cb p (a, sc)).2.2.
Proof using Htotal.
  intros Hcb. induction f as [|f IH]; intros af d p a sc Hsc Hp; cbn [member_loop]; [done|].
  fold (decoded_head fromUtf8 p). destruct (decoded_head fromUtf8 p) as [[t q]|] eqn:Hh; [|done].
  apply decoded_head_sound in Hh as (w1 & k & w2 & r & _ & _ & _ & _ & E & ->). cbn [tail fst snd].
  assert (Hl : (length r <= length p)%nat)
    by (rewrite E; repeat (rewrite !length_app; cbn [length]); lia).
  pose proof (skipWhitespace_length r) as Hlr. set (vs := skipWhitespace r) in *.
  destruct (walk_keeps (walk_fuel vs)) as (Hw & _).
  assert (Hvs : inside af vs) by (unfold inside in *; lia).
  destruct (Hw af (d - 1) vs sc Hsc Hvs) as [H1 H2].
  destruct (skipValue _ _ _ _ _) as [[ve|] sc']; [|done]. specialize (H2 ve eq_refl). cbn [snd] in H1.
  assert (H3 : progress_ok total progress
    (cb t (take (length vs - length ve) vs) (af + Z.of_nat (length ve)) (a, sc')).2.2).
  { apply Hcb; [done|]. unfold inside in *. rewrite length_take. lia. }
  destruct (cb _ _ _ _) as [[] [a' sc'']]; [|done]. cbn [snd] in H3.
  pose proof (skipWhitespace_length ve) as Hlv. destruct (skipWhitespace ve) as [|c q]; [done|].
  cbn in Hlv. destruct (c =? 44); [|by destruct (c =? 125)]. apply IH; [done|].
  unfold inside in *. lia.
Qed.

Lemma forEach_keeps {A} fromUtf8 (cb : member_callback A) af d p a sc : cb_keeps cb ->
  progress_ok total progress sc -> inside af p ->
  progress_ok total progress (forEachObjectMember fromUtf8 af d cb p (a, sc)).2.2.
Proof using Htotal.
  intros Hcb Hsc Hp. unfold forEachObjectMember. destruct (d <=? 0); [done|]. cbv zeta.
  destruct (at_char 125 _); [done|]. apply member_loop_keeps; [done|done|].
  pose proof (skipWhitespace_length (tail p)). pose proof (tail_length p). unfold inside in *. lia.
Qed.

Lemma field_callback_keeps fromUtf8 : cb_keeps (field_callback fromUtf8).
Proof using Htotal.
  intros t v af r sc Hsc Hp. unfold field_callback, string_field.
  repeat (case_bool_decide; [by repeat case_match|]). case_bool_decide; [|done].
  destruct v as [|c v]; [done|]. destruct (negb _); [done|].
  pose proof (count_keeps af (kMaxNestingDepth - 2) (c :: v) sc Hsc Hp) as Hc. cbn [snd].
  by destruct (countArrayElements _ _ _ _) as [[n|] sc'].
Qed.

Lemma set_callback_keeps fromUtf8 : cb_keeps (set_callback fromUtf8 total).
Proof using Htotal.
  intros t v af st sc Hsc Hp. unfold set_callback. destruct (at_char 123 v) as [q|] eqn:Hq; [|done].
  apply at_char_length in Hq as ->. cbn [snd].
  match goal with |- context [forEachObjectMember _ _ _ _ _ (?r, _)] =>
    pose proof (forEach_keeps fromUtf8 (field_callback fromUtf8) af (kMaxNestingDepth - 2) v r sc
      (field_callback_keeps fromUtf8) Hsc Hp) as Hf end.
  by destruct (forEachObjectMember _ _ _ _ _ _) as [[p|] [r' sc']].
Qed.

Lemma top_callback_keeps fromUtf8 : cb_keeps (top_callback fromUtf8 total).
Proof using Htotal.
  intros t v af st sc Hsc Hp. unfold top_callback. cbn [fst snd]. case_bool_decide; [|done].
  destruct (at_char 123 v) as [q|] eqn:Hq; [|done]. apply at_char_length in Hq as ->.
  match goal with |- context [forEachObjectMember _ _ _ _ _ (?r, _)] =>
    pose proof (forEach_keeps fromUtf8 (set_callback fromUtf8 total) af (kMaxNestingDepth - 1) v r sc
      (set_callback_keeps fromUtf8) Hsc Hp) as Hf end.
  by destruct (forEachObjectMember _ _ _ _ _ _) as [[p|] [r' sc']].
Qed.
End Progress.

Lemma report_end total progress scan : progress_ok total progress scan -> callback scan = true -> 0 < total ->
  head (reports (report 0 [] scan)) = Some total.
Proof.
  intros [P0 PS P1 P2 P3 P4 P5 P6] Hcb Ht. unfold report. rewrite Hcb. cbn [negb length].
  rewrite Z.add_0_r, Z.sub_0_r, P1. destruct (Z.eqb_spec total (lastReported scan)) as [E|E].
  - rewrite P5 in E. destruct (reports scan) as [|x l]; cbn in *; [lia|congruence].
  - by rewrite Z.ltb_irrefl, andb_false_r.
Qed.

(** ** The scanner's contract *)

(** A document in ASCII, with apostrophes for the quotes. *)
Definition ascii_json (s : String.string) : bytes := map (fun c => if c =? 39 then 34 else c) (str s).

Definition sample_document : bytes :=
  ascii_json " {'meta':[1,2.5e3,{}], 'data': {'ABC': {'name':'A b\n','cards':[{},[],null],'type':null},'X\u0041':{}}} ".

Definition sample_ranges : list SetRange :=
  [{| dataRange := {| start := 39; data_length := 49; cardCount := 3 |};
      code := str "ABC"; set_name := str "A b" ++ [10]; set_type := []; releaseDate := [] |};
   {| dataRange := {| start := 99; data_length := 2; cardCount := 0 |};
      code := str "XA"; set_name := []; set_type := []; releaseDate := [] |}].

Definition initial_scan (total : Z) (progress : bool) : ScanProgress :=
  {| size := total; callback := progress; step := Z.max 1 (total / 100);
     lastReported := 0; reports := [] |}.

Lemma initial_ok total progress : 0 < total -> progress_ok total progress (initial_scan total progress).
Proof.
  intros Ht. constructor; cbn [initial_scan callback size step reports lastReported length];
    try done; [constructor..|]. unfold report_budget, initial_scan. cbn [size step lastReported].
  destruct (Z.ltb_spec 0 (total - Z.max 1 (total / 100))); [by rewrite Z.div_0_l by lia|].
  assert (total = 1) as -> by dlia. done.
Qed.

Lemma scan_reports fromUtf8 json progress :
  0 < Z.of_nat (length json) ->
  let res := scanSetRanges fromUtf8 json progress in
  progress_ok (Z.of_nat (length json)) progress res.2 /\
  (forall rs, res.1 = Ok rs -> progress = true ->
     head (reports res.2) = Some (Z.of_nat (length json))).
Proof.
  intros Ht. unfold scanSetRanges. fold (initial_scan (Z.of_nat (length json)) progress).
  set (total := Z.of_nat (length json)) in *.
  pose proof (initial_ok total progress Ht) as Hi.
  rewrite (proj2 (Z.leb_gt total 0)) by lia.
  destruct (at_char 123 _) as [p|] eqn:Hp; [|by split].
  apply at_char_length in Hp as ->.
  assert (Hin : inside total 0 (skipWhitespace json))
    by (pose proof (skipWhitespace_length json); unfold inside; lia).
  pose proof (forEach_keeps total progress Ht fromUtf8 (top_callback fromUtf8 total) 0 kMaxNestingDepth
    (skipWhitespace json) {| ranges := []; foundData := false; malformedSetData := false |}
    (initial_scan total progress) (top_callback_keeps total progress Ht fromUtf8) Hi Hin) as Hf.
  destruct (forEachObjectMember _ _ _ _ _ _) as [[q|] [st sc]]; [|by split]. cbn [snd] in Hf.
  destruct (negb _); [by split|]. destruct (negb _); [by split|].
  destruct (bool_decide _); [by split|]. cbn [fst snd]. split.
  - apply report_ok; [done..|]. cbn. lia.
  - intros rs _ ->. apply (report_end total true); [done|by apply (po_callback _ _ _ Hf)|done].
Qed.

(** ** Properties *)

Lemma StronglySorted_rev (l : list Z) :
  StronglySorted (fun a b => b < a) l -> StronglySorted Z.lt (rev l).
Proof.
  induction 1 as [|x l Hl IH Hx]; cbn [rev]; [constructor|].
  apply sorted_snoc; [done|]. by apply Forall_rev.
Qed.

(** C7. The scan of a document succeeds exactly on the documents that are one
    JSON object, nested no deeper than the limit, with a member [data] holding
    at least one set, and it returns what the document says: one range per set
    in order, with the key, the string fields read last and the number of cards.
    The progress callback does not change the result. *)
Theorem scanSetRanges_correct (fromUtf8 : bytes -> text) (json : bytes) (progress : bool)
    (rs : list SetRange) :
  (scanSetRanges fromUtf8 json progress).1 = Ok rs <-> document fromUtf8 json rs.
Proof. apply scan_document. Qed.

Lemma scanSetRanges_correct_witness :
  document id sample_document sample_ranges /\ (forall rs, ~ document id (str "{}}") rs).
Proof.
  split.
  - apply (proj1 (scanSetRanges_correct id sample_document false sample_ranges)).
    vm_compute. reflexivity.
  - intros rs H. pose proof (proj2 (scanSetRanges_correct id (str "{}}") false rs) H) as E.
    vm_compute in E. discriminate E.
Defined.

(** C8. Every range the scan returns is the slice of the document that holds one
    set's object, inside the document; the ranges are in document order and do
    not overlap, and no count of cards is negative. *)
Theorem scanSetRanges_ranges (fromUtf8 : bytes -> text) (json : bytes) (progress : bool)
    (rs : list SetRange) (H : (scanSetRanges fromUtf8 json progress).1 = Ok rs) :
  Forall (fun r =>
    0 <= start (dataRange r) /\ range_end r <= Z.of_nat (length json) /\
    Z.of_nat (length (slice json r)) = data_length (dataRange r) /\
    (exists fs, json_object (kMaxNestingDepth - 2) (slice json r) fs) /\
    0 <= cardCount (dataRange r)) rs /\
  StronglySorted (fun r r' => range_end r <= start (dataRange r')) rs.
Proof.
  apply scan_document, document_ranges in H as [Hf Hs]. split; [|done].
  eapply Forall_impl; [exact Hf|]. cbn beta. intros r (H0 & H1 & (fs & Ho) & Hc).
  split_and!; try done; [|by exists fs].
  assert (Hd : 0 <= data_length (dataRange r)).
  { destruct (Z.le_gt_cases 0 (data_length (dataRange r))) as [|Hn]; [done|].
    unfold slice in Ho. rewrite (Z2Nat.nonpos (data_length _)) in Ho by lia. cbn in Ho. inversion Ho. }
  unfold slice, range_end in *. rewrite length_take, length_drop. lia.
Qed.

Lemma scanSetRanges_ranges_witness :
  (scanSetRanges id sample_document true).1 = Ok sample_ranges /\
    StronglySorted (fun r r' => range_end r <= start (dataRange r')) sample_ranges.
Proof.
  assert (H : (scanSetRanges id sample_document true).1 = Ok sample_ranges)
    by (vm_compute; reflexivity).
  split; [exact H|]. apply (scanSetRanges_ranges id sample_document true sample_ranges H).
Defined.

(** C6. The walk that skips a value without decoding it accepts exactly the JSON
    values of the given nesting depth: where it succeeds, it has read whitespace
    and one value, and it succeeds on every value before a delimiter. Its fuel
    is enough for every input. *)
Theorem skipValue_correct (after depth : Z) (scan : ScanProgress) (p : bytes) :
  (forall r, (skipValue (walk_fuel p) after depth p scan).1 = Some r ->
     exists w v, ws w /\ p = w ++ v ++ r /\ json_value depth v) /\
    (forall w v r, p = w ++ v ++ r -> ws w -> json_value depth v -> delim r ->
     (skipValue (walk_fuel p) after depth p scan).1 = Some r).
Proof.
  split.
  - apply walk_sound.
  - intros w v r Ep Hw Hv Hr. destruct walk_complete as (Hc & _). apply (Hc depth v); [done| |done|].
    + rewrite Ep, skipWhitespace_app by done.
      destruct (json_value_head _ _ Hv) as (c & v' & -> & Hn & _). by apply skipWhitespace_head.
    + unfold walk_fuel. rewrite Ep, !length_app. lia.
Qed.

Lemma skipValue_correct_witness :
  let p := ascii_json " {'a':[-0.5E+7,true,'\ud83d\ude00']}," in
  (skipValue (walk_fuel p) 0 2 p (initial_scan 40 false)).1 = Some [44] /\
    exists w v, ws w /\ p = w ++ v ++ [44] /\ json_value 2 v.
Proof.
  intros p. assert (H : (skipValue (walk_fuel p) 0 2 p (initial_scan 40 false)).1 = Some [44])
    by (vm_compute; reflexivity).
  split; [exact H|]. exact (proj1 (skipValue_correct 0 2 (initial_scan 40 false) p) [44] H).
Defined.

(** The skipping and the decoding of a string agree: at an opening quote,
    [decodeString] succeeds exactly when [skipString] does, and stops at the same
    byte. *)
Theorem skipString_decodeString (fromUtf8 : bytes -> text) (p : bytes) :
  skipString (34 :: p) = snd <$> decodeString fromUtf8 (34 :: p).
Proof.
  assert (Hq : at_char 34 (34 :: p) = Some (34 :: p)) by done.
  destruct (decodeString fromUtf8 (34 :: p)) as [[t r]|] eqn:Hd.
  - destruct (decodeString_sound _ _ _ _ Hq Hd) as (v & E & Hv & _).
    apply (skipString_spec _ _ Hq). by exists v.
  - destruct (skipString (34 :: p)) as [r|] eqn:Hs; [|done].
    apply (skipString_spec _ _ Hq) in Hs as (v & E & Hv).
    destruct (decodeString_complete fromUtf8 _ Hv) as [t Ht]. by rewrite E, Ht in Hd.
Qed.

(** Decoding undoes escaping: every UTF-16 text without a lone surrogate,
    written as a quoted string of four-digit escapes, decodes to itself, whatever
    follows it. *)
Theorem decodeString_escape (fromUtf8 : bytes -> text) (t : text) (rest : bytes)
    (H : wf_utf16 t) :
  decodeString fromUtf8 (escape t ++ rest) = Some (t, rest).
Proof.
  unfold decodeString, escape. cbn [app tail]. rewrite <- app_assoc. cbn [app].
  rewrite decode_loop_escape; [done|done|]. cbn [length]. rewrite length_app.
  enough (length t <= length (concat (map escape_unit t)))%nat by lia.
  clear H. induction t; cbn; lia.
Qed.

Lemma decodeString_escape_witness :
  wf_utf16 [233; 55357; 56832] /\
    decodeString id (escape [233; 55357; 56832] ++ [44]) = Some ([233; 55357; 56832], [44]).
Proof.
  assert (H : wf_utf16 [233; 55357; 56832])
    by (apply utf16_unit; [lia|done|done|]; apply utf16_pair; [done|done|constructor]).
  split; [exact H|]. apply (decodeString_escape id [233; 55357; 56832] [44] H).
Defined.

(** The progress reports of a scan are strictly increasing offsets between 1
    and the size of the document, at most 231 of them however large the document
    is, the last of them the size of the document where the scan succeeds; there
    are none without a callback. *)
Theorem scanSetRanges_progress (fromUtf8 : bytes -> text) (json : bytes) (progress : bool) :
  let res := scanSetRanges fromUtf8 json progress in
  let offsets := rev (reports res.2) in
  StronglySorted Z.lt offsets /\
    Forall (fun offset => 1 <= offset <= Z.of_nat (length json)) offsets /\
    (length offsets <= 231)%nat /\
    (progress = false -> offsets = []) /\
    (forall rs, res.1 = Ok rs -> progress = true -> last offsets = Some (Z.of_nat (length json))).
Proof.
  intros res offsets. destruct (Z.eq_dec (Z.of_nat (length json)) 0) as [Hz|Hz].
  { destruct json; [|done]. assert (offsets = []) as -> by done. split_and!; try done; constructor || cbn; lia. }
  destruct (scan_reports fromUtf8 json progress ltac:(lia)) as [Hok Hend]. fold res in Hok, Hend.
  pose proof (budget_bound _ _ _ Hok ltac:(lia)) as Hb. unfold offsets. split_and!.
  - apply StronglySorted_rev, Hok.
  - apply Forall_rev. eapply Forall_impl; [apply Hok|]. cbn. lia.
  - rewrite length_rev. lia.
  - intros Hp. by rewrite (po_silent _ _ _ Hok Hp).
  - intros rs Hr Hp. rewrite <- (Hend rs Hr Hp). destruct (reports res.2); [done|].
    cbn. apply last_snoc.
Qed.

Lemma scanSetRanges_progress_witness :
  last (rev (reports (scanSetRanges id sample_document true).2)) = Some 104.
Proof.
  destruct (scanSetRanges_progress id sample_document true) as (_ & _ & _ & _ & H).
  apply (H sample_ranges); [vm_compute; reflexivity|reflexivity].
Defined.
