(* ===== verification/Levenshtein.v ===== *)
(** * Edit distance: [levenshtein.cpp]

    The two-row dynamic program of the card search against the least cost of
    an edit script. A [QString] is the list of its UTF-16 units; lengths are
    below 2^31, so the [int] casts are exact. *)
From S2P Require Import Prelude.
Open Scope cockatrice_scope.
Local Open Scope Z_scope.

(** ** The program *)

(** The inner loop: [prev] from [previous[j - 1]] on, [left] is [current[j - 1]]. *)
Fixpoint row_loop (c1 : Z) (t : text) (prev : list Z) (left : Z) : list Z :=
  match t, prev with
  | c2 :: t', p0 :: ((p1 :: _) as prev') =>
      let cost := if c1 =? c2 then 0 else 1 in
      let v := Z.min (p1 + 1) (Z.min (left + 1) (p0 + cost)) in
      v :: row_loop c1 t' prev' v
  | _, _ => []
  end.

(** The outer loop; [i] is the row being filled. *)
Fixpoint rows_loop (s t : text) (i : Z) (previous : list Z) : list Z :=
  match s with
  | [] => previous
  | c1 :: s' => rows_loop s' t (i + 1) (i :: row_loop c1 t previous i)
  end.

Definition first_row (t : text) : list Z := map Z.of_nat (seq 0 (S (length t))).

Definition levenshteinDistance (s1 s2 : text) : Z :=
  match s1, s2 with
  | [], _ => Z.of_nat (length s2)
  | _, [] => Z.of_nat (length s1)
  | _, _ =>
      if bool_decide (s1 = s2) then 0
      else rows_loop s1 s2 1 (first_row s2) !!! length s2
  end.

(** ** Specification *)

(** [s] becomes [t] by an edit script of cost [n]: insertions, deletions and
    replacements cost one each. *)
Inductive edits : text -> text -> Z -> Prop :=
| edits_nil : edits [] [] 0
| edits_keep s t c n : edits s t n -> edits (s ++ [c]) (t ++ [c]) n
| edits_replace s t c d n : edits s t n -> edits (s ++ [c]) (t ++ [d]) (n + 1)
| edits_delete s t c n : edits s t n -> edits (s ++ [c]) t (n + 1)
| edits_insert s t d n : edits s t n -> edits s (t ++ [d]) (n + 1).

Definition distance (s t : text) (n : Z) : Prop :=
  edits s t n /\ forall m, edits s t m -> n <= m.

(** The prefixes of [pre ++ t] from [pre] on. *)
Fixpoint prefixes (pre t : text) : list text :=
  pre :: match t with [] => [] | c :: t' => prefixes (pre ++ [c]) t' end.

(** ** Lemmas *)

Lemma edits_nonneg s t n : edits s t n -> 0 <= n.
Proof. induction 1; lia. Qed.

Lemma edits_refl s : edits s s 0.
Proof. induction s as [|c s IH] using rev_ind; [constructor|by constructor]. Qed.

Lemma distance_unique s t n m : distance s t n -> distance s t m -> n = m.
Proof. intros [H1 H2] [H3 H4]. specialize (H2 _ H3). specialize (H4 _ H1). lia. Qed.

Lemma edits_length s t n :
  edits s t n -> Z.abs (Z.of_nat (length s) - Z.of_nat (length t)) <= n.
Proof. induction 1; rewrite ?length_app; simpl; lia. Qed.

Lemma distance_nil_l t : distance [] t (Z.of_nat (length t)).
Proof.
  split.
  - induction t as [|c t IH] using rev_ind; [constructor|]. rewrite length_app. simpl.
    replace (Z.of_nat (length t + 1)) with (Z.of_nat (length t) + 1) by lia. by constructor.
  - intros m Hm%edits_length. simpl in Hm. lia.
Qed.

Lemma distance_nil_r s : distance s [] (Z.of_nat (length s)).
Proof.
  split.
  - induction s as [|c s IH] using rev_ind; [constructor|]. rewrite length_app. simpl.
    replace (Z.of_nat (length s + 1)) with (Z.of_nat (length s) + 1) by lia. by constructor.
  - intros m Hm%edits_length. simpl in Hm. lia.
Qed.

(** The recurrence of the matrix. *)
Lemma distance_step s t c d p0 p1 left :
  distance s t p0 -> distance s (t ++ [d]) p1 -> distance (s ++ [c]) t left ->
  distance (s ++ [c]) (t ++ [d])
    (Z.min (p1 + 1) (Z.min (left + 1) (p0 + if c =? d then 0 else 1))).
Proof.
  intros [A0 B0] [A1 B1] [A2 B2]. split.
  - destruct (Z.min_spec (p1 + 1) (Z.min (left + 1) (p0 + if c =? d then 0 else 1)))
      as [[_ ->]|[_ ->]]; [by apply edits_delete|].
    destruct (Z.min_spec (left + 1) (p0 + if c =? d then 0 else 1)) as [[_ ->]|[_ ->]];
      [by apply edits_insert|].
    destruct (Z.eqb_spec c d) as [->|Hne]; [rewrite Z.add_0_r; by apply edits_keep|
      by apply edits_replace].
  - intros m Hm. remember (s ++ [c]) as s' eqn:Hs. remember (t ++ [d]) as t' eqn:Ht.
    destruct Hm as [|s0 t0 c0 n Hn|s0 t0 c0 d0 n Hn|s0 t0 c0 n Hn|s0 t0 d0 n Hn].
    + by destruct s.
    + apply app_inj_tail in Hs as [-> ->], Ht as [-> ->]. rewrite Z.eqb_refl.
      specialize (B0 _ Hn). lia.
    + apply app_inj_tail in Hs as [-> ->], Ht as [-> ->].
      specialize (B0 _ Hn). destruct (c =? d); lia.
    + apply app_inj_tail in Hs as [-> ->]. subst t0. specialize (B1 _ Hn). lia.
    + apply app_inj_tail in Ht as [-> ->]. subst s0. specialize (B2 _ Hn). lia.
Qed.

(** One row of the matrix from the one above it. *)
Lemma row_loop_spec s c pre t prev left :
  Forall2 (distance s) (prefixes pre t) prev -> distance (s ++ [c]) pre left ->
  Forall2 (distance (s ++ [c])) (prefixes pre t) (left :: row_loop c t prev left).
Proof.
  revert pre prev left. induction t as [|d t IH]; intros pre prev left Hp Hl;
    cbn [prefixes row_loop] in *.
  - constructor; [done|constructor].
  - inversion Hp as [|? p0 ? prev1 H0 Hp1]; subst. destruct t as [|e t]; cbn [prefixes] in Hp1;
      inversion Hp1 as [|? p1 ? prev2 H1 Hp2]; subst; (constructor; [done|]);
      (apply IH; [cbn [prefixes]; by constructor|by apply distance_step]).
Qed.

Lemma rows_loop_spec s0 s t prev :
  Forall2 (distance s0) (prefixes [] t) prev ->
  Forall2 (distance (s0 ++ s)) (prefixes [] t)
    (rows_loop s t (Z.of_nat (length s0) + 1) prev).
Proof.
  revert s0 prev. induction s as [|c s IH]; intros s0 prev Hp; cbn [rows_loop];
    [by rewrite app_nil_r|].
  replace (s0 ++ c :: s) with ((s0 ++ [c]) ++ s) by by rewrite <- app_assoc.
  replace (Z.of_nat (length s0) + 1 + 1) with (Z.of_nat (length (s0 ++ [c])) + 1)
    by (rewrite length_app; simpl; lia).
  apply IH, row_loop_spec; [done|].
  replace (Z.of_nat (length s0) + 1) with (Z.of_nat (length (s0 ++ [c])))
    by (rewrite length_app; simpl; lia). apply distance_nil_r.
Qed.

Lemma first_row_spec t : Forall2 (distance []) (prefixes [] t) (first_row t).
Proof.
  unfold first_row. enough (H : forall pre, Forall2 (distance []) (prefixes pre t)
    (map Z.of_nat (seq (length pre) (S (length t))))) by apply (H []).
  induction t as [|c t IH]; intros pre; cbn [prefixes seq map length].
  - repeat constructor; apply distance_nil_l.
  - constructor; [apply distance_nil_l|]. specialize (IH (pre ++ [c])).
    rewrite length_app, Nat.add_1_r in IH. exact IH.
Qed.

Lemma prefixes_last pre t : prefixes pre t !! length t = Some (pre ++ t).
Proof.
  revert pre. induction t as [|c t IH]; intros pre; cbn [prefixes length];
    [by rewrite app_nil_r|]. cbn [lookup list_lookup]. rewrite IH, <- app_assoc. done.
Qed.

(** ** Properties *)

(** C40. The two-row program computes the edit distance: its result is the cost
    of an edit script from one text to the other, and no script is cheaper. *)
Theorem levenshteinDistance_correct s1 s2 :
  edits s1 s2 (levenshteinDistance s1 s2) /\
  forall m, edits s1 s2 m -> levenshteinDistance s1 s2 <= m.
Proof.
  change (distance s1 s2 (levenshteinDistance s1 s2)).
  destruct s1 as [|c1 s1]; [apply distance_nil_l|].
  destruct s2 as [|c2 s2]; [apply distance_nil_r|]. unfold levenshteinDistance.
  case_bool_decide as He.
  - rewrite He. split; [apply edits_refl|]. intros m. apply edits_nonneg.
  - pose proof (rows_loop_spec [] (c1 :: s1) (c2 :: s2) _ (first_row_spec (c2 :: s2))) as Hr.
    destruct (Forall2_lookup_l _ _ _ _ _ Hr (prefixes_last [] (c2 :: s2))) as (n & Hn & Hd).
    cbn [app] in Hd. change (Z.of_nat (length ([] : text)) + 1) with 1 in Hn.
    by rewrite (list_lookup_total_correct _ _ _ Hn).
Qed.

(** ** Witnesses *)

Lemma levenshteinDistance_correct_witness :
  levenshteinDistance (str "kitten") (str "sitting") = 3 /\
  edits (str "kitten") (str "sitting") 3.
Proof.
  split; [vm_compute; reflexivity|].
  exact (proj1 (levenshteinDistance_correct (str "kitten") (str "sitting"))).
Defined.
