(* ===== verification/RateLimiter.v ===== *)
(** * Rate limiting: [server_rate_limiter.cpp]

    The backoff state of the hosts that answered HTTP 429. A [QDateTime] is
    its millisecond count, an invalid one is [None]; a [QMap] is a finite map
    by host. The states are reached by the calls the client makes, with a clock
    that does not run backwards. *)
From S2P Require Import Prelude.
Open Scope cockatrice_scope.
Local Open Scope Z_scope.

(** ** State and operations *)

Definition MAX_RETRIES : Z := 5.
Definition MIN_429_BACKOFF_MS : Z := 30000.
Definition MAX_BACKOFF_MS : Z := 60000.
Definition EXHAUSTED_BACKOFF_MS : Z := 60000.
Definition RESET_GRACE_MS : Z := 300000.

Record ServerRateLimiter : Type := {
  backoffUntil : gmap string Z;
  retryRounds : gmap string Z;
  last429 : gmap string Z
}.

Definition new_limiter : ServerRateLimiter :=
  {| backoffUntil := ∅; retryRounds := ∅; last429 := ∅ |}.

Definition isRateLimited (s : ServerRateLimiter) (host : string) (now : Z) : bool :=
  match backoffUntil s !! host with
  | Some d => now <? d
  | None => false
  end.

Definition rounds (s : ServerRateLimiter) (host : string) : Z := default 0 (retryRounds s !! host).

Definition deadline (s : ServerRateLimiter) (host : string) : option Z := backoffUntil s !! host.

(** The loop over the hosts keeps the least deadline still ahead. *)
Definition earliestDeadline (s : ServerRateLimiter) (now : Z) : option Z :=
  fold_left (fun earliest (e : string * Z) =>
      if (now <? e.2) && match earliest with None => true | Some d => e.2 <? d end
      then Some e.2 else earliest)
    (map_to_list (backoffUntil s)) None.

(** The [delay] of a round. *)
Definition delay_of (round retryAfterMs : Z) : Z :=
  if MAX_RETRIES <=? round then EXHAUSTED_BACKOFF_MS
  else Z.min (Z.max MIN_429_BACKOFF_MS retryAfterMs) MAX_BACKOFF_MS.

Definition on429 (s : ServerRateLimiter) (host : string) (now retryAfterMs : Z)
    : ServerRateLimiter * Z :=
  let existing := backoffUntil s !! host in
  let round := rounds s host in
  let fresh_window := match existing with None => true | Some d => d <=? now end in
  let round :=
    if fresh_window then
      let round :=
        match last429 s !! host with
        | Some l => if l + RESET_GRACE_MS <=? now then 0 else round
        | None => round
        end in
      Z.min (round + 1) MAX_RETRIES
    else round in
  let new_rounds := if fresh_window then <[host := round]> (retryRounds s) else retryRounds s in
  let d := now + delay_of round retryAfterMs in
  let d := match existing with Some e => if d <? e then e else d | None => d end in
  ({| backoffUntil := <[host := d]> (backoffUntil s); retryRounds := new_rounds;
      last429 := <[host := now]> (last429 s) |}, d).

Definition onSuccess (s : ServerRateLimiter) (host : string) : ServerRateLimiter :=
  {| backoffUntil := delete host (backoffUntil s); retryRounds := delete host (retryRounds s);
     last429 := delete host (last429 s) |}.

(** One step of the loop of [clearExpired], at the entry of [host]. *)
Definition clear_host (now : Z) (s : ServerRateLimiter) (e : string * Z) : ServerRateLimiter :=
  let '(host, d) := e in
  if now <? d then s
  else
    let budgetStillFresh :=
      match last429 s !! host with Some l => now <? l + RESET_GRACE_MS | None => false end in
    if budgetStillFresh
    then {| backoffUntil := delete host (backoffUntil s); retryRounds := retryRounds s;
            last429 := last429 s |}
    else onSuccess s host.

Definition clearExpired (s : ServerRateLimiter) (now : Z) : ServerRateLimiter :=
  fold_left (clear_host now) (map_to_list (backoffUntil s)) s.

(** ** The calls as a step relation *)

Inductive limiter_event : Type :=
| Rejected (host : string) (retryAfterMs : Z)
| Succeeded (host : string)
| Swept.

Definition limiter_step (s : ServerRateLimiter) (now : Z) (e : limiter_event)
    : ServerRateLimiter :=
  match e with
  | Rejected host retryAfterMs => (on429 s host now retryAfterMs).1
  | Succeeded host => onSuccess s host
  | Swept => clearExpired s now
  end.

(** [reachable now s]: the calls so far, the last of them at [now] or before,
    lead to [s]. *)
Inductive reachable : Z -> ServerRateLimiter -> Prop :=
| reachable_new now : reachable now new_limiter
| reachable_wait now later s : reachable now s -> now <= later -> reachable later s
| reachable_event now s e : reachable now s -> reachable now (limiter_step s now e).

(** ** Specification *)

(** The last 429 of a host with a backoff is known and sets its deadline, a host
    has a round count exactly when its last 429 is known, and counts run from
    one to the maximum. *)
Record limiter_ok (now : Z) (s : ServerRateLimiter) : Prop := {
  ok_deadline : forall host d, backoffUntil s !! host = Some d ->
    exists l, last429 s !! host = Some l /\
      l + MIN_429_BACKOFF_MS <= d <= l + MAX_BACKOFF_MS;
  ok_known : forall host, is_Some (retryRounds s !! host) <-> is_Some (last429 s !! host);
  ok_rounds : forall host r, retryRounds s !! host = Some r -> 1 <= r <= MAX_RETRIES;
  ok_past : forall host l, last429 s !! host = Some l -> l <= now
}.

Ltac limiter_consts :=
  unfold MAX_RETRIES, MIN_429_BACKOFF_MS, MAX_BACKOFF_MS, EXHAUSTED_BACKOFF_MS,
    RESET_GRACE_MS in *.

(** ** Lemmas *)

Lemma delay_bounds round retry : MIN_429_BACKOFF_MS <= delay_of round retry <= MAX_BACKOFF_MS.
Proof. unfold delay_of. limiter_consts. destruct (5 <=? round); lia. Qed.

Lemma rounds_of s host : rounds s host = default 0 (retryRounds s !! host).
Proof. done. Qed.

Lemma default_Some (x : Z) : default 0 (Some x) = x.
Proof. done. Qed.

Lemma ok_rounds_value now s host : limiter_ok now s -> 0 <= rounds s host <= MAX_RETRIES.
Proof.
  intros Hok. unfold rounds. destruct (retryRounds s !! host) as [r|] eqn:Hr; simpl.
  - pose proof (ok_rounds _ _ Hok _ _ Hr). lia.
  - limiter_consts. lia.
Qed.

Lemma on429_deadline s host now retry :
  limiter_ok now s ->
  now + MIN_429_BACKOFF_MS <= (on429 s host now retry).2 <= now + MAX_BACKOFF_MS.
Proof.
  intros Hok. unfold on429. cbn [snd].
  match goal with |- context [delay_of ?round retry] => set (r := round) end.
  pose proof (delay_bounds r retry) as Hd.
  destruct (backoffUntil s !! host) as [e|] eqn:He; [|lia].
  destruct (ok_deadline _ _ Hok _ _ He) as (l & Hl & Hb). pose proof (ok_past _ _ Hok _ _ Hl).
  destruct (Z.ltb_spec (now + delay_of r retry) e); lia.
Qed.

Lemma on429_ok s host now retry :
  limiter_ok now s -> limiter_ok now (on429 s host now retry).1.
Proof.
  intros Hok. pose proof (on429_deadline s host now retry Hok) as Hd.
  pose proof (ok_rounds_value now s host Hok) as Hr. unfold on429 in *. cbn [fst snd] in *.
  set (d := match backoffUntil s !! host with Some _ => _ | None => _ end) in *.
  split; cbn [backoffUntil retryRounds last429].
  - intros h d' Hh. destruct (decide (host = h)) as [<-|Hne].
    + rewrite lookup_insert_eq in Hh. simplify_eq. exists now. split; [apply lookup_insert_eq|done].
    + rewrite lookup_insert_ne in Hh |- * by done. by apply (ok_deadline _ _ Hok).
  - intros h. pose proof (ok_known _ _ Hok h) as Hk. destruct (decide (host = h)) as [<-|Hne].
    + rewrite lookup_insert_eq. split; [by eexists|]. intros _.
      destruct (backoffUntil s !! host) as [e|] eqn:He;
        [destruct (Z.leb_spec e now)|]; rewrite ?lookup_insert_eq; [by eexists| |by eexists].
      apply Hk. destruct (ok_deadline _ _ Hok _ _ He) as (l & Hl & _). by exists l.
    + rewrite (lookup_insert_ne _ host h) by done. rewrite <- Hk.
      destruct (backoffUntil s !! host) as [e|]; [destruct (e <=? now)|];
        rewrite ?lookup_insert_ne by done; done.
  - intros h r. destruct (decide (host = h)) as [<-|Hne].
    + intros Hh.
      assert (Hmin : forall b : bool,
        1 <= Z.min ((match last429 s !! host with
                     | Some l => if l + RESET_GRACE_MS <=? now then 0 else rounds s host
                     | None => rounds s host end) + 1) MAX_RETRIES <= MAX_RETRIES).
      { intros _. limiter_consts. destruct (last429 s !! host) as [l|]; [|lia].
        destruct (l + 300000 <=? now); lia. }
      destruct (backoffUntil s !! host) as [e|]; [destruct (e <=? now)|];
        rewrite ?lookup_insert_eq in Hh; simplify_eq; try (by apply (Hmin true));
        by apply (ok_rounds _ _ Hok _ _ Hh).
    + intros Hh. apply (ok_rounds _ _ Hok h).
      destruct (backoffUntil s !! host) as [e|]; [destruct (e <=? now)|];
        rewrite ?lookup_insert_ne in Hh by done; done.
  - intros h l. destruct (decide (host = h)) as [<-|Hne].
    + rewrite lookup_insert_eq. intros [= <-]. lia.
    + rewrite lookup_insert_ne by done. apply (ok_past _ _ Hok).
Qed.

Lemma onSuccess_ok s host now : limiter_ok now s -> limiter_ok now (onSuccess s host).
Proof.
  intros Hok. split; cbn [onSuccess backoffUntil retryRounds last429]; intros h;
    destruct (decide (host = h)) as [<-|Hne];
    rewrite ?lookup_delete_eq, ?lookup_delete_ne by done; try done; by apply Hok.
Qed.

Lemma clear_host_ok now s e : limiter_ok now s -> limiter_ok now (clear_host now s e).
Proof.
  intros Hok. destruct e as [host d]. unfold clear_host. destruct (now <? d); [done|].
  match goal with |- context [if ?b then _ else onSuccess _ _] => destruct b end; [|by apply onSuccess_ok].
  split; cbn [backoffUntil retryRounds last429]; try by apply Hok.
  intros h d'. destruct (decide (host = h)) as [<-|Hne];
    rewrite ?lookup_delete_eq, ?lookup_delete_ne by done; [done|by apply Hok].
Qed.

Lemma clearExpired_ok now s : limiter_ok now s -> limiter_ok now (clearExpired s now).
Proof.
  unfold clearExpired. generalize (map_to_list (backoffUntil s)) as es. intros es. revert s.
  induction es as [|e es IH]; intros s Hok; cbn [fold_left]; [done|]. by apply IH, clear_host_ok.
Qed.

Lemma reachable_ok now s : reachable now s -> limiter_ok now s.
Proof.
  induction 1 as [now|now later s _ IH Hle|now s [host retry|host|] _ IH]; cbn [limiter_step].
  - split; cbn [new_limiter backoffUntil retryRounds last429]; intros h; rewrite ?lookup_empty;
      done.
  - destruct IH as [H1 H2 H3 H4]. split; try done. intros h l Hl. specialize (H4 h l Hl). lia.
  - by apply on429_ok.
  - by apply onSuccess_ok.
  - by apply clearExpired_ok.
Qed.

(** ** Properties *)

(** C37. Whatever calls were made, with a clock that does not run backwards: a
    host is rate limited only within a minute of its last 429, its round count
    stays within the budget, and a new 429 limits it at once, for 30 to 60
    seconds from now, never before a deadline already set, and uses up one
    round only if no window is open. *)
Theorem limiter_reachable now s host retryAfterMs :
  reachable now s ->
  (forall t, isRateLimited s host t = true ->
     exists l, last429 s !! host = Some l /\ l <= now /\ t < l + MAX_BACKOFF_MS) /\
  0 <= rounds s host <= MAX_RETRIES /\
  let '(s', d) := on429 s host now retryAfterMs in
  isRateLimited s' host now = true /\ deadline s' host = Some d /\
  now + MIN_429_BACKOFF_MS <= d <= now + MAX_BACKOFF_MS /\
  (forall e, deadline s host = Some e -> e <= d) /\
  (isRateLimited s host now = true -> rounds s' host = rounds s host) /\
  (rounds s' host <= rounds s host + 1).
Proof.
  intros Hre. pose proof (reachable_ok _ _ Hre) as Hok.
  pose proof (on429_deadline s host now retryAfterMs Hok) as Hd.
  pose proof (ok_rounds_value now s host Hok) as Hr. split; [|split; [exact Hr|]].
  - intros t. unfold isRateLimited. destruct (backoffUntil s !! host) as [e|] eqn:He; [|done].
    intros Ht%Z.ltb_lt. destruct (ok_deadline _ _ Hok _ _ He) as (l & Hl & Hb).
    exists l. split; [done|]. split; [by apply (ok_past _ _ Hok host)|lia].
  - destruct (on429 s host now retryAfterMs) as [s' d] eqn:Ho. cbn [snd] in Hd.
    unfold on429 in Ho. injection Ho as <- Hd'. unfold isRateLimited, deadline. cbn [backoffUntil].
    rewrite Hd', lookup_insert_eq.
    split; [apply Z.ltb_lt; limiter_consts; lia|]. split; [done|]. split; [done|].
    destruct (backoffUntil s !! host) as [e|] eqn:He.
    + split.
      { intros e' [= <-]. revert Hd'.
        match goal with |- context [?t <? e] => destruct (Z.ltb_spec t e) end; intros <-; lia. }
      rewrite rounds_of in Hr. rewrite !rounds_of. cbn [retryRounds].
      destruct (Z.leb_spec e now) as [Hle|Hgt]; rewrite ?lookup_insert_eq.
      * split; [intros Ht%Z.ltb_lt; lia|]. rewrite default_Some. limiter_consts.
        destruct (last429 s !! host) as [l|]; [destruct (l + 300000 <=? now)|]; lia.
      * split; [done|]. lia.
    + split; [done|]. split; [done|]. rewrite (rounds_of (Build_ServerRateLimiter _ _ _)).
      cbn [retryRounds]. rewrite lookup_insert_eq, default_Some. limiter_consts.
      destruct (last429 s !! host) as [l|]; [destruct (l + 300000 <=? now)|]; lia.
Qed.

(** ** Witnesses *)

Lemma limiter_reachable_witness :
  let s := (on429 new_limiter "api.example.org" 1000 45000).1 in
  reachable 2000 s /\ rounds (on429 s "api.example.org" 2000 0).1 "api.example.org" = 1 /\
  isRateLimited (on429 s "api.example.org" 2000 0).1 "api.example.org" 2000 = true.
Proof.
  intros s. assert (Hre : reachable 2000 s).
  { apply (reachable_wait 1000); [|discriminate].
    apply (reachable_event 1000 new_limiter (Rejected "api.example.org" 45000)), reachable_new. }
  split; [exact Hre|]. split; [vm_compute; reflexivity|].
  destruct (limiter_reachable 2000 s "api.example.org" 0 Hre) as (_ & _ & Hl).
  exact (proj1 Hl).
Defined.
