(* ===== verification/TranslationLoader.v ===== *)
(** * Loading translations: [libcockatrice_utility/.../translation_loader.cpp]

    The directories that are searched, the languages a selector offers, their
    display names and the search itself. The library and the file system are
    an interface ([Platform]); the log lines are not modelled. *)
From Stdlib Require Import Sorted.
From S2P Require Import Prelude.
Open Scope cockatrice_scope.
Local Open Scope Z_scope.

(** ** Texts *)

(** [QStringLiteral]: the UTF-16 units of a UTF-8 literal. *)
Fixpoint qs (s : string) : text :=
  match s with
  | EmptyString => []
  | String a r =>
      let x := chr a in
      if x <? 128 then x :: qs r
      else if x <? 224 then
        match r with
        | String b r' => ((x - 192) * 64 + (chr b - 128)) :: qs r'
        | EmptyString => []
        end
      else if x <? 240 then
        match r with
        | String b (String c r') =>
            ((x - 224) * 4096 + (chr b - 128) * 64 + (chr c - 128)) :: qs r'
        | _ => []
        end
      else
        match r with
        | String b (String c (String d r')) =>
            let p := (x - 240) * 262144 + (chr b - 128) * 4096 + (chr c - 128) * 64 +
                     (chr d - 128) - 65536 in
            (55296 + p / 1024) :: (56320 + p mod 1024) :: qs r'
        | _ => []
        end
  end.

(** ** The platform *)

(** What the functions ask Qt: where it is installed, what exists, what a
    directory lists, the native name of a language, and the loading of a file
    into a translator, which replaces what the translator held. *)
Class Platform : Type := {
  reported_paths : list text;
  prefix_path : text;
  data_path : text;
  application_dir : text;
  exists_path : text -> bool;
  entry_list : text -> list text;
  native_language_name : text -> text;
  translator : Type;
  load : translator -> text -> text -> translator * bool;
  load_replaces : forall t t' hint dir, (load t hint dir).2 = (load t' hint dir).2
}.

Inductive TranslationLoadResult : Type :=
| Loaded
| Missing
| NoDirectory.

#[export] Instance TranslationLoadResult_eq_dec : EqDecision TranslationLoadResult.
Proof. solve_decision. Defined.

(** The loop that keeps each non-empty entry once. *)
Definition add_unique (paths : list text) (p : text) : list text :=
  if bool_decide (p = []) || bool_decide (p ∈ paths) then paths else paths ++ [p].

Definition displayNames : list (text * text) :=
  [(qs "ca", qs "Català (Catalan)");
   (qs "cs", qs "Česky (Czech)");
   (qs "de", qs "Deutsch (German)");
   (qs "el", qs "Ελληνικά (Greek)");
   (qs "en@pirate", qs "English, arr! (Pirate English)");
   (qs "en_US", qs "English (United States)");
   (qs "es", qs "Español (Spanish)");
   (qs "et", qs "Eesti Keel (Estonian)");
   (qs "fi", qs "Suomi (Finnish)");
   (qs "fr", qs "Français (French)");
   (qs "hu", qs "Magyar (Hungarian)");
   (qs "it", qs "Italiano (Italian)");
   (qs "ja", qs "日本語 (Japanese)");
   (qs "ko", qs "한국어 (Korean)");
   (qs "nb", qs "Norsk Bokmål (Norwegian Bokmål)");
   (qs "nl", qs "Nederlands (Dutch)");
   (qs "pl", qs "Polski (Polish)");
   (qs "pt", qs "Português (Portuguese)");
   (qs "pt_BR", qs "Português do Brasil (Brazilian Portuguese)");
   (qs "ru", qs "Русский (Russian)");
   (qs "sr", qs "Srpski (Serbian)");
   (qs "sv", qs "Svenska (Swedish)");
   (qs "tr", qs "Türkçe (Turkish)");
   (qs "yue", qs "粵語 (Cantonese)");
   (qs "zh-Hans", qs "简体中文 (Chinese Simplified)");
   (qs "zh-Hant", qs "繁體中文 (Chinese Traditional)")].

(** [QHash::value]: the empty text when the key is absent. *)
Fixpoint hash_value (h : list (text * text)) (k : text) : text :=
  match h with
  | [] => []
  | (k', v) :: h' => if bool_decide (k = k') then v else hash_value h' k
  end.

(** The anchored pattern of the file names: the prefix, an underscore, any run
    of characters but line feeds (the captured language) and [.qm]. *)
Definition strip_text_prefix (p s : text) : option text :=
  if bool_decide (take (length p) s = p) then Some (drop (length p) s) else None.

Definition captured_language (prefix file_name : text) : option text :=
  r ← strip_text_prefix (prefix ++ qs "_") file_name;
  l ← strip_text_prefix (rev (qs ".qm")) (rev r);
  if bool_decide (10 ∈ l) then None else Some (rev l).

(** [QSet::insert] followed by [std::sort]: the set as its sorted list. *)
Fixpoint insert_language (l : text) (ls : list text) : list text :=
  match ls with
  | [] => [l]
  | l' :: ls' =>
      if lex_lt l l' then l :: ls
      else if lex_lt l' l then l' :: insert_language l ls'
      else ls
  end.

Definition languages_in (prefix : text) (files : list text) (ls : list text) : list text :=
  fold_left (fun ls f => match captured_language prefix f with
                         | Some l => insert_language l ls
                         | None => ls
                         end) files ls.

Section Loader.
Context `{Platform}.

Definition qtTranslationCandidates : list text :=
  fold_left add_unique
    (reported_paths ++
     [prefix_path ++ qs "/share/qt6/translations";
      prefix_path ++ qs "/share/qt/translations";
      prefix_path ++ qs "/translations";
      data_path ++ qs "/translations"]) [].

Definition qtTranslationPaths : list text :=
  List.filter exists_path qtTranslationCandidates.

Definition applicationTranslationPaths (installed_path : text) : list text :=
  fold_left add_unique [installed_path; application_dir] [].

Definition availableLanguages (prefix : text) (directories : list text) : list text :=
  fold_left (fun ls d => if bool_decide (d = []) then ls
                         else languages_in prefix (entry_list d) ls) directories [].

Definition languageDisplayName (lang : text) : text :=
  if bool_decide (lang = []) then []
  else
    let display_name := hash_value displayNames lang in
    if negb (bool_decide (display_name = [])) then display_name
    else
      let native_name := native_language_name lang in
      if bool_decide (native_name = []) then lang else native_name.

Definition defaultLanguageCode : text := qs "en_US".

Fixpoint load_from_loop (t : translator) (hint : text) (directories : list text)
    (any : bool) : translator * TranslationLoadResult :=
  match directories with
  | [] => (t, if any then Missing else NoDirectory)
  | d :: ds =>
      if bool_decide (d = []) || negb (exists_path d) then load_from_loop t hint ds any
      else
        let '(t', ok) := load t hint d in
        if ok then (t', Loaded) else load_from_loop t' hint ds true
  end.

Definition loadFrom (t : translator) (hint : text) (directories : list text)
    : translator * TranslationLoadResult :=
  load_from_loop t hint directories false.

Definition loadQt (t : translator) (lang : text) : translator * TranslationLoadResult :=
  if bool_decide (lang = []) then (t, Missing)
  else loadFrom t (qs "qt_" ++ lang) qtTranslationPaths.

Definition loadApplication (t : translator) (prefix lang : text)
    (directories : list text) : translator * TranslationLoadResult :=
  if bool_decide (lang = []) then (t, Missing)
  else loadFrom t (prefix ++ qs "_" ++ lang) directories.
End Loader.

(** ** A concrete platform *)

(** A disk as the list of its directories with the files of each; a translator
    holds the path it was loaded from, and a load succeeds when the file
    [hint.qm] is in the directory. *)
Definition disk_files (disk : list (text * list text)) (d : text) : list text :=
  concat (map snd (List.filter (fun e => bool_decide (e.1 = d)) disk)).

#[export] Instance disk_platform (disk : list (text * list text)) : Platform := {
  reported_paths := [qs "/usr/translations"];
  prefix_path := qs "/usr";
  data_path := qs "/usr";
  application_dir := qs "/opt/cockatrice";
  exists_path := fun d => existsb (fun e => bool_decide (e.1 = d)) disk;
  entry_list := disk_files disk;
  native_language_name := fun _ => [];
  translator := option (text * text);
  load := fun _ hint dir =>
    let found := bool_decide (hint ++ qs ".qm" ∈ disk_files disk dir) in
    (if found then Some (dir, hint) else None, found);
  load_replaces := fun _ _ _ _ => eq_refl
}.

(** ** Lemmas *)

Lemma add_unique_fold l acc :
  NoDup acc -> [] ∉ acc ->
  let r := fold_left add_unique l acc in
  NoDup r /\ (forall p, p ∈ r <-> p ∈ acc \/ (p ∈ l /\ p <> [])) /\
  exists k, r = acc ++ k /\ k `sublist_of` l.
Proof.
  revert acc. induction l as [|p l IH]; intros acc Hn He; cbn [fold_left].
  - split_and!; [done|set_solver|]. exists []. by rewrite app_nil_r.
  - assert (Hc : (add_unique acc p = acc /\ (p = [] \/ p ∈ acc)) \/
                 (add_unique acc p = acc ++ [p] /\ p <> [] /\ p ∉ acc)).
    { unfold add_unique. destruct (bool_decide_reflect (p = [])), (bool_decide_reflect (p ∈ acc));
        simpl; tauto. }
    destruct Hc as [[-> Hp]|(-> & Hp & Hin)].
    + destruct (IH acc Hn He) as (H1 & H2 & k & H3 & H4).
      split_and!; [done|intros q; rewrite H2; set_solver|]. exists k. split; [done|].
      by apply sublist_cons.
    + destruct (IH (acc ++ [p])) as (H1 & H2 & k & H3 & H4).
      { apply NoDup_app. split_and!; [done|set_solver|apply NoDup_singleton]. }
      { set_solver. }
      split_and!; [done|intros q; rewrite H2; set_solver|].
      exists (p :: k). rewrite H3, <- app_assoc. split; [done|]. by apply sublist_skip.
Qed.

Lemma strip_text_prefix_Some p s r : strip_text_prefix p s = Some r <-> s = p ++ r.
Proof.
  unfold strip_text_prefix. case_bool_decide as Hp.
  - split.
    + intros [= <-]. by rewrite <- Hp at 1; rewrite take_drop.
    + intros ->. by rewrite drop_app_length.
  - split; [done|]. intros ->. by rewrite take_app_length in Hp.
Qed.

Lemma captured_language_Some prefix f l :
  captured_language prefix f = Some l <->
  f = prefix ++ qs "_" ++ l ++ qs ".qm" /\ 10 ∉ l.
Proof.
  unfold captured_language. split.
  - intros (r & Hr & Hf)%bind_Some. apply bind_Some in Hf as (l' & Hl & Hf).
    apply strip_text_prefix_Some in Hr as ->, Hl. case_bool_decide as Hn; [done|].
    simplify_eq. apply (f_equal (@rev Z)) in Hl. rewrite rev_involutive, rev_app_distr in Hl.
    rewrite rev_involutive in Hl. rewrite Hl, <- app_assoc. split; [done|].
    by rewrite list_elem_of_In, <- in_rev, <- list_elem_of_In.
  - intros [-> Hn]. apply bind_Some. exists (l ++ qs ".qm").
    split; [apply strip_text_prefix_Some; by rewrite <- app_assoc|].
    apply bind_Some. exists (rev l). split; [apply strip_text_prefix_Some, rev_app_distr|].
    rewrite bool_decide_eq_false_2, rev_involutive; [done|].
    by rewrite list_elem_of_In, <- in_rev, <- list_elem_of_In.
Qed.

Definition language_order : relation text := fun s t => lex_lt s t = true.

Lemma insert_language_elem l k ls : k ∈ insert_language l ls <-> k = l \/ k ∈ ls.
Proof.
  induction ls as [|l' ls IH]; cbn [insert_language]; [set_solver|].
  destruct (lex_lt l l') eqn:H1; [set_solver|].
  destruct (lex_lt l' l) eqn:H2; [rewrite !elem_of_cons, IH; set_solver|].
  rewrite (lex_lt_antisym l l' H1 H2). set_solver.
Qed.

Lemma insert_language_sorted l ls :
  StronglySorted language_order ls -> StronglySorted language_order (insert_language l ls).
Proof.
  induction 1 as [|l' ls Hs IH Hall]; cbn [insert_language]; [by repeat constructor|].
  destruct (lex_lt l l') eqn:H1.
  - constructor; [by constructor|]. constructor; [done|].
    eapply Forall_impl; [exact Hall|]. intros k. by apply lex_lt_trans.
  - destruct (lex_lt l' l) eqn:H2; [|by constructor]. constructor; [done|].
    apply Forall_forall. intros k Hk. change (k ∈ insert_language l ls) in Hk.
    apply insert_language_elem in Hk as [->|Hk]; [done|]. rewrite Forall_forall in Hall.
    by apply Hall.
Qed.

Lemma languages_in_spec prefix files ls :
  StronglySorted language_order ls ->
  StronglySorted language_order (languages_in prefix files ls) /\
  forall l, l ∈ languages_in prefix files ls <->
    l ∈ ls \/ exists f, f ∈ files /\ captured_language prefix f = Some l.
Proof.
  unfold languages_in. revert ls. induction files as [|f files IH]; intros ls Hs; cbn [fold_left].
  - split; [done|]. intros l. set_solver.
  - destruct (captured_language prefix f) as [l'|] eqn:Hf.
    + destruct (IH (insert_language l' ls) (insert_language_sorted _ _ Hs)) as [H1 H2].
      split; [done|]. intros l. rewrite H2, insert_language_elem. set_solver.
    + destruct (IH ls Hs) as [H1 H2]. split; [done|]. intros l. rewrite H2. set_solver.
Qed.

Lemma hash_value_nonempty h k :
  Forall (fun e : text * text => e.2 <> []) h ->
  hash_value h k = [] <-> k ∉ map fst h.
Proof.
  induction 1 as [|[k' v] h Hv Hh IH]; cbn [hash_value map fst]; [set_solver|].
  case_bool_decide as Hk; [set_solver|]. rewrite IH. set_solver.
Qed.

Section LoaderFacts.
Context `{Platform}.

(** The directories a search looks into. *)
Definition searched (directories : list text) : list text :=
  List.filter (fun d => negb (bool_decide (d = []) || negb (exists_path d))) directories.

(** Whether a load from a directory succeeds; what the translator held
    before does not matter. *)
Definition loads (hint dir : text) : Prop := forall t, (load t hint dir).2 = true.

Lemma load_fails t hint d : (load t hint d).2 = false -> ~ loads hint d.
Proof. intros Hf Hl. specialize (Hl t). congruence. Qed.

Lemma load_works t hint d : (load t hint d).2 = true -> loads hint d.
Proof. intros Hf t'. by rewrite (load_replaces t' t). Qed.

Lemma load_from_loop_spec hint ds t any :
  let S := searched ds in
  match load_from_loop t hint ds any with
  | (t', Loaded) => exists pre d suf t0, S = pre ++ d :: suf /\
      Forall (fun d => ~ loads hint d) pre /\ loads hint d /\ t' = (load t0 hint d).1
  | (t', Missing) => (any = true \/ S <> []) /\ Forall (fun d => ~ loads hint d) S
  | (t', NoDirectory) => any = false /\ S = [] /\ t' = t
  end.
Proof.
  revert t any. induction ds as [|d ds IH]; intros t any; cbn [searched List.filter load_from_loop].
  { destruct any; split_and!; auto. }
  destruct (_ || _); cbn [negb]; [apply IH|].
  destruct (load t hint d) as [t1 ok] eqn:Hl. fold (searched ds). destruct ok.
  - exists [], d, (searched ds), t. rewrite Hl. split_and!; try done.
    apply (load_works t). by rewrite Hl.
  - assert (Hn : ~ loads hint d) by (apply (load_fails t); by rewrite Hl).
    specialize (IH t1 true). destruct (load_from_loop t1 hint ds true) as [t' []].
    + destruct IH as (pre & d' & suf & t0 & HS & Hp & Hd & Ht).
      exists (d :: pre), d', suf, t0. rewrite HS. split_and!; try done. by constructor.
    + destruct IH as [_ Hf]. split; [by right|by constructor].
    + by destruct IH as [? _].
Qed.
Lemma available_fold prefix ds ls :
  StronglySorted language_order ls ->
  let r := fold_left (fun ls d => if bool_decide (d = []) then ls
                         else languages_in prefix (entry_list d) ls) ds ls in
  StronglySorted language_order r /\
  forall l, l ∈ r <-> l ∈ ls \/
    (10 ∉ l /\ exists d, d ∈ ds /\ d <> [] /\ prefix ++ qs "_" ++ l ++ qs ".qm" ∈ entry_list d).
Proof.
  revert ls. induction ds as [|d ds IH]; intros ls Hs; cbn [fold_left]; [split; [done|set_solver]|].
  case_bool_decide as Hd.
  - destruct (IH ls Hs) as [H1 H2]. split; [done|]. intros l. rewrite H2. set_solver.
  - destruct (languages_in_spec prefix (entry_list d) ls Hs) as [H1 H2].
    destruct (IH _ H1) as [H3 H4]. split; [done|]. intros l. rewrite H4, H2.
    setoid_rewrite captured_language_Some. set_solver.
Qed.
End LoaderFacts.

(** ** Properties *)

(** The search returns what its three results promise, for every platform:
    [Loaded] with the translator loaded from the first existing directory that
    holds the file, [Missing] when some directory exists and none holds it, and
    [NoDirectory], with the translator untouched, when none exists. *)
Theorem loadFrom_spec `{Platform} t hint ds :
  match loadFrom t hint ds with
  | (t', Loaded) => exists pre d suf t0, searched ds = pre ++ d :: suf /\
      Forall (fun d => ~ loads hint d) pre /\ loads hint d /\ t' = (load t0 hint d).1
  | (t', Missing) => searched ds <> [] /\ Forall (fun d => ~ loads hint d) (searched ds)
  | (t', NoDirectory) => searched ds = [] /\ t' = t
  end.
Proof.
  unfold loadFrom. pose proof (load_from_loop_spec hint ds t false) as Hs.
  destruct (load_from_loop t hint ds false) as [t' []]; [done|naive_solver|naive_solver].
Qed.

(** The language list is in strictly increasing code order, so without
    duplicates, and holds exactly the languages with a [prefix_lang.qm] file in
    one of the named directories. *)
Theorem availableLanguages_spec `{Platform} prefix ds :
  StronglySorted language_order (availableLanguages prefix ds) /\
  forall l, l ∈ availableLanguages prefix ds <->
    10 ∉ l /\ exists d, d ∈ ds /\ d <> [] /\ prefix ++ qs "_" ++ l ++ qs ".qm" ∈ entry_list d.
Proof.
  destruct (available_fold prefix ds [] ltac:(constructor)) as [H1 H2].
  split; [done|]. intros l. rewrite H2. split; [|naive_solver].
  intros [Hl|Hl]; [by apply not_elem_of_nil in Hl|done].
Qed.

(** A label is never blank: the display name of a language is empty only
    for the empty code, whatever Qt knows of it, and for a code of the table it
    is the table's name and does not depend on Qt. *)
Theorem languageDisplayName_spec `{Platform} lang :
  (languageDisplayName lang = [] <-> lang = []) /\
  (lang ∈ map fst displayNames -> languageDisplayName lang = hash_value displayNames lang).
Proof.
  assert (Hne : Forall (fun e : text * text => e.2 <> []) displayNames)
    by (repeat (apply Forall_cons; split; [discriminate|]); apply Forall_nil_2).
  pose proof (hash_value_nonempty _ lang Hne) as Hh. unfold languageDisplayName.
  destruct (bool_decide_reflect (lang = [])) as [->|Hl]; [split; [done|intros _; reflexivity]|].
  destruct (bool_decide_reflect (hash_value displayNames lang = [])) as [H0|H0]; cbn [negb].
  - destruct (bool_decide_reflect (native_language_name lang = [])); split; tauto || by split.
  - split; [by split|done].
Qed.

(** The application paths are the installed one and then the executable's,
    each once and never empty; the Qt candidates likewise are the non-empty
    paths the library reports and the usual layouts, in that order and without
    duplicates, and the paths searched are those of them that exist. *)
Theorem search_paths_spec `{Platform} installed :
  let layouts := [prefix_path ++ qs "/share/qt6/translations";
                  prefix_path ++ qs "/share/qt/translations";
                  prefix_path ++ qs "/translations"; data_path ++ qs "/translations"] in
  (NoDup (applicationTranslationPaths installed) /\
   applicationTranslationPaths installed `sublist_of` [installed; application_dir] /\
   forall p, p ∈ applicationTranslationPaths installed <->
     (p = installed \/ p = application_dir) /\ p <> []) /\
  (NoDup qtTranslationCandidates /\
   qtTranslationCandidates `sublist_of` reported_paths ++ layouts /\
   forall p, p ∈ qtTranslationCandidates <-> (p ∈ reported_paths ++ layouts) /\ p <> []) /\
  (forall p, p ∈ qtTranslationPaths <-> p ∈ qtTranslationCandidates /\ exists_path p = true).
Proof.
  intros layouts. unfold applicationTranslationPaths, qtTranslationCandidates, qtTranslationPaths.
  destruct (add_unique_fold [installed; application_dir] [] ltac:(constructor) ltac:(set_solver))
    as (H1 & H2 & k & H3 & H4).
  destruct (add_unique_fold (reported_paths ++ layouts) [] ltac:(constructor) ltac:(set_solver))
    as (H5 & H6 & k' & H7 & H8).
  split_and!; try done.
  - by rewrite H3.
  - intros p. rewrite H2. set_solver.
  - fold layouts. by rewrite H7.
  - intros p. fold layouts. rewrite H6. set_solver.
  - intros p. by rewrite !list_elem_of_In, filter_In.
Qed.

(** A language the selector offers can be loaded: if every listed
    [.qm] file loads from its directory, then each offered language other than
    the empty one is found by [loadApplication] in the same directories. *)
Theorem offered_language_loads `{Platform} t prefix ds lang :
  (forall d, d ∈ ds -> d <> [] -> exists_path d = true) ->
  (forall d hint, d ∈ ds -> hint ++ qs ".qm" ∈ entry_list d -> loads hint d) ->
  lang ∈ availableLanguages prefix ds -> lang <> [] ->
  (loadApplication t prefix lang ds).2 = Loaded.
Proof.
  intros Hex Hl Hlang Hne. apply (available_fold prefix ds [] ltac:(constructor)) in Hlang
    as [Hlang|(_ & d & Hd & Hd0 & Hf)]; [by apply not_elem_of_nil in Hlang|].
  unfold loadApplication, loadFrom. rewrite bool_decide_eq_false_2 by done.
  pose proof (load_from_loop_spec (prefix ++ qs "_" ++ lang) ds t false) as Hs.
  assert (Hload : loads (prefix ++ qs "_" ++ lang) d) by (apply Hl; by rewrite <- ?app_assoc).
  assert (Hin : d ∈ searched ds).
  { unfold searched. rewrite list_elem_of_In, filter_In, <- list_elem_of_In.
    rewrite bool_decide_eq_false_2, Hex by done. done. }
  destruct (load_from_loop _ _ _ _) as [t' []]; [done| |].
  - destruct Hs as [_ Hall]. rewrite Forall_forall in Hall. by destruct (Hall d Hin).
  - destruct Hs as (_ & Hs & _). rewrite Hs in Hin. by apply not_elem_of_nil in Hin.
Qed.

(** Loading Qt's own translation reports [NoDirectory] exactly for a set
    language when no candidate directory exists; an unset language is reported
    as [Missing] and leaves the translator alone. *)
Theorem loadQt_spec `{Platform} t lang :
  ((loadQt t lang).2 = NoDirectory <->
     lang <> [] /\ forall p, p ∈ qtTranslationCandidates -> exists_path p = false) /\
  (lang = [] -> loadQt t lang = (t, Missing)).
Proof.
  unfold loadQt. destruct (bool_decide_reflect (lang = [])) as [Hl|Hl]; [naive_solver|].
  split; [|done]. unfold loadFrom.
  pose proof (load_from_loop_spec (qs "qt_" ++ lang) qtTranslationPaths t false) as Hs.
  assert (Hsp : searched qtTranslationPaths = [] <->
    forall p, p ∈ qtTranslationCandidates -> exists_path p = false).
  { unfold searched, qtTranslationPaths.
    assert (Hne : forall p, p ∈ qtTranslationCandidates -> p <> []).
    { intros p Hp. unfold qtTranslationCandidates in Hp.
      apply (add_unique_fold _ [] ltac:(constructor) ltac:(set_solver)) in Hp. set_solver. }
    revert Hne. generalize qtTranslationCandidates as ps. induction ps as [|p ps IH]; intros Hne.
    - split; [set_solver|done].
    - cbn [List.filter]. destruct (exists_path p) eqn:Hp.
      + cbn [List.filter]. rewrite bool_decide_eq_false_2, Hp by (apply Hne; by left).
        split; [done|]. intros Hall. specialize (Hall p ltac:(by left)). congruence.
      + rewrite IH by set_solver. set_solver. }
  destruct (load_from_loop _ _ _ _) as [t' []]; cbn [snd].
  - destruct Hs as (pre & d & suf & t0 & HS & _). split; [done|]. intros [_ Hall].
    apply Hsp in Hall. rewrite Hall in HS. by destruct pre.
  - split; [done|]. intros [_ Hall]. apply Hsp in Hall. destruct Hs as [[]]; [done|tauto].
  - destruct Hs as (_ & Hs & _). rewrite <- Hsp. tauto.
Qed.

(** The file [oracle_.qm] puts the empty code in the list, which no load
    accepts: the list is wider than the languages that can be loaded. *)
Theorem empty_language_offered :
  let disk := [(qs "/opt/cockatrice", [qs "oracle_.qm"; qs "oracle_de.qm"])] in
  let _ := disk_platform disk in
  availableLanguages (qs "oracle") [qs "/opt/cockatrice"] = [[]; qs "de"] /\
  (loadApplication None (qs "oracle") [] [qs "/opt/cockatrice"]).2 = Missing.
Proof. split; vm_compute; reflexivity. Qed.

(** ** Witnesses *)

Definition sample_disk : list (text * list text) :=
  [(qs "/usr/share/translations", [qs "readme"; qs "oracle_tr.qm"]);
   (qs "/opt/cockatrice", [qs "oracle_de.qm"; qs "cockatrice_fr.qm"])].

Lemma disk_loads disk d hint :
  hint ++ qs ".qm" ∈ disk_files disk d -> @loads (disk_platform disk) hint d.
Proof. intros Hin t. simpl. by apply bool_decide_eq_true_2. Qed.

Lemma offered_language_loads_witness :
  availableLanguages (H := disk_platform sample_disk) (qs "oracle")
    [qs "/usr/share/translations"; qs "/opt/cockatrice"] = [qs "de"; qs "tr"] /\
  (loadApplication (H := disk_platform sample_disk) None (qs "oracle") (qs "tr")
     [qs "/usr/share/translations"; qs "/opt/cockatrice"]).2 = Loaded.
Proof.
  split; [vm_compute; reflexivity|].
  apply (@offered_language_loads (disk_platform sample_disk)).
  - intros d Hd _. repeat (apply elem_of_cons in Hd as [->|Hd]; [vm_compute; reflexivity|]).
    by apply not_elem_of_nil in Hd.
  - intros d hint _. apply disk_loads.
  - apply (proj1 (bool_decide_eq_true _)). vm_compute. reflexivity.
  - discriminate.
Defined.

Lemma languageDisplayName_spec_witness :
  languageDisplayName (H := disk_platform sample_disk) (qs "el") =
    hash_value displayNames (qs "el") /\
  hash_value displayNames (qs "el") = qs "Ελληνικά (Greek)".
Proof.
  assert (Hin : qs "el" ∈ map fst displayNames)
    by (apply (proj1 (bool_decide_eq_true _)); vm_compute; reflexivity).
  split; [|vm_compute; reflexivity].
  exact (proj2 (@languageDisplayName_spec (disk_platform sample_disk) (qs "el")) Hin).
Defined.
