(* ===== verification/AttemptLimiter.v ===== *)
(** * Throttling of abusive requests: [servatrice/src/ratelimiter.cpp]

    The sliding window of the server: at most so many attempts of a key within
    so many seconds. The clock is an argument, as in the operations whose names
    end in [At]; each operation holds the mutex throughout, so that the calls of
    all connections are one sequence. [Limiter] is what the callers rely on;
    the limiter of the source, with its pruned histories, and the reference
    [AttemptLog], which forgets nothing, are its two instances. *)
From stdpp Require Import sorting.
From S2P Require Import Prelude.
Open Scope cockatrice_scope.
Local Open Scope Z_scope.

(** ** State and operations *)

Record AttemptHistory : Type := {
  timestamps : list Z;
  windowSeconds : Z
}.

Record RateLimiterState : Type := {
  attempts : gmap text AttemptHistory;
  lastPruneSecs : Z
}.

Definition new_RateLimiter : RateLimiterState := {| attempts := ∅; lastPruneSecs := 0 |}.

Definition PruneIntervalSeconds : Z := 60.

(** [while (!timestamps.isEmpty() && timestamps.first() <= limit)
    timestamps.removeFirst()] *)
Fixpoint remove_expired (limit : Z) (ts : list Z) : list Z :=
  match ts with
  | [] => []
  | t :: rest => if t <=? limit then remove_expired limit rest else ts
  end.

(** One step of the loop of [pruneLocked]: [None] erases the key. *)
Definition prune_history (now : Z) (h : AttemptHistory) : option AttemptHistory :=
  match remove_expired (now - windowSeconds h) (timestamps h) with
  | [] => None
  | ts => Some {| timestamps := ts; windowSeconds := windowSeconds h |}
  end.

Definition pruneLocked (s : RateLimiterState) (now : Z) : RateLimiterState :=
  if now <? lastPruneSecs s + PruneIntervalSeconds then s
  else {| attempts := omap (prune_history now) (attempts s); lastPruneSecs := now |}.

(** [attempts[key]] adds an empty history under a key that has none. *)
Definition history_of (s : RateLimiterState) (key : text) : AttemptHistory :=
  default {| timestamps := []; windowSeconds := 0 |} (attempts s !! key).

Definition with_history (key : text) (h : AttemptHistory) (s : RateLimiterState) : RateLimiterState :=
  {| attempts := <[key := h]> (attempts s); lastPruneSecs := lastPruneSecs s |}.

Definition disabled (maxAttempts windowSeconds : Z) : bool :=
  (maxAttempts <=? 0) || (windowSeconds <=? 0).

Definition recordAttemptAt (s : RateLimiterState) (key : text) (maxAttempts windowSeconds now : Z)
    : RateLimiterState * bool :=
  if disabled maxAttempts windowSeconds then (s, false)
  else
    let s := pruneLocked s now in
    let ts := remove_expired (now - windowSeconds) (timestamps (history_of s key)) in
    if maxAttempts <=? Z.of_nat (length ts)
    then (with_history key {| timestamps := ts; windowSeconds := windowSeconds |} s, true)
    else (with_history key {| timestamps := ts ++ [now]; windowSeconds := windowSeconds |} s, false).

(** The loop counts the attempts within the window, wherever they stand. *)
Definition count_within (now windowSeconds : Z) (ts : list Z) : Z :=
  fold_left (fun count t => if now - windowSeconds <? t then count + 1 else count) ts 0.

Definition isBlockedAt (s : RateLimiterState) (key : text) (maxAttempts windowSeconds now : Z) : bool :=
  if disabled maxAttempts windowSeconds then false
  else
    match attempts s !! key with
    | None => false
    | Some h => maxAttempts <=? count_within now windowSeconds (timestamps h)
    end.

Definition clearAttempts (s : RateLimiterState) (key : text) : RateLimiterState :=
  {| attempts := delete key (attempts s); lastPruneSecs := lastPruneSecs s |}.

Definition retryAfterSecondsAt (s : RateLimiterState) (key : text) (maxAttempts windowSeconds now : Z) : Z :=
  if disabled maxAttempts windowSeconds then 0
  else
    match attempts s !! key with
    | None => 0
    | Some h =>
        let ts := remove_expired (now - windowSeconds) (timestamps h) in
        if Z.of_nat (length ts) <? maxAttempts then 0
        else
          match ts with
          | [] => 0
          | oldest :: _ =>
              let retryAt := oldest + windowSeconds in
              if retryAt <=? now then 0 else wrap_i32 (retryAt - now)
          end
    end.

(** ** The interface and the reference *)

Class Limiter (S : Type) : Type := {
  initial : S;
  record : S -> text -> Z -> Z -> Z -> S * bool;
  blocked : S -> text -> Z -> Z -> Z -> bool;
  clear : S -> text -> S;
  retry_after : S -> text -> Z -> Z -> Z -> Z
}.

#[export] Instance rate_limiter : Limiter RateLimiterState := {|
  initial := new_RateLimiter;
  record := recordAttemptAt;
  blocked := isBlockedAt;
  clear := clearAttempts;
  retry_after := retryAfterSecondsAt
|}.

(** The accepted attempts of every key since it was last cleared, oldest first. *)
Abbreviation AttemptLog := (gmap text (list Z)).

Definition log_of (g : AttemptLog) (key : text) : list Z := default [] (g !! key).

Definition within (now windowSeconds : Z) (ts : list Z) : list Z :=
  filter (fun t => now - windowSeconds < t) ts.

Definition full (g : AttemptLog) (key : text) (maxAttempts windowSeconds now : Z) : bool :=
  negb (disabled maxAttempts windowSeconds)
  && (maxAttempts <=? Z.of_nat (length (within now windowSeconds (log_of g key)))).

#[export] Instance attempt_log : Limiter AttemptLog := {|
  initial := ∅;
  record := fun g key m w now =>
    if disabled m w then (g, false)
    else if full g key m w now then (g, true)
    else (<[key := log_of g key ++ [now]]> g, false);
  blocked := full;
  clear := fun g key => delete key g;
  retry_after := fun g key m w now =>
    if full g key m w now
    then match within now w (log_of g key) with
         | [] => 0
         | oldest :: _ => oldest + w - now
         end
    else 0
|}.

(** ** Sequences of calls *)

Inductive call : Type :=
  | RecordAttempt (key : text) (maxAttempts : Z)
  | IsBlocked (key : text) (maxAttempts : Z)
  | ClearAttempts (key : text)
  | RetryAfter (key : text) (maxAttempts : Z).

Inductive answer : Type :=
  | Blocked (b : bool)
  | Seconds (n : Z)
  | Done.

(** The window of a call is the one its key has in the settings. *)
Definition perform {S} `{!Limiter S} (window : text -> Z) (s : S) (e : Z * call) : S * answer :=
  let '(now, c) := e in
  match c with
  | RecordAttempt k m => let '(s, b) := record s k m (window k) now in (s, Blocked b)
  | IsBlocked k m => (s, Blocked (blocked s k m (window k) now))
  | ClearAttempts k => (clear s k, Done)
  | RetryAfter k m => (s, Seconds (retry_after s k m (window k) now))
  end.

Fixpoint perform_all {S} `{!Limiter S} (window : text -> Z) (s : S) (es : list (Z * call))
    : S * list answer :=
  match es with
  | [] => (s, [])
  | e :: es =>
      let '(s, a) := perform window s e in
      let '(s, answers) := perform_all window s es in
      (s, a :: answers)
  end.

(** The clock does not run backwards. *)
Fixpoint clock_from {C} (t : Z) (es : list (Z * C)) : Prop :=
  match es with
  | [] => True
  | (now, _) :: es => t <= now /\ clock_from now es
  end.

(** The times of the attempts of a key that were let through. *)
Definition passed (key : text) (e : Z * call) (a : answer) : list Z :=
  match e, a with
  | (now, RecordAttempt k _), Blocked b => if bool_decide (k = key) && negb b then [now] else []
  | _, _ => []
  end.

Fixpoint let_through (key : text) (es : list (Z * call)) (answers : list answer) : list Z :=
  match es, answers with
  | e :: es, a :: answers => passed key e a ++ let_through key es answers
  | _, _ => []
  end.

(** The attempts of a window that ends at [t]. *)
Definition in_window (t windowSeconds : Z) (ts : list Z) : list Z :=
  filter (fun x => t - windowSeconds < x <= t) ts.

(** A call that neither clears the key nor asks for it with another limit. *)
Definition keeps_limit (key : text) (m : Z) (c : call) : Prop :=
  match c with
  | RecordAttempt k m' => k = key -> m' = m
  | ClearAttempts k => k <> key
  | IsBlocked _ _ | RetryAfter _ _ => True
  end.

Definition same_limit (key : text) (m : Z) (c : call) : Prop :=
  match c with
  | RecordAttempt k m' => k = key -> m' = m
  | _ => True
  end.

(** The time of the last of the calls. *)
Definition clock_after {C} (t : Z) (es : list (Z * C)) : Z :=
  fold_left (fun _ e => e.1) es t.

(** ** Histories *)

Lemma filter_all {A} (P : A -> Prop) `{!forall x, Decision (P x)} (l : list A) :
  Forall P l -> filter P l = l.
Proof.
  induction 1 as [|x l Hx _ IH]; [done|]. by rewrite filter_cons_True, IH by done.
Qed.

Lemma remove_expired_sorted limit ts :
  StronglySorted Z.le ts -> remove_expired limit ts = filter (fun t => limit < t) ts.
Proof.
  induction 1 as [|t ts _ IH Hall]; [done|]; cbn [remove_expired].
  destruct (Z.leb_spec t limit) as [Hle|Hlt].
  - by rewrite filter_cons_False by lia.
  - rewrite filter_cons_True by lia. f_equal. symmetry. apply filter_all.
    eapply Forall_impl; [exact Hall|]. cbn; lia.
Qed.

Lemma count_within_length now w ts :
  count_within now w ts = Z.of_nat (length (within now w ts)).
Proof.
  enough (forall acc, fold_left (fun count t => if now - w <? t then count + 1 else count) ts acc
    = acc + Z.of_nat (length (within now w ts))) as H by apply (H 0).
  unfold within. induction ts as [|t ts IH]; intros acc; cbn [fold_left]; [cbn; lia|].
  rewrite IH, filter_cons.
  destruct (Z.ltb_spec (now - w) t); case_decide; cbn [length]; lia.
Qed.

Lemma within_narrow now w b ts :
  b <= now - w -> within now w (filter (fun t => b < t) ts) = within now w ts.
Proof. intros Hb. apply list_filter_filter_l. intros; lia. Qed.

Lemma sorted_filter P `{!forall x, Decision (P x)} (ts : list Z) :
  StronglySorted Z.le ts -> StronglySorted Z.le (filter P ts).
Proof.
  induction 1 as [|x ts Hs IH Hx]; [constructor|]. rewrite filter_cons. case_decide; [|done].
  constructor; [done|].
  rewrite Forall_forall in *. by intros y [_ Hin]%list_elem_of_filter; apply Hx.
Qed.
#[local] Hint Resolve sorted_snoc sorted_filter : core.

Lemma clock_from_app {C} t (es es' : list (Z * C)) :
  clock_from t (es ++ es') -> clock_from t es /\ clock_from (clock_after t es) es'.
Proof.
  revert t. induction es as [|[now c] es IH]; intros t; [done|]. cbn.
  intros [Hle H%IH]. destruct H. auto.
Qed.

Lemma log_of_insert g key key' ts :
  log_of (<[key := ts]> g) key' = if bool_decide (key = key') then ts else log_of g key'.
Proof.
  unfold log_of. case_bool_decide; subst; [by rewrite lookup_insert_eq|].
  by rewrite lookup_insert_ne.
Qed.

Lemma log_of_delete g key key' :
  log_of (delete key g) key' = if bool_decide (key = key') then [] else log_of g key'.
Proof.
  unfold log_of. case_bool_decide; subst; [by rewrite lookup_delete_eq|].
  by rewrite lookup_delete_ne.
Qed.

Lemma history_of_with key key' h s :
  history_of (with_history key h s) key' = if bool_decide (key = key') then h else history_of s key'.
Proof.
  unfold history_of, with_history; cbn [attempts].
  case_bool_decide; subst; [by rewrite lookup_insert_eq|by rewrite lookup_insert_ne].
Qed.

(** ** The limiter stores a part of the log that is large enough *)

Section Simulation.
Context (window : text -> Z).

Record simulates (t : Z) (g : AttemptLog) (s : RateLimiterState) : Prop := {
  sim_sorted : forall k, StronglySorted Z.le (log_of g k);
  sim_past : forall k, Forall (fun x => x <= t) (log_of g k);
  sim_history : forall k, exists b, b <= t - window k /\
    timestamps (history_of s k) = filter (fun x => b < x) (log_of g k);
  sim_window : forall k h, attempts s !! k = Some h -> windowSeconds h = window k
}.

Lemma simulates_initial t : simulates t ∅ new_RateLimiter.
Proof.
  split; intros k; unfold log_of, history_of; rewrite ?lookup_empty; cbn.
  - constructor.
  - constructor.
  - exists (t - window k). split; [lia|done].
  - by intros h [=].
Qed.

Lemma simulates_later t t' g s : t <= t' -> simulates t g s -> simulates t' g s.
Proof.
  intros Ht [Hs Hp Hh Hw]. split; [done| |intros k|done].
  - intros k. eapply Forall_impl; [apply Hp|]. cbn; lia.
  - destruct (Hh k) as (b & Hb & E). exists b. split; [lia|done].
Qed.

Lemma simulates_live t g s k :
  simulates t g s -> within t (window k) (timestamps (history_of s k)) = within t (window k) (log_of g k).
Proof. intros [_ _ Hh _]. destruct (Hh k) as (b & Hb & ->). by apply within_narrow. Qed.

Lemma simulates_remove t g s k :
  simulates t g s ->
  remove_expired (t - window k) (timestamps (history_of s k)) = within t (window k) (log_of g k).
Proof.
  intros Hsim. rewrite <- (simulates_live t g s k Hsim). apply remove_expired_sorted.
  destruct Hsim as [Hs _ Hh _]. destruct (Hh k) as (b & _ & ->). auto.
Qed.

(** Pruning drops only what no later call looks at. *)
Lemma simulates_prune t g s : simulates t g s -> simulates t g (pruneLocked s t).
Proof.
  intros Hsim. unfold pruneLocked. destruct (_ <? _); [done|].
  assert (Hrem := fun k => simulates_remove t g s k Hsim).
  destruct Hsim as [Hs Hp Hh Hw]. split; [done|done| |].
  - intros k. specialize (Hrem k). specialize (Hw k). specialize (Hh k). revert Hrem Hw Hh.
    unfold history_of; cbn [attempts]. rewrite lookup_omap.
    destruct (attempts s !! k) as [h|]; cbn; [|done].
    intros Hrem Hw _. exists (t - window k). split; [lia|].
    unfold prune_history. rewrite (Hw h eq_refl), Hrem.
    unfold within. by destruct (filter _ _).
  - intros k h. cbn [attempts]. rewrite lookup_omap.
    destruct (attempts s !! k) as [h'|] eqn:E; cbn; [|done].
    unfold prune_history. destruct (remove_expired _ _); [done|].
    intros [= <-]. cbn. eauto.
Qed.

(** A history stored again keeps what the present window can see. *)
Lemma simulates_store t g g' s k :
  simulates t g s ->
  StronglySorted Z.le (log_of g' k) -> Forall (fun x => x <= t) (log_of g' k) ->
  (forall k', k <> k' -> log_of g' k' = log_of g k') ->
  simulates t g'
    (with_history k {| timestamps := within t (window k) (log_of g' k);
                       windowSeconds := window k |} s).
Proof.
  intros [Hs Hp Hh Hw] Hts Hpast Hsame. split; intros k'.
  - destruct (decide (k = k')) as [<-|Hne]; [done|by rewrite Hsame].
  - destruct (decide (k = k')) as [<-|Hne]; [done|by rewrite Hsame].
  - rewrite history_of_with. case_bool_decide; [|by rewrite Hsame; [apply Hh|]].
    subst k'. exists (t - window k). split; [lia|done].
  - intros h. unfold with_history; cbn [attempts]. destruct (decide (k = k')) as [<-|Hne].
    + by rewrite lookup_insert_eq; intros [= <-].
    + rewrite lookup_insert_ne by done. apply Hw.
Qed.

Lemma simulates_clear t g s k :
  simulates t g s -> simulates t (delete k g) (clearAttempts s k).
Proof.
  intros [Hs Hp Hh Hw]. split; intros k'.
  - rewrite log_of_delete. case_bool_decide; [constructor|done].
  - rewrite log_of_delete. case_bool_decide; [constructor|done].
  - rewrite log_of_delete. unfold history_of, clearAttempts; cbn [attempts]. case_bool_decide.
    + subst. rewrite lookup_delete_eq. exists (t - window k'). split; [lia|done].
    + rewrite lookup_delete_ne by done. apply Hh.
  - intros h. cbn [clearAttempts attempts].
    by intros [_ H]%lookup_delete_Some; apply Hw.
Qed.

Lemma simulates_blocked t g s k m :
  simulates t g s -> isBlockedAt s k m (window k) t = full g k m (window k) t.
Proof.
  intros Hsim. unfold isBlockedAt, full, disabled.
  destruct (Z.leb_spec m 0); [done|]; destruct (_ <=? 0); [done|]; cbn.
  rewrite <- (simulates_live t g s k Hsim). unfold history_of.
  destruct (attempts s !! k) as [h|]; cbn; [by rewrite count_within_length|].
  symmetry. apply Z.leb_gt. lia.
Qed.

Lemma simulates_retry t g s k m :
  i32_range (window k) -> simulates t g s ->
  retryAfterSecondsAt s k m (window k) t = retry_after g k m (window k) t.
Proof.
  intros Hint Hsim. unfold retryAfterSecondsAt. cbn [retry_after attempt_log]. unfold full.
  destruct (disabled m (window k)) eqn:Hd; [done|cbn [negb andb]].
  assert (Hrem := simulates_remove t g s k Hsim). unfold history_of in Hrem.
  assert (Hpast := sim_past _ _ _ Hsim k).
  unfold disabled in Hd. apply orb_false_iff in Hd as [Hm%Z.leb_gt Hw%Z.leb_gt].
  destruct (attempts s !! k) as [h|]; cbn in Hrem.
  - rewrite Hrem. rewrite Z.leb_antisym.
    destruct (_ <? m); [done|cbn [negb]].
    destruct (within t (window k) (log_of g k)) as [|o rest] eqn:E; [done|].
    assert (Ho : o ∈ within t (window k) (log_of g k)) by (rewrite E; left).
    apply list_elem_of_filter in Ho as [Ho Hin].
    rewrite Forall_forall in Hpast. specialize (Hpast o Hin). cbn in Hpast.
    replace (o + window k <=? t) with false by (symmetry; apply Z.leb_gt; lia).
    apply wrap_i32_small. mlia.
  - rewrite <- Hrem. cbn. by destruct m.
Qed.

Lemma simulates_record t g s k m :
  simulates t g s ->
  (recordAttemptAt s k m (window k) t).2 = (record g k m (window k) t).2 /\
  simulates t (record g k m (window k) t).1 (recordAttemptAt s k m (window k) t).1.
Proof.
  intros Hsim. cbn [record attempt_log]. unfold recordAttemptAt, full.
  destruct (disabled m (window k)) eqn:Hd; [by split|]. cbn [negb andb].
  apply simulates_prune in Hsim.
  rewrite (simulates_remove t g _ k Hsim).
  destruct (m <=? _); split; try done; cbn [fst].
  - apply simulates_store with g; try done; apply Hsim.
  - apply orb_false_iff in Hd as [_ Hw%Z.leb_gt].
    replace (within t (window k) (log_of g k) ++ [t])
      with (within t (window k) (log_of (<[k := log_of g k ++ [t]]> g) k)).
    2:{ rewrite log_of_insert, bool_decide_true by done. unfold within.
        by rewrite filter_app, (filter_all _ [t]) by (by rewrite Forall_singleton; lia). }
    apply simulates_store with g; try done.
    + rewrite log_of_insert, bool_decide_true by done. apply sorted_snoc; apply Hsim.
    + rewrite log_of_insert, bool_decide_true by done. apply Forall_app; split; [apply Hsim|].
      by apply Forall_singleton.
    + intros k' Hne. by rewrite log_of_insert, bool_decide_false.
Qed.

Lemma simulates_perform t now g s c :
  (forall k, i32_range (window k)) -> simulates t g s -> t <= now ->
  (perform window s (now, c)).2 = (perform window g (now, c)).2 /\
  simulates now (perform window g (now, c)).1 (perform window s (now, c)).1.
Proof.
  intros Hint Hsim Hle. apply (simulates_later t now) in Hsim; [|done].
  destruct c as [k m|k m|k|k m]; cbn [perform].
  - destruct (simulates_record now g s k m Hsim) as [Ha Hs].
    change (record s k m (window k) now) with (recordAttemptAt s k m (window k) now).
    destruct (record g k m _ now), (recordAttemptAt s k m _ now); cbn in *. by rewrite Ha.
  - split; [|done]. cbn. by rewrite (simulates_blocked now g).
  - split; [done|]. by apply simulates_clear.
  - split; [|done]. cbn [snd]. f_equal. by apply simulates_retry.
Qed.

Lemma simulates_perform_all es t g s :
  (forall k, i32_range (window k)) -> simulates t g s -> clock_from t es ->
  (perform_all window s es).2 = (perform_all window g es).2 /\
  simulates (clock_after t es) (perform_all window g es).1 (perform_all window s es).1.
Proof.
  intros Hint. revert t g s. induction es as [|[now c] es IH]; intros t g s Hsim Hclock; [done|].
  destruct Hclock as [Hle Hclock]. cbn [perform_all clock_after fold_left fst].
  destruct (simulates_perform t now g s c Hint Hsim Hle) as [Ha Hs].
  specialize (IH _ _ _ Hs Hclock). revert Ha IH.
  destruct (perform window s _) as [s1 a], (perform window g _) as [g1 a']; cbn [fst snd].
  intros <-. destruct (perform_all window s1 es), (perform_all window g1 es); cbn [fst snd].
  by intros [<- H].
Qed.
End Simulation.

(** ** The limit *)

Section Limit.
Context (window : text -> Z) (key : text) (m : Z).
Hypothesis (Hm : 0 <= m).

Definition limited (ts : list Z) : Prop :=
  forall t, Z.of_nat (length (in_window t (window key) ts)) <= m.

Lemma in_window_app t w ts ts' : in_window t w (ts ++ ts') = in_window t w ts ++ in_window t w ts'.
Proof. apply filter_app. Qed.

Lemma within_app t w ts ts' : within t w (ts ++ ts') = within t w ts ++ within t w ts'.
Proof. apply filter_app. Qed.

Lemma in_window_le_within t now ts :
  now <= t ->
  (length (in_window t (window key) ts) <= length (within now (window key) ts))%nat.
Proof.
  intros Hle. unfold in_window, within. induction ts as [|x ts IH]; [done|].
  rewrite !filter_cons. repeat case_decide; cbn [length]; lia.
Qed.

Lemma limited_nil : limited [].
Proof. intros t. cbn. lia. Qed.

(** One more attempt, let through when the present window was not full. *)
Lemma limited_snoc now ts :
  limited ts -> Z.of_nat (length (within now (window key) ts)) < m -> limited (ts ++ [now]).
Proof.
  intros Hl Hfree t. rewrite in_window_app, length_app. specialize (Hl t).
  unfold in_window at 2. rewrite filter_cons, filter_nil. case_decide as Ht; cbn [length]; [|lia].
  assert (Hw := in_window_le_within t now ts ltac:(lia)). lia.
Qed.

(** A call adds to the log exactly what it lets through, never to a full window. *)
Lemma log_step g now c :
  keeps_limit key m c -> 0 < window key -> 0 < m ->
  let '(g', a) := perform window g (now, c) in
  log_of g' key = log_of g key ++ passed key (now, c) a /\
  (passed key (now, c) a = [] \/
   passed key (now, c) a = [now] /\
   Z.of_nat (length (within now (window key) (log_of g key))) < m).
Proof.
  intros Hc Hw Hpos. destruct c as [k m'|k m'|k|k m']; cbn.
  - destruct (disabled m' (window k)) eqn:Hd.
    { unfold disabled in Hd. case_bool_decide as Hk; cbn; [|by rewrite app_nil_r; auto].
      subst. rewrite (Hc eq_refl) in Hd. apply orb_true_iff in Hd as [?%Z.leb_le|?%Z.leb_le]; lia. }
    unfold full. rewrite Hd; cbn [negb andb].
    destruct (Z.leb_spec m' (Z.of_nat (length (within now (window k) (log_of g k))))) as [Hf|Hf].
    { rewrite andb_false_r, app_nil_r. auto. }
    rewrite andb_true_r, log_of_insert. case_bool_decide as Hk; [|by rewrite app_nil_r; auto].
    subst. rewrite (Hc eq_refl) in Hf. auto.
  - rewrite app_nil_r. auto.
  - rewrite app_nil_r, log_of_delete, bool_decide_false by done. auto.
  - rewrite app_nil_r. auto.
Qed.

Lemma log_let_through es g base ts :
  Forall (fun e => keeps_limit key m e.2) es -> 0 < window key -> 0 < m ->
  log_of g key = base ++ ts -> limited ts ->
  limited (ts ++ let_through key es (perform_all window g es).2).
Proof.
  intros Hkeep Hw Hpos. revert g ts Hkeep.
  induction es as [|[now c] es IH]; intros g ts Hkeep Hlog Hl; [by cbn; rewrite app_nil_r|].
  apply Forall_cons in Hkeep as [Hc Hkeep].
  assert (Hstep := log_step g now c Hc Hw Hpos).
  cbn [perform_all]. destruct (perform window g (now, c)) as [g1 a].
  destruct Hstep as [Hlog1 Hp].
  specialize (IH g1 (ts ++ passed key (now, c) a) Hkeep). revert IH.
  destruct (perform_all window g1 es) as [g2 answers]. cbn [snd let_through].
  rewrite <- app_assoc. intros IH. apply IH; [by rewrite Hlog1, Hlog, app_assoc|].
  destruct Hp as [->|[-> Hfree]]; [by rewrite app_nil_r|].
  apply limited_snoc; [done|]. rewrite Hlog, within_app, length_app in Hfree. lia.
Qed.

Lemma same_limit_keeps c : same_limit key m c -> c = ClearAttempts key \/ keeps_limit key m c.
Proof. destruct c as [| |k|]; cbn; auto. destruct (decide (k = key)); subst; auto. Qed.

Lemma limited_step g now c :
  same_limit key m c -> 0 < window key -> 0 < m ->
  limited (log_of g key) -> limited (log_of (perform window g (now, c)).1 key).
Proof.
  intros Hc Hw Hpos Hl. apply same_limit_keeps in Hc as [->|Hc].
  - cbn. rewrite log_of_delete, bool_decide_true by done. apply limited_nil.
  - assert (Hstep := log_step g now c Hc Hw Hpos).
    destruct (perform window g (now, c)) as [g1 a]. cbn [fst].
    destruct Hstep as [-> [->|[-> Hfree]]].
    + by rewrite app_nil_r.
    + by apply limited_snoc.
Qed.

Lemma limited_run es g :
  0 < window key -> 0 < m -> Forall (fun e => same_limit key m e.2) es ->
  limited (log_of g key) -> limited (log_of (perform_all window g es).1 key).
Proof.
  intros Hw Hpos. revert g. induction es as [|[now c] es IH]; intros g Hsame Hl; [done|].
  apply Forall_cons in Hsame as [Hc Hsame].
  specialize (IH _ Hsame (limited_step g now c Hc Hw Hpos Hl)). revert IH.
  cbn [perform_all]. destruct (perform window g (now, c)) as [g1 a]. cbn [fst].
  by destruct (perform_all window g1 es).
Qed.

Lemma within_le_limit now ts :
  Forall (fun x => x <= now) ts -> limited ts ->
  Z.of_nat (length (within now (window key) ts)) <= m.
Proof.
  intros Hpast Hl. specialize (Hl now). etransitivity; [|exact Hl]. apply inj_le.
  clear Hl. unfold in_window, within. induction Hpast as [|x ts Hx _ IH]; [done|].
  rewrite !filter_cons. repeat case_decide; cbn [length]; lia.
Qed.

(** The attempts of the present window all leave it when the oldest does, at the latest. *)
Lemma full_until g now t :
  0 < m -> 0 < window key -> StronglySorted Z.le (log_of g key) ->
  Forall (fun x => x <= now) (log_of g key) -> limited (log_of g key) -> now <= t ->
  full g key m (window key) t = bool_decide (t < now + retry_after g key m (window key) now).
Proof.
  intros Hpos Hw Hs Hpast Hl Ht. cbn [retry_after attempt_log]. unfold full, disabled.
  replace (m <=? 0) with false by (symmetry; apply Z.leb_gt; lia).
  replace (window key <=? 0) with false by (symmetry; apply Z.leb_gt; lia). cbn [negb orb andb].
  assert (Hn := within_le_limit now (log_of g key) Hpast Hl).
  assert (Hlive := within_narrow t (window key) (now - window key) (log_of g key) ltac:(lia)).
  fold (within now (window key) (log_of g key)) in Hlive. rewrite <- Hlive.
  assert (Hsort := sorted_filter (fun x => now - window key < x) _ Hs).
  fold (within now (window key) (log_of g key)) in Hsort.
  destruct (within now (window key) (log_of g key)) as [|o rest].
  { cbn. destruct m; try lia. rewrite bool_decide_false by (destruct (_ <=? _); lia). done. }
  inversion_clear Hsort as [|? ? Hrest Ho].
  destruct (Z.leb_spec m (Z.of_nat (length (o :: rest)))) as [Hf|Hf].
  - replace (now + (o + window key - now)) with (o + window key) by lia. unfold within.
    destruct (Z.lt_ge_cases (t - window key) o) as [Hin|Hout].
    + rewrite (filter_all _ (o :: rest)).
      * rewrite bool_decide_true by lia. by apply Z.leb_le.
      * constructor; [done|]. eapply Forall_impl; [exact Ho|]. cbn; lia.
    + rewrite filter_cons_False by lia. rewrite bool_decide_false by lia.
      apply Z.leb_gt. assert (Hle := length_filter (fun x => t - window key < x) rest).
      cbn [length] in Hn. lia.
  - rewrite bool_decide_false by lia. apply Z.leb_gt.
    assert (Hle := length_filter (fun x => t - window key < x) (o :: rest)). unfold within. lia.
Qed.

Lemma retry_range g now :
  Forall (fun x => x <= now) (log_of g key) -> 0 < window key ->
  0 <= retry_after g key m (window key) now <= window key.
Proof.
  intros Hpast Hw. cbn [retry_after attempt_log]. destruct (full _ _ _ _ _); [|lia].
  destruct (within _ _ _) as [|o rest] eqn:E; [lia|].
  assert (Ho : o ∈ within now (window key) (log_of g key)) by (rewrite E; left).
  apply list_elem_of_filter in Ho as [Ho Hin].
  rewrite Forall_forall in Hpast. specialize (Hpast o Hin). cbn in Hpast. lia.
Qed.
(** The log grows by what is let through, as long as the key is not cleared. *)
Lemma log_grows es g :
  Forall (fun e => keeps_limit key m e.2) es -> 0 < window key -> 0 < m ->
  log_of (perform_all window g es).1 key =
  log_of g key ++ let_through key es (perform_all window g es).2.
Proof.
  intros Hkeep Hw Hpos. revert g Hkeep.
  induction es as [|[now c] es IH]; intros g Hkeep; [by cbn; rewrite app_nil_r|].
  apply Forall_cons in Hkeep as [Hc Hkeep].
  assert (Hstep := log_step g now c Hc Hw Hpos).
  cbn [perform_all]. destruct (perform window g (now, c)) as [g1 a].
  destruct Hstep as [Hlog _]. specialize (IH g1 Hkeep).
  destruct (perform_all window g1 es) as [g2 answers]. cbn [fst snd let_through] in *.
  by rewrite IH, Hlog, app_assoc.
Qed.

(** A longer log fills the window where a shorter one does. *)
Lemma full_more g g' ts t :
  log_of g' key = log_of g key ++ ts ->
  full g key m (window key) t = true -> full g' key m (window key) t = true.
Proof.
  intros E. unfold full. rewrite !andb_true_iff, E, within_app, length_app, !Z.leb_le.
  intros [Hd Hf]. split; [done|lia].
Qed.

(** While the window is full nothing is let through. *)
Lemma passes_late until es : forall g0 g ts now0,
  0 < window key -> 0 < m ->
  (forall t, now0 <= t -> t < until -> full g0 key m (window key) t = true) ->
  log_of g key = log_of g0 key ++ ts -> clock_from now0 es ->
  Forall (fun e => keeps_limit key m e.2) es ->
  Forall (fun x => until <= x) (let_through key es (perform_all window g es).2).
Proof.
  induction es as [|[now c] es IH]; intros g0 g ts now0 Hw Hpos Hfull E Hclock Hkeep; [constructor|].
  destruct Hclock as [Hle Hclock]. apply Forall_cons in Hkeep as [Hc Hkeep].
  assert (Hstep := log_step g now c Hc Hw Hpos).
  cbn [perform_all]. destruct (perform window g (now, c)) as [g1 a].
  destruct Hstep as [Hlog Hp].
  specialize (IH g0 g1 (ts ++ passed key (now, c) a) now Hw Hpos
    ltac:(intros; apply Hfull; lia) ltac:(by rewrite Hlog, E, app_assoc) Hclock Hkeep).
  destruct (perform_all window g1 es) as [g2 answers]. cbn [snd let_through] in *.
  apply Forall_app. split; [|done]. destruct Hp as [->|[-> Hfree]]; [constructor|].
  apply Forall_singleton. destruct (Z.lt_ge_cases now until) as [Hlt|]; [|done].
  apply (full_more g0 g ts now) in E; [|by apply Hfull]. unfold full in E.
  apply andb_true_iff in E as [_ E%Z.leb_le]. lia.
Qed.
End Limit.

(** ** Theorems *)

(** C22. The limiter, with its pruned histories, answers every sequence of calls as the limiter that
    keeps all accepted attempts for ever. *)
Theorem limiter_refines_log window es t :
  (forall k, i32_range (window k)) -> clock_from t es ->
  (perform_all window new_RateLimiter es).2 = (perform_all window (∅ : AttemptLog) es).2.
Proof.
  intros Hint Hclock. by apply (simulates_perform_all window es t); [|apply simulates_initial|].
Qed.

(** At most [m] attempts of a key pass within any window, whatever came before and however the
    calls for other keys are mixed in, as long as the key is not cleared. *)
Lemma at_most_max_attempts window key m es1 es2 t0 t :
  (forall k, i32_range (window k)) -> 0 < window key -> 0 < m ->
  clock_from t0 (es1 ++ es2) -> Forall (fun e => keeps_limit key m e.2) es2 ->
  let s := (perform_all window new_RateLimiter es1).1 in
  Z.of_nat (length (in_window t (window key)
    (let_through key es2 (perform_all window s es2).2))) <= m.
Proof.
  intros Hint Hw Hm Hclock Hkeep s; subst s. apply clock_from_app in Hclock as [Hc1 Hc2].
  destruct (simulates_perform_all window es1 t0 ∅ new_RateLimiter Hint) as [_ Hs];
    [apply simulates_initial|done|].
  destruct (simulates_perform_all window es2 _ _ _ Hint Hs Hc2) as [-> _].
  eapply (log_let_through window key m es2 _ _ []); try done.
  - by rewrite app_nil_r.
  - apply limited_nil. lia.
Qed.

(** The seconds to wait are exact: the key is blocked before and not from then on, they are
    within the window, and an attempt made then passes. *)
Lemma retry_after_unblocks window key m es t0 now :
  (forall k, i32_range (window k)) -> 0 < window key -> 0 < m ->
  clock_from t0 es -> clock_after t0 es <= now -> Forall (fun e => same_limit key m e.2) es ->
  let s := (perform_all window new_RateLimiter es).1 in
  let r := retryAfterSecondsAt s key m (window key) now in
  0 <= r <= window key /\
  (forall t, now <= t -> isBlockedAt s key m (window key) t = bool_decide (t < now + r)) /\
  (recordAttemptAt s key m (window key) (now + r)).2 = false.
Proof.
  intros Hint Hw Hm Hclock Hnow Hsame s r.
  destruct (simulates_perform_all window es t0 ∅ new_RateLimiter Hint) as [_ Hs];
    [apply simulates_initial|done|].
  apply (simulates_later window _ now) in Hs; [|done]. fold s in Hs.
  set (g := (perform_all window ∅ es).1) in *.
  assert (Hl : limited window key m (log_of g key)).
  { apply limited_run; try done; [lia|]. apply limited_nil. lia. }
  assert (Hr : r = retry_after g key m (window key) now) by (apply (simulates_retry window); auto).
  assert (Hrange := retry_range window key m g now (sim_past _ _ _ _ Hs key) Hw).
  rewrite <- Hr in Hrange.
  assert (Hfull : forall t, now <= t -> full g key m (window key) t = bool_decide (t < now + r)).
  { intros t Ht. rewrite Hr. apply full_until; try done; [lia|apply Hs|apply Hs]. }
  split; [done|]. split.
  - intros t Ht. rewrite <- Hfull by done.
    apply simulates_blocked. by apply (simulates_later window now).
  - assert (Hs' := simulates_later window now (now + r) g s ltac:(lia) Hs).
    destruct (simulates_record window (now + r) g s key m Hs') as [-> _]. cbn [record attempt_log].
    rewrite Hfull, bool_decide_false by lia. by destruct (disabled _ _).
Qed.

(** ** Concrete calls *)

Definition minute_window (key : text) : Z := 60.

(** Two attempts a minute: the third is refused, and the key is free when the
    first leaves the window. *)
Definition sample_calls : list (Z * call) :=
  [(1000, RecordAttempt (str "ip") 2); (1001, RecordAttempt (str "ip") 2);
   (1002, RetryAfter (str "ip") 2); (1002, RecordAttempt (str "ip") 2);
   (1059, IsBlocked (str "ip") 2); (1060, RecordAttempt (str "ip") 2)].

Example sample_answers :
  (perform_all minute_window new_RateLimiter sample_calls).2 =
  [Blocked false; Blocked false; Seconds 58; Blocked true; Blocked true; Blocked false].
Proof. vm_compute. reflexivity. Qed.

Lemma limiter_refines_log_witness :
  (perform_all minute_window new_RateLimiter sample_calls).2 =
  (perform_all minute_window (∅ : AttemptLog) sample_calls).2.
Proof.
  apply (limiter_refines_log minute_window sample_calls 1000).
  - intros k. unfold minute_window. mlia.
  - cbn. lia.
Defined.
