(* ===== verification/LoginThrottle.v ===== *)
(** * The limits of the game server: logins, registrations, lost passwords

    The calls [servatrice.cpp] makes to the limiter, with the keys it forms, and
    the handlers that make them: [cmdLogin] of [server_protocolhandler.cpp] up to
    the outcome of the authentication, and the part of the handlers of
    [serversocketinterface.cpp] that asks for the limits on registrations and
    lost passwords. A handler is a program of queries, to the limiter, the clock
    and the authentication. The mutex of the limiter is held for one query at a
    time and every query reads the clock anew, so the server executes one query
    of one connection after the other, at times of their own, in any order; the
    times are those of the order in which the queries take effect. The
    operations are written against the interface [Limiter]. Whether an address
    is exempt, the lower case of names and the outcome of the authentication are
    arguments. *)
From stdpp Require Import sorting.
From S2P Require Import Prelude AttemptLimiter.
Open Scope cockatrice_scope.
Local Open Scope Z_scope.

Inductive AuthenticationResult : Type :=
  | NotLoggedIn | PasswordRight | UnknownUser | WouldOverwriteOldSession | UserIsBanned
  | UsernameInvalid | RegistrationRequired | UserIsInactive | ClientIdRequired
  | PasswordChangeRequired.

#[export] Instance AuthenticationResult_eq_dec : EqDecision AuthenticationResult.
Proof. solve_decision. Defined.

(** [RespLoggedIn] and [RespGoOn] stand for the rest of a handler. *)
Inductive LoginResponse : Type :=
  | RespTooManyRequests | RespUserIsBanned | RespWrongPassword | RespWouldOverwriteOldSession
  | RespUsernameInvalid | RespRegistrationRequired | RespClientIdRequired
  | RespAccountNotActivated | RespPasswordChangeRequired | RespContextError
  | RespClientUpdateRequired
  | RespLoggedIn (authState : AuthenticationResult)
  | RespGoOn.

#[export] Instance LoginResponse_eq_dec : EqDecision LoginResponse.
Proof. solve_decision. Defined.

Definition MAX_NAME_LENGTH : Z := 255.

(** What the handler looks at of the command: the passwords it carries, whether the
    hashed one begins as the answer to a challenge, and whether a required feature is
    missing. *)
Record Command_Login : Type := {
  has_password : bool;
  password_length : Z;
  has_hashed_password : bool;
  hashed_password_length : Z;
  hashed_password_is_challenge : bool;
  required_features_missing : bool
}.

(** The settings of the section [security]. *)
Record SecuritySettings : Type := {
  maxLoginAttemptsPerIp : Z;
  loginAttemptWindowSeconds : Z;
  maxRegistrationsPerIp : Z;
  registrationWindowSeconds : Z;
  maxForgotPasswordRequestsPerIp : Z;
  forgotPasswordWindowSeconds : Z
}.

Definition default_settings : SecuritySettings := {|
  maxLoginAttemptsPerIp := 5;
  loginAttemptWindowSeconds := 900;
  maxRegistrationsPerIp := 2;
  registrationWindowSeconds := 3600;
  maxForgotPasswordRequestsPerIp := 3;
  forgotPasswordWindowSeconds := 3600
|}.

(** ** Handlers as programs *)

(** What the authentication reports: the result, and the rest of a ban in seconds. *)
Abbreviation Authentication := (AuthenticationResult * Z)%type.

Inductive program : Type :=
  | Respond (r : LoginResponse) (denied_end_time : option Z)
  | QRecord (key : text) (maxAttempts windowSeconds : Z) (go_on : bool -> program)
  | QBlocked (key : text) (maxAttempts windowSeconds : Z) (go_on : bool -> program)
  | QRetry (key : text) (maxAttempts windowSeconds : Z) (go_on : Z -> program)
  | QClear (key : text) (go_on : program)
  | QClock (go_on : Z -> program)
  | QAuthenticate (go_on : Authentication -> program).

(** One query, answered at a time. *)
Definition query {S} `{!Limiter S} (s : S) (now : Z) (auth : Authentication) (p : program) : S * program :=
  match p with
  | Respond _ _ => (s, p)
  | QRecord key m w k => let '(s, full) := record s key m w now in (s, k full)
  | QBlocked key m w k => (s, k (blocked s key m w now))
  | QRetry key m w k => (s, k (retry_after s key m w now))
  | QClear key k => (clear s key, k)
  | QClock k => (s, k now)
  | QAuthenticate k => (s, k auth)
  end.

Section Server.
Context (lower : text -> text) (exempt : text -> bool) (cfg : SecuritySettings).
Context (requiresChallengeResponseAuth : bool).

Definition loginLimitKey (ipAddress userName : text) : text :=
  (str "login:" ++ ipAddress ++ str ":" ++ lower userName)%list.

Definition registerLimitKey (ipAddress : text) : text := (str "register:" ++ ipAddress)%list.

Definition forgotLimitKey (ipAddress : text) : text := (str "forgot:" ++ ipAddress)%list.

Definition recordFailedLogin (ipAddress userName : text) (k : bool -> program) : program :=
  if exempt ipAddress then k false
  else QRecord (loginLimitKey ipAddress userName) (maxLoginAttemptsPerIp cfg)
         (loginAttemptWindowSeconds cfg) k.

Definition isLoginRateLimited (ipAddress userName : text) (k : bool -> program) : program :=
  if exempt ipAddress then k false
  else QBlocked (loginLimitKey ipAddress userName) (maxLoginAttemptsPerIp cfg)
         (loginAttemptWindowSeconds cfg) k.

Definition loginRateLimitRemainingSeconds (ipAddress userName : text) (k : Z -> program) : program :=
  QRetry (loginLimitKey ipAddress userName) (maxLoginAttemptsPerIp cfg)
    (loginAttemptWindowSeconds cfg) k.

Definition recordRegistrationAttempt (ipAddress : text) (k : bool -> program) : program :=
  if exempt ipAddress then k false
  else QRecord (registerLimitKey ipAddress) (maxRegistrationsPerIp cfg)
         (registrationWindowSeconds cfg) k.

Definition recordForgotPasswordAttempt (ipAddress : text) (k : bool -> program) : program :=
  if exempt ipAddress then k false
  else QRecord (forgotLimitKey ipAddress) (maxForgotPasswordRequestsPerIp cfg)
         (forgotPasswordWindowSeconds cfg) k.

Definition clearFailedLogins (ipAddress userName : text) (k : program) : program :=
  QClear (loginLimitKey ipAddress userName) k.

(** The answer to a refused request: with the end of the lockout when there are
    seconds left, counted from the time the clock has by then. *)
Definition denied_end_time (r : LoginResponse) (remaining : Z) : program :=
  if 0 <? remaining then QClock (fun now => Respond r (Some (now + remaining))) else Respond r None.

(** The same lines behind the throttle and behind a wrong password. *)
Definition login_refused (ipAddress userName : text) : program :=
  loginRateLimitRemainingSeconds ipAddress userName (denied_end_time RespTooManyRequests).

(** The throttle in front of the authentication. *)
Definition login_throttle (ipAddress userName : text) (go_on : program) : program :=
  isLoginRateLimited ipAddress userName (fun limited =>
    if limited then login_refused ipAddress userName else go_on).

(** The [switch] over the result of the authentication. *)
Definition login_result (ipAddress userName : text) (auth : Authentication) : program :=
  match auth.1 with
  | UserIsBanned =>
      if negb (auth.2 =? 0) then QClock (fun now => Respond RespUserIsBanned (Some (now + auth.2)))
      else Respond RespUserIsBanned None
  | NotLoggedIn =>
      recordFailedLogin ipAddress userName (fun full =>
        if full then login_refused ipAddress userName else Respond RespWrongPassword None)
  | WouldOverwriteOldSession => Respond RespWouldOverwriteOldSession None
  | UsernameInvalid =>
      recordFailedLogin ipAddress userName (fun _ => Respond RespUsernameInvalid None)
  | RegistrationRequired => Respond RespRegistrationRequired None
  | ClientIdRequired => Respond RespClientIdRequired None
  | UserIsInactive =>
      recordFailedLogin ipAddress userName (fun _ => Respond RespAccountNotActivated None)
  | PasswordChangeRequired => Respond RespPasswordChangeRequired None
  | PasswordRight | UnknownUser =>
      clearFailedLogins ipAddress userName (Respond (RespLoggedIn auth.1) None)
  end.

(** [cmdLogin]; [logged_in] is [userInfo != 0], [registered] the answer of
    [userExists]. *)
Definition cmdLogin (ipAddress userName : text) (cmd : Command_Login) (logged_in registered : bool)
    : program :=
  if has_password cmd && (MAX_NAME_LENGTH <? password_length cmd) then Respond RespWrongPassword None
  else if negb (has_password cmd) && (MAX_NAME_LENGTH <? hashed_password_length cmd)
  then Respond RespContextError None
  else if logged_in then Respond RespContextError None
  else if requiresChallengeResponseAuth && registered
          && (negb (has_hashed_password cmd) || negb (hashed_password_is_challenge cmd))
  then Respond RespClientUpdateRequired None
  else if required_features_missing cmd then Respond RespClientUpdateRequired None
  else login_throttle ipAddress userName (QAuthenticate (login_result ipAddress userName)).

(** The limit on registrations in [cmdRegisterAccount]. *)
Definition cmdRegisterAccount (ipAddress : text) : program :=
  recordRegistrationAttempt ipAddress (fun full =>
    if full then
      QRetry (registerLimitKey ipAddress) (maxRegistrationsPerIp cfg) (registrationWindowSeconds cfg)
        (denied_end_time RespTooManyRequests)
    else Respond RespGoOn None).

(** The limit in [cmdForgotPasswordRequest] and [cmdForgotPasswordChallenge]. *)
Definition cmdForgotPassword (ipAddress : text) : program :=
  recordForgotPasswordAttempt ipAddress (fun full =>
    if full then Respond RespTooManyRequests None else Respond RespGoOn None).

(** ** All connections *)

Inductive request : Type :=
  | Login (ipAddress userName : text) (cmd : Command_Login) (logged_in registered : bool)
  | Register (ipAddress : text)
  | ForgotPassword (ipAddress : text).

Definition handle (r : request) : program :=
  match r with
  | Login ip user cmd logged_in registered => cmdLogin ip user cmd logged_in registered
  | Register ip => cmdRegisterAccount ip
  | ForgotPassword ip => cmdForgotPassword ip
  end.

(** A request arrives at a connection, or a connection executes its next query. *)
Inductive event : Type :=
  | Arrives (connection : Z) (r : request)
  | Runs (connection : Z) (auth : Authentication).

Record output : Type := {
  told_at : Z;
  asked : request;
  told : LoginResponse;
  told_end : option Z
}.

Section Run.
Context {S : Type} `{!Limiter S}.

(** The limiter, and what the connections that handle a request have still to do. *)
Record server : Type := { limiter : S; sessions : gmap Z (request * program) }.

(** A connection handles one request at a time. *)
Definition serve (srv : server) (e : Z * event) : server * list output :=
  let '(now, e) := e in
  match e with
  | Arrives c r =>
      match sessions srv !! c with
      | Some _ => (srv, [])
      | None => ({| limiter := limiter srv; sessions := <[c := (r, handle r)]> (sessions srv) |}, [])
      end
  | Runs c auth =>
      match sessions srv !! c with
      | None => (srv, [])
      | Some (r, p) =>
          let '(s, p) := query (limiter srv) now auth p in
          match p with
          | Respond a until =>
              ({| limiter := s; sessions := delete c (sessions srv) |},
               [{| told_at := now; asked := r; told := a; told_end := until |}])
          | _ => ({| limiter := s; sessions := <[c := (r, p)]> (sessions srv) |}, [])
          end
      end
  end.

Fixpoint serve_all (srv : server) (es : list (Z * event)) : server * list output :=
  match es with
  | [] => (srv, [])
  | e :: es =>
      let '(srv, o) := serve srv e in
      let '(srv, os) := serve_all srv es in (srv, (o ++ os)%list)
  end.
End Run.

#[global] Arguments server S : clear implicits.

Definition new_server : server RateLimiterState := {| limiter := new_RateLimiter; sessions := ∅ |}.

(** ** Reading a run *)

(** The key a request is limited under. *)
Definition key_of (r : request) : text :=
  match r with
  | Login ip user _ _ _ => loginLimitKey ip user
  | Register ip => registerLimitKey ip
  | ForgotPassword ip => forgotLimitKey ip
  end.

(** The logins whose wrong password is not recorded: those from exempt addresses, and
    those with a password that is too long to be looked at. *)
Definition unrecorded (r : request) : bool :=
  match r with
  | Login ip _ cmd _ _ => exempt ip || (has_password cmd && (MAX_NAME_LENGTH <? password_length cmd))
  | _ => false
  end.

(** The times at which a recorded login under a key was told its password is wrong. *)
Definition wrong_passwords (key : text) (os : list output) : list Z :=
  o ← os;
  if bool_decide (key_of (asked o) = key /\ unrecorded (asked o) = false /\ told o = RespWrongPassword)
  then [told_at o] else [].

(** No login under the key succeeds. *)
Definition no_success (key : text) (os : list output) : Prop :=
  forall o res, o ∈ os -> key_of (asked o) = key -> told o <> RespLoggedIn res.

Definition setting_of (key : text) (login registration forgot : Z) : Z :=
  match key with
  | c :: _ => if c =? chr "l" then login else if c =? chr "r" then registration else forgot
  | [] => forgot
  end.

(** The limit and the window of a key, by its prefix. *)
Definition limit_of (key : text) : Z :=
  setting_of key (maxLoginAttemptsPerIp cfg) (maxRegistrationsPerIp cfg) (maxForgotPasswordRequestsPerIp cfg).
Definition window_of (key : text) : Z :=
  setting_of key (loginAttemptWindowSeconds cfg) (registrationWindowSeconds cfg)
    (forgotPasswordWindowSeconds cfg).

(** The call of the limiter that a query changes it by. *)
Definition call_of (p : program) : list call :=
  match p with
  | QRecord key m _ _ => [RecordAttempt key m]
  | QClear key _ => [ClearAttempts key]
  | _ => []
  end.

Definition calls {S} (srv : server S) (e : Z * event) : list (Z * call) :=
  match e.2 with
  | Arrives _ _ => []
  | Runs c _ => pair e.1 <$> match sessions srv !! c with Some (_, p) => call_of p | None => [] end
  end.

Fixpoint calls_of {S} `{!Limiter S} (srv : server S) (es : list (Z * event)) : list (Z * call) :=
  match es with
  | [] => []
  | e :: es => (calls srv e ++ calls_of (serve srv e).1 es)%list
  end.

(** The times of the attempts under a key that the limiter let through. *)
Definition attempts_through {S} `{!Limiter S} (key : text) (srv : server S) (es : list (Z * event))
    : list Z :=
  let_through key (calls_of srv es) (perform_all window_of (limiter srv) (calls_of srv es)).2.
End Server.

(** The settings are [int]s; the limit on logins is on. *)
Record settings_ok (cfg : SecuritySettings) : Prop := {
  login_window_int : i32_range (loginAttemptWindowSeconds cfg);
  registration_window_int : i32_range (registrationWindowSeconds cfg);
  forgot_window_int : i32_range (forgotPasswordWindowSeconds cfg);
  login_window_pos : 0 < loginAttemptWindowSeconds cfg;
  login_max_pos : 0 < maxLoginAttemptsPerIp cfg
}.

(** ** Keys *)

Section Keys.
Context (lower : text -> text).

(** The keys of the three limits have nothing in common. *)
Lemma register_key_not_login ip ip' user : registerLimitKey ip <> loginLimitKey lower ip' user.
Proof. discriminate. Qed.

Lemma forgot_key_not_login ip ip' user : forgotLimitKey ip <> loginLimitKey lower ip' user.
Proof. discriminate. Qed.

Lemma same_name_same_key ip user user' :
  lower user = lower user' -> loginLimitKey lower ip user = loginLimitKey lower ip user'.
Proof. unfold loginLimitKey. by intros ->. Qed.

(** A login key determines the address and the lowered name where the address has no colon. *)
Lemma loginLimitKey_inj ip ip' user user' :
  chr ":" ∉ ip -> chr ":" ∉ ip' ->
  loginLimitKey lower ip user = loginLimitKey lower ip' user' <-> ip = ip' /\ lower user = lower user'.
Proof.
  intros Hip Hip'. split.
  - intros E%(app_inv_head (str "login:")). by apply app_sep_inj in E.
  - intros [<- E]. by apply same_name_same_key.
Qed.

(** The addresses of the sixth version have colons: two pairs share one bucket. *)
Lemma login_key_collision :
  (forall s, Forall (fun c => c <> chr "B") s -> lower s = s) ->
  loginLimitKey lower (str "2001:db8::1") (str "2:bob") =
  loginLimitKey lower (str "2001:db8::1:2") (str "bob").
Proof.
  intros Hlow. unfold loginLimitKey. rewrite !Hlow; [reflexivity|..];
    cbn; rewrite !Forall_cons; repeat split; try discriminate; constructor.
Qed.
End Keys.

(** ** The runs as calls of the limiter *)

Section Requests.
Context (lower : text -> text) (exempt : text -> bool) (cfg : SecuritySettings).
Context (strict : bool).

#[local] Notation key_of := (key_of lower).
#[local] Notation limit_of := (limit_of cfg).
#[local] Notation window_of := (window_of cfg).
#[local] Notation serve := (serve lower exempt cfg strict).
#[local] Notation serve_all := (serve_all lower exempt cfg strict).
#[local] Notation calls_of := (calls_of lower exempt cfg strict).
#[local] Notation wrong_passwords := (wrong_passwords lower exempt).
#[local] Notation no_success := (no_success lower).

(** What the rest of a handler keeps to: it asks the limiter with its own key and the
    settings of that key, a recorded login tells a wrong password only when the attempt
    was let through, and a success clears the key. *)
Fixpoint follows (r : request) (p : program) : Prop :=
  match p with
  | Respond a _ => a = RespWrongPassword -> unrecorded exempt r = true
  | QRecord key m w k =>
      key = key_of r /\ m = limit_of key /\ w = window_of key /\ follows r (k true) /\
      (k false = Respond RespWrongPassword None \/ follows r (k false))
  | QBlocked _ _ _ k => follows r (k true) /\ follows r (k false)
  | QRetry _ _ _ k => forall n, follows r (k n)
  | QClear key k => key = key_of r /\ exists res, k = Respond (RespLoggedIn res) None
  | QClock k => forall now, follows r (k now)
  | QAuthenticate k => forall auth, follows r (k auth)
  end.

Lemma refused_follows r a n : a <> RespWrongPassword -> follows r (denied_end_time a n).
Proof. intros Ha. unfold denied_end_time. destruct (0 <? n); cbn; congruence. Qed.

Lemma login_result_follows ip user cmd logged_in registered auth :
  follows (Login ip user cmd logged_in registered) (login_result lower exempt cfg ip user auth).
Proof.
  destruct auth as [res ban]. unfold login_result. cbn [fst snd].
  assert (Hrec : forall k, follows (Login ip user cmd logged_in registered) (k true) ->
    (exempt ip = true -> follows (Login ip user cmd logged_in registered) (k false)) ->
    (k false = Respond RespWrongPassword None \/ follows (Login ip user cmd logged_in registered) (k false)) ->
    follows (Login ip user cmd logged_in registered) (recordFailedLogin lower exempt cfg ip user k)).
  { intros k Ht He Hf. unfold recordFailedLogin. destruct (exempt ip); [by apply He|]. by split_and!. }
  destruct res; try done.
  - apply Hrec; [intros n; by apply refused_follows| |by left]. intros He _. cbn. by rewrite He.
  - cbn. by split; [|eexists].
  - cbn. by split; [|eexists].
  - by destruct (negb _).
  - apply Hrec; [done|done|by right].
  - apply Hrec; [done|done|by right].
Qed.

Lemma handle_follows r : follows r (handle lower exempt cfg strict r).
Proof.
  destruct r as [ip user cmd logged_in registered|ip|ip]; cbn [handle].
  - unfold cmdLogin. destruct (has_password cmd && _) eqn:Hlong.
    { cbn. intros _. by rewrite Hlong, orb_true_r. }
    assert (Ha : follows (Login ip user cmd logged_in registered)
      (QAuthenticate (login_result lower exempt cfg ip user))) by (intros auth; apply login_result_follows).
    set (r := Login ip user cmd logged_in registered) in *.
    repeat (match goal with |- follows _ (if ?b then _ else _) => destruct b; [done|] end).
    unfold login_throttle, isLoginRateLimited. destruct (exempt ip); [done|].
    split; [|done]. intros n. by apply refused_follows.
  - unfold cmdRegisterAccount, recordRegistrationAttempt. destruct (exempt ip); [done|].
    split_and!; [done..| |by right]. intros n. by apply refused_follows.
  - unfold cmdForgotPassword, recordForgotPasswordAttempt. destruct (exempt ip); [done|].
    split_and!; [done..|by right].
Qed.

Context {S : Type} `{!Limiter S}.

Lemma perform_all_app w (s : S) es es' :
  perform_all w s (es ++ es') =
  let '(s1, a) := perform_all w s es in
  let '(s2, a') := perform_all w s1 es' in (s2, a ++ a')%list.
Proof.
  revert s. induction es as [|e es IH]; intros s; cbn.
  - by destruct (perform_all w s es').
  - destruct (perform w s e) as [s1 a]. rewrite IH.
    destruct (perform_all w s1 es) as [s2 b]. by destruct (perform_all w s2 es').
Qed.

Lemma let_through_app key es es' a a' :
  length es = length a ->
  let_through key (es ++ es') (a ++ a') = (let_through key es a ++ let_through key es' a')%list.
Proof.
  revert a. induction es as [|e es IH]; intros [|b a]; try done; cbn.
  intros [= E]. by rewrite IH, app_assoc.
Qed.

Lemma length_answers w (s : S) es : length (perform_all w s es).2 = length es.
Proof.
  revert s. induction es as [|e es IH]; intros s; [done|]. cbn.
  destruct (perform w s e) as [s1 a]. specialize (IH s1).
  destruct (perform_all w s1 es). cbn in *. lia.
Qed.

Definition sessions_follow (srv : server S) : Prop :=
  forall c r p, sessions srv !! c = Some (r, p) -> follows r p.

Lemma wrong_passwords_app key os os' :
  wrong_passwords key (os ++ os') = (wrong_passwords key os ++ wrong_passwords key os')%list.
Proof. apply bind_app. Qed.

Lemma wrong_passwords_one key now r a until :
  (a = RespWrongPassword -> unrecorded exempt r = true) ->
  wrong_passwords key [{| told_at := now; asked := r; told := a; told_end := until |}] = [].
Proof.
  intros Ha. cbn. rewrite bool_decide_false; [done|]. intros (_ & Hu & ->). by rewrite Ha in Hu.
Qed.

(** The end of a step: the rest of the handler is kept, or its answer is given. *)
Definition finish (srv : server S) (c : Z) (now : Z) (r : request) (s : S) (p : program)
    : server S * list output :=
  match p with
  | Respond a until =>
      ({| limiter := s; sessions := delete c (sessions srv) |},
       [{| told_at := now; asked := r; told := a; told_end := until |}])
  | _ => ({| limiter := s; sessions := <[c := (r, p)]> (sessions srv) |}, [])
  end.

Lemma serve_runs srv now c auth r p :
  sessions srv !! c = Some (r, p) ->
  serve srv (now, Runs c auth) =
  let '(s, p) := query (limiter srv) now auth p in finish srv c now r s p.
Proof. intros E. unfold serve. rewrite E. by destruct (query _ _ _ _) as [s []]. Qed.

Lemma finish_login_spec srv c now r s p : sessions_follow srv ->
  (follows r p \/ exists a until, p = Respond a until) ->
  limiter (finish srv c now r s p).1 = s /\ sessions_follow (finish srv c now r s p).1.
Proof.
  intros Hf Hp. assert (Hd : forall l q, (forall c' x, q !! c' = Some x -> sessions srv !! c' = Some x) ->
    sessions_follow {| limiter := l; sessions := q |}).
  { intros l q Hq c' r' p' E. apply (Hf c'). by apply Hq. }
  assert (Hi : follows r p -> sessions_follow {| limiter := s; sessions := <[c := (r, p)]> (sessions srv) |}).
  { intros Hr c' r' p' E. cbn [sessions] in E.
    apply lookup_insert_Some in E as [[<- [= <- <-]]|[_ E]]; [done|]. by apply (Hf c'). }
  destruct p; cbn [finish fst limiter]; (split; [done|]);
    try (apply Hi; destruct Hp as [Hp|(? & ? & [=])]; exact Hp).
  apply Hd. intros c' x E. by apply lookup_delete_Some in E as [_ E].
Qed.

Lemma finish_quiet key srv c now r s p : follows r p ->
  wrong_passwords key (finish srv c now r s p).2 = [].
Proof. intros Hp. destruct p; try done. by apply wrong_passwords_one. Qed.

(** What one event does to the limiter, and what its outputs say of that. *)
Record step_spec (key : text) (srv : server S) (e : Z * event) : Prop := {
  st_limiter : limiter (serve srv e).1 = (perform_all window_of (limiter srv) (calls srv e)).1;
  st_follow : sessions_follow (serve srv e).1;
  st_wrong : wrong_passwords key (serve srv e).2 `sublist_of`
    let_through key (calls srv e) (perform_all window_of (limiter srv) (calls srv e)).2;
  st_keeps : no_success key (serve srv e).2 ->
    Forall (fun x => keeps_limit key (limit_of key) x.2) (calls srv e);
  st_same : Forall (fun x => same_limit key (limit_of key) x.2) (calls srv e);
  st_times : Forall (fun x => x.1 = e.1) (calls srv e)
}.

(** An event that makes no call of the limiter that changes it. *)
Lemma silent_step key srv e :
  limiter (serve srv e).1 = limiter srv -> sessions_follow (serve srv e).1 ->
  wrong_passwords key (serve srv e).2 = [] -> calls srv e = [] -> step_spec key srv e.
Proof. intros H1 H2 H3 H4. constructor; rewrite ?H4; cbn; rewrite ?H3; done. Qed.

Lemma serve_step key srv e : sessions_follow srv -> step_spec key srv e.
Proof.
  intros Hf. destruct e as [now [c r|c auth]].
  { apply silent_step; try done; unfold serve; destruct (sessions srv !! c) eqn:E; try done.
    intros c' r' p' E'; cbn [fst sessions] in E';
      apply lookup_insert_Some in E' as [[<- [= <- <-]]|[_ E']]; [apply handle_follows|by apply (Hf c')]. }
  destruct (sessions srv !! c) as [[r p]|] eqn:E.
  2: { apply silent_step; try done; unfold serve, calls; cbn; by rewrite E. }
  assert (Hp := Hf c r p E). assert (Hs := serve_runs srv now c auth r p E).
  assert (Hc : calls srv (now, Runs c auth) = pair now <$> call_of p) by (unfold calls; cbn; by rewrite E).
  assert (Hquiet : forall p', query (limiter srv) now auth p = (limiter srv, p') -> call_of p = [] ->
    follows r p' -> step_spec key srv (now, Runs c auth)).
  { intros p' Eq Ec Hp'. rewrite Eq in Hs. apply silent_step; rewrite ?Hs, ?Hc, ?Ec; [..|done].
    - apply finish_login_spec; [done|by left].
    - apply finish_login_spec; [done|by left].
    - by apply finish_quiet. }
  destruct p as [a until|k m w go|k m w go|k m w go|k go|go|go]; cbn [follows] in Hp;
    try (eapply Hquiet; [reflexivity|done|]; destruct_and?; (done || by destruct (blocked _ _ _ _ _))).
  - destruct Hp as (-> & -> & -> & Ht & Hfalse). cbn [query call_of fmap list_fmap] in Hs, Hc.
    assert (Hpf : perform_all window_of (limiter srv) (calls srv (now, Runs c auth)) =
      let '(s, b) := record (limiter srv) (key_of r) (limit_of (key_of r)) (window_of (key_of r)) now in
      (s, [Blocked b])).
    { rewrite Hc. cbn. by destruct (record _ _ _ _ _). }
    constructor; rewrite ?Hs, ?Hpf, ?Hc;
      try (destruct (record _ _ _ _ _) as [s b]; cbn [fst snd] in *).
    + apply finish_login_spec; [done|]. destruct b; [by left|].
      destruct Hfalse as [->|]; [right; by eexists _, _|by left].
    + apply finish_login_spec; [done|]. destruct b; [by left|].
      destruct Hfalse as [->|]; [right; by eexists _, _|by left].
    + cbn [let_through passed app]. rewrite app_nil_r.
      destruct b; [by rewrite finish_quiet; [apply sublist_nil_l|]|].
      destruct Hfalse as [->|Hq]; [|by rewrite finish_quiet; [apply sublist_nil_l|]].
      cbn. rewrite andb_true_r, app_nil_r.
      case_bool_decide as Hw; [|apply sublist_nil_l]. destruct Hw as (-> & _ & _).
      by rewrite bool_decide_true.
    + intros _. apply Forall_singleton. by intros ->.
    + apply Forall_singleton. by intros ->.
    + by apply Forall_singleton.
  - destruct Hp as (-> & res & ->). cbn [query call_of fmap list_fmap finish] in Hs, Hc.
    constructor; rewrite ?Hs, ?Hc; cbn [fst snd].
    + done.
    + intros c' r' p' E'. cbn [sessions] in E'. apply lookup_delete_Some in E' as [_ E']. by apply (Hf c').
    + rewrite wrong_passwords_one by done. apply sublist_nil_l.
    + intros Hno. apply Forall_singleton. intros <-. eapply Hno; [by left|done|done].
    + by apply Forall_singleton.
    + by apply Forall_singleton.
Qed.

(** *** Runs *)

Lemma calls_of_cons srv e es : calls_of srv (e :: es) = (calls srv e ++ calls_of (serve srv e).1 es)%list.
Proof. done. Qed.

Lemma serve_all_cons srv e es :
  serve_all srv (e :: es) =
  ((serve_all (serve srv e).1 es).1, ((serve srv e).2 ++ (serve_all (serve srv e).1 es).2)%list).
Proof. cbn. destruct (serve srv e) as [srv' o]. cbn. by destruct (serve_all srv' es). Qed.

Lemma serve_all_app srv es es' :
  serve_all srv (es ++ es') =
  ((serve_all (serve_all srv es).1 es').1,
   ((serve_all srv es).2 ++ (serve_all (serve_all srv es).1 es').2)%list).
Proof.
  revert srv. induction es as [|e es IH]; intros srv; [cbn; by destruct (serve_all srv es')|].
  cbn [app]. rewrite !serve_all_cons, IH. cbn [fst snd]. by rewrite app_assoc.
Qed.

Lemma calls_of_app srv es es' :
  calls_of srv (es ++ es') = (calls_of srv es ++ calls_of (serve_all srv es).1 es')%list.
Proof.
  revert srv. induction es as [|e es IH]; intros srv; [done|].
  cbn [app]. rewrite !calls_of_cons, IH, serve_all_cons. by rewrite app_assoc.
Qed.

Record run_spec (key : text) (srv : server S) (es : list (Z * event)) : Prop := {
  rn_limiter : limiter (serve_all srv es).1 = (perform_all window_of (limiter srv) (calls_of srv es)).1;
  rn_follow : sessions_follow (serve_all srv es).1;
  rn_wrong : wrong_passwords key (serve_all srv es).2 `sublist_of`
    attempts_through lower exempt cfg strict key srv es;
  rn_keeps : no_success key (serve_all srv es).2 ->
    Forall (fun x => keeps_limit key (limit_of key) x.2) (calls_of srv es);
  rn_same : Forall (fun x => same_limit key (limit_of key) x.2) (calls_of srv es);
  rn_clock t : clock_from t es ->
    clock_from t (calls_of srv es) /\ clock_after t (calls_of srv es) <= clock_after t es
}.

Lemma clock_from_earlier {C} t t' (es : list (Z * C)) : t <= t' -> clock_from t' es -> clock_from t es.
Proof. destruct es as [|[]]; cbn; [done|]. intros ? []. split; [lia|done]. Qed.

Lemma clock_app {C} now t (cs cs' : list (Z * C)) :
  t <= now -> Forall (fun x => x.1 = now) cs -> clock_from now cs' ->
  clock_from t (cs ++ cs') /\ clock_after t (cs ++ cs') <= clock_after now cs'.
Proof.
  intros Hle Hcs Hc. revert t Hle. induction Hcs as [|[n c] cs Hn _ IH]; intros t Hle.
  - split; [by eapply clock_from_earlier|]. destruct cs' as [|[]]; cbn; lia.
  - cbn in Hn. subst n. destruct (IH now ltac:(lia)) as [H1 H2]. by repeat split.
Qed.

Lemma serve_all_step key srv es : sessions_follow srv -> run_spec key srv es.
Proof.
  revert srv. induction es as [|[now e] es IH]; intros srv Hf.
  { constructor; done. }
  destruct (serve_step key srv (now, e) Hf) as [S1 S2 S3 S4 S5 S6].
  destruct (IH (serve srv (now, e)).1 S2) as [R1 R2 R3 R4 R5 R6].
  assert (Hp := perform_all_app window_of (limiter srv) (calls srv (now, e))
                  (calls_of (serve srv (now, e)).1 es)).
  assert (Hlen := length_answers window_of (limiter srv) (calls srv (now, e))).
  rewrite <- calls_of_cons in Hp. unfold attempts_through in R3. rewrite S1 in R1, R3.
  destruct (perform_all window_of (limiter srv) (calls srv (now, e))) as [s1 a]. cbn [fst snd] in *.
  destruct (perform_all window_of s1 (calls_of (serve srv (now, e)).1 es)) as [s2 b] eqn:E2. cbn [fst snd] in *.
  constructor; rewrite ?serve_all_cons; cbn [fst snd].
  - by rewrite Hp, R1.
  - done.
  - unfold attempts_through. rewrite Hp, wrong_passwords_app. cbn [snd].
    rewrite calls_of_cons, let_through_app by done. by apply sublist_app.
  - intros Hno. rewrite calls_of_cons. apply Forall_app. split; [apply S4|apply R4];
      intros o res Ho; apply Hno; apply elem_of_app; auto.
  - rewrite calls_of_cons. by apply Forall_app.
  - intros t [Hle Hc]. rewrite calls_of_cons. destruct (R6 now Hc) as [H1 H2].
    destruct (clock_app now t (calls srv (now, e)) (calls_of (serve srv (now, e)).1 es) Hle S6 H1) as [H3 H4].
    split; [done|]. cbn [clock_after fold_left fst]. etransitivity; [exact H4|exact H2].
Qed.

Lemma window_int : settings_ok cfg -> forall key, i32_range (window_of key).
Proof. intros [Hl Hr Hf _ _] [|c key]; cbn; [done|]. by repeat case_match. Qed.
End Requests.

Lemma in_window_sublist t w ts ts' :
  ts `sublist_of` ts' -> (length (in_window t w ts) <= length (in_window t w ts'))%nat.
Proof.
  unfold in_window. induction 1 as [|x ts ts' _ IH|x ts ts' _ IH]; [done|..];
    rewrite !filter_cons; repeat case_decide; cbn [length]; lia.
Qed.

(** ** Theorems *)

Section Theorems.
Context (lower : text -> text) (exempt : text -> bool) (cfg : SecuritySettings) (strict : bool).
#[local] Notation serve := (serve lower exempt cfg strict).
#[local] Notation serve_all := (serve_all lower exempt cfg strict).

Lemma new_server_follows : sessions_follow lower exempt cfg new_server.
Proof. intros c r p E. cbn [sessions new_server] in E. by rewrite lookup_empty in E. Qed.


(** A connection keeps what it has to do until it is its turn. *)
Lemma others_run {S} `{!Limiter S} c x es : forall srv : server S,
  sessions srv !! c = Some x -> Forall (fun e => forall a, e.2 <> Runs c a) es ->
  sessions (serve_all srv es).1 !! c = Some x.
Proof.
  induction es as [|[now e] es IH]; intros srv Hx Hes; [done|].
  apply Forall_cons in Hes as [He Hes]. rewrite serve_all_cons. cbn [fst]. apply IH; [|done].
  destruct e as [c' r|c' a]; unfold serve.
  - destruct (sessions srv !! c') eqn:E; [done|]. cbn. rewrite lookup_insert_ne; [done|congruence].
  - destruct (sessions srv !! c') as [[r p]|] eqn:E; [|done].
    assert (c' <> c) by (intros ->; by apply (He a)).
    destruct (query _ _ _ p) as [s []]; cbn; rewrite ?lookup_insert_ne, ?lookup_delete_ne; done.
Qed.

(** The limiter from a time on: what is let through later, and until when it is full. *)
Lemma limited_from key es t0 now (srv := (serve_all new_server es).1) :
  settings_ok cfg -> 0 < limit_of cfg key -> 0 < window_of cfg key ->
  clock_from t0 es -> clock_after t0 es <= now ->
  let n := retry_after (limiter srv) key (limit_of cfg key) (window_of cfg key) now in
  0 <= n <= window_of cfg key /\
  forall srv' es' t, limiter srv' = limiter srv -> sessions_follow lower exempt cfg srv' ->
    clock_from now es' -> clock_after now es' <= t ->
    no_success lower key (serve_all srv' es').2 ->
    let limited := blocked (limiter (serve_all srv' es').1) key (limit_of cfg key) (window_of cfg key) t in
    Forall (fun x => now + n <= x) (attempts_through lower exempt cfg strict key srv' es') /\
    (t < now + n -> limited = true) /\
    (attempts_through lower exempt cfg strict key srv' es' = [] -> limited = bool_decide (t < now + n)).
Proof.
  intros Hcfg Hm Hw Hclock Hnow n. assert (Hint := window_int cfg Hcfg).
  destruct (serve_all_step lower exempt cfg strict key new_server es new_server_follows)
    as [R1 R2 _ _ R5 R6]. fold srv in R1, R2. destruct (R6 t0 Hclock) as [Hc Ha].
  set (cs := calls_of lower exempt cfg strict new_server es) in *.
  set (g := (perform_all (window_of cfg) ∅ cs).1).
  destruct (simulates_perform_all (window_of cfg) cs t0 ∅ new_RateLimiter Hint) as [_ Hs];
    [apply simulates_initial|done|]. fold g in Hs.
  change new_RateLimiter with (limiter new_server) in Hs. rewrite <- R1 in Hs.
  apply (simulates_later _ _ now) in Hs; [|lia].
  assert (Hl : limited (window_of cfg) key (limit_of cfg key) (log_of g key)).
  { apply limited_run; try done; [lia|]. apply limited_nil. lia. }
  assert (Hn : n = retry_after g key (limit_of cfg key) (window_of cfg key) now).
  { symmetry. symmetry. by apply (simulates_retry (window_of cfg)). }
  assert (Hrange := retry_range (window_of cfg) key (limit_of cfg key) g now (sim_past _ _ _ _ Hs key) Hw).
  rewrite <- Hn in Hrange.
  assert (Hfull : forall t, now <= t ->
    full g key (limit_of cfg key) (window_of cfg key) t = bool_decide (t < now + n)).
  { intros t Ht. rewrite Hn. apply full_until; try done; [lia|apply Hs|apply Hs]. }
  split; [done|]. intros srv' es' t Elim Hf Hc' Ht Hno.
  destruct (serve_all_step lower exempt cfg strict key srv' es' Hf) as [Q1 _ _ Q4 _ Q6].
  specialize (Q4 Hno). destruct (Q6 now Hc') as [Hcc Hca]. unfold attempts_through in *.
  set (cs' := calls_of lower exempt cfg strict srv' es') in *. rewrite Elim in *.
  destruct (simulates_perform_all (window_of cfg) cs' now g (limiter srv) Hint Hs Hcc) as [-> Hs'].
  assert (Hgrow := log_grows (window_of cfg) key (limit_of cfg key) cs' g Q4 Hw Hm).
  assert (Hlim : blocked (limiter (serve_all srv' es').1) key (limit_of cfg key) (window_of cfg key) t =
    full (perform_all (window_of cfg) g cs').1 key (limit_of cfg key) (window_of cfg key) t).
  { rewrite Q1. apply simulates_blocked. eapply simulates_later; [|exact Hs']. lia. }
  assert (Hle : now <= t).
  { etransitivity; [|exact Ht]. clear -Hc'. destruct es' as [|[]]; [cbn; lia|].
    revert now Hc'. cbn. intros now [Hle Hc]. etransitivity; [exact Hle|]. clear Hle.
    revert z Hc. induction es' as [|[z' e'] es' IH]; intros z Hc; cbn in *; [lia|].
    destruct Hc as [Hle Hc]. etransitivity; [exact Hle|by apply IH]. }
  split_and!.
  - apply (passes_late (window_of cfg) key (limit_of cfg key) (now + n) cs' g g [] now Hw Hm);
      [|by rewrite app_nil_r|done|done].
    intros u Hu1 Hu2. rewrite Hfull by done. by apply bool_decide_true.
  - intros Hlt. rewrite Hlim. eapply full_more; [exact Hgrow|].
    rewrite Hfull by done. by apply bool_decide_true.
  - intros Hnil. rewrite Hlim, <- Hfull by done. rewrite Hnil, app_nil_r in Hgrow.
    unfold full. by rewrite Hgrow.
Qed.

End Theorems.

(** ** A guesser and a user behind one address *)

Definition no_exemption (ipAddress : text) : bool := bool_decide (ipAddress = str "127.0.0.1").

Definition plain_password (len : Z) : Command_Login :=
  {| has_password := true; password_length := len; has_hashed_password := false;
     hashed_password_length := 0; hashed_password_is_challenge := false;
     required_features_missing := false |}.

Definition sample_login (user : String.string) (len : Z) : request :=
  Login (str "10.0.0.1") (str user) (plain_password len) false true.

(** A connection asks for a login and executes so many queries of it. *)
Definition sample_attempt (now c : Z) (user : String.string) (res : AuthenticationResult) (queries : nat)
    : list (Z * event) :=
  (now, Arrives c (sample_login user 8)) :: replicate queries (now, Runs c (res, 0)).

(** Six guesses pass the throttle of one name before the first is recorded; five are told
    that the password is wrong, the sixth is refused behind its wrong password, a seventh
    by the throttle, another name logs in, and a password that is too long is refused
    without being counted. *)
Definition sample_guesses : list (Z * event) :=
  concat (map (fun c => sample_attempt 1000 c "bob" NotLoggedIn 2) [1; 2; 3; 4; 5; 6])
  ++ map (fun c => (1000, Runs c (NotLoggedIn, 0))) [1; 2; 3; 4; 5]
  ++ [(1001, Runs 6 (NotLoggedIn, 0))].

Definition sample_rest : list (Z * event) :=
  [(1002, Runs 6 (NotLoggedIn, 0)); (1003, Runs 6 (NotLoggedIn, 0))]
  ++ sample_attempt 1003 7 "bob" NotLoggedIn 1
  ++ sample_attempt 1003 8 "eve" PasswordRight 3
  ++ [(1900, Runs 7 (NotLoggedIn, 0)); (1900, Arrives 9 (sample_login "bob" 256));
      (1900, Runs 9 (NotLoggedIn, 0))].

Example sample_outputs :
  map (fun o => (told_at o, told o, told_end o))
    (serve_all id no_exemption default_settings false new_server (sample_guesses ++ sample_rest)).2 =
  [(1000, RespWrongPassword, None); (1000, RespWrongPassword, None); (1000, RespWrongPassword, None);
   (1000, RespWrongPassword, None); (1000, RespWrongPassword, None);
   (1003, RespTooManyRequests, Some 1901); (1003, RespLoggedIn PasswordRight, None);
   (1900, RespTooManyRequests, None); (1900, RespWrongPassword, None)].
Proof. vm_compute. reflexivity. Qed.

Lemma default_settings_ok : settings_ok default_settings.
Proof. split; cbn; mlia. Qed.

Lemma sample_no_success :
  no_success id (loginLimitKey id (str "10.0.0.1") (str "bob"))
    (serve_all id no_exemption default_settings false new_server sample_guesses).2.
Proof.
  intros o res Ho _. apply list_elem_of_In in Ho. revert o res Ho. vm_compute.
  intros o res Ho. repeat destruct Ho as [<-|Ho]; try discriminate. destruct Ho.
Qed.


